(* ===== verification/_CoqProject ===== *)
-Q . S2P
Prelude.v
GoStrings.v
Float64.v
Paths.v
Errors.v
Metrics.v
State.v
Times.v
Fixtures.v
Tables.v
Encoding.v
Sha256.v
Effects.v
Steps.v
Schedules.v
AccountStore.v
ComponentStore.v
SessionStore.v
OperatorStore.v
AuditStore.v
StoreInvariant.v
StoreMethods.v
Opening.v
OpeningSpec.v
ComponentCache.v
CacheLaw.v
CacheProtocol.v
Slices.v
CacheHeap.v
Http.v
ForwardAuth.v
ForwardAuthSpec.v
StoreSpec.v
OperatorSpec.v
RequestMeta.v
Url.v
OAuthState.v
RateLimiter.v
AdminGuards.v
GuardsSpec.v
UrlSpec.v
Pagination.v
Durations.v
TimesSpec.v
Json.v
JsonSpec.v
JsonDecode.v
Responses.v
BodyTypes.v
KeysHandler.v
AccountsHandler.v
OperatorsHandler.v
ComponentsHandler.v
AdminUI.v
AuthHandler.v
AuthSpec.v
Providers.v
ProvidersSpec.v
ProviderJson.v
Server.v
Background.v
Requests.v
Startup.v
ServerSpec.v
Logging.v
RequestsSpec.v
ServiceInvariant.v
Interleaving.v
Stays.v
SignInSpec.v
CacheService.v
ResponsesSpec.v
StartupSpec.v
HandlerSpec.v
IssueSpec.v
Observations.v
ConcurrencySpec.v
WriteThenRead.v
MetricsSpec.v
ComponentsSpec.v
