(* ===== verification/Prelude.v ===== *)
(** * packyard-auth: a verification library

    packyard-auth is the Go service under src/auth that stands before a package
    registry.  Traefik asks it on GET /auth whether a subscriber's request may
    pass (forward-auth); operators use its admin API under /api/v1 to manage
    accounts, subscription keys, components and operators, after signing in
    through an OAuth provider.  All data is in one SQLite database; public
    components are also cached in memory.  Paths below are relative to
    src/auth/internal unless they begin with cmd/.

    ** How the code is modelled

    A handler is a function [Request -> Eff Response].  [Eff A] is a state
    transformer over [World] (State.v): the database, the component cache, the
    OAuth state store, the limiter's buckets, the metrics' counters, and three
    streams, the clock readings, the faults of the SQL driver and the random bytes, of which each
    use takes the next element.  A theorem that quantifies over the world thus
    covers every clock, every pattern of driver failures and all entropy.
    [no_faults] says that the driver fails nothing; it is a hypothesis only
    where a theorem promises that something is written or answered.  A history
    of the service is a list of events (Background.v): requests, each with the
    text or the decoding of its body, and passes of the two reapers.

    A SQL statement is a function on the tables that answers with rows, with
    a constraint violation, or with a new database; a transaction restores the
    database on an error.  Go errors are values ([goerr]), [errors.Is] is
    [errors_is].

    An [Eff] runs in one go.  Steps.v says what it is as a sequence of steps
    that exclude each other: statements and transactions on the one database
    connection, critical sections, readings of the clock, calls of the
    singleflight group; Interleaving.v derives these sequences from the
    handlers as they are defined, and the service is any number of them
    interleaved (Schedules.v).  A request that joins the look-up of another
    waits for it.  CacheProtocol.v has the cache and the group alone as a step
    relation, and CacheHeap.v the same with the slices that components are made
    of on a heap.

    ** Files

    - Prelude, GoStrings, Paths, Encoding, Tables, Fixtures: shared notations,
      tactics and lists/maps lemmas; the packages strings, strconv, utf8, path,
      url and base64 as far as used; ordering and paging of SQL; a small
      installation for concrete runs.
    - Errors, Metrics, State, Effects: store/errors.go, metrics/metrics.go, the
      schema of store/sqlite.go and the records of store/store.go; the effects and their rules ([moves]:
      a computation relates the databases before and after; [live]: it
      consumes faults in order).
    - AccountStore, ComponentStore, SessionStore, OperatorStore, AuditStore:
      the files of store/, a definition for each method and one for each of
      its SQL statements.
    - StoreInvariant, StoreMethods, StoreSpec, OperatorSpec: the database
      invariant [db_ok], the history relation and [has_admin]; the store's
      interface as a type of calls ([store_call], [run_call]); what the
      transactions do on every branch.
    - ComponentCache, CacheProtocol: store/cached_components.go, alone and
      under interleavings; Slices, CacheHeap: the same on a heap.
    - Http, ForwardAuth, ForwardAuthSpec: auth/operator.go, the HTTP data, and
      handler/forward_auth.go with an abstract decision it refines.
    - RequestMeta, OAuthState, RateLimiter, Url, AdminGuards, GuardsSpec, UrlSpec:
      logsafe/, audit/log.go, auth/state.go, middleware/ratelimit.go,
      session.go, role.go, csrf.go, with url.Parse of net/url, and what the
      origin check means for the text of the header.  The limiter computes in binary64, as the code does ([SpecFloat]).
    - Pagination, KeysHandler, AccountsHandler, OperatorsHandler,
      ComponentsHandler, HandlerSpec, IssueSpec, ComponentsSpec: handler/, one
      definition for each handler.
    - AuthHandler, AuthSpec, Providers, ProvidersSpec: handler/auth.go,
      auth/oauth.go, auth/github, auth/microsoft.
    - AdminUI, Server, ServerSpec, Logging, Background: middleware/csp.go,
      adminui/, the route table of cmd/server/main.go, middleware/logging.go,
      and the reaper loops of auth/state.go and middleware/ratelimit.go.
    - ServiceInvariant, CacheService, Stays, SignInSpec, ResponsesSpec,
      MetricsSpec: the properties of any request, and any history, through
      that table.
    - Steps, Schedules, CacheLaw, Interleaving, Observations,
      ConcurrencySpec, WriteThenRead: requests that run at the same time; that
      none waits for ever; the law that every step keeps towards the cache and
      what follows for its entries in any run; what a request among others has
      seen; and reads after a write that has answered.
    - Float64, Durations, Startup, StartupSpec: binary64, time.ParseDuration and
      cmd/server/config.go, and main up to the listener.
    - Opening, OpeningSpec: store/sqlite.go from the file to a migrated store.
    - Times, TimesSpec, Sha256: the RFC 3339 texts of columns, bodies and
      queries over the Gregorian calendar; SHA-256 and the PKCE challenge.
    - Json, JsonSpec, JsonDecode, Requests, RequestsSpec, ProviderJson: the
      scanner and the decoder of encoding/json, with the request types of
      handler/ and the answers auth/github and auth/microsoft read.
    - Responses, BodyTypes: the JSON of every response body by its struct
      tags, and the types that admin-ui/src/api declares of them.

    ** What the theorems show

    - Access to packages: an answer that lets a subscriber through implies a
      public component, or an active key for that very component under an
      active account; the handler refines an abstract decision on every
      branch, which differs from the documented one on the requests that an
      expired key lets in, and on no others; revoking is final.
    - Integrity: the schema's constraints, what rows promise each other, an
      active admin, and the history (keys stay revoked, audit rows stay)
      survive every store call, and so every history of the service, from
      any file that an older version left: opening recovers from an upgrade
      interrupted anywhere.
    - The cache: coherent after every history, hence not observable while the
      driver answers, and right when it does not; it shares no memory with its
      callers.
    - Bodies: a malformed one changes nothing; what a client encodes arrives;
      every answer of the API has its declared type.
    - Progress: a sign-in under way completes through any other traffic.
    - Times: the texts of columns sort as the instants do, and are read back
      exactly for the years 0 to 9999.
    - Authority: business data changes only at the request of an operator with
      a session in force, from the admin origin, who may write; each such
      change but those of components leaves an audit row; a demotion ends the
      operator's sessions, or, if the driver fails at that, leaves none that
      may write; a session is the end of a complete OAuth flow in
      which the provider vouched for the organisation and the address.
    - Concurrency: integrity, history and the active admin under any
      interleaving; forward-auth among other requests still rests on a key and
      an account, and a write of business data on a session and an operator,
      that were in order when they were looked up, in worlds the run went
      through after the request arrived; a session on a flow that no other
      callback gets.  An answer as public rests on a row that was public and
      has not been evicted since, or on a look-up that was under way when the
      request arrived; without such a look-up, a read sees every write that has
      answered.  No request waits for ever.
    - Functional behaviour of single operations: key issue, the cascades of
      deletion and their announced impact, paging, path parsing, the OAuth
      state store, the limiter's bursts at any capacity below 2^53, the counters,
      the cookies, the directories made for RPM components.
    - Some theorems exhibit behaviour that the comments or documents describe
      differently: an expired key still grants access, an id token without
      [nbf] is accepted, a key can be revoked twice, a late lookup can join a
      stale flight, an audit window can be forgotten, the legacy account can be
      given new keys, an expiry past the year 9999 breaks the listings, the access log shows keys, a
      violation found while opening is refused only once; under interleaving,
      a deleted account can be reopened and a key issued to it.

    ** Bounds and fuel

    int64 values are integers with the range checks the code makes
    ([min_int64], [max_int64]).  Fuel appears in the scanners of strings and
    of JSON; it is bounded by the length of the input, of which each round
    consumes at least one byte ([parse_enough]), and in the paging crawl of
    Pagination.v, which takes the number of rows.  SHA-256
    pads to the number of blocks it then reads ([blocks_enough]).  A generation
    of the cache is a uint64 that wraps: the theorems on runs assume less than
    2^64 steps, of which each bumps at most one generation once.  Usage counts
    and the collectors' values, int64 and float64 in the code, are unbounded
    integers: they grow by one per request.  The limiter's tokens are binary64
    values; Float64.v shows that whole numbers below 2^53 are exact.

    A timestamp column is an integer of seconds, compared as such; TimesSpec.v
    shows that the texts compare alike for the years 0 to 9999, in which the
    clock is assumed to be.  An expiry comes from a request and may lie
    outside; then its text cannot be read, which [scanKey] models.  The bounds
    of an audit query outside those years are compared as integers.

    ** What is a parameter

    The SQL driver's messages and scan order ([SqlDriver], with SQLite's as
    instance), the Unicode tables ([UnicodeTables]), the chi router
    ([Router]), mail.ParseAddress, os.MkdirAll, the HTTP client of
    the providers, the embedded files of the admin page, the zone in which
    the text of a time value is written.  What is assumed of them are fields
    of the classes, each with an instance, or hypotheses of the theorem.  The
    group of package singleflight is not a parameter: Steps.v writes out its
    documented behaviour (one call of a name runs, the others wait for it and
    share its result), on which who waits for whom depends.

    ** What is not modelled

    The log lines other than the access log, which nothing reads back; the
    two listeners, shutdown, tickers and the logger's configuration; contexts
    and their cancellation; [URL.RawPath], which chi prefers for routing when
    the path has an unusual escape (here it routes on the decoded path); the
    time that passes between the HTTP calls of one code exchange, which all
    see the same instant; what the handlers do before their first and after
    their last step on shared state (writing the response).  Of the
    writing routes under interleaving there is what holds of all of them, and
    schedules, but not what each of them answers. *)
From Stdlib Require Import ZArith Lia.
From stdpp Require Import base gmap strings list sorting.

(** ** Scopes and notations *)
Declare Scope packyard_scope.
Delimit Scope packyard_scope with packyard.

(** ** Decidable tests on Go strings: [s == t] and [s != t]. *)
Notation "s =s t" := (String.eqb s t) (at level 70) : packyard_scope.
Notation "s <>s t" := (negb (String.eqb s t)) (at level 70) : packyard_scope.

(** Case analysis on the conditions and scrutinees of the goal or of a
    hypothesis, innermost first. *)
Ltac break_match_goal :=
  match goal with
  | |- context [match ?x with _ => _ end] =>
      lazymatch x with
      | context [match _ with _ => _ end] => fail
      | _ => let E := fresh "E" in destruct x eqn:E
      end
  end.
Ltac break_match_hyp H :=
  match type of H with
  | context [match ?x with _ => _ end] =>
      lazymatch x with
      | context [match _ with _ => _ end] => fail
      | _ => let E := fresh "E" in destruct x eqn:E
      end
  end.

(** Turns boolean string tests into (dis)equalities and substitutes. *)
Ltac string_reflect :=
  repeat match goal with
  | H : String.eqb _ _ = true |- _ => apply String.eqb_eq in H
  | H : String.eqb _ _ = false |- _ => apply String.eqb_neq in H
  | H : negb _ = true |- _ => apply negb_true_iff in H
  | H : negb _ = false |- _ => apply negb_false_iff in H
  | H : andb _ _ = true |- _ => apply andb_true_iff in H; destruct H
  | H : orb _ _ = false |- _ => apply orb_false_iff in H; destruct H
  end.

(** ** Hint databases *)
Create HintDb packyard.
Create Rewrite HintDb packyard_rw.

(** ** Lists *)
Section ListFacts.
Context {A B : Type}.

(** SQL's [LIMIT limit OFFSET offset] on an already ordered result. *)
Definition page (offset limit : nat) (l : list A) : list A :=
  take limit (drop offset l).

Lemma page_length offset limit (l : list A) :
  length (page offset limit l) = Nat.min limit (length l - offset).
Proof. unfold page. by rewrite length_take, length_drop. Qed.

Lemma page_more offset limit (l : list A) :
  limit < length (page offset (S limit) l) <-> offset + limit < length l.
Proof. rewrite page_length. lia. Qed.

Lemma page_prefix offset limit (l : list A) :
  take limit (page offset (S limit) l) = page offset limit l.
Proof. unfold page. rewrite take_take. f_equal. lia. Qed.

Lemma page_next offset limit (l : list A) :
  page offset limit l ++ drop (offset + limit) l = drop offset l.
Proof. unfold page. rewrite <- drop_drop. apply take_drop. Qed.

Lemma omap_subset (f : A -> option B) (l : list A) :
  length (omap f l) <= length l.
Proof. induction l as [|x l IH]; csimpl; [done|]. destruct (f x); csimpl; lia. Qed.
End ListFacts.

(** ** Maps *)
Section MapFacts.
Context `{Countable K} {A : Type}.

(** A table update restricted to the rows a WHERE clause selects, with the
    number of rows it matched: SQL's UPDATE and its RowsAffected. *)
Definition update_where (sel : K -> A -> bool) (upd : A -> A) (m : gmap K A) : gmap K A :=
  map_imap (fun k a => Some (if sel k a then upd a else a)) m.

Definition count_where (sel : K -> A -> bool) (m : gmap K A) : nat :=
  size (filter (fun kv => sel kv.1 kv.2 = true) m).

Lemma lookup_update_where sel upd (m : gmap K A) k :
  update_where sel upd m !! k = (fun a => if sel k a then upd a else a) <$> m !! k.
Proof. unfold update_where. rewrite map_lookup_imap. by destruct (m !! k). Qed.

Lemma update_where_Some sel upd (m : gmap K A) k b :
  update_where sel upd m !! k = Some b <->
  exists a, m !! k = Some a /\ b = (if sel k a then upd a else a).
Proof.
  rewrite lookup_update_where, fmap_Some. split; intros (a & ? & ?); eauto.
Qed.

Lemma dom_update_where sel upd (m : gmap K A) :
  dom (update_where sel upd m) = dom m.
Proof.
  apply set_eq. intros k. rewrite !elem_of_dom, lookup_update_where.
  by rewrite fmap_is_Some.
Qed.

Lemma update_where_none sel upd (m : gmap K A) :
  (forall k a, m !! k = Some a -> sel k a = false) -> update_where sel upd m = m.
Proof.
  intros Hn. apply map_eq. intros k. rewrite lookup_update_where.
  destruct (m !! k) as [a|] eqn:E; simpl; [|done]. by rewrite (Hn _ _ E).
Qed.

Lemma count_where_zero sel (m : gmap K A) :
  count_where sel m = 0 <-> forall k a, m !! k = Some a -> sel k a = false.
Proof.
  unfold count_where. rewrite map_size_empty_iff. split.
  - intros Hf k a Hk. apply not_true_is_false. intros Hs.
    assert (filter (fun kv => sel kv.1 kv.2 = true) m !! k = Some a) as Hin
      by (by apply map_lookup_filter_Some).
    rewrite Hf in Hin. by apply lookup_empty_Some in Hin.
  - intros Hn. apply map_empty. intros k. apply map_lookup_filter_None. right.
    intros a Hk. simpl. by rewrite (Hn _ _ Hk).
Qed.

(** Two matches: one of them is not the row at hand. *)
Lemma count_where_two sel (m : gmap K A) k :
  2 <= count_where sel m -> exists k' a, k' <> k /\ m !! k' = Some a /\ sel k' a = true.
Proof.
  unfold count_where. set (f := filter _ m). intros Hs.
  destruct (decide (delete k f = ∅)) as [He|Hne].
  - assert (size (delete k f) = 0) as H0 by (by rewrite He, map_size_empty).
    rewrite map_size_delete in H0. destruct (f !! k); simpl in H0; lia.
  - apply map_choose in Hne as (k' & a & Hk'). apply lookup_delete_Some in Hk' as [Hne Hk'].
    apply map_lookup_filter_Some in Hk' as [Hk' Hsel]. eauto 6.
Qed.

(** A WHERE clause on the primary key matches at most one row. *)
Lemma count_where_key (sel : K -> A -> bool) (m : gmap K A) k :
  (forall k' a, sel k' a = true -> k' = k) ->
  count_where sel m =
    match m !! k with Some a => if sel k a then 1 else 0 | None => 0 end.
Proof.
  intros Hk. unfold count_where.
  destruct (m !! k) as [a|] eqn:E; [destruct (sel k a) eqn:Es|].
  - transitivity (size ({[k := a]} : gmap K A)); [|apply map_size_singleton].
    f_equal. apply map_eq. intros j. apply option_eq. intros b.
    rewrite map_lookup_filter_Some, lookup_singleton_Some. simpl. split.
    + intros [Hj Hs]. apply Hk in Hs as Hjk. subst. split; [done|congruence].
    + intros [<- <-]. done.
  - apply count_where_zero. intros j b Hj. apply not_true_is_false. intros Hs.
    apply Hk in Hs as Hjk. subst. congruence.
  - apply count_where_zero. intros j b Hj. apply not_true_is_false. intros Hs.
    apply Hk in Hs as Hjk. subst. congruence.
Qed.
End MapFacts.

(** A WHERE clause on a text primary key is [alter]. *)
Lemma update_where_id {A} (upd : A -> A) (m : gmap string A) id :
  update_where (fun k _ => String.eqb k id) upd m = alter upd id m.
Proof.
  apply map_eq. intros k. rewrite lookup_update_where, lookup_alter.
  destruct (String.eqb_spec k id) as [Hk|Hne]; case_decide; try congruence.
  - by subst.
  - by destruct (m !! k).
Qed.

Lemma count_where_id {A} (m : gmap string A) id :
  count_where (fun k _ => String.eqb k id) m = match m !! id with Some _ => 1 | None => 0 end.
Proof.
  rewrite (count_where_key _ m id).
  - destruct (m !! id); [by rewrite String.eqb_refl|done].
  - intros k _ Hk. by apply String.eqb_eq.
Qed.
#[export] Hint Rewrite @lookup_update_where @dom_update_where : packyard_rw.
