(* ===== verification/GoStrings.v ===== *)
(** * The Go string operations the service uses

    Go strings are byte strings; here they are [string], one [ascii] per
    byte.  Each definition models the standard-library function of the same
    name, restricted to the argument shapes the sources use (a one-byte
    separator for [strings.SplitN], a one-byte set for [strings.TrimRight]).
    UTF-8 is decoded and encoded as Go does it, an invalid byte decoding to
    U+FFFD with width one. *)
From Stdlib Require Import ZArith Lia Ascii.
From Stdlib Require DecimalString DecimalZ.
From stdpp Require Import base gmap strings list.
From S2P Require Import Prelude.
Open Scope packyard_scope.

Definition byte_of (c : ascii) : Z := Z.of_N (N_of_ascii c).
Definition of_byte (z : Z) : ascii := ascii_of_N (Z.to_N z).

(** ** Appending *)
Lemma string_app_cons c s t : String c s +:+ t = String c (s +:+ t).
Proof. done. Qed.

Lemma string_app_empty s : "" +:+ s = s.
Proof. done. Qed.

Lemma string_app_assoc a b c : (a +:+ b) +:+ c = a +:+ (b +:+ c).
Proof. induction a as [|x a IH]; [done|]. exact (f_equal (String x) IH). Qed.

(** ** Decimal *)
Definition is_digit (c : ascii) : bool := (48 <=? byte_of c)%Z && (byte_of c <=? 57)%Z.
Definition digit (c : ascii) : Z := (byte_of c - 48)%Z.

(** [strconv.Itoa]. *)
Definition itoa (n : Z) : string := DecimalString.NilEmpty.string_of_int (Z.to_int n).

(** ** Slicing *)
Fixpoint sdrop (n : nat) (s : string) : string :=
  match n, s with
  | O, _ => s
  | S n, EmptyString => EmptyString
  | S n, String _ s => sdrop n s
  end.

Fixpoint stake (n : nat) (s : string) : string :=
  match n, s with
  | O, _ => EmptyString
  | S n, EmptyString => EmptyString
  | S n, String c s => String c (stake n s)
  end.

(** ** Package strings *)
Definition HasPrefix (s p : string) : bool := String.prefix p s.

Fixpoint Contains (s sub : string) : bool :=
  HasPrefix s sub ||
  match s with EmptyString => false | String _ s => Contains s sub end.

Definition TrimPrefix (s p : string) : string :=
  if HasPrefix s p then sdrop (String.length p) s else s.

Fixpoint string_forallb (f : ascii -> bool) (s : string) : bool :=
  match s with EmptyString => true | String c s => f c && string_forallb f s end.

Fixpoint string_map (f : ascii -> ascii) (s : string) : string :=
  match s with EmptyString => EmptyString | String c s => String (f c) (string_map f s) end.

(** [IndexByte] returns -1 for a byte that is absent. *)
Fixpoint IndexByte (s : string) (c : ascii) : Z :=
  match s with
  | EmptyString => -1
  | String d s' =>
      if Ascii.eqb d c then 0
      else let i := IndexByte s' c in if (i <? 0)%Z then -1 else i + 1
  end.

(** The leading part before the first [c], and what follows it. *)
Fixpoint cut_byte (s : string) (c : ascii) : option (string * string) :=
  match s with
  | EmptyString => None
  | String d s' =>
      if Ascii.eqb d c then Some (EmptyString, s')
      else match cut_byte s' c with
           | Some (a, b) => Some (String d a, b)
           | None => None
           end
  end.

Definition lacks (c : ascii) (s : string) : bool :=
  string_forallb (fun d => negb (Ascii.eqb d c)) s.

(** [strings.SplitN(s, sep, n)] for a one-byte [sep] and [n > 0]. *)
Fixpoint SplitN (s : string) (sep : ascii) (n : nat) : list string :=
  match n with
  | O => []
  | S O => [s]
  | S n =>
      match cut_byte s sep with
      | Some (a, b) => a :: SplitN b sep n
      | None => [s]
      end
  end.

(** [strings.Split(s, string(c))]. *)
Fixpoint split_byte (s : string) (c : ascii) : list string :=
  match s with
  | EmptyString => [EmptyString]
  | String d s =>
      let rest := split_byte s c in
      if Ascii.eqb d c then EmptyString :: rest
      else match rest with
           | f :: fs => String d f :: fs
           | [] => [String d EmptyString]
           end
  end.

(** [strings.TrimRight(s, string(c))]: every trailing [c] goes. *)
Fixpoint TrimRightByte (s : string) (c : ascii) : string :=
  match s with
  | EmptyString => EmptyString
  | String d s' =>
      match TrimRightByte s' c with
      | EmptyString => if Ascii.eqb d c then EmptyString else String d EmptyString
      | t => String d t
      end
  end.

(** [strings.TrimSuffix(s, string(c))]: at most one trailing [c] goes. *)
Fixpoint TrimSuffixByte (s : string) (c : ascii) : string :=
  match s with
  | EmptyString => EmptyString
  | String d EmptyString => if Ascii.eqb d c then EmptyString else String d EmptyString
  | String d s' => String d (TrimSuffixByte s' c)
  end.

(** [strings.ReplaceAll(s, string(c), by)] for a one-byte pattern. *)
Fixpoint ReplaceByte (s : string) (c : ascii) (by_ : string) : string :=
  match s with
  | EmptyString => EmptyString
  | String d s =>
      if Ascii.eqb d c then by_ +:+ ReplaceByte s c by_ else String d (ReplaceByte s c by_)
  end.

(** ** Letter case *)
Definition is_ascii_char (c : ascii) : bool := (byte_of c <? 128)%Z.
Definition is_upper_char (c : ascii) : bool :=
  (65 <=? byte_of c)%Z && (byte_of c <=? 90)%Z.
Definition lower_char (c : ascii) : ascii :=
  if is_upper_char c then of_byte (byte_of c + 32) else c.

(** SQLite's built-in [lower()]: ASCII letters only. *)
Definition sql_lower (s : string) : string := string_map lower_char s.

(** [strings.ToLower] lower-cases ASCII strings byte by byte and maps any
    other string through the Unicode tables of package [unicode], which are
    data this library takes as given: the mapping leaves no upper-case ASCII
    letter behind. *)
Class UnicodeTables := {
  unicode_lower : string -> string;
  unicode_lower_spec : forall s, sql_lower (unicode_lower s) = unicode_lower s;
  unicode_print : Z -> bool; (* unicode.IsPrint, for the quoting of error texts *)
  unicode_fold : Z -> Z; (* one rune for each orbit of unicode.SimpleFold *)
  unicode_fold_ascii : forall r, (65 <= r <= 90)%Z -> unicode_fold r = unicode_fold (r + 32)
}.

Definition ToLower `{UnicodeTables} (s : string) : string :=
  if string_forallb is_ascii_char s then sql_lower s else unicode_lower s.

(** ** White space: [unicode.IsSpace], by its UTF-8 encodings *)
Definition bytes (l : list Z) : string :=
  fold_right (fun z s => String (of_byte z) s) EmptyString l.

Definition space_encodings : list string :=
  map bytes
    ([[9]; [10]; [11]; [12]; [13]; [32]; [194; 133]; [194; 160]; [225; 154; 128]]
     ++ map (fun z => [226; 128; z]) [128; 129; 130; 131; 132; 133; 134; 135; 136; 137; 138]
     ++ [[226; 128; 168]; [226; 128; 169]; [226; 128; 175]; [226; 129; 159]; [227; 128; 128]])%Z.

Definition string_rev (s : string) : string :=
  String.string_of_list_ascii (rev (String.list_ascii_of_string s)).

(** The prefix of [s] that is one white-space rune, if it starts with one. *)
Definition space_prefix (encs : list string) (s : string) : option string :=
  List.find (fun e => HasPrefix s e) encs.

(** The fuel is the length: a white-space rune is at least one byte. *)
Fixpoint trim_left_fuel (encs : list string) (fuel : nat) (s : string) : string :=
  match fuel with
  | O => s
  | S fuel =>
      match space_prefix encs s with
      | Some e => trim_left_fuel encs fuel (sdrop (String.length e) s)
      | None => s
      end
  end.

Definition TrimLeftSpace (s : string) : string :=
  trim_left_fuel space_encodings (String.length s) s.
Definition TrimRightSpace (s : string) : string :=
  string_rev (trim_left_fuel (map string_rev space_encodings) (String.length s) (string_rev s)).
Definition TrimSpace (s : string) : string := TrimRightSpace (TrimLeftSpace s).

(** ** SQL's LIKE with the two wildcards, byte by byte

    The only pattern of the schema is ['%_@_%'], which matches the same
    strings whether [_] takes one byte or one character. *)
Fixpoint like_fuel (fuel : nat) (p s : string) : bool :=
  match fuel with
  | O => false
  | S fuel =>
      match p with
      | EmptyString => match s with EmptyString => true | _ => false end
      | String "%" p' =>
          like_fuel fuel p' s ||
          match s with EmptyString => false | String _ s' => like_fuel fuel p s' end
      | String "_" p' =>
          match s with EmptyString => false | String _ s' => like_fuel fuel p' s' end
      | String c p' =>
          match s with
          | EmptyString => false
          | String d s' => Ascii.eqb (lower_char c) (lower_char d) && like_fuel fuel p' s'
          end
      end
  end.

(** Each call shortens the pattern or the string. *)
Definition like (p s : string) : bool :=
  like_fuel (S (String.length p + String.length s)) p s.

(** ** Hexadecimal *)
Definition hex_digit (n : Z) : ascii :=
  if (n <? 10)%Z then of_byte (48 + n) else of_byte (87 + n).

(** [hex.EncodeToString]. *)
Fixpoint hex_encode (bs : list Z) : string :=
  match bs with
  | [] => EmptyString
  | b :: bs => String (hex_digit (b / 16)) (String (hex_digit (b mod 16)) (hex_encode bs))
  end.

(** ** UTF-8 *)
Definition rune_error : Z := 65533.

(** [utf8.DecodeRune]: the rune and its width in bytes (at least 1). *)
Definition decode_rune (s : string) : Z * nat :=
  let cont b := (128 <=? b)%Z && (b <=? 191)%Z in
  match s with
  | EmptyString => (rune_error, 0)
  | String c0 s1 =>
      let b0 := byte_of c0 in
      if (b0 <? 128)%Z then (b0, 1)
      else match s1 with
      | EmptyString => (rune_error, 1)
      | String c1 s2 =>
        let b1 := byte_of c1 in
        if (194 <=? b0)%Z && (b0 <=? 223)%Z then
          if cont b1 then ((b0 - 192) * 64 + (b1 - 128), 2%nat)%Z else (rune_error, 1)
        else match s2 with
        | EmptyString => (rune_error, 1)
        | String c2 s3 =>
          let b2 := byte_of c2 in
          if (224 <=? b0)%Z && (b0 <=? 239)%Z then
            let lo := if (b0 =? 224)%Z then 160%Z else 128%Z in
            let hi := if (b0 =? 237)%Z then 159%Z else 191%Z in
            if (lo <=? b1)%Z && (b1 <=? hi)%Z && cont b2
            then ((b0 - 224) * 4096 + (b1 - 128) * 64 + (b2 - 128), 3%nat)%Z
            else (rune_error, 1)
          else match s3 with
          | EmptyString => (rune_error, 1)
          | String c3 _ =>
            let b3 := byte_of c3 in
            if (240 <=? b0)%Z && (b0 <=? 244)%Z then
              let lo := if (b0 =? 240)%Z then 144%Z else 128%Z in
              let hi := if (b0 =? 244)%Z then 143%Z else 191%Z in
              if (lo <=? b1)%Z && (b1 <=? hi)%Z && cont b2 && cont b3
              then ((b0 - 240) * 262144 + (b1 - 128) * 4096 + (b2 - 128) * 64 + (b3 - 128), 4%nat)%Z
              else (rune_error, 1)
            else (rune_error, 1)
          end
        end
      end
  end.

(** [[]rune(s)]; the fuel is the length, a rune taking at least one byte. *)
Fixpoint runes_fuel (fuel : nat) (s : string) : list Z :=
  match fuel, s with
  | O, _ | _, EmptyString => []
  | S fuel, _ => let '(r, w) := decode_rune s in r :: runes_fuel fuel (sdrop w s)
  end.
Definition runes (s : string) : list Z := runes_fuel (String.length s) s.

(** [utf8.AppendRune]: a rune outside the Unicode range, or a surrogate,
    is written as U+FFFD. *)
Definition encode_rune (r : Z) : string :=
  let r := if (r <? 0)%Z || (1114111 <? r)%Z || ((55296 <=? r)%Z && (r <=? 57343)%Z)
           then rune_error else r in
  if (r <? 128)%Z then bytes [r]
  else if (r <? 2048)%Z then bytes [192 + r / 64; 128 + r mod 64]%Z
  else if (r <? 65536)%Z then bytes [224 + r / 4096; 128 + r / 64 mod 64; 128 + r mod 64]%Z
  else bytes [240 + r / 262144; 128 + r / 4096 mod 64; 128 + r / 64 mod 64; 128 + r mod 64]%Z.

(** [string(runes)]. *)
Definition of_runes (l : list Z) : string :=
  fold_right (fun r s => encode_rune r +:+ s) EmptyString l.

(** ** fmt's [%q]: [strconv.Quote] *)
Definition hex_fixed (width : nat) (n : Z) : string :=
  String.string_of_list_ascii
    (map (fun i => hex_digit ((n / 16 ^ Z.of_nat (width - 1 - i)) mod 16)%Z) (seq 0 width)).

Definition backquoted (tail : string) : string := String (of_byte 92) tail.

Definition quote_rune `{UnicodeTables} (raw : string) (r : Z) (width : nat) : string :=
  if (r =? rune_error)%Z && (width =? 1)%nat then
    match raw with
    | String c _ => backquoted ("x" +:+ hex_encode [byte_of c])
    | EmptyString => ""
    end
  else if (r =? 34)%Z || (r =? 92)%Z then backquoted raw
  else if unicode_print r then raw
  else if (r =? 7)%Z then backquoted "a"
  else if (r =? 8)%Z then backquoted "b"
  else if (r =? 12)%Z then backquoted "f"
  else if (r =? 10)%Z then backquoted "n"
  else if (r =? 13)%Z then backquoted "r"
  else if (r =? 9)%Z then backquoted "t"
  else if (r =? 11)%Z then backquoted "v"
  else if (r <? 32)%Z || (r =? 127)%Z then backquoted ("x" +:+ hex_fixed 2 r)
  else if (r <? 65536)%Z then backquoted ("u" +:+ hex_fixed 4 r)
  else backquoted ("U" +:+ hex_fixed 8 r).

Fixpoint quote_chars `{UnicodeTables} (fuel : nat) (s : string) : string :=
  match fuel, s with
  | O, _ | _, EmptyString => EmptyString
  | S fuel, _ =>
      let '(r, w) := decode_rune s in
      quote_rune (stake w s) r w +:+ quote_chars fuel (sdrop w s)
  end.

(** The fuel is the length: a rune takes at least one byte. *)
Definition Quote `{UnicodeTables} (s : string) : string :=
  String (of_byte 34) (quote_chars (String.length s) s +:+ String (of_byte 34) EmptyString).

(** ** Facts about cutting *)
Lemma cut_byte_Some s c a b :
  cut_byte s c = Some (a, b) <-> s = a +:+ String c b /\ lacks c a = true.
Proof.
  revert a. induction s as [|d s IH]; intros a; cbn [cut_byte].
  { split; [done|]. intros [Hs _]. by destruct a. }
  destruct (Ascii.eqb d c) eqn:E.
  - apply Ascii.eqb_eq in E as ->. split; [intros [= <- <-]; done|].
    destruct a as [|d' a]; intros [Hs Hl]; [by injection Hs as ->|].
    injection Hs as <- _. unfold lacks in Hl. simpl in Hl. by rewrite Ascii.eqb_refl in Hl.
  - destruct (cut_byte s c) as [[a' b']|].
    + split.
      * intros [= <- <-]. destruct (proj1 (IH a') eq_refl) as [-> Hl]. split; [done|].
        unfold lacks in *. simpl. by rewrite E.
      * destruct a as [|d' a]; intros [Hs Hl]; injection Hs as -> Hs;
          [by rewrite Ascii.eqb_refl in E|].
        unfold lacks in Hl. simpl in Hl. apply andb_true_iff in Hl as [_ Hl].
        assert (Some (a', b') = Some (a, b)) as [= -> ->] by (by apply IH). done.
    + split; [done|]. destruct a as [|d' a]; intros [Hs Hl]; injection Hs as -> Hs;
        [by rewrite Ascii.eqb_refl in E|].
      unfold lacks in Hl. simpl in Hl. apply andb_true_iff in Hl as [_ Hl].
      exfalso. cut (None = Some (a, b)); [done|]. by apply IH.
Qed.

Lemma cut_byte_None s c : cut_byte s c = None <-> lacks c s = true.
Proof.
  unfold lacks. induction s as [|d s IH]; simpl; [done|].
  destruct (Ascii.eqb d c); simpl; [done|].
  destruct (cut_byte s c) as [[a b]|]; [|by rewrite <- IH].
  split; [done|]. intros Hl. apply IH in Hl. done.
Qed.

Lemma HasPrefix_split s p :
  HasPrefix s p = true -> s = p +:+ sdrop (String.length p) s.
Proof.
  unfold HasPrefix. revert s. induction p as [|c p IH]; intros s Hp; [done|].
  destruct s as [|d s]; [done|]. cbn [String.prefix] in Hp.
  destruct (Ascii.ascii_dec c d) as [<-|]; [|done]. exact (f_equal (String c) (IH _ Hp)).
Qed.

Lemma TrimPrefix_inv s p t : TrimPrefix s p = t -> s = p +:+ t \/ s = t.
Proof.
  intros <-. unfold TrimPrefix. destruct (HasPrefix s p) eqn:E; [left|by right].
  by apply HasPrefix_split.
Qed.

Lemma string_forallb_app f a b : string_forallb f (a +:+ b) = string_forallb f a && string_forallb f b.
Proof.
  induction a as [|c a IH]; [done|]. rewrite string_app_cons. cbn [string_forallb]. by rewrite IH, andb_assoc.
Qed.

Lemma lacks_app c a b : lacks c (a +:+ b) = lacks c a && lacks c b.
Proof.
  unfold lacks. induction a as [|d a IH]; [done|].
  change (String d a +:+ b) with (String d (a +:+ b)). cbn [string_forallb].
  by rewrite IH, andb_assoc.
Qed.

(** What precedes the first [c], or all of [s]. *)
Definition first_segment (c : ascii) (s : string) : string :=
  match cut_byte s c with Some (a, _) => a | None => s end.

Lemma string_app_nil s : s +:+ "" = s.
Proof. induction s as [|c s IH]; [done|]. exact (f_equal (String c) IH). Qed.

Lemma first_segment_spec c s a :
  first_segment c s = a <->
  lacks c a = true /\ exists tail, s = a +:+ tail /\ (tail = "" \/ exists t, tail = String c t).
Proof.
  unfold first_segment. split.
  - intros <-. destruct (cut_byte s c) as [[a' b]|] eqn:E.
    + apply cut_byte_Some in E as [-> Hl]. eauto 6.
    + apply cut_byte_None in E. split; [done|]. exists "". split; [by rewrite string_app_nil|by left].
  - intros (Hl & tail & -> & [-> | [t ->]]).
    + rewrite string_app_nil. by rewrite (proj2 (cut_byte_None _ _) Hl).
    + by rewrite (proj2 (cut_byte_Some _ _ _ t) (conj eq_refl Hl)).
Qed.
