(* ===== verification/Float64.v ===== *)
(** * Go's float64

    The IEEE 754 operations of [SpecFloat] at binary64, round to nearest even,
    and what they do on whole numbers below 2^53, which they represent. *)
From Stdlib Require Import ZArith Lia SpecFloat.

Definition float64 := spec_float.
Definition float_of_int (z : Z) : float64 := binary_normalize 53 1024 z 0 false.
Definition fadd : float64 -> float64 -> float64 := SFadd 53 1024.
Definition fsub : float64 -> float64 -> float64 := SFsub 53 1024.
Definition fmul : float64 -> float64 -> float64 := SFmul 53 1024.
Definition fdiv : float64 -> float64 -> float64 := SFdiv 53 1024.

(** [uint64(x)] for a value in range: the fraction is dropped. *)
Definition uint64_of_float (x : float64) : Z :=
  match x with
  | S754_finite false m e => if (0 <=? e)%Z then Zpos m * 2 ^ e else Z.quot (Zpos m) (2 ^ (- e))
  | _ => 0%Z
  end.

(** ** Whole numbers below 2^53 are exact *)
#[local] Open Scope Z_scope.

(** A mantissa with [n] zero bits appended. *)
Definition shifted (n : nat) (m : positive) : positive := Nat.iter n xO m.
Definition bit_length (m : positive) : nat := Pos.to_nat (digits2_pos m).

(** The float of a positive number of at most 53 bits: a mantissa of 53 bits. *)
Definition whole (z : positive) : float64 :=
  S754_finite false (shifted (53 - bit_length z) z) (Z.of_nat (bit_length z) - 53).

Lemma shifted_value n m : Zpos (shifted n m) = Zpos m * 2 ^ Z.of_nat n.
Proof.
  induction n as [|n IH]; [cbn; lia|]. rewrite Nat2Z.inj_succ, Z.pow_succ_r by lia.
  change (shifted (S n) m) with (xO (shifted n m)). rewrite Pos2Z.inj_xO, IH. lia.
Qed.

Lemma shifted_add a b m : shifted a (shifted b m) = shifted (a + b) m.
Proof. unfold shifted. now rewrite Nat.iter_add. Qed.

Lemma shl_shifted d m : Pos.iter xO m d = shifted (Pos.to_nat d) m.
Proof. apply Pos2Nat.inj_iter. Qed.

Lemma bit_length_shifted n m : bit_length (shifted n m) = (n + bit_length m)%nat.
Proof.
  induction n as [|n IH]; [reflexivity|]. unfold bit_length in *.
  change (digits2_pos (shifted (S n) m)) with (Pos.succ (digits2_pos (shifted n m))).
  rewrite Pos2Nat.inj_succ, IH. lia.
Qed.

Lemma bit_length_pos m : (1 <= bit_length m)%nat.
Proof. unfold bit_length. lia. Qed.

(** [bit_length] is the length in binary. *)
Lemma bit_length_bounds m : 2 ^ (Z.of_nat (bit_length m) - 1) <= Zpos m < 2 ^ Z.of_nat (bit_length m).
Proof.
  assert (bit_length m = Pos.to_nat (Pos.size m)) as ->.
  { reflexivity. }
  rewrite positive_nat_Z. pose proof (Pos.size_le m) as Hl. pose proof (Pos.size_gt m) as Hg.
  apply Pos2Z.pos_lt_pos in Hg. apply Pos2Z.pos_le_pos in Hl.
  rewrite Pos2Z.inj_pow in Hg, Hl. change (Zpos m~0) with (2 * Zpos m) in Hl.
  split; [|lia]. replace (Zpos (Pos.size m)) with (Z.succ (Zpos (Pos.size m) - 1)) in Hl by lia.
  rewrite Z.pow_succ_r in Hl by lia. lia.
Qed.

Lemma bit_length_le m n : (bit_length m <= n)%nat <-> Zpos m < 2 ^ Z.of_nat n.
Proof.
  pose proof (bit_length_bounds m) as [Hl Hg]. pose proof (bit_length_pos m). split; intros Hn.
  - apply (Z.lt_le_trans _ _ _ Hg). apply Z.pow_le_mono_r; lia.
  - assert (Z.of_nat (bit_length m) - 1 < Z.of_nat n); [|lia].
    apply (Z.pow_lt_mono_r_iff 2); lia.
Qed.

Lemma digits_bit_length m : Zpos (digits2_pos m) = Z.of_nat (bit_length m).
Proof. unfold bit_length. now rewrite positive_nat_Z. Qed.

(** *** Rounding what needs none *)
Lemma shr_shifted n m :
  Nat.iter n shr_1 (Build_shr_record (Zpos (shifted n m)) false false) =
  Build_shr_record (Zpos m) false false.
Proof.
  induction n as [|n IH]; [reflexivity|].
  change (shifted (S n) m) with (xO (shifted n m)). change (Nat.iter (S n) shr_1 ?x) with (shr_1 (Nat.iter n shr_1 x)).
  rewrite <- Nat.iter_swap. exact IH.
Qed.

Lemma iter_pos_nat {A} (f : A -> A) p x : iter_pos f p x = Nat.iter (Pos.to_nat p) f x.
Proof.
  revert x. induction p as [p IH|p IH|]; intros x; cbn [iter_pos]; [| |reflexivity]; rewrite !IH, <- Nat.iter_add.
  - rewrite Pos2Nat.inj_xI, Nat.iter_swap.
    replace (S (2 * Pos.to_nat p)) with (S (Pos.to_nat p + Pos.to_nat p)) by lia. reflexivity.
  - rewrite Pos2Nat.inj_xO. f_equal. lia.
Qed.

Lemma shr_exact k m e :
  fexp 53 1024 (Z.of_nat (bit_length (shifted k m)) + e) - e = Z.of_nat k ->
  shr_fexp 53 1024 (Zpos (shifted k m)) e loc_Exact = (Build_shr_record (Zpos m) false false, e + Z.of_nat k).
Proof.
  intros Hk. unfold shr_fexp, Zdigits2. rewrite digits_bit_length, Hk. destruct k as [|k].
  - cbn. now rewrite Z.add_0_r.
  - cbn [Z.of_nat shr]. rewrite iter_pos_nat, SuccNat2Pos.id_succ. cbn [shr_record_of_loc].
    now rewrite shr_shifted.
Qed.

Lemma round_aux_exact s k m e :
  bit_length m = 53%nat -> -1074 <= e + Z.of_nat k <= 971 ->
  binary_round_aux 53 1024 s (Zpos (shifted k m)) e loc_Exact = S754_finite s m (e + Z.of_nat k).
Proof.
  intros Hm He. unfold binary_round_aux.
  rewrite shr_exact by (rewrite bit_length_shifted, Hm; unfold fexp, emin; lia).
  cbn [shr_m loc_of_shr_record round_nearest_even].
  change m with (shifted 0 m) at 1. rewrite shr_exact by (rewrite bit_length_shifted, Hm; unfold fexp, emin; lia).
  cbn [shr_m]. destruct (Z.leb_spec (e + Z.of_nat k + Z.of_nat 0) (1024 - 53)); [|lia].
  f_equal. lia.
Qed.

(** The number [z], written with [a] zero bits behind the point. *)
Lemma round_whole s a z :
  (bit_length z <= 53)%nat -> (a <= 53)%nat ->
  binary_round 53 1024 s (shifted a z) (- Z.of_nat a) =
  S754_finite s (shifted (53 - bit_length z) z) (Z.of_nat (bit_length z) - 53).
Proof.
  intros Hz Ha. pose proof (bit_length_pos z) as Hp. unfold binary_round, shl_align. rewrite digits_bit_length, bit_length_shifted.
  assert (bit_length (shifted (53 - bit_length z) z) = 53%nat) as H53 by (rewrite bit_length_shifted; lia).
  replace (fexp 53 1024 (Z.of_nat (a + bit_length z) + - Z.of_nat a)) with (Z.of_nat (bit_length z) - 53)
    by (unfold fexp, emin; lia).
  destruct (Z.of_nat (bit_length z) - 53 - - Z.of_nat a) as [|d|d] eqn:Hd.
  - replace (53 - bit_length z)%nat with a in * by lia.
    rewrite (round_aux_exact s 0 (shifted a z)) by (auto; lia). f_equal. lia.
  - replace (shifted a z) with (shifted (a - (53 - bit_length z)) (shifted (53 - bit_length z) z))
      by (rewrite shifted_add; f_equal; lia).
    rewrite round_aux_exact by (auto; lia). f_equal. lia.
  - rewrite shl_shifted, shifted_add. replace (Pos.to_nat d + a)%nat with (53 - bit_length z)%nat by lia.
    rewrite (round_aux_exact s 0 (shifted (53 - bit_length z) z)) by (auto; lia). f_equal. lia.
Qed.

(** *** Conversion, subtraction and comparison *)
Lemma float_of_pos z : (bit_length z <= 53)%nat -> float_of_int (Zpos z) = whole z.
Proof. intros Hz. exact (round_whole false 0 z Hz ltac:(lia)). Qed.

Lemma float_of_neg z :
  (bit_length z <= 53)%nat -> exists m e, float_of_int (Zneg z) = S754_finite true m e.
Proof. intros Hz. do 2 eexists. exact (round_whole true 0 z Hz ltac:(lia)). Qed.

Lemma whole_aligned z :
  (bit_length z <= 53)%nat ->
  fst (shl_align (shifted (53 - bit_length z) z) (Z.of_nat (bit_length z) - 53) (-52)) = shifted 52 z.
Proof.
  intros Hz. pose proof (bit_length_pos z). unfold shl_align.
  destruct (-52 - (Z.of_nat (bit_length z) - 53)) as [|d|d] eqn:Hd; [|lia|]; cbn [fst].
  - f_equal. lia.
  - rewrite shl_shifted, shifted_add. f_equal. lia.
Qed.

Lemma fsub_one z : (bit_length z <= 53)%nat -> fsub (whole z) (whole 1) = float_of_int (Zpos z - 1).
Proof.
  intros Hz. pose proof (bit_length_pos z). unfold fsub, whole, SFsub.
  change (Z.of_nat (bit_length 1) - 53) with (-52). rewrite Z.min_r by lia.
  rewrite whole_aligned by exact Hz.
  change (fst (shl_align (shifted (53 - bit_length 1) 1) (-52) (-52))) with (shifted 52 1).
  cbn [cond_Zopp]. rewrite !shifted_value, <- Z.mul_sub_distr_r.
  destruct (Zpos z - 1) as [|p|p] eqn:Hp; [reflexivity| |lia].
  rewrite <- shifted_value. cbn [binary_normalize].
  assert (bit_length p <= 53)%nat as Hb.
  { apply bit_length_le. apply bit_length_le in Hz. lia. }
  rewrite float_of_pos by exact Hb. exact (round_whole false 52 p Hb ltac:(lia)).
Qed.

Lemma whole_not_less c k : Zpos k <= Zpos c -> SFltb (whole c) (whole k) = false.
Proof.
  intros Hk. unfold SFltb, whole, SFcompare.
  assert (bit_length k <= bit_length c)%nat as Hb.
  { apply bit_length_le. pose proof (bit_length_bounds c). lia. }
  destruct (Z.compare_spec (Z.of_nat (bit_length c) - 53) (Z.of_nat (bit_length k) - 53)) as [He|He|He]; [|lia|reflexivity].
  replace (bit_length k) with (bit_length c) by lia.
  change (Pos.compare_cont Eq ?a ?b) with (Pos.compare a b).
  destruct (Pos.compare_spec (shifted (53 - bit_length c) c) (shifted (53 - bit_length c) k)) as [E|E|E]; try reflexivity.
  exfalso. apply Pos2Z.pos_lt_pos in E. rewrite !shifted_value in E. nia.
Qed.

(** *** Nothing added *)
Definition float_finite (x : float64) : bool :=
  match x with S754_infinity _ | S754_nan => false | _ => true end.

Lemma fadd_fmul_zero x r :
  float_finite r = true -> x = S754_zero false \/ (exists m e, x = S754_finite false m e) ->
  fadd x (fmul (S754_zero false) r) = x.
Proof. intros Hr [->|(m & e & ->)]; destruct r; try discriminate Hr; try reflexivity; now destruct s. Qed.
