(* ===== verification/Paths.v ===== *)
(** * Packages path and path/filepath on Unix: Clean, Join, IsLocal *)
From Stdlib Require Import ZArith Lia Ascii.
From stdpp Require Import base strings list.
From S2P Require Import Prelude GoStrings.
Open Scope packyard_scope.

(** The path elements that remain, last first. *)
Definition clean_step (rooted : bool) (acc : list string) (part : string) : list string :=
  if (part =s "") || (part =s ".") then acc
  else if part =s ".." then
    match acc with
    | last :: acc' => if last =s ".." then ".." :: acc else acc'
    | [] => if rooted then [] else [".."]
    end
  else part :: acc.

Definition Clean (path : string) : string :=
  if path =s "" then "."
  else
    let rooted := HasPrefix path "/" in
    let parts := rev (fold_left (clean_step rooted) (split_byte path "/") []) in
    if rooted then "/" +:+ String.concat "/" parts
    else match parts with [] => "." | _ => String.concat "/" parts end.

Definition Join (elems : list string) : string :=
  match List.filter (fun e => e <>s "") elems with
  | [] => ""
  | es => Clean (String.concat "/" es)
  end.

Definition IsLocal (path : string) : bool :=
  if (path =s "") || HasPrefix path "/" then false
  else
    let hasDots := existsb (fun p => (p =s ".") || (p =s "..")) (split_byte path "/") in
    let path := if hasDots then Clean path else path in
    negb ((path =s "..") || HasPrefix path "../").

