(* ===== verification/Errors.v ===== *)
(** * Go errors

    Errors are values: the sentinels the packages export, errors built by
    other code (the SQL driver), and [fmt.Errorf("op: %w", err)] wrappers.
    [errors.Is] looks through wrappers.  The second half is errors.go: how a
    SQLite constraint violation becomes a sentinel. *)
From stdpp Require Import base strings list.
From S2P Require Import Prelude GoStrings.
Open Scope packyard_scope.

Inductive sentinel :=
| ErrNotFound | ErrRevoked | ErrComponentExists | ErrComponentNotFound
| ErrAccountNotFound | ErrAccountEmailExists | ErrAccountInvalid
| ErrInvalidStatusTransition | ErrLegacyAccountProtected
| ErrOperatorNotFound | ErrOperatorExists | ErrOperatorInvalid
| ErrOperatorSelfLockout | ErrSessionNotFound
| ErrNoRows (* database/sql *)
| ErrStateNotFound | ErrUnverifiedEmail | ErrNoEmail | ErrNotOrgMember
| ErrTokenExchange.

#[export] Instance sentinel_eq_dec : EqDecision sentinel.
Proof. solve_decision. Defined.

(** The text of each sentinel. *)
Definition sentinel_text (e : sentinel) : string :=
  match e with
  | ErrNotFound => "key not found"
  | ErrRevoked => "key is revoked"
  | ErrComponentExists => "component already exists"
  | ErrComponentNotFound => "component not found"
  | ErrAccountNotFound => "account not found"
  | ErrAccountEmailExists => "account email already exists"
  | ErrAccountInvalid => "account input invalid"
  | ErrInvalidStatusTransition => "invalid account status transition"
  | ErrLegacyAccountProtected => "legacy account is protected"
  | ErrOperatorNotFound => "operator not found"
  | ErrOperatorExists => "operator email already exists"
  | ErrOperatorInvalid => "operator input invalid"
  | ErrOperatorSelfLockout => "operator update would leave zero active admins"
  | ErrSessionNotFound => "session not found"
  | ErrNoRows => "sql: no rows in result set"
  | ErrStateNotFound => "oauth state not found or expired"
  | ErrUnverifiedEmail => "oauth: email is not verified"
  | ErrNoEmail => "oauth: no email returned by provider"
  | ErrNotOrgMember => "oauth: not a member of the allowed organisation/tenant"
  | ErrTokenExchange => "oauth: token exchange failed"
  end.

Inductive goerr :=
| Sentinel (e : sentinel)
| ErrText (msg : string)              (* errors.New, or an error of the driver *)
| Wrap (prefix : string) (e : goerr)  (* fmt.Errorf("prefix: %w", e) *)
| Annotate (e : goerr) (detail : string) (* fmt.Errorf("%w: detail", e) *)
| Suffix (e : goerr) (text : string). (* fmt.Errorf("%w text", e) *)

Fixpoint err_text (e : goerr) : string :=
  match e with
  | Sentinel s => sentinel_text s
  | ErrText m => m
  | Wrap p e => p +:+ ": " +:+ err_text e
  | Annotate e d => err_text e +:+ ": " +:+ d
  | Suffix e t => err_text e +:+ " " +:+ t
  end.

(** [errors.Is(err, target)] for a sentinel target. *)
Fixpoint errors_is (e : goerr) (target : sentinel) : bool :=
  match e with
  | Sentinel s => bool_decide (s = target)
  | ErrText _ => false
  | Wrap _ e | Annotate e _ | Suffix e _ => errors_is e target
  end.

(** ** Results *)
Inductive res (A : Type) :=
| Ok (a : A)
| Err (e : goerr).
Arguments Ok {A} a.
Arguments Err {A} e.

Definition is_ok {A} (r : res A) : bool := match r with Ok _ => true | Err _ => false end.

#[export] Instance res_ret : MRet res := @Ok.
#[export] Instance res_bind : MBind res := fun A B k r =>
  match r with Ok a => k a | Err e => Err e end.

Lemma res_bind_Ok {A B} (k : A -> res B) r b :
  r ≫= k = Ok b <-> exists a, r = Ok a /\ k a = Ok b.
Proof.
  destruct r as [a|e]; cbn; split; [by eauto|by intros (? & [= <-] & ?)|done|by intros (? & ? & _)].
Qed.

(** [fmt.Errorf("op: %w", err)] on the error of a call. *)
Definition wrapping {A} (op : string) (r : res A) : res A :=
  match r with Ok a => Ok a | Err e => Err (Wrap op e) end.

Lemma wrapping_Ok {A} op (r : res A) a : wrapping op r = Ok a <-> r = Ok a.
Proof. by destruct r. Qed.

Definition res_map {A B} (f : A -> B) (r : res A) : res B :=
  match r with Ok a => Ok (f a) | Err e => Err e end.

(** ** Constraint violations (errors.go) *)
Inductive violation :=
| UniqueFailed (column : string)
| ForeignKeyFailed
| CheckFailed (table : string)
| NotNullFailed (column : string).

(** What the code relies on in the SQL driver, [modernc.org/sqlite]: the
    message of a constraint error carries SQLite's text for that constraint
    and not the text of another one.  [driver_scan] is the order in which an
    unordered query returns the rows of a table. *)
Class SqlDriver := {
  driver_message : violation -> string;
  driver_unique : forall c,
    Contains (driver_message (UniqueFailed c)) "UNIQUE constraint failed" = true;
  driver_foreign :
    Contains (driver_message ForeignKeyFailed) "UNIQUE constraint failed" = false /\
    Contains (driver_message ForeignKeyFailed) "FOREIGN KEY constraint failed" = true;
  driver_check : forall t,
    Contains (driver_message (CheckFailed t)) "UNIQUE constraint failed" = false /\
    Contains (driver_message (CheckFailed t)) "FOREIGN KEY constraint failed" = false /\
    Contains (driver_message (CheckFailed t)) "CHECK constraint failed" = true;
  driver_not_null : forall c,
    Contains (driver_message (NotNullFailed c)) "UNIQUE constraint failed" = false /\
    Contains (driver_message (NotNullFailed c)) "FOREIGN KEY constraint failed" = false /\
    Contains (driver_message (NotNullFailed c)) "CHECK constraint failed" = false;
  driver_scan : forall {A : Type}, list (string * A) -> list (string * A);
  driver_scan_perm : forall {A : Type} (l : list (string * A)), driver_scan l ≡ₚ l
}.

Record constraintErrorMap := {
  UniqueErr : option sentinel;
  ForeignErr : option sentinel;
  CheckErr : option sentinel
}.

Definition classify (op : string) (err : goerr) (m : constraintErrorMap) : goerr :=
  let msg := err_text err in
  match Contains msg "UNIQUE constraint failed", UniqueErr m with
  | true, Some e => Wrap op (Sentinel e)
  | _, _ =>
    match Contains msg "FOREIGN KEY constraint failed", ForeignErr m with
    | true, Some e => Wrap op (Sentinel e)
    | _, _ =>
      match Contains msg "CHECK constraint failed", CheckErr m with
      | true, Some e => Wrap op (Sentinel e)
      | _, _ => Wrap op err
      end
    end
  end.

Definition account_errors : constraintErrorMap :=
  {| UniqueErr := Some ErrAccountEmailExists;
     ForeignErr := Some ErrAccountNotFound;
     CheckErr := Some ErrAccountInvalid |}.

Definition classifyConstraintError (op : string) (err : goerr) : goerr :=
  classify op err account_errors.

(** ** A concrete driver

    SQLite's own texts, as modernc.org/sqlite prefixes them. *)
Definition sqlite_message (v : violation) : string :=
  match v with
  | UniqueFailed c => "constraint failed: UNIQUE constraint failed: " +:+ c
  | ForeignKeyFailed => "constraint failed: FOREIGN KEY constraint failed"
  | CheckFailed t => "constraint failed: CHECK constraint failed"
  | NotNullFailed c => "constraint failed: NOT NULL constraint failed"
  end.

Definition sqlite_driver : SqlDriver.
Proof.
  refine {| driver_message := sqlite_message; driver_scan := fun _ l => l |};
    first [done | intros; vm_compute; auto].
Defined.

Lemma classify_unique `{SqlDriver} op c m e :
  UniqueErr m = Some e ->
  classify op (ErrText (driver_message (UniqueFailed c))) m = Wrap op (Sentinel e).
Proof. intros He. unfold classify. simpl. by rewrite driver_unique, He. Qed.

Lemma classify_foreign `{SqlDriver} op m e :
  ForeignErr m = Some e ->
  classify op (ErrText (driver_message ForeignKeyFailed)) m = Wrap op (Sentinel e).
Proof.
  intros He. unfold classify. simpl. destruct driver_foreign as [-> ->].
  by rewrite He.
Qed.

Lemma classify_check `{SqlDriver} op t m e :
  CheckErr m = Some e ->
  classify op (ErrText (driver_message (CheckFailed t))) m = Wrap op (Sentinel e).
Proof.
  intros He. unfold classify. simpl. destruct (driver_check t) as (-> & -> & ->).
  by rewrite He.
Qed.

(** A driver error is never taken for a sentinel other than the three of the
    map: what the code cannot classify stays wrapped. *)
Lemma classify_sentinel op msg m s :
  errors_is (classify op (ErrText msg) m) s = true ->
  UniqueErr m = Some s \/ ForeignErr m = Some s \/ CheckErr m = Some s.
Proof.
  unfold classify. intros Hs.
  repeat break_match_hyp Hs; simpl in Hs; try apply bool_decide_eq_true in Hs;
    subst; auto; done.
Qed.
#[export] Hint Resolve classify_unique classify_foreign classify_check : packyard.
