(* ===== verification/Metrics.v ===== *)
(** * The counters of metrics/metrics.go

    Prometheus counters, a histogram and a gauge.  A counter vector has a
    counter for each value of its label; a counter that was never touched reads
    as zero.  The histogram is the list of what was observed, the latest
    first. *)
From Stdlib Require Import ZArith Lia.
From stdpp Require Import base gmap strings list.
From S2P Require Import Prelude.

Record Metrics := mkMetrics {
  RequestsTotal : gmap string Z;
  RequestDuration : list Z (* nanoseconds *);
  ComponentCacheRequests : Z;
  ComponentCacheHits : Z;
  ComponentCacheEntries : Z }.

(** The collectors as [init] registers them. *)
Definition no_metrics : Metrics := mkMetrics ∅ [] 0 0 0.

Definition requests_with (status : string) (m : Metrics) : Z := default 0%Z (RequestsTotal m !! status).

(** [RequestsTotal.WithLabelValues(status).Inc()] *)
Definition count_request (status : string) (m : Metrics) : Metrics :=
  mkMetrics (<[status := (requests_with status m + 1)%Z]> (RequestsTotal m)) (RequestDuration m)
    (ComponentCacheRequests m) (ComponentCacheHits m) (ComponentCacheEntries m).
(** [RequestDuration.Observe(d.Seconds())] *)
Definition observe_duration (d : Z) (m : Metrics) : Metrics :=
  mkMetrics (RequestsTotal m) (d :: RequestDuration m) (ComponentCacheRequests m) (ComponentCacheHits m)
    (ComponentCacheEntries m).
Definition count_lookup (m : Metrics) : Metrics :=
  mkMetrics (RequestsTotal m) (RequestDuration m) (ComponentCacheRequests m + 1) (ComponentCacheHits m)
    (ComponentCacheEntries m).
Definition count_hit (m : Metrics) : Metrics :=
  mkMetrics (RequestsTotal m) (RequestDuration m) (ComponentCacheRequests m) (ComponentCacheHits m + 1)
    (ComponentCacheEntries m).
Definition set_entries (n : Z) (m : Metrics) : Metrics :=
  mkMetrics (RequestsTotal m) (RequestDuration m) (ComponentCacheRequests m) (ComponentCacheHits m) n.
