(* ===== verification/State.v ===== *)
(** * The data of the service

    The Go structs of package store and package audit, the rows of the SQLite
    tables (the [schema] constant of sqlite.go), the in-process caches, and
    [World], everything a request can read or change.

    Times are nanoseconds since the Unix epoch.  A DATETIME column holds
    RFC 3339 text with second precision, here the second it denotes. *)
From Stdlib Require Import ZArith Lia SpecFloat.
From stdpp Require Import base gmap strings list.
From S2P Require Import Prelude GoStrings Errors Metrics.
Open Scope packyard_scope.

(** ** Time *)
Definition Second : Z := 1000000000.
Definition Minute : Z := 60 * Second.
Definition Hour : Z := 60 * Minute.

Definition max_int64 : Z := 2 ^ 63 - 1.
Definition min_int64 : Z := - 2 ^ 63.

(** [t.Format(time.RFC3339)] drops the sub-second part; [time.Parse] gives
    the instant of the second back. *)
Definition format_stamp (t : Z) : Z := t / Second.
Definition parse_stamp (s : Z) : Z := s * Second.

(** The zero [time.Time], 1 January of year 1. *)
Definition zero_time : Z := (-62135596800) * Second.

(** [a.Sub(b)]: a Duration, saturated at the int64 bounds. *)
Definition time_sub (a b : Z) : Z := Z.max min_int64 (Z.min max_int64 (a - b)).

(** ** Go structs *)
Record Key := mkKey {
  Key_ID : string; Key_Component : string; Key_Active : bool; Key_Label : string;
  Key_CreatedAt : Z; Key_ExpiresAt : option Z; Key_UsageCount : Z; Key_AccountID : string }.

(** A nil slice is [None]. *)
Definition strings_t := option (list string).
Definition elems (l : strings_t) : list string := default [] l.

Record Component := mkComponent {
  Name : string; Visibility : string;
  RPMSeries : strings_t; RPMOSFamilies : strings_t; RPMArchitectures : strings_t;
  Comp_CreatedAt : Z }.

(** A nil pointer is [None]. *)
Record ComponentPatch := mkPatch {
  p_Visibility : option string; p_RPMSeries : option strings_t;
  p_RPMOSFamilies : option strings_t; p_RPMArchitectures : option strings_t }.

Record Account := mkAccount {
  Acc_ID : string; Acc_Email : string; Acc_OrgName : string; Acc_Status : string;
  Acc_CreatedAt : Z; Acc_CreatedByOperatorID : string }.

Record AccountInput := mkAccountInput { in_Email : string; in_OrgName : string }.
Record AccountUpdate := mkAccountUpdate {
  u_Email : option string; u_OrgName : option string; u_Status : option string }.

Record Operator := mkOperator {
  Op_ID : string; Op_Email : string; Op_Role : string; Op_Status : string;
  Op_AllowlistedAt : Z; Op_AllowlistedBy : string; Op_LastLoginAt : option Z;
  Op_GithubUsername : string; Op_MicrosoftUPN : string; Op_FirstSeenProvider : string }.

Record Session := mkSession {
  Sess_ID : string; Sess_OperatorID : string; Sess_CreatedAt : Z; Sess_LastSeenAt : Z;
  Sess_ExpiresAt : Z; Sess_IP : string; Sess_UserAgent : string }.

(** The values the handlers put into audit details. *)
Inductive dval := DStr (s : string) | DInt (n : Z) | DBool (b : bool).
Definition details := list (string * dval).

Record Entry := mkEntry {
  E_ID : Z; E_Ts : Z; E_OperatorID : string; E_Action : string; E_TargetType : string;
  E_TargetID : string; E_Details : details; E_IP : string; E_UserAgent : string }.

Record AuditFilter := mkAuditFilter {
  f_OperatorID : string; f_Action : string; f_TargetType : string; f_TargetID : string;
  f_Since : option Z; f_Until : option Z }.

(** Enumerated strings: the constants of store.go. *)
Definition AccountStatusActive : string := "active".
Definition AccountStatusSuspended : string := "suspended".
Definition AccountStatusDeleted : string := "deleted".
Definition OperatorRoleAdmin : string := "admin".
Definition OperatorRoleReadonly : string := "readonly".
Definition OperatorStatusActive : string := "active".
Definition OperatorStatusDisabled : string := "disabled".
Definition legacyAccountID : string := "legacy".

(** ** Table rows (the primary key is the key of the table's map) *)
Record account_row := mkAccountRow {
  a_email : string; a_org_name : option string; a_status : string;
  a_created_at : Z; a_created_by : string }.

Record operator_row := mkOperatorRow {
  o_email : string; o_role : string; o_status : string; o_allowlisted_at : Z;
  o_allowlisted_by : option string; o_last_login_at : option Z;
  o_github_username : option string; o_microsoft_upn : option string;
  o_first_seen_provider : option string }.

Record session_row := mkSessionRow {
  s_operator_id : string; s_created_at : Z; s_last_seen_at : Z; s_expires_at : Z;
  s_ip : option string; s_user_agent : option string }.

Record key_row := mkKeyRow {
  k_component : string; k_label : string; k_active : Z; k_created_at : Z;
  k_expires_at : option Z; k_usage_count : Z; k_account_id : string }.

Record component_row := mkComponentRow {
  c_visibility : string; c_rpm_series : strings_t; c_rpm_os_families : strings_t;
  c_rpm_architectures : strings_t; c_created_at : Z }.

Record audit_row := mkAuditRow {
  l_id : Z; l_ts : Z; l_operator_id : option string; l_action : string;
  l_target_type : option string; l_target_id : option string; l_details : details;
  l_ip : option string; l_user_agent : option string }.

(** The database.  [audit_log] is in insertion order and [audit_seq] is its
    AUTOINCREMENT counter. *)
Record Database := mkDatabase {
  accounts : gmap string account_row;
  operators : gmap string operator_row;
  sessions : gmap string session_row;
  subscription_key : gmap string key_row;
  components : gmap string component_row;
  audit_log : list audit_row;
  audit_seq : Z }.

Definition set_accounts (t : gmap string account_row) (db : Database) : Database :=
  mkDatabase t (operators db) (sessions db) (subscription_key db) (components db)
    (audit_log db) (audit_seq db).
Definition set_operators (t : gmap string operator_row) (db : Database) : Database :=
  mkDatabase (accounts db) t (sessions db) (subscription_key db) (components db)
    (audit_log db) (audit_seq db).
Definition set_sessions (t : gmap string session_row) (db : Database) : Database :=
  mkDatabase (accounts db) (operators db) t (subscription_key db) (components db)
    (audit_log db) (audit_seq db).
Definition set_keys (t : gmap string key_row) (db : Database) : Database :=
  mkDatabase (accounts db) (operators db) (sessions db) t (components db)
    (audit_log db) (audit_seq db).
Definition set_components (t : gmap string component_row) (db : Database) : Database :=
  mkDatabase (accounts db) (operators db) (sessions db) (subscription_key db) t
    (audit_log db) (audit_seq db).
Definition set_audit (l : list audit_row) (seq : Z) (db : Database) : Database :=
  mkDatabase (accounts db) (operators db) (sessions db) (subscription_key db)
    (components db) l seq.

(** ** CHECK constraints of the schema *)
Definition email_check (e : string) : bool :=
  (e <>s "") && (e =s sql_lower e) && like "%_@_%" e.
Definition one_of (l : list string) (s : string) : bool := existsb (String.eqb s) l.

Definition account_check (r : account_row) : bool :=
  email_check (a_email r) && one_of ["active"; "suspended"; "deleted"] (a_status r).
Definition operator_check (r : operator_row) : bool :=
  email_check (o_email r) && one_of ["admin"; "readonly"] (o_role r) &&
  one_of ["active"; "disabled"] (o_status r) &&
  match o_first_seen_provider r with
  | None => true (* a CHECK that evaluates to NULL holds *)
  | Some p => one_of ["github"; "microsoft"] p
  end.
Definition component_check (r : component_row) : bool :=
  one_of ["public"; "private"] (c_visibility r).

(** ** In-process state *)
Record cachedComponent := mkCached { cc_comp : Component; cc_expiresAt : Z }.
Record Cache := mkCache {
  cache_entries : gmap string cachedComponent;
  cache_gen : gmap string Z (* uint64; absent reads as 0 *) }.

(** A token bucket of the rate limiter; [tokens] is a float64. *)
Record bucket := mkBucket { tokens : spec_float; lastUpdate : Z; lastAuditAt : Z }.

Record StateEntry := mkStateEntry {
  State_ : string; CodeVerifier : string; Provider : string; Created : Z }.

(** ** The world

    [w_clock] is the sequence of values the coming [time.Now] calls return,
    [w_fault] says for each coming SQL statement whether the driver fails it
    (busy, I/O, cancelled context) before it takes effect, and [w_rand] is the
    outcome of each coming [rand.Read]. *)
Record World := mkWorld {
  w_db : Database;
  w_cache : Cache;
  w_states : gmap string StateEntry;
  w_buckets : gmap string bucket;
  w_metrics : Metrics;
  w_clock : nat -> Z;
  w_fault : nat -> option string;
  w_rand : nat -> option (nat -> Z) }.

Definition with_db (db : Database) (w : World) : World :=
  mkWorld db (w_cache w) (w_states w) (w_buckets w) (w_metrics w) (w_clock w) (w_fault w) (w_rand w).
Definition with_cache (c : Cache) (w : World) : World :=
  mkWorld (w_db w) c (w_states w) (w_buckets w) (w_metrics w) (w_clock w) (w_fault w) (w_rand w).
Definition with_states (s : gmap string StateEntry) (w : World) : World :=
  mkWorld (w_db w) (w_cache w) s (w_buckets w) (w_metrics w) (w_clock w) (w_fault w) (w_rand w).
Definition with_buckets (b : gmap string bucket) (w : World) : World :=
  mkWorld (w_db w) (w_cache w) (w_states w) b (w_metrics w) (w_clock w) (w_fault w) (w_rand w).

Definition with_metrics (m : Metrics) (w : World) : World :=
  mkWorld (w_db w) (w_cache w) (w_states w) (w_buckets w) m (w_clock w) (w_fault w) (w_rand w).

Definition shift {A} (f : nat -> A) : nat -> A := fun n => f (S n).
Definition tick_clock (w : World) : World :=
  mkWorld (w_db w) (w_cache w) (w_states w) (w_buckets w) (w_metrics w) (shift (w_clock w)) (w_fault w) (w_rand w).
Definition tick_fault (w : World) : World :=
  mkWorld (w_db w) (w_cache w) (w_states w) (w_buckets w) (w_metrics w) (w_clock w) (shift (w_fault w)) (w_rand w).
Definition tick_rand (w : World) : World :=
  mkWorld (w_db w) (w_cache w) (w_states w) (w_buckets w) (w_metrics w) (w_clock w) (w_fault w) (shift (w_rand w)).

(** Unicode tables for concrete runs: ASCII letters only. *)
Definition ascii_tables : UnicodeTables.
Proof.
  refine {| unicode_lower := sql_lower;
            unicode_print := fun r => (32 <=? r)%Z && (r <=? 126)%Z;
            unicode_fold := fun r => if (65 <=? r)%Z && (r <=? 90)%Z then (r + 32)%Z else r |}.
  - intros s. unfold sql_lower. induction s as [|c s IH]; [done|]. cbn [string_map].
    rewrite IH. f_equal. by destruct c as [[] [] [] [] [] [] [] []].
  - intros r Hr. rewrite (proj2 (andb_true_iff _ _)); [|lia].
    rewrite (proj2 (andb_false_iff _ _)); [done|lia].
Defined.
