(* ===== verification/Times.v ===== *)
(** * Timestamps: package time on RFC 3339 text

    Every DATETIME column and every time in a request or response is RFC 3339
    text.  [time_Parse] is [time.Parse(time.RFC3339, s)], which is also what
    [time.Time] decodes JSON with; [format_RFC3339] and [format_RFC3339Nano]
    are [Format] on a time in UTC.  An instant is a number of nanoseconds since
    the Unix epoch. *)
From Stdlib Require Import ZArith Lia Ascii.
From stdpp Require Import base gmap strings list.
From S2P Require Import Prelude GoStrings Errors State.
Open Scope packyard_scope.

(** ** The calendar *)
Definition is_leap (year : Z) : bool :=
  (year mod 4 =? 0)%Z && (negb (year mod 100 =? 0)%Z || (year mod 400 =? 0)%Z).

Definition daysIn (month year : Z) : Z :=
  (if month =? 2 then if is_leap year then 29 else 28
   else if (month =? 4) || (month =? 6) || (month =? 9) || (month =? 11) then 30 else 31)%Z.

(** The days before the first of March of a year, from that of year 0; years
    that begin in March end with the leap day. *)
Definition march (year : Z) : Z := (365 * year + year / 4 - year / 100 + year / 400)%Z.

(** The day of the first of March of year 0, from the epoch, negated. *)
Definition epoch_day : Z := 719468.

Definition march_month (month : Z) : Z := (if month <=? 2 then month + 9 else month - 3)%Z.
Definition march_year (year month : Z) : Z := (if month <=? 2 then year - 1 else year)%Z.

Definition days_of_date (year month day : Z) : Z :=
  (march (march_year year month) + (153 * march_month month + 2) / 5 + (day - 1) - epoch_day)%Z.

(** The March year of a day: near a 400-year average. *)
Definition year_of_day (n : Z) : Z :=
  (let g := n * 400 / 146097 in
   if march (g + 1) <=? n then g + 1 else if n <? march g then g - 1 else g)%Z.

Definition date_of_days (z : Z) : Z * Z * Z :=
  (let n := z + epoch_day in
   let a := year_of_day n in
   let doy := n - march a in
   let mp := (5 * doy + 2) / 153 in
   let day := doy - (153 * mp + 2) / 5 + 1 in
   let month := if mp <? 10 then mp + 3 else mp - 9 in
   (if month <=? 2 then a + 1 else a, month, day))%Z.

(** ** Digits *)
(** The last [n] digits of [x]. *)
Fixpoint dec (n : nat) (x : Z) : string :=
  match n with
  | O => EmptyString
  | S n => String (of_byte (48 + x / 10 ^ Z.of_nat n)) (dec n (x mod 10 ^ Z.of_nat n))
  end.

(** [appendInt] of package time: at least [width] digits, after the sign. *)
Definition appendInt (width : nat) (x : Z) : string :=
  let u := Z.abs x in
  (if (x <? 0)%Z then "-" else "") +:+ (if (u <? 10 ^ Z.of_nat width)%Z then dec width u else itoa u).

(** Exactly [n] digits, on top of [acc]. *)
Fixpoint getnum (n : nat) (acc : Z) (s : string) : option (Z * string) :=
  match n, s with
  | O, _ => Some (acc, s)
  | S n, String c s => if is_digit c then getnum n (acc * 10 + digit c)%Z s else None
  | S _, EmptyString => None
  end.

Definition literal (c : ascii) (s : string) : option string :=
  match s with String c' s => if Ascii.eqb c' c then Some s else None | EmptyString => None end.

(** One or two digits. *)
Definition getnum_loose (s : string) : option (Z * string) :=
  match getnum 2 0 s with Some r => Some r | None => getnum 1 0 s end.

Definition number_in (lo hi : Z) (o : option (Z * string)) : option (Z * string) :=
  match o with
  | Some (x, s) => if (lo <=? x)%Z && (x <=? hi)%Z then Some (x, s) else None
  | None => None
  end.

(** ** The fraction *)
Fixpoint digit_run (s : string) : string * string :=
  match s with
  | String c s' => if is_digit c then let '(d, rest) := digit_run s' in (String c d, rest) else ("", s)
  | EmptyString => ("", "")
  end.

(** [parseNanoseconds]: nine digits count. *)
Definition nanoseconds (ds : string) : Z :=
  let ds := stake 9 ds in
  match getnum (String.length ds) 0 ds with
  | Some (x, _) => (x * 10 ^ (9 - Z.of_nat (String.length ds)))%Z
  | None => 0%Z
  end.

Definition fraction (s : string) : Z * string :=
  match s with
  | String c s' =>
      if Ascii.eqb c "." || Ascii.eqb c "," then
        let '(ds, rest) := digit_run s' in
        if ds =s "" then (0%Z, s) else (nanoseconds ds, rest)
      else (0%Z, s)
  | EmptyString => (0%Z, s)
  end.

(** ** The zone: Z, or an offset in seconds *)
Definition zone (s : string) : option (Z * string) :=
  match s with
  | String c s' =>
      if Ascii.eqb c "Z" then Some (0%Z, s')
      else
        match getnum 2 0 s' with
        | Some (hh, s1) =>
            match literal ":" s1 with
            | Some s2 =>
                match getnum 2 0 s2 with
                | Some (mm, s3) =>
                    if (24 <? hh)%Z || (60 <? mm)%Z then None
                    else if Ascii.eqb c "+" then Some (((hh * 60 + mm) * 60)%Z, s3)
                    else if Ascii.eqb c "-" then Some ((- ((hh * 60 + mm) * 60))%Z, s3)
                    else None
                | None => None
                end
            | None => None
            end
        | None => None
        end
  | EmptyString => None
  end.

(** ** Parsing *)
Definition seconds_of (year month day hour min sec : Z) : Z :=
  (days_of_date year month day * 86400 + hour * 3600 + min * 60 + sec)%Z.

(** A number and the separator behind it. *)
Definition field (n : option (Z * string)) (sep : ascii) : option (Z * string) :=
  match n with
  | Some (x, s) => (fun s => (x, s)) <$> literal sep s
  | None => None
  end.

Definition time_Parse (s : string) : option Z :=
  year_s ← field (getnum 4 0 s) "-";
  month_s ← field (number_in 1 12 (getnum 2 0 (snd year_s))) "-";
  day_s ← field (getnum 2 0 (snd month_s)) "T";
  hour_s ← field (number_in 0 23 (getnum_loose (snd day_s))) ":";
  min_s ← field (number_in 0 59 (getnum 2 0 (snd hour_s))) ":";
  sec_s ← number_in 0 59 (getnum 2 0 (snd min_s));
  let '(nsec, s) := fraction (snd sec_s) in
  zone_s ← zone s;
  let day := fst day_s in
  if negb (snd zone_s =s "") then None
  else if (day <? 1)%Z || (daysIn (fst month_s) (fst year_s) <? day)%Z then None
  else Some ((seconds_of (fst year_s) (fst month_s) day (fst hour_s) (fst min_s) (fst sec_s)
              - fst zone_s) * Second + nsec)%Z.

(** ** Formatting, in UTC *)
Definition stamp_text (sec : Z) : string :=
  let '(year, month, day) := date_of_days (sec / 86400) in
  let rest := (sec mod 86400)%Z in
  appendInt 4 year +:+ "-" +:+ appendInt 2 month +:+ "-" +:+ appendInt 2 day +:+ "T" +:+
  appendInt 2 (rest / 3600)%Z +:+ ":" +:+ appendInt 2 (rest mod 3600 / 60)%Z +:+ ":" +:+
  appendInt 2 (rest mod 60)%Z.

Definition format_RFC3339 (t : Z) : string := stamp_text (t / Second) +:+ "Z".

(** Reading a column: the text of second [sec] goes through [time.Parse]. *)
Definition scan_time (sec : Z) : option Z := time_Parse (stamp_text sec +:+ "Z").

Fixpoint trim_zeros (s : string) : string :=
  match s with
  | String c s' =>
      let s' := trim_zeros s' in
      if Ascii.eqb c "0" && (s' =s "") then "" else String c s'
  | EmptyString => ""
  end.

Definition format_RFC3339Nano (t : Z) : string :=
  let f := trim_zeros (dec 9 (t mod Second)) in
  stamp_text (t / Second) +:+ (if f =s "" then "" else "." +:+ f) +:+ "Z".

(** ** On concrete texts *)
Example time_parses :
  map time_Parse ["1970-01-01T00:00:00Z"; "2024-02-29T23:59:59.5+01:30"; "2026-07-04T5:06:07,123456789123-00:00";
                  "0000-01-01T00:00:00Z"; "9999-12-31T23:59:59-23:59"; "1969-12-31T23:59:59.999999999Z"]
  = [Some 0; Some 1709245799500000000; Some 1783141567123456789; Some (-62167219200000000000);
     Some 253402387139000000000; Some (-1)]%Z.
Proof. vm_compute. reflexivity. Qed.
Example refuses_texts :
  map time_Parse [""; "2023-02-29T00:00:00Z"; "2024-13-01T00:00:00Z"; "2024-01-01T24:00:00Z"; "2024-01-01 00:00:00Z";
                  "2024-01-01T00:00:00"; "2024-01-01T00:00:00z"; "2024-01-01T00:00:00Z "; "24-01-01T00:00:00Z";
                  "2024-01-01T00:00:60Z"; "2024-01-01T00:00:00.Z"; "2024-01-01T00:00:00+25:00"]
  = repeat None 12.
Proof. vm_compute. reflexivity. Qed.
Example formats :
  map format_RFC3339Nano [0; 1709245799500000000; -1; 253402300800000000000; -62167219201000000000]%Z
  = ["1970-01-01T00:00:00Z"; "2024-02-29T22:29:59.5Z"; "1969-12-31T23:59:59.999999999Z";
     "10000-01-01T00:00:00Z"; "-0001-12-31T23:59:59Z"].
Proof. vm_compute. reflexivity. Qed.
