(* ===== verification/Fixtures.v ===== *)
(** * A small installation, for concrete runs

    One customer account with one active key for the private component
    "core", the public component "pub", one admin with a session, and a driver
    that fails nothing. *)
From Stdlib Require Import ZArith.
From stdpp Require Import base gmap strings list.
From S2P Require Import Prelude GoStrings Errors Metrics State.

Definition demo_key : string := "0000000000000000000000000000000000000000000000000000000000000000".
Definition demo_second : Z := 1800000000.

Definition demo_accounts : gmap string account_row :=
  {["legacy" := mkAccountRow "legacy@packyard.internal" (Some "Pre-account keys") "active" 0 "bootstrap";
    "acct" := mkAccountRow "ops@example.org" (Some "Example") "active" demo_second "op"]}.

Definition demo_admin : operator_row :=
  mkOperatorRow "admin@example.org" "admin" "active" demo_second (Some "bootstrap") None None None None.

Definition demo_session : session_row :=
  mkSessionRow "op" demo_second demo_second (demo_second + 24 * 3600) None None.

Definition demo_key_row : key_row := mkKeyRow "core" "ci" 1 demo_second None 0 "acct".

Definition demo_db : Database :=
  mkDatabase demo_accounts {["op" := demo_admin]} {["sess" := demo_session]}
    {[demo_key := demo_key_row]}
    {["core" := mkComponentRow "private" (Some []) (Some []) (Some []) demo_second;
      "pub" := mkComponentRow "public" (Some []) (Some []) (Some []) demo_second]}
    [] 0.

(** The clock stands one minute after the session was created. *)
Definition demo_now : Z := (demo_second + 60) * Second.

Definition demo_world (db : Database) : World :=
  mkWorld db (mkCache ∅ ∅) ∅ ∅ no_metrics (fun _ => demo_now) (fun _ => None)
    (fun _ => Some (fun i => Z.of_nat i)).
