(* ===== verification/Tables.v ===== *)
(** * SQL on the tables: ordering, paging, uniqueness

    What the statements of package store share. *)
From Stdlib Require Import ZArith Lia.
From stdpp Require Import base gmap strings list sorting.
From S2P Require Import Prelude GoStrings Errors State.
Open Scope packyard_scope.

(** [LIMIT limit OFFSET offset]: SQLite reads a negative limit as none and a
    negative offset as zero. *)
Definition sql_page {A} (offset limit : Z) (l : list A) : list A :=
  let l := drop (Z.to_nat offset) l in
  if (limit <? 0)%Z then l else take (Z.to_nat limit) l.

Lemma sql_page_page {A} (offset limit : Z) (l : list A) :
  (0 <= limit)%Z -> sql_page offset limit l = page (Z.to_nat offset) (Z.to_nat limit) l.
Proof. intros Hl. unfold sql_page. by rewrite (proj2 (Z.ltb_ge _ _) Hl). Qed.

(** SQL's [COALESCE] on nullable values. *)
Definition COALESCE {A} (x y : option A) : option A :=
  match x with Some _ => x | None => y end.

(** A boolean comparison as a decidable relation. *)
Definition brel {A} (f : A -> A -> bool) : relation A := fun x y => f x y = true.
#[export] Instance brel_dec {A} (f : A -> A -> bool) x y : Decision (brel f x y).
Proof. unfold brel. apply _. Defined.

Section Order.
Context {A : Type} (created : A -> Z).

(** [ORDER BY created DESC, id DESC]; text compares byte by byte. *)
Definition newest_first (x y : string * A) : bool :=
  (created y.2 <? created x.2)%Z ||
  ((created y.2 =? created x.2)%Z && String.leb y.1 x.1).

(** [ORDER BY created DESC]: ties in whatever order the scan gave. *)
Definition newest_first_only (x y : string * A) : bool :=
  (created y.2 <=? created x.2)%Z.

Definition order_newest (l : list (string * A)) : list (string * A) :=
  merge_sort (brel newest_first) l.

Definition order_newest_only (l : list (string * A)) : list (string * A) :=
  merge_sort (brel newest_first_only) l.

Lemma order_newest_perm l : order_newest l ≡ₚ l.
Proof. apply merge_sort_Permutation. Qed.

Lemma order_newest_only_perm l : order_newest_only l ≡ₚ l.
Proof. apply merge_sort_Permutation. Qed.

#[local] Instance newest_first_total : Total (brel newest_first).
Proof.
  intros [i x] [j y]. unfold brel, newest_first. simpl.
  destruct (String.leb_total i j) as [Hs|Hs]; rewrite Hs;
    destruct (Z.lt_total (created x) (created y)) as [Hl|[He|Hg]]; lia.
Qed.

#[local] Instance newest_first_trans : Transitive (brel newest_first).
Proof.
  intros [i x] [j y] [k z]. unfold brel, newest_first. simpl.
  rewrite !orb_true_iff, !andb_true_iff, !Z.ltb_lt, !Z.eqb_eq.
  intros [?|[? Hij]] [?|[? Hjk]]; [left; lia..|right]. split; [lia|].
  apply Is_true_true. etrans; by apply Is_true_true.
Qed.

Lemma order_newest_sorted l :
  StronglySorted (brel newest_first) (order_newest l).
Proof. apply StronglySorted_merge_sort; apply _. Qed.
End Order.

(** The rows of a table in the order of an unordered query. *)
Definition scan `{SqlDriver} {A} (t : gmap string A) : list (string * A) :=
  driver_scan (map_to_list t).

Lemma elem_of_scan `{SqlDriver} {A} (t : gmap string A) k r :
  (k, r) ∈ scan t <-> t !! k = Some r.
Proof. unfold scan. rewrite driver_scan_perm. apply elem_of_map_to_list. Qed.

(** [ORDER BY name ASC]. *)
Definition order_by_key {A} (l : list (string * A)) : list (string * A) :=
  merge_sort (brel (fun x y => String.leb x.1 y.1)) l.

Lemma order_by_key_perm {A} (l : list (string * A)) : order_by_key l ≡ₚ l.
Proof. apply merge_sort_Permutation. Qed.

(** Is a value of a UNIQUE column already held by a row other than [id]? *)
Definition held_by_other {A} (col : A -> string) (t : gmap string A) (id v : string) : bool :=
  existsb (fun kr => (kr.1 <>s id) && (col kr.2 =s v)) (map_to_list t).

Lemma held_by_other_false {A} (col : A -> string) t id v :
  held_by_other col t id v = false <->
  forall k r, t !! k = Some r -> k <> id -> col r <> v.
Proof.
  unfold held_by_other. rewrite <- not_true_iff_false, existsb_exists. split.
  - intros Hn k r Hk Hne He. apply Hn. exists (k, r). split.
    + apply list_elem_of_In, elem_of_map_to_list. done.
    + simpl. apply andb_true_iff. split; [by apply negb_true_iff, String.eqb_neq|].
      by apply String.eqb_eq.
  - intros Hf ([k r] & Hin & Hb). simpl in Hb. string_reflect.
    apply list_elem_of_In, elem_of_map_to_list in Hin. by eapply Hf.
Qed.

(** A column is unique across a table. *)
Definition unique_column {A} (col : A -> string) (t : gmap string A) : Prop :=
  forall i j r s, t !! i = Some r -> t !! j = Some s -> col r = col s -> i = j.

Lemma unique_column_insert {A} (col : A -> string) t id r :
  unique_column col t -> held_by_other col t id (col r) = false ->
  unique_column col (<[id := r]> t).
Proof.
  intros Hu Hf i j x y Hi Hj He. rewrite held_by_other_false in Hf.
  rewrite lookup_insert in Hi, Hj. repeat case_decide; simplify_eq; eauto.
  - exfalso. specialize (Hf i x). naive_solver.
  - exfalso. specialize (Hf j y). naive_solver.
Qed.

(** The row a lookup on a unique column finds: [SELECT ... WHERE col = v]. *)
Definition find_by {A} (col : A -> string) (v : string) (t : gmap string A) :
    option (string * A) :=
  List.find (fun kr => col kr.2 =s v) (map_to_list t).

Lemma find_by_Some {A} (col : A -> string) v t k r :
  unique_column col t ->
  find_by col v t = Some (k, r) <-> t !! k = Some r /\ col r = v.
Proof.
  intros Hu. unfold find_by. split.
  - intros Hf. apply find_some in Hf as [Hin He]. string_reflect.
    split; [|done]. by apply elem_of_map_to_list, list_elem_of_In.
  - intros [Hk Hc]. destruct (List.find _ _) as [[k' r']|] eqn:E.
    + apply find_some in E as [Hin He]. string_reflect. simpl in He.
      apply list_elem_of_In, elem_of_map_to_list in Hin.
      assert (k' = k) as -> by (eapply Hu; eauto; congruence). congruence.
    + eapply find_none in E; [|by apply list_elem_of_In, elem_of_map_to_list].
      simpl in E. string_reflect. done.
Qed.

(** What is found is there; this much needs no uniqueness. *)
Lemma find_by_sound {A} (col : A -> string) v t k r :
  find_by col v t = Some (k, r) -> t !! k = Some r /\ col r = v.
Proof.
  unfold find_by. intros Hf. apply find_some in Hf as [Hin He]. string_reflect.
  split; [|done]. by apply elem_of_map_to_list, list_elem_of_In.
Qed.

Lemma find_by_None {A} (col : A -> string) v (t : gmap string A) :
  find_by col v t = None <-> forall k r, t !! k = Some r -> col r <> v.
Proof.
  unfold find_by. split.
  - intros Hf k r Hk. eapply find_none in Hf;
      [|by apply list_elem_of_In, elem_of_map_to_list]. by apply String.eqb_neq in Hf.
  - intros Hf. destruct (List.find _ _) as [[k r]|] eqn:E; [|done].
    apply find_some in E as [Hin He]. string_reflect.
    apply list_elem_of_In, elem_of_map_to_list in Hin. by edestruct Hf.
Qed.
