(* ===== verification/Encoding.v ===== *)
(** * Text encodings of package url and encoding/base64

    Query and path escaping, [url.Values] with [Encode] and [ParseQuery], the
    URL-safe base64 of the nonces and of JSON web tokens; and that what the
    encoders write, the decoders read back. *)
From Stdlib Require Import ZArith Lia Ascii.
From stdpp Require Import base gmap strings list sorting.
From S2P Require Import Prelude GoStrings Tables.
Open Scope packyard_scope.

(** ** Percent escapes *)
Definition unreserved (c : ascii) : bool :=
  let b := byte_of c in
  ((97 <=? b) && (b <=? 122) || (65 <=? b) && (b <=? 90) || (48 <=? b) && (b <=? 57) ||
   (b =? 45) || (b =? 95) || (b =? 46) || (b =? 126))%Z.

Definition upper_hex (n : Z) : ascii :=
  if (n <? 10)%Z then of_byte (48 + n) else of_byte (55 + n).

Definition percent (c : ascii) (s : string) : string :=
  String "%" (String (upper_hex (byte_of c / 16)%Z) (String (upper_hex (byte_of c mod 16)%Z) s)).

(** [url.QueryEscape]. *)
Fixpoint QueryEscape (s : string) : string :=
  match s with
  | EmptyString => EmptyString
  | String c s =>
      if unreserved c then String c (QueryEscape s)
      else if (byte_of c =? 32)%Z then String "+" (QueryEscape s)
      else percent c (QueryEscape s)
  end.

(** [url.PathEscape]: a segment also keeps [$], [&], [+], [:], [=] and [@]. *)
Definition path_kept (c : ascii) : bool :=
  let b := byte_of c in
  ((b =? 36) || (b =? 38) || (b =? 43) || (b =? 58) || (b =? 61) || (b =? 64))%Z.

Fixpoint PathEscape (s : string) : string :=
  match s with
  | EmptyString => EmptyString
  | String c s =>
      if unreserved c || path_kept c then String c (PathEscape s) else percent c (PathEscape s)
  end.

Definition hex_value (c : ascii) : option Z :=
  let b := byte_of c in
  (if (48 <=? b) && (b <=? 57) then Some (b - 48)
   else if (97 <=? b) && (b <=? 102) then Some (b - 87)
   else if (65 <=? b) && (b <=? 70) then Some (b - 55)
   else None)%Z.

(** [url.QueryUnescape]; [None] for a malformed escape. *)
Fixpoint QueryUnescape (s : string) : option string :=
  match s with
  | EmptyString => Some EmptyString
  | String c s1 =>
      if (byte_of c =? 37)%Z then
        match s1 with
        | String h (String l s2) =>
            match hex_value h, hex_value l, QueryUnescape s2 with
            | Some h, Some l, Some t => Some (String (of_byte (h * 16 + l)) t)
            | _, _, _ => None
            end
        | _ => None
        end
      else String (if (byte_of c =? 43)%Z then of_byte 32 else c) <$> QueryUnescape s1
  end.

(** ** Query strings *)
Definition encode_pair (kv : string * string) : string :=
  QueryEscape kv.1 +:+ "=" +:+ QueryEscape kv.2.

Definition value_pairs (l : list (string * list string)) : list (string * string) :=
  flat_map (fun kv => map (pair kv.1) kv.2) l.

(** [url.Values.Encode]: sorted by key. *)
Definition encode_values (vs : gmap string (list string)) : string :=
  String.concat "&" (map encode_pair (value_pairs (order_by_key (map_to_list vs)))).

(** [Values.Add]. *)
Definition add_value (vs : gmap string (list string)) (kv : string * string) :
    gmap string (list string) := <[kv.1 := default [] (vs !! kv.1) ++ [kv.2]]> vs.

Definition decode_pair (seg : string) : option (string * string) :=
  if Contains seg ";" || (seg =s "") then None
  else let '(k, v) := default (seg, "") (cut_byte seg "=") in
       match QueryUnescape k, QueryUnescape v with
       | Some k, Some v => Some (k, v)
       | _, _ => None
       end.

(** [url.ParseQuery] as [URL.Query] uses it: malformed pairs are dropped. *)
Definition ParseQuery (query : string) : gmap string (list string) :=
  fold_left add_value (omap decode_pair (split_byte query "&")) ∅.

(** *** Escaped text holds no separators *)
Lemma percent_unescape c s t :
  QueryUnescape s = Some t -> QueryUnescape (percent c s) = Some (String c t).
Proof.
  intros Hs. unfold percent.
  destruct c as [[] [] [] [] [] [] [] []]; cbn; rewrite Hs; reflexivity.
Qed.

Lemma QueryUnescape_escape s : QueryUnescape (QueryEscape s) = Some s.
Proof.
  induction s as [|c s IH]; [done|]. cbn [QueryEscape]. destruct (unreserved c) eqn:Eu.
  - cbn [QueryUnescape]. rewrite IH.
    assert (byte_of c <> 37 /\ byte_of c <> 43)%Z as [H1 H2].
    { unfold unreserved in Eu. split; intros Hb; by rewrite Hb in Eu. }
    apply Z.eqb_neq in H1, H2. by rewrite H1, H2.
  - destruct (byte_of c =? 32)%Z eqn:Es; [|by apply percent_unescape].
    cbn [QueryUnescape]. rewrite IH. cbn. repeat f_equal. apply Z.eqb_eq in Es.
    by destruct c as [[] [] [] [] [] [] [] []].
Qed.

(** The bytes of an escaped string: unreserved, or one of the two marks. *)
Definition escaped_char (c : ascii) : bool :=
  unreserved c || (byte_of c =? 37)%Z || (byte_of c =? 43)%Z.

Lemma upper_hex_escaped c :
  escaped_char (upper_hex (byte_of c / 16)%Z) = true /\
  escaped_char (upper_hex (byte_of c mod 16)%Z) = true.
Proof. by destruct c as [[] [] [] [] [] [] [] []]. Qed.

Lemma QueryEscape_chars s : string_forallb escaped_char (QueryEscape s) = true.
Proof.
  induction s as [|c s IH]; [done|]. cbn [QueryEscape]. destruct (unreserved c) eqn:Eu.
  - cbn [string_forallb]. unfold escaped_char at 1. by rewrite Eu.
  - destruct (byte_of c =? 32)%Z; [done|]. unfold percent. cbn [string_forallb].
    destruct (upper_hex_escaped c) as [-> ->]. by rewrite IH.
Qed.

Lemma escaped_lacks c s :
  escaped_char c = false -> string_forallb escaped_char s = true -> lacks c s = true.
Proof.
  intros Hc. unfold lacks. induction s as [|d s IH]; [done|]. cbn [string_forallb].
  intros [Hd Hs]%andb_true_iff. rewrite IH by done. destruct (Ascii.eqb_spec d c); [congruence|done].
Qed.

Lemma QueryEscape_lacks c s : escaped_char c = false -> lacks c (QueryEscape s) = true.
Proof. intros Hc. apply escaped_lacks; [done|apply QueryEscape_chars]. Qed.

Lemma lacks_Contains c s : lacks c s = true -> Contains s (String c "") = false.
Proof.
  unfold lacks. induction s as [|d s IH]; [done|]. cbn [string_forallb Contains].
  intros [Hd Hs]%andb_true_iff. rewrite IH by done.
  unfold HasPrefix. cbn [String.prefix]. destruct (Ascii.ascii_dec c d) as [->|]; [|done].
  by rewrite Ascii.eqb_refl in Hd.
Qed.

Lemma encode_pair_lacks c kv :
  escaped_char c = false -> c <> "="%char -> lacks c (encode_pair kv) = true.
Proof.
  intros Hc Hne. unfold encode_pair. rewrite !lacks_app, !QueryEscape_lacks by done.
  unfold lacks. cbn [string_forallb]. destruct (Ascii.eqb_spec "=" c); [congruence|done].
Qed.

Lemma decode_encode_pair kv : decode_pair (encode_pair kv) = Some kv.
Proof.
  unfold decode_pair. rewrite (lacks_Contains ";") by (apply encode_pair_lacks; [reflexivity|discriminate]).
  assert ((encode_pair kv =s "") = false) as -> by (unfold encode_pair; by destruct (QueryEscape kv.1)).
  cbn [orb]. assert (cut_byte (encode_pair kv) "=" = Some (QueryEscape kv.1, QueryEscape kv.2)) as ->.
  { apply cut_byte_Some. split; [done|]. by apply QueryEscape_lacks. }
  cbv beta iota delta [default from_option id]. rewrite !QueryUnescape_escape. by destruct kv.
Qed.

(** *** Splitting a joined text *)
Lemma split_byte_lacks c s : lacks c s = true -> split_byte s c = [s].
Proof.
  unfold lacks. induction s as [|d s IH]; [done|]. cbn [string_forallb split_byte].
  intros [Hd Hs]%andb_true_iff. apply negb_true_iff in Hd. by rewrite Hd, IH.
Qed.

Lemma split_byte_cons s c : exists f fs, split_byte s c = f :: fs.
Proof.
  induction s as [|d s (f & fs & IH)]; cbn [split_byte]; [eauto|]. rewrite IH.
  destruct (Ascii.eqb d c); eauto.
Qed.

(** Splitting at a separator splits both sides. *)
Lemma split_byte_app c s t :
  split_byte (s +:+ String c t) c = split_byte s c ++ split_byte t c.
Proof.
  induction s as [|d s IH].
  - change ("" +:+ ?x) with x. cbn [split_byte]. by rewrite Ascii.eqb_refl.
  - change (String d s +:+ String c t) with (String d (s +:+ String c t)).
    cbn [split_byte]. rewrite IH. destruct (Ascii.eqb d c); [done|].
    destruct (split_byte_cons s c) as (f & fs & ->). done.
Qed.

Lemma split_byte_pieces s c : Forall (fun p => lacks c p = true) (split_byte s c).
Proof.
  induction s as [|d s IH]; cbn [split_byte]; [by constructor|].
  destruct (Ascii.eqb d c) eqn:E; [by constructor|].
  destruct (split_byte s c) as [|f fs]; [by repeat constructor; unfold lacks; simpl; rewrite E|].
  inversion IH. constructor; [|done]. unfold lacks in *. simpl. by rewrite E.
Qed.

Lemma split_concat c l :
  Forall (fun s => lacks c s = true) l -> l <> [] ->
  split_byte (String.concat (String c "") l) c = l.
Proof.
  induction 1 as [|s l Hs Hl IH]; [done|]. intros _. destruct l as [|t l].
  - by apply split_byte_lacks.
  - change (String.concat (String c "") (s :: t :: l))
      with (s +:+ String c (String.concat (String c "") (t :: l))).
    rewrite split_byte_app, split_byte_lacks by done. by rewrite IH.
Qed.

Lemma decode_joined l :
  omap decode_pair (split_byte (String.concat "&" (map encode_pair l)) "&") = l.
Proof.
  destruct l as [|kv l]; [reflexivity|]. rewrite split_concat; [|..|done].
  - generalize (kv :: l). clear kv l. induction l as [|kv l IH]; [done|].
    change (map encode_pair (kv :: l)) with (encode_pair kv :: map encode_pair l).
    csimpl. by rewrite decode_encode_pair, IH.
  - apply Forall_forall. intros s (x & -> & _)%list_elem_of_fmap.
    apply encode_pair_lacks; [reflexivity|discriminate].
Qed.

(** *** Collecting the pairs *)
Lemma add_values_same k vs l acc :
  fold_left add_value (map (pair k) l) (<[k := vs]> acc) = <[k := vs ++ l]> acc.
Proof.
  revert vs. induction l as [|v l IH]; intros vs; [by rewrite app_nil_r|].
  cbn [map fold_left]. unfold add_value at 2. cbn [fst snd].
  rewrite lookup_insert_eq, insert_insert_eq. cbn [default from_option]. rewrite IH.
  by rewrite <-app_assoc.
Qed.

Lemma add_values_fresh k l acc :
  l <> [] -> acc !! k = None -> fold_left add_value (map (pair k) l) acc = <[k := l]> acc.
Proof.
  intros Hl Hk. destruct l as [|v l]; [done|]. cbn [map fold_left]. unfold add_value at 2.
  cbn [fst snd]. rewrite Hk. cbn. by rewrite add_values_same.
Qed.

Lemma add_value_groups l acc :
  NoDup l.*1 -> Forall (fun kv => kv.2 <> []) l -> (forall k, k ∈ l.*1 -> acc !! k = None) ->
  fold_left add_value (value_pairs l) acc = list_to_map l ∪ acc.
Proof.
  revert acc. induction l as [|[k vs] l IH]; intros acc Hnd Hne Hfresh.
  { cbn. by rewrite (left_id_L ∅ (∪)). }
  apply NoDup_cons in Hnd as [Hk Hnd]. apply Forall_cons in Hne as [Hv Hne].
  unfold value_pairs. cbn [flat_map fst snd]. rewrite fold_left_app.
  rewrite add_values_fresh; [|done|apply Hfresh; left].
  fold (value_pairs l). rewrite IH; [|done|done|].
  - cbn [list_to_map foldr fst snd]. rewrite <-insert_union_r, insert_union_l; [done|].
    by apply not_elem_of_list_to_map_1.
  - intros j Hj. rewrite lookup_insert_ne by (intros ->; done). apply Hfresh. by right.
Qed.

(** What [Encode] writes, [ParseQuery] reads back, for every map without
    empty value lists. *)
Lemma ParseQuery_encode vs :
  (forall k l, vs !! k = Some l -> l <> []) -> ParseQuery (encode_values vs) = vs.
Proof.
  intros Hne. unfold ParseQuery, encode_values. rewrite decode_joined.
  pose proof (order_by_key_perm (map_to_list vs)) as Hp. rewrite add_value_groups.
  - rewrite (right_id_L ∅ (∪)). rewrite <-(list_to_map_to_list vs) at 2.
    apply list_to_map_proper; [|done]. rewrite Hp. apply NoDup_fst_map_to_list.
  - rewrite Hp. apply NoDup_fst_map_to_list.
  - rewrite Hp. apply Forall_forall. intros [k l] Hl. apply elem_of_map_to_list in Hl. eauto.
  - intros k _. apply lookup_empty.
Qed.

(** ** Base64 for URLs, without padding *)
(** The digit of a six-bit value. *)
Definition base64url_char (n : Z) : ascii :=
  of_byte (if n <? 26 then n + 65
           else if n <? 52 then n + 71
           else if n <? 62 then n - 4
           else if n =? 62 then 45 else 95)%Z.

(** [base64.RawURLEncoding.EncodeToString]. *)
Fixpoint base64url_encode (bs : list Z) : string :=
  let c n := base64url_char n in
  match bs with
  | a :: b :: d :: bs =>
      String (c (a / 4)%Z) (String (c (a mod 4 * 16 + b / 16)%Z)
        (String (c (b mod 16 * 4 + d / 64)%Z) (String (c (d mod 64)%Z) (base64url_encode bs))))
  | [a; b] => String (c (a / 4)%Z) (String (c (a mod 4 * 16 + b / 16)%Z)
                (String (c (b mod 16 * 4)%Z) EmptyString))
  | [a] => String (c (a / 4)%Z) (String (c (a mod 4 * 16)%Z) EmptyString)
  | [] => EmptyString
  end.

Definition base64url_digit (c : ascii) : option Z :=
  let b := byte_of c in
  (if (65 <=? b) && (b <=? 90) then Some (b - 65)
   else if (97 <=? b) && (b <=? 122) then Some (b - 71)
   else if (48 <=? b) && (b <=? 57) then Some (b + 4)
   else if b =? 45 then Some 62
   else if b =? 95 then Some 63
   else None)%Z.

Definition is_newline (c : ascii) : bool := (byte_of c =? 10)%Z || (byte_of c =? 13)%Z.

Fixpoint strip_newlines (s : string) : string :=
  match s with
  | EmptyString => EmptyString
  | String c s => if is_newline c then strip_newlines s else String c (strip_newlines s)
  end.

(** Three bytes of four digits; of a shorter last group, the low bits that
    fill no byte are ignored. *)
Fixpoint base64url_bytes (ds : list Z) : option (list Z) :=
  match ds with
  | a :: b :: c :: d :: ds =>
      app [a * 4 + b / 16; b mod 16 * 16 + c / 4; c mod 4 * 64 + d]%Z <$> base64url_bytes ds
  | [a; b; c] => Some [a * 4 + b / 16; b mod 16 * 16 + c / 4]%Z
  | [a; b] => Some [a * 4 + b / 16]%Z
  | [_] => None
  | [] => Some []
  end.

(** [base64.RawURLEncoding.DecodeString]. *)
Definition base64url_decode (s : string) : option (list Z) :=
  mapM base64url_digit (String.list_ascii_of_string (strip_newlines s)) ≫= base64url_bytes.

Definition is_byte (b : Z) : Prop := (0 <= b < 256)%Z.

Lemma base64url_digit_char n :
  (0 <= n < 64)%Z ->
  base64url_digit (base64url_char n) = Some n /\ is_newline (base64url_char n) = false.
Proof.
  intros Hn.
  assert (forall k, k < 64 -> base64url_digit (base64url_char (Z.of_nat k)) = Some (Z.of_nat k) /\
    is_newline (base64url_char (Z.of_nat k)) = false) as Hall.
  { intros k Hk. do 64 (destruct k as [|k]; [by vm_compute|]). lia. }
  rewrite <-(Z2Nat.id n) by lia. apply Hall. lia.
Qed.

Lemma mapM_digits ns s :
  Forall (fun n => 0 <= n < 64)%Z ns ->
  s = fold_right (fun n s => String (base64url_char n) s) EmptyString ns ->
  mapM base64url_digit (String.list_ascii_of_string (strip_newlines s)) = Some ns.
Proof.
  intros Hns ->. induction Hns as [|n ns Hn _ IH]; [done|]. cbn [fold_right strip_newlines].
  destruct (base64url_digit_char n Hn) as [Hd ->]. cbn. by rewrite Hd, IH.
Qed.

(** The digits of a byte string. *)
Fixpoint sextets (bs : list Z) : list Z :=
  (match bs with
  | a :: b :: d :: bs => [a / 4; a mod 4 * 16 + b / 16; b mod 16 * 4 + d / 64; d mod 64] ++ sextets bs
  | [a; b] => [a / 4; a mod 4 * 16 + b / 16; b mod 16 * 4]
  | [a] => [a / 4; a mod 4 * 16]
  | [] => []
  end)%Z.

(** Lists in steps of three. *)
Lemma list_ind3 {A} (P : list A -> Prop) :
  P [] -> (forall a, P [a]) -> (forall a b, P [a; b]) ->
  (forall a b c l, P l -> P (a :: b :: c :: l)) -> forall l, P l.
Proof.
  intros H0 H1 H2 H3. fix IH 1. intros [|a [|b [|c l]]]; [done|apply H1|apply H2|].
  apply H3, IH.
Qed.

Lemma base64url_encode_sextets bs :
  base64url_encode bs = fold_right (fun n s => String (base64url_char n) s) EmptyString (sextets bs).
Proof.
  induction bs as [|a|a b|a b d bs IH] using list_ind3; [done..|].
  cbn [base64url_encode sextets app fold_right]. by rewrite IH.
Qed.

Ltac byte_arith :=
  unfold is_byte in *; repeat match goal with H : (0 <= ?b < 256)%Z |- _ => revert H end; intros;
  Z.div_mod_to_equations; lia.

Lemma sextets_range bs : Forall is_byte bs -> Forall (fun n => 0 <= n < 64)%Z (sextets bs).
Proof.
  induction bs as [|a|a b|a b d bs IH] using list_ind3; rewrite ?Forall_cons; intros Hb;
    cbn [sextets app]; rewrite ?Forall_cons; destruct_and?; repeat split; auto; byte_arith.
Qed.

Lemma base64url_bytes_sextets bs :
  Forall is_byte bs -> base64url_bytes (sextets bs) = Some bs.
Proof.
  induction bs as [|a|a b|a b d bs IH] using list_ind3; rewrite ?Forall_cons; intros Hb;
    destruct_and?; cbn [sextets app base64url_bytes]; [done|..].
  1, 2: repeat f_equal; byte_arith.
  rewrite IH by done. cbn. repeat f_equal; byte_arith.
Qed.

(** What the encoder writes, the decoder reads back. *)
Lemma base64url_roundtrip bs :
  Forall is_byte bs -> base64url_decode (base64url_encode bs) = Some bs.
Proof.
  intros Hb. unfold base64url_decode. rewrite (mapM_digits (sextets bs)).
  - by apply base64url_bytes_sextets.
  - by apply sextets_range.
  - apply base64url_encode_sextets.
Qed.
