(* ===== verification/Sha256.v ===== *)
(** * PKCE: [PKCECodeChallenge] of auth/state.go, with SHA-256

    [sha256.Sum256] of crypto/sha256 as FIPS 180-4 defines it, on bytes as
    integers and words of 32 bits with their wrap-around. *)
From Stdlib Require Import ZArith Lia Ascii.
From stdpp Require Import base gmap strings list.
From S2P Require Import Prelude GoStrings Encoding.
Open Scope packyard_scope.

Section Words.
#[local] Open Scope Z_scope.

Definition w32 (x : Z) : Z := x mod 2 ^ 32.
Definition rotr (n x : Z) : Z := Z.lor (Z.shiftr x n) (w32 (Z.shiftl x (32 - n))).

Definition Ch (x y z : Z) : Z := Z.lxor (Z.land x y) (Z.land (Z.lxor x (2 ^ 32 - 1)) z).
Definition Maj (x y z : Z) : Z := Z.lxor (Z.lxor (Z.land x y) (Z.land x z)) (Z.land y z).
Definition big0 (x : Z) : Z := Z.lxor (Z.lxor (rotr 2 x) (rotr 13 x)) (rotr 22 x).
Definition big1 (x : Z) : Z := Z.lxor (Z.lxor (rotr 6 x) (rotr 11 x)) (rotr 25 x).
Definition small0 (x : Z) : Z := Z.lxor (Z.lxor (rotr 7 x) (rotr 18 x)) (Z.shiftr x 3).
Definition small1 (x : Z) : Z := Z.lxor (Z.lxor (rotr 17 x) (rotr 19 x)) (Z.shiftr x 10).

(** The constants of the standard are the first 32 bits after the point of
    the cube roots, and for the initial digest of the square roots, of the
    first primes. *)
Definition is_prime (n : nat) : bool :=
  forallb (fun d => negb (Nat.modulo n d =? 0)%nat) (seq 2 (n - 2)).
Definition primes : list Z := Eval vm_compute in map Z.of_nat (List.filter is_prime (seq 2 310)).

(** The cube root of [x], rounded down, above [r]: bit by bit from bit [n - 1]. *)
Fixpoint cube_root (n : nat) (r x : Z) : Z :=
  match n with
  | O => r
  | S n => let r' := r + 2 ^ Z.of_nat n in cube_root n (if r' * r' * r' <=? x then r' else r) x
  end.

Definition K : list Z := Eval vm_compute in map (fun p => w32 (cube_root 40 0 (p * 2 ^ 96))) primes.

Record digest := mkDigest { hA : Z; hB : Z; hC : Z; hD : Z; hE : Z; hF : Z; hG : Z; hH : Z }.

Definition initial : digest := Eval vm_compute in
  let h i := w32 (Z.sqrt (nth i primes 0 * 2 ^ 64)) in
  mkDigest (h 0%nat) (h 1%nat) (h 2%nat) (h 3%nat) (h 4%nat) (h 5%nat) (h 6%nat) (h 7%nat).

(** The message schedule: the sixteen words of the block and [n] more.  The
    words are kept last first. *)
Fixpoint schedule (n : nat) (ws : list Z) : list Z :=
  match n with
  | O => ws
  | S n =>
      let w i := nth i ws 0 in
      schedule n (w32 (small1 (w 1%nat) + w 6%nat + small0 (w 14%nat) + w 15%nat) :: ws)
  end.

Definition round (h : digest) (kw : Z * Z) : digest :=
  let t1 := hH h + big1 (hE h) + Ch (hE h) (hF h) (hG h) + kw.1 + kw.2 in
  let t2 := big0 (hA h) + Maj (hA h) (hB h) (hC h) in
  mkDigest (w32 (t1 + t2)) (hA h) (hB h) (hC h) (w32 (hD h + t1)) (hE h) (hF h) (hG h).

Definition compress (h : digest) (block : list Z) : digest :=
  let h' := fold_left round (zip K (rev (schedule 48 (rev block)))) h in
  mkDigest (w32 (hA h + hA h')) (w32 (hB h + hB h')) (w32 (hC h + hC h')) (w32 (hD h + hD h'))
    (w32 (hE h + hE h')) (w32 (hF h + hF h')) (w32 (hG h + hG h')) (w32 (hH h + hH h')).

(** ** Bytes and words *)
Fixpoint words (bs : list Z) : list Z :=
  match bs with
  | a :: b :: c :: d :: bs => (((a * 256 + b) * 256 + c) * 256 + d) :: words bs
  | _ => []
  end.

Definition word_bytes (x : Z) : list Z := [x / 2 ^ 24 mod 256; x / 2 ^ 16 mod 256; x / 2 ^ 8 mod 256; x mod 256].

(** A one bit, zeros up to eight bytes short of a block, the length in bits. *)
Definition pad (bs : list Z) : list Z :=
  let n := Z.of_nat (length bs) in
  let bits := n * 8 mod 2 ^ 64 in
  bs ++ 128 :: repeat 0 (Z.to_nat ((55 - n) mod 64)) ++ word_bytes (bits / 2 ^ 32) ++ word_bytes (bits mod 2 ^ 32).

(** Block by block; [fuel] blocks at most. *)
Fixpoint blocks (fuel : nat) (h : digest) (ws : list Z) : digest :=
  match fuel, ws with
  | S fuel, _ :: _ => blocks fuel (compress h (firstn 16 ws)) (skipn 16 ws)
  | _, _ => h
  end.

Definition Sum256 (bs : list Z) : list Z :=
  let ws := words (pad bs) in
  let h := blocks (length ws) initial ws in
  concat (map word_bytes [hA h; hB h; hC h; hD h; hE h; hF h; hG h; hH h]).
End Words.

Definition PKCECodeChallenge (verifier : string) : string :=
  base64url_encode (Sum256 (map byte_of (String.list_ascii_of_string verifier))).

(** FIPS 180-4, the message abc; and the example of RFC 7636, appendix B. *)
Example sha256_abc :
  hex_encode (Sum256 [97; 98; 99]%Z) = "ba7816bf8f01cfea414140de5dae2223b00361a396177a9cb410ff61f20015ad".
Proof. vm_compute. reflexivity. Qed.
Example sha256_two_blocks :
  hex_encode (Sum256 (repeat 97%Z 56)) = "b35439a4ac6f0948b6d6f9e3c6af0f5f590ce20f1bde7090ef7970686ec6738a".
Proof. vm_compute. reflexivity. Qed.
Example rfc7636_challenge :
  PKCECodeChallenge "dBjftJeZ4CVP-mB92K27uhbUJU1p1r_wW1gFWFOEjXk" = "E9Melhoa2OwvFrEMTJguCHaoeK1t8URWbuGJSstw-cM".
Proof. vm_compute. reflexivity. Qed.

(** ** What the challenge is made of *)
Lemma cube_root_spec n : forall r x, (0 <= r)%Z -> (r ^ 3 <= x < (r + 2 ^ Z.of_nat n) ^ 3)%Z ->
  (cube_root n r x ^ 3 <= x < (cube_root n r x + 1) ^ 3)%Z.
Proof.
  induction n as [|n IH]; intros r x Hr Hx; [exact Hx|]. cbn [cube_root]. cbv zeta.
  rewrite Nat2Z.inj_succ, Z.pow_succ_r in Hx by lia. set (b := (2 ^ Z.of_nat n)%Z) in *.
  assert (0 < b)%Z by (apply Z.pow_pos_nonneg; lia).
  destruct (_ <=? x)%Z eqn:E; apply IH; [lia| |lia|].
  - apply Z.leb_le in E. replace (r + b + b)%Z with (r + 2 * b)%Z by lia. nia.
  - apply Z.leb_gt in E. nia.
Qed.

(** The table as the standard defines it. *)
Lemma K_cube_roots : length primes = 64 /\
  K = map (fun p => w32 (cube_root 40 0 (p * 2 ^ 96))) primes.
Proof. split; vm_compute; reflexivity. Qed.

Lemma pad_blocks bs : Nat.modulo (length (pad bs)) 64 = 0.
Proof.
  unfold pad. rewrite length_app. cbn [length]. rewrite !length_app, repeat_length. cbn [length word_bytes].
  pose proof (Z.mod_pos_bound (55 - Z.of_nat (length bs)) 64 ltac:(lia)) as Hm.
  pose proof (Z.div_mod (55 - Z.of_nat (length bs)) 64 ltac:(lia)) as Hd.
  set (z := ((55 - Z.of_nat (length bs)) mod 64)%Z) in *. set (q := ((55 - Z.of_nat (length bs)) / 64)%Z) in *.
  assert (Z.of_nat (length bs + S (Z.to_nat z + (4 + 4))) = (64 * (1 - q))%Z) as He by lia.
  apply Nat2Z.inj. rewrite Nat2Z.inj_mod, He, Z.mul_comm. by apply Z.mod_mul.
Qed.

(** Every block is compressed: more fuel changes nothing. *)
Lemma blocks_enough n h ws : length ws <= n -> blocks n h ws = blocks (length ws) h ws.
Proof.
  assert (forall n m h ws, length ws <= n -> length ws <= m -> blocks n h ws = blocks m h ws) as Hall.
  { clear. induction n as [|n IH]; intros m h ws Hn Hm.
    - destruct ws; [by destruct m|cbn in Hn; lia].
    - destruct ws as [|w ws]; [by destruct m|]. destruct m as [|m]; [cbn in Hm; lia|]. cbn [blocks].
      apply IH; rewrite length_skipn; cbn [length] in *; lia. }
  intros Hn. by apply Hall.
Qed.

Lemma Sum256_bytes bs : Forall is_byte (Sum256 bs) /\ length (Sum256 bs) = 32.
Proof.
  unfold Sum256. cbv zeta. destruct (blocks _ _ _) as [a b c d e f g h]. cbn [map concat app word_bytes].
  split; [|done]. repeat (apply Forall_cons; split; [apply Z.mod_pos_bound; lia|]). apply Forall_nil_2.
Qed.

Lemma base64url_char_unreserved n : (0 <= n < 64)%Z -> unreserved (base64url_char n) = true.
Proof.
  intros Hn. assert (forall k, k < 64 -> unreserved (base64url_char (Z.of_nat k)) = true) as Hall.
  { intros k Hk. do 64 (destruct k as [|k]; [by vm_compute|]). lia. }
  rewrite <-(Z2Nat.id n) by lia. apply Hall. lia.
Qed.

(** The challenge is 43 characters that a URL carries as they are, and
    decodes to the digest of the verifier. *)
Theorem challenge_form verifier :
  let c := PKCECodeChallenge verifier in
  String.length c = 43 /\ string_forallb unreserved c = true /\
  base64url_decode c = Some (Sum256 (map byte_of (String.list_ascii_of_string verifier))).
Proof.
  cbv zeta. unfold PKCECodeChallenge. set (bs := Sum256 _). destruct (Sum256_bytes (map byte_of (String.list_ascii_of_string verifier))) as [Hb Hl].
  fold bs in Hb, Hl. split; [|split; [|by apply base64url_roundtrip]].
  - do 33 (destruct bs as [|? bs]; [try discriminate Hl; try reflexivity|]). discriminate Hl.
  - rewrite base64url_encode_sextets. pose proof (sextets_range bs Hb) as Hr. induction Hr as [|n ns Hn _ IH]; [done|].
    cbn [fold_right string_forallb]. by rewrite base64url_char_unreserved, IH.
Qed.
