(* ===== verification/Effects.v ===== *)
(** * Effects: reading the clock, random bytes, SQL statements, transactions

    [Eff A] is a computation over [World].  A Go function that returns
    [(T, error)] is an [Eff (res T)].  The connection pool holds one
    connection, so a statement runs alone and a transaction is not
    interleaved with other statements; Steps.v interleaves what is left. *)
From Stdlib Require Import ZArith Lia.
From stdpp Require Import base gmap strings list relations.
From S2P Require Import Prelude GoStrings Errors Metrics State.
Open Scope packyard_scope.

Definition Eff (A : Type) : Type := World -> A * World.

Definition ret {A} (a : A) : Eff A := fun w => (a, w).
Definition bind {A B} (m : Eff A) (k : A -> Eff B) : Eff B :=
  fun w => let '(a, w) := m w in k a w.

(** [if err != nil { return err }]. *)
Definition bindR {A B} (m : Eff (res A)) (k : A -> Eff (res B)) : Eff (res B) :=
  bind m (fun r => match r with Ok a => k a | Err e => ret (Err e) end).

Declare Scope eff_scope.
Delimit Scope eff_scope with eff.
Notation "x <- m ;; k" := (bind m (fun x => k))
  (at level 100, m at next level, right associativity) : eff_scope.
Notation "m ;;; k" := (bind m (fun _ => k))
  (at level 100, right associativity) : eff_scope.
Notation "x <-? m ;; k" := (bindR m (fun x => k))
  (at level 100, m at next level, right associativity) : eff_scope.
Open Scope eff_scope.

(** [fmt.Errorf("op: %w", err)] on the error path. *)
Definition wrapE {A} (op : string) (m : Eff (res A)) : Eff (res A) :=
  r <- m ;; ret (match r with Ok a => Ok a | Err e => Err (Wrap op e) end).
Definition fail {A} (op : string) (e : sentinel) : Eff (res A) :=
  ret (Err (Wrap op (Sentinel e))).

(** [time.Now()]. *)
Definition now : Eff Z := fun w => (w_clock w 0, tick_clock w).

(** An update of a collector, which is atomic. *)
Definition meter (f : Metrics -> Metrics) : Eff unit := fun w =>
  (tt, with_metrics (f (w_metrics w)) w).

(** [rand.Read] of [n] bytes, hex-encoded. *)
Definition rand_hex (n : nat) : Eff (res string) := fun w =>
  (match w_rand w 0 with
   | Some f => Ok (hex_encode (map (fun i => f i mod 256)%Z (seq 0 n)))
   | None => Err (ErrText "crypto/rand: read failed")
   end, tick_rand w).

(** ** SQL statements *)
Inductive stmt (A : Type) :=
| Done (a : A) (db : Database)
| Violates (v : violation).
Arguments Done {A} a db.
Arguments Violates {A} v.

Section Sql.
Context `{SqlDriver}.

Definition sql {A} (f : Database -> stmt A) : Eff (res A) := fun w =>
  match w_fault w 0 with
  | Some m => (Err (ErrText m), tick_fault w)
  | None =>
      match f (w_db w) with
      | Done a db => (Ok a, with_db db (tick_fault w))
      | Violates v => (Err (ErrText (driver_message v)), tick_fault w)
      end
  end.

Definition query {A} (f : Database -> A) : Eff (res A) :=
  sql (fun db => Done (f db) db).

(** [QueryRow(...).Scan(...)]: no row is [sql.ErrNoRows]. *)
Definition query_row {A} (f : Database -> option A) : Eff (res A) :=
  o <-? query f ;;
  match o with Some a => ret (Ok a) | None => ret (Err (Sentinel ErrNoRows)) end.

(** [INSERT], [UPDATE ... RETURNING] and the like that fail on a constraint
    inside a transaction leave the transaction usable; the callers return,
    and the deferred [tx.Rollback()] restores the snapshot.  [commits] tells
    whether the body's success reaches [tx.Commit()]. *)
Definition with_tx {A} (bp cp : string) (commits : A -> bool)
    (body : Eff (res A)) : Eff (res A) := fun w =>
  match w_fault w 0 with
  | Some m => (Err (Wrap bp (ErrText m)), tick_fault w)
  | None =>
      let '(r, w2) := body (tick_fault w) in
      match r with
      | Err e => (Err e, with_db (w_db w) w2)
      | Ok a =>
          if commits a then
            match w_fault w2 0 with
            | Some m => (Err (Wrap cp (ErrText m)), with_db (w_db w) (tick_fault w2))
            | None => (Ok a, tick_fault w2)
            end
          else (Ok a, with_db (w_db w) w2)
      end
  end.
End Sql.

(** ** Laws *)
Lemma bind_assoc {A B C} (m : Eff A) (f : A -> Eff B) (g : B -> Eff C) w :
  bind (bind m f) g w = bind m (fun a => bind (f a) g) w.
Proof. unfold bind. by destruct (m w). Qed.

(** [moves R m]: whatever the clock, the faults and the random bytes, [m]
    takes the database from [db] to a [db'] with [R db db'].  With [R db db' :=
    I db -> I db'] this is "m preserves the invariant I". *)
Definition moves (R : relation Database) {A} (m : Eff A) : Prop :=
  forall w, R (w_db w) (w_db (m w).2).

Definition keeps (I : Database -> Prop) : relation Database :=
  fun db db' => I db -> I db'.

#[export] Instance keeps_preorder I : PreOrder (keeps I).
Proof. split; [intros db Hd|intros a b c Hab Hbc Hd]; unfold keeps in *; auto. Qed.

(** Computations that leave the database alone. *)
Abbreviation pure_db := (moves eq).

Section Moves.
Context {R : relation Database} `{!PreOrder R}.

Lemma moves_ret {A} (a : A) : moves R (ret a).
Proof. intros w. done. Qed.

Lemma moves_bind {A B} (m : Eff A) (k : A -> Eff B) :
  moves R m -> (forall a, moves R (k a)) -> moves R (bind m k).
Proof.
  intros Hm Hk w. unfold bind. specialize (Hm w). destruct (m w) as [a w'].
  etrans; [apply Hm|apply Hk].
Qed.

Lemma moves_bindR {A B} (m : Eff (res A)) (k : A -> Eff (res B)) :
  moves R m -> (forall a, moves R (k a)) -> moves R (bindR m k).
Proof.
  intros Hm Hk. apply moves_bind; [done|]. intros [a|e]; [apply Hk|apply moves_ret].
Qed.

Lemma moves_wrapE {A} op (m : Eff (res A)) : moves R m -> moves R (wrapE op m).
Proof. intros Hm. apply moves_bind; [done|]. intros ?. apply moves_ret. Qed.

Lemma moves_fail {A} op e : moves R (fail (A:=A) op e).
Proof. apply moves_ret. Qed.

Lemma moves_now : moves R now.
Proof. intros w. done. Qed.

Lemma moves_rand n : moves R (rand_hex n).
Proof. intros w. done. Qed.

Lemma moves_meter f : moves R (meter f).
Proof. intros w. done. Qed.

(** A computation that neither reads nor writes the database. *)
Lemma moves_local {A} (f : World -> A * World) :
  (forall w, w_db (f w).2 = w_db w) -> moves R f.
Proof. intros Hf w. by rewrite Hf. Qed.

Lemma moves_if {A} (b : bool) (m n : Eff A) :
  moves R m -> moves R n -> moves R (if b then m else n).
Proof. by destruct b. Qed.

Context `{SqlDriver}.

Lemma moves_sql {A} (f : Database -> stmt A) :
  (forall db a db', f db = Done a db' -> R db db') -> moves R (sql f).
Proof.
  intros Hf w. unfold sql. destruct (w_fault w 0); [done|].
  destruct (f (w_db w)) eqn:E; simpl; [by eapply Hf|done].
Qed.

Lemma moves_query {A} (f : Database -> A) : moves R (query f).
Proof. apply moves_sql. intros db a db' [= _ <-]. done. Qed.

Lemma moves_query_row {A} (f : Database -> option A) : moves R (query_row f).
Proof.
  apply moves_bindR; [apply moves_query|]. intros [a|]; apply moves_ret.
Qed.

Lemma moves_with_tx {A} bp cp commits (body : Eff (res A)) :
  moves R body -> moves R (with_tx bp cp commits body).
Proof.
  intros Hb w. unfold with_tx. destruct (w_fault w 0); [done|].
  specialize (Hb (tick_fault w)). destruct (body (tick_fault w)) as [[a|e] w2]; simpl in *.
  - destruct (commits a); [|done]. by destruct (w_fault w2 0).
  - done.
Qed.
End Moves.

#[export] Hint Resolve moves_ret moves_fail moves_now moves_meter moves_rand moves_query
  moves_query_row : packyard.
#[export] Hint Extern 1 (PreOrder _) => apply _ : packyard.

(** Decomposes a [moves] goal along the structure of the computation; what
    remains are the statements that write. *)
Ltac solve_moves :=
  repeat match goal with
  | |- moves _ (ret _) => apply moves_ret
  | |- moves _ (fail _ _) => apply moves_fail
  | |- moves _ now => apply moves_now
  | |- moves _ (meter _) => apply moves_meter
  | |- moves _ (rand_hex _) => apply moves_rand
  | |- moves _ (query _) => apply moves_query
  | |- moves _ (query_row _) => apply moves_query_row
  | |- moves _ (bind _ _) => apply moves_bind; [|intros ?]
  | |- moves _ (bindR _ _) => apply moves_bindR; [|intros ?]
  | |- moves _ (wrapE _ _) => apply moves_wrapE
  | |- moves _ (with_tx _ _ _ _) => apply moves_with_tx
  | |- moves _ (match ?x with _ => _ end) => destruct x
  | |- moves _ (let '(_, _) := ?x in _) => destruct x
  | |- _ => progress eauto with packyard
  end.

(** ** Running a computation symbolically *)
Lemma bind_run {A B} (m : Eff A) (k : A -> Eff B) w :
  bind m k w = k (m w).1 (m w).2.
Proof. unfold bind. by destruct (m w). Qed.

Lemma bindR_run {A B} (m : Eff (res A)) (k : A -> Eff (res B)) w :
  bindR m k w =
    match (m w).1 with Ok a => k a (m w).2 | Err e => (Err e, (m w).2) end.
Proof. unfold bindR. rewrite bind_run. by destruct (m w).1. Qed.

Lemma with_db_same w : with_db (w_db w) w = w.
Proof. by destruct w. Qed.

(** A statement whose outcome is known: the fault of its slot, or the effect. *)
Lemma sql_run `{SqlDriver} {A} (f : Database -> stmt A) w :
  sql f w =
    match w_fault w 0 with
    | Some m => (Err (ErrText m), tick_fault w)
    | None => match f (w_db w) with
              | Done a db => (Ok a, with_db db (tick_fault w))
              | Violates v => (Err (ErrText (driver_message v)), tick_fault w)
              end
    end.
Proof. done. Qed.

Lemma query_run `{SqlDriver} {A} (f : Database -> A) w :
  query f w =
    (match w_fault w 0 with Some m => Err (ErrText m) | None => Ok (f (w_db w)) end,
     tick_fault w).
Proof.
  unfold query. rewrite sql_run. destruct (w_fault w 0); [done|].
  by destruct w.
Qed.

Lemma query_row_run `{SqlDriver} {A} (f : Database -> option A) w :
  query_row f w =
    (match w_fault w 0 with
     | Some m => Err (ErrText m)
     | None => match f (w_db w) with Some a => Ok a | None => Err (Sentinel ErrNoRows) end
     end, tick_fault w).
Proof.
  unfold query_row. rewrite bindR_run, query_run. simpl.
  destruct (w_fault w 0); [done|]. by destruct (f (w_db w)).
Qed.

Lemma wrapE_run {A} op (m : Eff (res A)) w :
  wrapE op m w =
    (match (m w).1 with Ok a => Ok a | Err e => Err (Wrap op e) end, (m w).2).
Proof. unfold wrapE. by rewrite bind_run. Qed.

(** A transaction that fails has changed nothing; one that succeeds has
    changed what its body changed. *)
Section Transactions.
Context `{SqlDriver} {A : Type} (bp cp : string) (commits : A -> bool) (body : Eff (res A)).

Lemma with_tx_err e w :
  (with_tx bp cp commits body w).1 = Err e ->
  w_db (with_tx bp cp commits body w).2 = w_db w.
Proof.
  unfold with_tx. destruct (w_fault w 0); [done|].
  destruct (body (tick_fault w)) as [[a|e'] w2]; [|done].
  destruct (commits a); [|done]. by destruct (w_fault w2 0).
Qed.

Lemma with_tx_ok a w :
  (with_tx bp cp commits body w).1 = Ok a ->
  (body (tick_fault w)).1 = Ok a /\
  w_db (with_tx bp cp commits body w).2 =
    if commits a then w_db (body (tick_fault w)).2 else w_db w.
Proof.
  unfold with_tx. destruct (w_fault w 0); [done|].
  destruct (body (tick_fault w)) as [[a'|e'] w2]; [|done]. simpl.
  destruct (commits a') eqn:Ec; [destruct (w_fault w2 0)|]; simpl; try done;
    intros [= <-]; by rewrite Ec.
Qed.

(** Without driver failures the outcome is the body's. *)
Lemma with_tx_live w :
  w_fault w 0 = None -> w_fault (body (tick_fault w)).2 0 = None ->
  (with_tx bp cp commits body w).1 = (body (tick_fault w)).1.
Proof.
  intros Hf Hb. unfold with_tx. rewrite Hf.
  destruct (body (tick_fault w)) as [[a|e] w2]; simpl in *; [|done].
  destruct (commits a); [|done]. by rewrite Hb.
Qed.
End Transactions.

(** The driver fails no statement. *)
Definition no_faults (w : World) : Prop := forall i, w_fault w i = None.

Lemma no_faults_tick w : no_faults w -> no_faults (tick_fault w).
Proof. intros Hn i. apply Hn. Qed.

Lemma fault_not_live w m : w_fault w 0 = Some m -> ~ no_faults w.
Proof. intros Hm Hn. by rewrite Hn in Hm. Qed.

(** A computation leaves a driver that fails nothing that way. *)
Definition live {A} (m : Eff A) : Prop := forall w, no_faults w -> no_faults (m w).2.

Section Live.
Context `{SqlDriver}.

Lemma live_ret {A} (a : A) : live (ret a).
Proof. by intros w. Qed.

Lemma live_bind {A B} (m : Eff A) (k : A -> Eff B) :
  live m -> (forall a, live (k a)) -> live (bind m k).
Proof. intros Hm Hk w Hw. rewrite bind_run. by apply Hk, Hm. Qed.

Lemma live_bindR {A B} (m : Eff (res A)) (k : A -> Eff (res B)) :
  live m -> (forall a, live (k a)) -> live (bindR m k).
Proof. intros Hm Hk. apply live_bind; [done|]. intros [a|e]; [apply Hk|apply live_ret]. Qed.

Lemma live_wrapE {A} op (m : Eff (res A)) : live m -> live (wrapE op m).
Proof. intros Hm. apply live_bind; [done|]. intros ?. apply live_ret. Qed.

Lemma live_now : live now.
Proof. by intros w. Qed.

Lemma live_meter f : live (meter f).
Proof. by intros w. Qed.

Lemma live_rand n : live (rand_hex n).
Proof. by intros w. Qed.

Lemma live_sql {A} (f : Database -> stmt A) : live (sql f).
Proof.
  intros w Hw. rewrite sql_run, Hw. destruct (f (w_db w)); by apply no_faults_tick.
Qed.

Lemma live_query {A} (f : Database -> A) : live (query f).
Proof. apply live_sql. Qed.

Lemma live_query_row {A} (f : Database -> option A) : live (query_row f).
Proof. apply live_bindR; [apply live_query|]. intros [a|]; apply live_ret. Qed.

Lemma live_with_tx {A} bp cp commits (body : Eff (res A)) :
  live body -> live (with_tx bp cp commits body).
Proof.
  intros Hb w Hw. unfold with_tx. rewrite Hw. specialize (Hb (tick_fault w) (no_faults_tick _ Hw)).
  destruct (body (tick_fault w)) as [[a|e] w2]; cbn [snd] in *; [|exact Hb].
  destruct (commits a); [|exact Hb]. rewrite (Hb 0). by apply no_faults_tick.
Qed.
End Live.

Ltac solve_live :=
  repeat match goal with
  | |- live (ret _) => apply live_ret
  | |- live (fail _ _) => apply live_ret
  | |- live now => apply live_now
  | |- live (meter _) => apply live_meter
  | |- live (rand_hex _) => apply live_rand
  | |- live (sql _) => apply live_sql
  | |- live (query _) => apply live_query
  | |- live (query_row _) => apply live_query_row
  | |- live (bind _ _) => apply live_bind; [|intros ?]
  | |- live (bindR _ _) => apply live_bindR; [|intros ?]
  | |- live (wrapE _ _) => apply live_wrapE
  | |- live (with_tx _ _ _ _) => apply live_with_tx
  | |- live (match ?x with _ => _ end) => destruct x
  | |- live (let '(_, _) := ?x in _) => destruct x
  end.

(** Closes a case in which a statement failed although the driver fails none. *)
Ltac live_contra :=
  intros; try (match goal with |- ~ _ => intros ? end); exfalso;
  match goal with
  | Hn : no_faults _, E : _ = Some _ |- _ =>
      cbn in E; unfold shift in E; rewrite Hn in E; discriminate E
  end.

(** Splits on whether the next statement fails. *)
Ltac next_fault :=
  match goal with
  | |- context [match w_fault ?x 0 with _ => _ end] =>
      let E := fresh "Ef" in destruct (w_fault x 0) eqn:E
  | |- context [match shift ?f ?n with _ => _ end] =>
      let E := fresh "Ef" in destruct (shift f n) eqn:E
  end.

(** One layer of the monad, applied to a world. *)
Ltac run_step :=
  first [rewrite sql_run | rewrite query_run | rewrite query_row_run | rewrite wrapE_run
        | rewrite bindR_run | rewrite bind_run]; cbn [fst snd].

Create HintDb eff_run.
#[export] Hint Unfold bind bindR ret wrapE fail now rand_hex query query_row : eff_run.

(** Unfolds the monad and splits every case of a computation applied to a
    world, in hypothesis [H]. *)
Ltac eff_cases H :=
  repeat first
    [ progress (autounfold with eff_run in H)
    | progress (simpl in H)
    | discriminate H
    | break_match_hyp H ].
