(* ===== verification/Steps.v ===== *)
(** * Computations as sequences of steps

    [Eff] runs a handler in one go.  In the service many handlers run at
    once, each in its goroutine.  What they share they reach in steps that
    exclude each other: a statement or a transaction on the one database
    connection, a critical section of an in-memory store, a reading of the
    clock or of the entropy, an operation of the singleflight group.  [Prog]
    is a computation as such steps, and [Steps m] says that [m] is one. *)
From Stdlib Require Import ZArith Lia.
From stdpp Require Import base gmap strings list relations.
From S2P Require Import Prelude GoStrings Errors State Effects.
Open Scope packyard_scope.
Open Scope eff_scope.

(** [Share n None lead join] is a call [sf.Do(n, fn)] of the singleflight
    group: as the one to run [fn] it goes on with [lead], which ends [fn] with
    a [Land]; otherwise it joins a call under way, [Share n (Some id) lead
    join], and goes on with [join] when that has landed. *)
Inductive Prog (A : Type) : Type :=
| Halt (a : A)
| Act {B : Type} (m : Eff B) (k : B -> Prog A)
| Share (n : string) (joined : option nat) (lead : nat -> Prog A) (join : res Component -> Prog A)
| Land (n : string) (id : nat) (r : res Component) (k : Prog A).
Arguments Halt {A} a.
Arguments Act {A B} m k.
Arguments Share {A} n joined lead join.
Arguments Land {A} n id r k.

(** On its own, every call of the group leads. *)
Fixpoint run {A} (p : Prog A) : Eff A :=
  match p with
  | Halt a => ret a
  | Act m k => b <- m ;; run (k b)
  | Share _ _ lead _ => run (lead 0)
  | Land _ _ _ k => run k
  end.

Fixpoint pbind {A B} (p : Prog A) (f : A -> Prog B) : Prog B :=
  match p with
  | Halt a => f a
  | Act m k => Act m (fun b => pbind (k b) f)
  | Share n j lead join => Share n j (fun id => pbind (lead id) f) (fun r => pbind (join r) f)
  | Land n id r k => Land n id r (pbind k f)
  end.

Lemma run_pbind {A B} (p : Prog A) (f : A -> Prog B) w :
  run (pbind p f) w = (a <- run p ;; run (f a)) w.
Proof.
  revert w. induction p as [a|C m k IH|n j lead IHl join _|n id r k IH]; intros w; [done| |apply IHl|apply IH].
  cbn [pbind run]. rewrite bind_assoc. unfold bind. destruct (m w). apply IH.
Qed.

(** ** The singleflight group *)
(** For each name the call under way, and for each call so far its name and,
    once it has landed, its result. *)
Record Group := mkGroup {
  leading : gmap string nat;
  calls : list (string * option (res Component)) }.

Definition no_calls : Group := mkGroup ∅ [].

Definition begin_call (n : string) (g : Group) : Group :=
  mkGroup (<[n := length (calls g)]> (leading g)) (calls g ++ [(n, None)]).

Definition land_call (n : string) (id : nat) (r : res Component) (g : Group) : Group :=
  match calls g !! id with
  | Some (n', None) =>
      if n' =s n then mkGroup (delete n (leading g)) (<[id := (n, Some r)]> (calls g)) else g
  | _ => g
  end.

Definition call_result (id : nat) (g : Group) : option (res Component) := calls g !! id ≫= snd.

Lemma land_call_length n id r g : length (calls (land_call n id r g)) = length (calls g).
Proof.
  unfold land_call. destruct (calls g !! id) as [[n' [?|]]|]; [done| |done].
  destruct (n' =s n); [apply length_insert|done].
Qed.

Lemma begin_call_length n g : length (calls (begin_call n g)) = S (length (calls g)).
Proof. cbn. rewrite length_app. cbn. lia. Qed.

(** What one step may do to the group. *)
Inductive group_step (g : Group) : Group -> Prop :=
| group_stays : group_step g g
| group_begins n : leading g !! n = None -> group_step g (begin_call n g)
| group_lands n id r : group_step g (land_call n id r g).

(** The call under way for a name is the one of that name that has not landed. *)
Definition group_ok (g : Group) : Prop :=
  forall n id, leading g !! n = Some id <-> calls g !! id = Some (n, None).

Lemma group_step_ok g g' : group_step g g' -> group_ok g -> group_ok g'.
Proof.
  intros Hs Hg n id. destruct Hs as [|m Hm|m i r]; [apply Hg| |].
  - cbn. rewrite lookup_insert. case_decide as Hn.
    + subst m. split; [intros [= <-]; by rewrite lookup_app_r, Nat.sub_diag by lia|].
      intros [Hid|[Hle Hid]]%lookup_app_Some; [apply Hg in Hid; congruence|].
      apply list_lookup_singleton_Some in Hid as [Hz _]. f_equal. lia.
    + rewrite (Hg n id). split; [by apply lookup_app_l_Some|].
      intros [Hid|[Hle Hid]]%lookup_app_Some; [done|]. apply list_lookup_singleton_Some in Hid as [_ [= ?]]. done.
  - unfold land_call. destruct (calls g !! i) as [[m' [?|]]|] eqn:Hi; [apply Hg| |apply Hg].
    destruct (m' =s m) eqn:Hm; [|apply Hg]. apply String.eqb_eq in Hm as ->. cbn.
    rewrite lookup_delete. apply Hg in Hi as Hlead. case_decide as Hn.
    + subst m. split; [done|]. intros [(_ & [=] & _)|[Hne Hid]]%list_lookup_insert_Some.
      apply Hg in Hid. congruence.
    + rewrite (Hg n id). split.
      * intros Hid. rewrite list_lookup_insert_ne; [done|]. intros ->. congruence.
      * by intros [(_ & [=] & _)|[_ Hid]]%list_lookup_insert_Some.
Qed.

(** What is known of a call stays known. *)
Lemma group_step_keeps g g' id n o :
  group_step g g' -> calls g !! id = Some (n, o) ->
  exists o', calls g' !! id = Some (n, o') /\ (forall r, o = Some r -> o' = Some r).
Proof.
  intros Hs Hid. destruct Hs as [|m _|m i r]; [by exists o| |].
  - exists o. split; [|done]. by apply lookup_app_l_Some.
  - unfold land_call. destruct (calls g !! i) as [[m' [?|]]|] eqn:Hi; [by exists o| |by exists o].
    destruct (m' =s m) eqn:Hm; [|by exists o]. apply String.eqb_eq in Hm as ->. cbn.
    destruct (decide (i = id)) as [->|Hne]; [|exists o; by rewrite list_lookup_insert_ne].
    rewrite Hi in Hid. injection Hid as -> <-. exists (Some r).
    by rewrite list_lookup_insert_eq by by eapply lookup_lt_Some.
Qed.

Lemma group_step_length g g' : group_step g g' -> length (calls g) <= length (calls g').
Proof. destruct 1; [done| |by rewrite land_call_length]. rewrite begin_call_length. lia. Qed.

(** What the computations share. *)
Definition Shared : Type := World * Group.

(** One step; a computation that has ended stays, and so does one whose call
    has not landed. *)
Definition step {A} (p : Prog A) (x : Shared) : Prog A * Shared :=
  match p with
  | Halt a => (Halt a, x)
  | Act m k => let '(b, w) := m x.1 in (k b, (w, x.2))
  | Share n None lead join =>
      match leading x.2 !! n with
      | None => (lead (length (calls x.2)), (x.1, begin_call n x.2))
      | Some id => (Share n (Some id) lead join, x)
      end
  | Share n (Some id) lead join =>
      match call_result id x.2 with Some r => (join r, x) | None => (p, x) end
  | Land n id r k => (k, (x.1, land_call n id r x.2))
  end.

Lemma step_group {A} (p : Prog A) x : group_step x.2 (step p x).2.2.
Proof.
  destruct p as [a|C m k|n [id|] lead join|n id r k]; cbn; [constructor| | | |constructor].
  - destruct (m x.1). constructor.
  - destruct (call_result id x.2); constructor.
  - destruct (leading x.2 !! n) eqn:Hn; by constructor.
Qed.

(** Every call that a computation leads it lands, one at a time, whatever its
    number. *)
Fixpoint balanced {A} (open : option (string * nat)) (p : Prog A) : Prop :=
  match p with
  | Halt _ => open = None
  | Act m k => forall b, balanced open (k b)
  | Share n j lead join => open = None /\ j = None /\
      (forall id, balanced (Some (n, id)) (lead id) /\ forall w, run (lead id) w = run (lead 0) w) /\
      (forall r, balanced None (join r))
  | Land n id r k => open = Some (n, id) /\ balanced None k
  end.

Lemma balanced_pbind {A B} (p : Prog A) (f : A -> Prog B) o :
  balanced o p -> (forall a, balanced None (f a)) -> balanced o (pbind p f).
Proof.
  intros Hp Hf. revert o Hp. induction p as [a|C m k IH|n j lead IHl join IHj|n id r k IH]; intros o Hp; cbn.
  - cbn in Hp. by subst o.
  - intros b. apply IH, Hp.
  - destruct Hp as (-> & -> & Hl & Hj). split; [done|]. split; [done|]. split; [|auto].
    intros id. destruct (Hl id) as [Hb Hrun]. split; [auto|]. intros w. by rewrite !run_pbind, !bind_run, Hrun.
  - destruct Hp as (-> & Hk). auto.
Qed.

(** ** Moments *)
(** A moment of a run: the world, the group, and what they were before, the
    latest first. *)
Definition moment : Type := World * (Group * list Shared).

Definition group (s : moment) : Group := s.2.1.
Definition past (s : moment) : list Shared := s.2.2.
Definition here (s : moment) : Shared := (s.1, group s).
Definition at_moment (x : Shared) (h : list Shared) : moment := (x.1, (x.2, h)).

(** [s] is [s'] or a moment that the run went through before it. *)
Definition earlier (s s' : moment) : Prop := (here s :: past s) `suffix_of` (here s' :: past s').

#[export] Instance earlier_preorder : PreOrder earlier.
Proof. unfold earlier. split; [intros s; reflexivity|]. intros a b c. apply transitivity. Qed.

Lemma earlier_antisym s s' : earlier s s' -> earlier s' s -> s = s'.
Proof.
  intros H1 H2. pose proof (anti_symm suffix _ _ H1 H2) as Heq. destruct s as [w [g h]], s' as [w' [g' h']].
  unfold here, group, past in Heq. cbn in Heq. by injection Heq as -> -> ->.
Qed.

(** The moment after a step, after one on the world, after one on the group. *)
Definition next (x : Shared) (s : moment) : moment := at_moment x (here s :: past s).
Definition after (w : World) (s : moment) : moment := next (w, group s) s.
Definition regroup (g : Group) (s : moment) : moment := next (s.1, g) s.

Lemma next_at x y h : next x (at_moment y h) = at_moment x (y :: h).
Proof. by destruct y. Qed.

Lemma earlier_next s x : earlier s (next x s).
Proof. by apply suffix_cons_r. Qed.
Lemma earlier_after s w : earlier s (after w s).
Proof. apply earlier_next. Qed.

(** ** Computations among others *)
Section Interference.
Context `{SqlDriver}.

(** What runs without other steps in between. *)
Inductive atomic : forall {A}, Eff A -> Prop :=
| atomic_sql {A} (f : Database -> stmt A) : atomic (sql f)
| atomic_tx {A} bp cp commits (body : Eff (res A)) : atomic (with_tx bp cp commits body)
| atomic_local {A} (m : Eff A) : (forall w, w_db (m w).2 = w_db w) -> atomic m.

Context {R : relation Database} `{!PreOrder R}.

(** Each step is atomic and moves the database along [R]. *)
Fixpoint guarded {A} (p : Prog A) : Prop :=
  match p with
  | Halt _ => True
  | Act m k => atomic m /\ moves R m /\ forall b, guarded (k b)
  | Share _ _ lead join => (forall id, guarded (lead id)) /\ (forall r, guarded (join r))
  | Land _ _ _ k => guarded k
  end.

Lemma guarded_local {A B} (m : Eff B) (k : B -> Prog A) :
  (forall w, w_db (m w).2 = w_db w) -> (forall b, guarded (k b)) -> guarded (Act m k).
Proof. intros Hm Hk. split; [by apply atomic_local|]. split; [by apply moves_local|done]. Qed.

Lemma guarded_pbind {A B} (p : Prog A) (f : A -> Prog B) :
  guarded p -> (forall a, guarded (f a)) -> guarded (pbind p f).
Proof.
  intros Hp Hf. induction p as [a|C m k IH|n j lead IHl join IHj|n id r k IH]; cbn; [apply Hf| | |auto].
  - destruct Hp as (? & ? & Hk). auto.
  - destruct Hp as [Hl Hj]. auto.
Qed.

(** Between two moments others run, who move the database along [R], begin
    calls, and do what they like to the rest. *)
Record later (s s' : moment) : Prop := {
  later_db : R (w_db s.1) (w_db s'.1);
  later_past : earlier s s';
  later_calls : length (calls (group s)) <= length (calls (group s')) }.

#[export] Instance later_preorder : PreOrder later.
Proof.
  split; [by intros s; split|]. intros a b c [] []. split; [by etrans..|lia].
Qed.

Lemma later_next s x :
  R (w_db s.1) (w_db x.1) -> length (calls (group s)) <= length (calls x.2) -> later s (next x s).
Proof. intros. split; [done|apply earlier_next|done]. Qed.
Lemma later_after s w : R (w_db s.1) (w_db w) -> later s (after w s).
Proof. intros Hw. by apply later_next. Qed.
Lemma later_stay s : later s (after s.1 s).
Proof. by apply later_after. Qed.
Lemma later_begin s n : later s (regroup (begin_call n (group s)) s).
Proof. apply later_next; [done|]. cbn [snd]. rewrite begin_call_length. lia. Qed.
Lemma later_land s n id r : later s (regroup (land_call n id r (group s)) s).
Proof. apply later_next; [done|]. cbn [snd]. by rewrite land_call_length. Qed.

(** [wp G L p Q s]: from [s] on, among others, [G] holds of every step of [p]
    on the world, of the moment before it and the world after, [L] of every
    call it lands, and if [p] ends, [Q] holds of its result then. *)
Section Rules.
Context (G : moment -> World -> Prop) (L : moment -> string -> nat -> res Component -> Prop).

Fixpoint wp {A} (p : Prog A) (Q : A -> moment -> Prop) (s : moment) : Prop :=
  forall s', later s s' ->
  match p with
  | Halt a => Q a s'
  | Act m k => G s' (m s'.1).2 /\ wp (k (m s'.1).1) Q (after (m s'.1).2 s')
  | Share n None lead join =>
      (leading (group s') !! n = None ->
         wp (lead (length (calls (group s')))) Q (regroup (begin_call n (group s')) s')) /\
      (forall id, leading (group s') !! n = Some id ->
         forall s2 r, later (after s'.1 s') s2 -> call_result id (group s2) = Some r -> wp (join r) Q (after s2.1 s2))
  | Share n (Some id) lead join =>
      forall r, call_result id (group s') = Some r -> wp (join r) Q (after s'.1 s')
  | Land n id r k => L s' n id r /\ wp k Q (regroup (land_call n id r (group s')) s')
  end.

Lemma wp_weaken {A} (p : Prog A) Q s s' : wp p Q s -> later s s' -> wp p Q s'.
Proof. intros Hp Hs. destruct p; intros s2 Hs2; apply Hp; by etrans. Qed.

Lemma wp_pbind {A B} (p : Prog A) (f : A -> Prog B) Q s :
  wp p (fun a => wp (f a) Q) s -> wp (pbind p f) Q s.
Proof.
  revert s. induction p as [a|C m k IH|n [id|] lead IHl join IHj|n id r k IH]; intros s Hp.
  - apply (wp_weaken _ _ s); [|reflexivity]. apply Hp. reflexivity.
  - intros s' Hs'. destruct (Hp s' Hs') as [Hg Hk]. split; [done|]. by apply IH.
  - intros s' Hs' r Hr. by apply IHj, (Hp s' Hs').
  - intros s' Hs'. destruct (Hp s' Hs') as [Hl Hj]. split; [by intros; apply IHl, Hl|].
    intros id Hid s2 r Hs2 Hr. by eapply IHj, Hj.
  - intros s' Hs'. destruct (Hp s' Hs') as [Hl Hk]. split; [done|]. by apply IH.
Qed.

Lemma wp_mono {A} (p : Prog A) (Q Q' : A -> moment -> Prop) s :
  (forall a s', later s s' -> Q a s' -> Q' a s') -> guarded p -> wp p Q s -> wp p Q' s.
Proof.
  revert s. induction p as [a|C m k IH|n [id|] lead IHl join IHj|n id r k IH]; intros s HQ Hgd Hp s' Hs';
    [by apply HQ, Hp|..].
  - destruct (Hp s' Hs') as [Hg Hk]. destruct Hgd as (_ & Hm & Hgd). split; [done|]. apply IH; [|done..].
    intros a s2 Hs2. apply HQ. etrans; [done|]. etrans; [|done]. apply later_after, Hm.
  - intros r Hr. apply IHj; [|apply Hgd|by apply (Hp s' Hs')].
    intros a s2 Hs2. apply HQ. etrans; [done|]. etrans; [|done]. apply later_stay.
  - destruct (Hp s' Hs') as [Hl Hj]. destruct Hgd as [Hgl Hgj]. split.
    + intros Hn. apply IHl; [|apply Hgl|by apply Hl]. intros a s2 Hs2. apply HQ. etrans; [done|]. etrans; [|done].
      apply later_begin.
    + intros id Hid s2 r Hs2 Hr. apply IHj; [|done|by eapply Hj]. intros a s3 Hs3. apply HQ.
      etrans; [done|]. etrans; [apply later_stay|]. etrans; [exact Hs2|]. etrans; [apply later_stay|done].
  - destruct (Hp s' Hs') as [Hl Hk]. split; [done|]. apply IH; [|done..].
    intros a s2 Hs2. apply HQ. etrans; [done|]. etrans; [|done]. apply later_land.
Qed.

Lemma wp_halt {A} (a : A) Q s : (forall s', later s s' -> Q a s') -> wp (Halt a) Q s.
Proof. done. Qed.

Lemma wp_act {A B} (m : Eff B) (k : B -> Prog A) Q s :
  (forall s', later s s' -> G s' (m s'.1).2 /\ wp (k (m s'.1).1) Q (after (m s'.1).2 s')) ->
  wp (Act m k) Q s.
Proof. done. Qed.

(** A result that holds of whatever comes. *)
Lemma wp_always {A} (p : Prog A) (Q Q' : A -> moment -> Prop) s :
  (forall a s', Q a s' -> Q' a s') -> wp p Q s -> wp p Q' s.
Proof.
  intros HQ. revert s.
  induction p as [a|C m k IH|n [id|] lead IHl join IHj|n id r k IH]; intros s Hp s' Hs'; [by apply HQ, Hp|..].
  - destruct (Hp s' Hs') as [Hg Hk]. split; [done|]. by apply IH.
  - intros r Hr. by apply IHj, (Hp s' Hs').
  - destruct (Hp s' Hs') as [Hl Hj]. split; [by intros; apply IHl, Hl|]. intros. by eapply IHj, Hj.
  - destruct (Hp s' Hs') as [Hl Hk]. split; [done|]. by apply IH.
Qed.
End Rules.
End Interference.
Arguments guarded {_} R {A} p.

(** ** Laws *)
(** What the steps of every computation are held to, of the moment before and
    the world after, whatever others do in between, and what the calls that
    land.  It does not restrict steps that leave the cache alone. *)
Class StepLaw := {
  permitted : moment -> World -> Prop;
  permitted_plain : forall s w, w_cache w = w_cache s.1 -> permitted s w;
  lands : moment -> string -> nat -> res Component -> Prop }.

Definition arbitrary : relation Database := fun _ _ => True.
#[export] Instance arbitrary_preorder : PreOrder arbitrary.
Proof. done. Qed.

(** Every step of [p] is permitted. *)
Definition obeys `{StepLaw} {A} (p : Prog A) : Prop :=
  forall s, wp (R := arbitrary) permitted lands p (fun _ _ => True) s.

Section Steps.
Context `{SqlDriver} `{StepLaw} {R : relation Database} `{!PreOrder R}.

Lemma obeys_halt {A} (a : A) : obeys (Halt a).
Proof. by intros s s' _. Qed.

Lemma obeys_act {A B} (m : Eff B) (k : B -> Prog A) :
  (forall s, permitted s (m s.1).2) -> (forall b, obeys (k b)) -> obeys (Act m k).
Proof. intros Hm Hk s s' _. split; [apply Hm|apply Hk]. Qed.

Lemma obeys_pbind {A B} (p : Prog A) (f : A -> Prog B) :
  obeys p -> (forall a, obeys (f a)) -> obeys (pbind p f).
Proof. intros Hp Hf s. apply wp_pbind. eapply wp_always, Hp. intros a s' _. apply Hf. Qed.

Record Steps {A} (m : Eff A) := mkSteps {
  prog : Prog A;
  prog_run : forall w, run prog w = m w;
  prog_guarded : guarded R prog;
  prog_obeys : obeys prog;
  prog_balanced : balanced None prog }.
Arguments prog {A m} s.

Definition steps_ret {A} (a : A) : Steps (ret a) :=
  mkSteps _ _ (Halt a) (fun _ => eq_refl) I (obeys_halt a) eq_refl.

Definition steps_act {A} (m : Eff A) (Ha : atomic m) (Hm : moves R m)
    (Hl : forall s, permitted s (m s.1).2) : Steps m.
Proof.
  refine (mkSteps _ _ (Act m Halt) _ _ _ (fun _ => eq_refl)).
  - intros w. cbn. unfold bind. by destruct (m w).
  - by repeat split.
  - by apply obeys_act; [|apply obeys_halt].
Defined.

Definition steps_bind {A B} (m : Eff A) (k : A -> Eff B)
    (s : Steps m) (t : forall a, Steps (k a)) : Steps (bind m k).
Proof.
  refine (mkSteps _ _ (pbind (prog s) (fun a => prog (t a))) _ _ _ _).
  - intros w. rewrite run_pbind, bind_run, prog_run. rewrite prog_run. by rewrite bind_run.
  - apply guarded_pbind; [|intros a]; apply prog_guarded.
  - apply obeys_pbind; [|intros a]; apply prog_obeys.
  - apply balanced_pbind; [|intros a]; apply prog_balanced.
Defined.

Definition steps_bindR {A B} (m : Eff (res A)) (k : A -> Eff (res B))
    (s : Steps m) (t : forall a, Steps (k a)) : Steps (bindR m k) :=
  steps_bind m (fun r => match r with Ok a => k a | Err e => ret (Err e) end) s
    (fun r => match r with Ok a => t a | Err e => steps_ret (Err e) end).

Definition steps_wrapE {A} op (m : Eff (res A)) (s : Steps m) : Steps (wrapE op m) :=
  steps_bind m (fun r => ret (match r with Ok a => Ok a | Err e => Err (Wrap op e) end)) s
    (fun r => steps_ret _).

Definition steps_fail {A} op e : Steps (fail (A:=A) op e) := steps_ret _.

(** What touches neither the database nor the cache. *)
Definition aside {A} (m : Eff A) : Prop :=
  forall w, (w_db (m w).2, w_cache (m w).2) = (w_db w, w_cache w).

Lemma aside_db {A} (m : Eff A) : aside m -> forall w, w_db (m w).2 = w_db w.
Proof. intros Hm w. by injection (Hm w). Qed.

Lemma aside_permitted {A} (m : Eff A) : aside m -> forall s, permitted s (m s.1).2.
Proof. intros Hm s. apply permitted_plain. by injection (Hm s.1). Qed.

Definition steps_local {A} (m : Eff A) (Hm : aside m) : Steps m :=
  steps_act m (atomic_local m (aside_db m Hm)) (moves_local m (aside_db m Hm)) (aside_permitted m Hm).

(** What touches only the cache. *)
Definition steps_cache {A} (m : Eff A) (Hm : forall w, w_db (m w).2 = w_db w)
    (Hl : forall s, permitted s (m s.1).2) : Steps m :=
  steps_act m (atomic_local m Hm) (moves_local m Hm) Hl.

Definition steps_now : Steps now := steps_local now (fun _ => eq_refl).
Definition steps_rand n : Steps (rand_hex n) := steps_local (rand_hex n) (fun _ => eq_refl).

Lemma sql_permitted {A} (f : Database -> stmt A) s : permitted s (sql f s.1).2.
Proof. apply permitted_plain. rewrite sql_run. destruct (w_fault s.1 0); [done|]. by destruct (f (w_db s.1)). Qed.

Definition steps_sql {A} (f : Database -> stmt A)
    (Hf : forall db a db', f db = Done a db' -> R db db') : Steps (sql f) :=
  steps_act (sql f) (atomic_sql f) (moves_sql f Hf) (sql_permitted f).

Definition steps_query {A} (f : Database -> A) : Steps (query f) :=
  steps_act (query f) (atomic_sql _) (moves_query f) (sql_permitted _).

Definition steps_query_row {A} (f : Database -> option A) : Steps (query_row f) :=
  steps_bindR (query f)
    (fun o => match o with Some a => ret (Ok a) | None => ret (Err (Sentinel ErrNoRows)) end)
    (steps_query f)
    (fun o => match o with Some a => steps_ret (Ok a) | None => steps_ret (Err (Sentinel ErrNoRows)) end).

Definition steps_tx {A} bp cp commits (body : Eff (res A))
    (Hb : moves R (with_tx bp cp commits body))
    (Hc : forall w, w_cache (with_tx bp cp commits body w).2 = w_cache w) : Steps (with_tx bp cp commits body) :=
  steps_act _ (atomic_tx _ _ _ _) Hb (fun s => permitted_plain s _ (Hc s.1)).

(** *** Their rules *)
(** What a step answers, among others who move the database along [T]. *)
Section Rules.
Context {T : relation Database} `{!PreOrder T} (G : moment -> World -> Prop).
Context (L : moment -> string -> nat -> res Component -> Prop).
#[local] Abbreviation later := (later (R := T)).
#[local] Abbreviation wp := (wp (R := T) G L).

Lemma wp_bind {A B} (m : Eff A) (k : A -> Eff B) (s : Steps m) (t : forall a, Steps (k a)) Q h :
  wp (prog s) (fun a => wp (prog (t a)) Q) h -> wp (prog (steps_bind m k s t)) Q h.
Proof. apply wp_pbind. Qed.

(** The answer of a query is that of one of the databases that pass by. *)
Hypothesis reads : forall s w, w_db w = w_db s.1 -> w_cache w = w_cache s.1 -> G s w.

Lemma wp_local {A} (m : Eff A) Hm Q s :
  (forall s1 s', later s s1 -> later s1 s' -> Q (m s1.1).1 s') -> wp (prog (steps_local m Hm)) Q s.
Proof.
  intros HQ s1 H1. split; [by apply reads; injection (Hm s1.1)|]. intros s2 H2. apply HQ; [done|].
  etrans; [apply later_after|exact H2]. by rewrite (aside_db m Hm).
Qed.

Lemma wp_query_row {A} (f : Database -> option A) Q s :
  (forall s1 s', later s s1 -> later s1 s' -> Q (query_row f s1.1).1 s') ->
  wp (prog (steps_query_row f)) Q s.
Proof.
  intros HQ s1 H1. cbn [prog steps_query_row steps_bindR steps_bind pbind steps_query steps_act].
  rewrite query_run. cbn [fst snd]. split; [by apply reads|].
  assert (later s1 (after (tick_fault s1.1) s1)) as Ht by by apply later_after.
  specialize (fun s' Hs' => HQ s1 s' H1 (transitivity Ht Hs')). rewrite query_row_run in HQ.
  destruct (w_fault s1.1 0); [exact HQ|]. destruct (f (w_db s1.1)); exact HQ.
Qed.

(** A method that reads a row and computes its answer from it. *)
Lemma wp_reading {A B} (f : Database -> option A) (k : res A -> Eff B)
    (t : forall a, Steps (k a)) Q s :
  (forall a, exists b, prog (t a) = Halt b) ->
  (forall s1 s', later s s1 -> later s1 s' -> Q (bind (query_row f) k s1.1).1 s') ->
  wp (prog (steps_bind (query_row f) k (steps_query_row f) t)) Q s.
Proof.
  intros Ht HQ. apply wp_bind, wp_query_row. intros s1 s2 H1 H2.
  destruct (Ht (query_row f s1.1).1) as [b Eb]. rewrite Eb. apply wp_halt. intros s3 H3.
  specialize (HQ s1 s3 H1 (transitivity H2 H3)). rewrite bind_run in HQ.
  pose proof (prog_run _ (t (query_row f s1.1).1) (query_row f s1.1).2) as Hr.
  rewrite Eb in Hr. by rewrite <- Hr in HQ.
Qed.
End Rules.
End Steps.
Arguments Steps {_ _} R {A} m.
Arguments prog {_ _ R A m} s.
