(* ===== verification/Schedules.v ===== *)
(** * The interleavings of computations

    [sched] interleaves the steps of any number of computations; [watched]
    those of one more, under observation.  What [wp] promises of a computation
    holds of it in every run; when every computation is held to the law, every
    run abides by it; and while one computation may wait for a call that another
    leads, none waits for ever. *)
From Stdlib Require Import ZArith Lia.
From stdpp Require Import base gmap strings list relations.
From S2P Require Import Prelude GoStrings Errors State Effects Steps.
Open Scope packyard_scope.
Open Scope eff_scope.

Section Sched.
Context `{SqlDriver} {R : relation Database} `{!PreOrder R} {A : Type} (starts : Prog A -> Prop).

Inductive sched : relation (list (Prog A) * Shared) :=
| sched_act i p ps x : ps !! i = Some p ->
    sched (ps, x) (<[i := (step p x).1]> ps, (step p x).2)
| sched_start p ps x : starts p -> sched (ps, x) (ps ++ [p], x).

(** A computation under observation, among others. *)
Inductive watched {B} : relation (Prog B * (list (Prog A) * Shared)) :=
| watched_self p ps x : watched (p, (ps, x)) ((step p x).1, (ps, (step p x).2))
| watched_other p c c' : sched c c' -> watched (p, c) (p, c').

(** A run with what was shared before the last step, the latest first. *)
Inductive traced {C} (step : relation C) (shared : C -> Shared) : C -> list Shared -> C -> Prop :=
| traced_nil c : traced step shared c [] c
| traced_snoc c h c1 c2 : traced step shared c h c1 -> step c1 c2 ->
    traced step shared c (shared c1 :: h) c2.

(** A run of a computation under observation: from where, through what, to
    where. *)
Definition observed {B} : Prog B * (list (Prog A) * Shared) -> list Shared ->
    Prog B * (list (Prog A) * Shared) -> Prop := traced watched (fun y => y.2.2).

Lemma traced_app {C} (step : relation C) shared c h c1 h' c2 :
  traced step shared c h c1 -> traced step shared c1 h' c2 -> traced step shared c (h' ++ h) c2.
Proof. intros Hc. induction 1; [done|]. econstructor; [by auto|done]. Qed.

Lemma traced_once {C} (step : relation C) shared c c' : step c c' -> traced step shared c [shared c] c'.
Proof. intros Hs. econstructor; [constructor|done]. Qed.

(** Where it began. *)
Lemma traced_last {C} (step : relation C) shared c h c' h0 :
  traced step shared c h c' -> last (shared c' :: h ++ h0) = last (shared c :: h0).
Proof. induction 1 as [|c h c1 c2 _ IH Hs]; [done|]. by rewrite <- IH. Qed.

Lemma traced_earlier {C} (step : relation C) shared c h c' h0 :
  traced step shared c h c' -> earlier (at_moment (shared c) h0) (at_moment (shared c') (h ++ h0)).
Proof.
  induction 1 as [|c h c1 c2 _ IH _]; [reflexivity|]. etrans; [exact IH|].
  cbn [app]. rewrite <- next_at. apply earlier_next.
Qed.

Lemma traced_rtc {C} (step : relation C) shared c h c' : traced step shared c h c' -> rtc step c c'.
Proof. induction 1; [done|]. by eapply rtc_r. Qed.

(** What steps do to what is shared. *)
Record goes (x y : Shared) : Prop := {
  goes_db : R (w_db x.1) (w_db y.1);
  goes_calls : length (calls x.2) <= length (calls y.2) }.

#[export] Instance goes_preorder : PreOrder goes.
Proof. split; [by intros x; split|]. intros x y z [] []. split; [by etrans|lia]. Qed.

Lemma guarded_step {B} (p : Prog B) x :
  guarded R p -> guarded R (step p x).1 /\ goes x (step p x).2.
Proof.
  destruct p as [a|C m k|n [id|] lead join|n id r k]; cbn.
  - by split.
  - intros (_ & Hm & Hk). specialize (Hm x.1). destruct (m x.1). split; [apply Hk|by split].
  - intros [Hl Hj]. destruct (call_result id x.2) as [r|];
      (split; [first [apply Hj|by split]|reflexivity]).
  - intros [Hl Hj]. destruct (leading x.2 !! n); [split; [by split|reflexivity]|]. split; [apply Hl|].
    split; [done|]. cbn [snd]. rewrite begin_call_length. lia.
  - intros Hk. split; [done|]. split; [done|]. cbn [snd]. by rewrite land_call_length.
Qed.

Hypothesis starts_guarded : forall p, starts p -> guarded R p.

Lemma sched_keeps c c' :
  sched c c' -> Forall (guarded R) c.1 -> Forall (guarded R) c'.1 /\ goes c.2 c'.2.
Proof.
  destruct 1 as [i p ps x Hi|p ps x Hp]; cbn [fst snd]; intros Hps.
  - destruct (guarded_step p x) as [Hg Hr]; [by eapply Forall_lookup in Hps|].
    split; [|done]. by apply Forall_insert.
  - split; [|done]. apply Forall_app. split; [done|]. by repeat constructor; apply starts_guarded.
Qed.

Lemma rtc_sched_keeps c c' :
  rtc sched c c' -> Forall (guarded R) c.1 -> Forall (guarded R) c'.1 /\ goes c.2 c'.2.
Proof.
  induction 1 as [c|c c1 c' Hs _ IH]; intros Hc; [split; [done|reflexivity]|].
  destruct (sched_keeps c c1) as [H1 Hr]; [done..|]. destruct (IH H1) as [? ?].
  split; [done|]. by etrans.
Qed.

Section Wp.
Context (G : moment -> World -> Prop) (L : moment -> string -> nat -> res Component -> Prop).
#[local] Abbreviation wp := (wp (R := R) G L).

Lemma wp_step {B} (p : Prog B) Q s :
  wp p Q s -> G s (step p (here s)).2.1 \/ (step p (here s)).2.1 = s.1.
Proof.
  destruct p as [a|C m k|n [id|] lead join|n id r k]; intros Hp; cbn; try by right.
  - left. destruct (Hp s) as [Hg _]; [reflexivity|]. by destruct (m s.1).
  - right. by destruct (call_result id (group s)).
  - right. by destruct (leading (group s) !! n).
Qed.

(** One step of the computation itself, and one of the others. *)
Lemma wp_self {B} (p : Prog B) Q s :
  wp p Q s -> wp (step p (here s)).1 Q (next (step p (here s)).2 s).
Proof.
  destruct p as [a|C m k|n [id|] lead join|n id r k]; intros Hp.
  - apply (wp_weaken _ _ _ _ s); [done|apply later_stay].
  - destruct (Hp s) as [_ Hk]; [reflexivity|]. cbn in *. by destruct (m s.1).
  - cbn [step here snd]. destruct (call_result id (group s)) as [r|] eqn:Hr.
    + apply (Hp s); [reflexivity|done].
    + apply (wp_weaken _ _ _ _ s); [done|apply later_stay].
  - destruct (Hp s) as [Hl Hj]; [reflexivity|]. cbn [step here snd].
    destruct (leading (group s) !! n) as [id|] eqn:Hn; [|by apply Hl].
    intros s2 Hs2 r Hr. by apply (Hj id eq_refl).
  - apply (Hp s). reflexivity.
Qed.

Lemma wp_other {B} (p : Prog B) Q s x : wp p Q s -> goes (here s) x -> wp p Q (next x s).
Proof. intros Hp [Hdb Hc]. eapply wp_weaken; [done|]. by apply later_next. Qed.

Lemma wp_traced {B} (p : Prog B) Q c h0 h y :
  observed (p, c) h y -> Forall (guarded R) c.1 -> wp p Q (at_moment c.2 h0) ->
  Forall (guarded R) y.2.1 /\ wp y.1 Q (at_moment y.2.2 (h ++ h0)).
Proof.
  intros Hr Hg Hp. remember (p, c) as y0 eqn:E0. induction Hr as [y|y h y1 y2 _ IH Hs]; subst; [done|].
  destruct (IH eq_refl) as [Hg1 Hp1]. inversion Hs as [q ps [w g]|q c1 c2 Hsched]; subst; cbn [fst snd] in *.
  - split; [done|]. by apply (wp_self q Q (at_moment (w, g) (h ++ h0))).
  - destruct (sched_keeps _ _ Hsched Hg1) as [Hg2 Hw]. split; [done|].
    destruct c1 as [ps [w g]]. by apply (wp_other q Q (at_moment (w, g) (h ++ h0))).
Qed.

(** What [wp] promises, a computation that has ended delivers. *)
Lemma wp_sound {B} (p : Prog B) b Q ps ps' x x' h0 h :
  observed (p, (ps, x)) h (Halt b, (ps', x')) ->
  Forall (guarded R) ps -> wp p Q (at_moment x h0) -> Q b (at_moment x' (h ++ h0)).
Proof.
  intros Hr Hg Hp. destruct (wp_traced p Q _ h0 h _ Hr Hg Hp) as [_ Hq]. apply Hq. reflexivity.
Qed.
End Wp.

Lemma observed_keeps {B} (p : Prog B) c h y :
  observed (p, c) h y -> Forall (guarded R) c.1 -> Forall (guarded R) y.2.1.
Proof.
  intros Hr Hc. remember (p, c) as y0 eqn:E0. induction Hr as [y|y h y1 y2 _ IH Hs]; subst; [done|].
  specialize (IH eq_refl). inversion Hs as [q ps x|q c1 c2 Hsched]; subst; [done|]. by apply (sched_keeps c1).
Qed.

(** Left alone, a computation runs to its end, and leaves no call under way. *)
Definition unshared (o : option (string * nat)) (g : Group) : Prop :=
  match o with
  | None => leading g = ∅
  | Some (n, id) => leading g = {[n := id]} /\ calls g !! id = Some (n, None)
  end.

Lemma sched_solo i p ps w g o :
  ps !! i = Some p -> balanced o p -> unshared o g ->
  exists g', rtc sched (ps, (w, g)) (<[i := Halt (run p w).1]> ps, ((run p w).2, g')) /\ unshared None g'.
Proof.
  assert (forall (p p' : Prog A) w x' ps res g', ps !! i = Some p -> step p (w, g') = (p', x') ->
    rtc sched (<[i := p']> ps, x') (<[i := res.1]> (<[i := p']> ps), res.2) ->
    rtc sched (ps, (w, g')) (<[i := res.1]> ps, res.2)) as Hstep.
  { intros q q' w' x' qs res g' Hi Hs Hr. eapply rtc_l; [by apply (sched_act i)|]. rewrite Hs.
    by rewrite list_insert_insert_eq in Hr. }
  revert o ps w g. induction p as [a|C m k IH|n j lead IHl join _|n id r k IH]; intros o ps w g Hi Hb Hg.
  - exists g. cbn in *. subst o. rewrite list_insert_id by done. by split.
  - cbn [run]. rewrite bind_run. destruct (m w) as [b w'] eqn:Em. cbn [fst snd].
    destruct (IH b o (<[i := k b]> ps) w' g) as (g' & Hr & Hg'); [|apply Hb|done|].
    { apply list_lookup_insert_eq. by eapply lookup_lt_Some. }
    exists g'. split; [|done].
    eapply (Hstep _ (k b) w (w', g) ps (Halt (run (k b) w').1, ((run (k b) w').2, g'))); [done| |exact Hr].
    cbn. by rewrite Em.
  - destruct Hb as (-> & -> & Hl & _). cbn in Hg. set (id := length (calls g)).
    destruct (IHl id (Some (n, id)) (<[i := lead id]> ps) w (begin_call n g)) as (g' & Hr & Hg').
    { apply list_lookup_insert_eq. by eapply lookup_lt_Some. }
    { apply Hl. }
    { cbn. rewrite Hg. split; [done|]. unfold id. by rewrite lookup_app_r, Nat.sub_diag by lia. }
    exists g'. split; [|done]. destruct (Hl id) as [_ Hrun]. rewrite Hrun in Hr.
    eapply (Hstep _ (lead id) w (w, begin_call n g) ps (Halt (run (lead 0) w).1, ((run (lead 0) w).2, g')));
      [done| |exact Hr]. cbn. by rewrite Hg, lookup_empty.
  - destruct Hb as [-> Hk]. destruct Hg as [Hg Hc].
    destruct (IH None (<[i := k]> ps) w (land_call n id r g)) as (g' & Hr & Hg').
    { apply list_lookup_insert_eq. by eapply lookup_lt_Some. }
    { done. }
    { unfold land_call, unshared. rewrite Hc, String.eqb_refl. cbn. by rewrite Hg, delete_singleton_eq. }
    exists g'. split; [|done].
    by apply (Hstep (Land n id r k) k w (w, land_call n id r g) ps (Halt (run k w).1, ((run k w).2, g'))).
Qed.
End Sched.

(** ** Runs abide by the law *)
Lemma earlier_start s x : earlier s (at_moment x []) -> s = at_moment x [].
Proof.
  destruct s as [w [g h]], x as [w' g']. unfold earlier, here, past, group. cbn. intros Hs.
  apply suffix_cons_inv in Hs as [Hs|Hs]; [by injection Hs as -> -> ->|]. by apply suffix_nil_inv in Hs.
Qed.

Lemma earlier_next_inv s x s' : earlier s (next x s') -> s = next x s' \/ earlier s s'.
Proof.
  destruct s as [w [g h]], x as [w' g'], s' as [w2 [g2 h2]]. unfold earlier, next, here, past, group. cbn.
  intros Hs. apply suffix_cons_inv in Hs as [Hs|Hs]; [left|by right]. by injection Hs as -> -> ->.
Qed.

(** Runs, from their beginning. *)
Lemma moment_ind (P : moment -> Prop) :
  (forall x, P (at_moment x [])) -> (forall x s, P s -> P (next x s)) -> forall s, P s.
Proof.
  intros H0 H1 [w [g h]]. revert w g. induction h as [|[w1 g1] h IH]; intros w g; [apply (H0 (w, g))|].
  apply (H1 (w, g) (w1, (g1, h))), IH.
Qed.

Lemma next_inj x y s s' : next x s = next y s' -> x = y /\ s = s'.
Proof.
  destruct s as [w [g h]], x, y, s' as [w2 [g2 h2]]. unfold next, here, past, group. cbn.
  by intros [= -> -> -> -> ->].
Qed.

Section Law.
Context `{SqlDriver} `{StepLaw}.

(** A step of the service, seen from outside. *)
Inductive lawful_step (s : moment) : Shared -> Prop :=
| lawful_act w : permitted s w -> lawful_step s (w, group s)
| lawful_begin n : leading (group s) !! n = None -> lawful_step s (s.1, begin_call n (group s))
| lawful_land n id r : lands s n id r -> lawful_step s (s.1, land_call n id r (group s)).

Lemma lawful_stay s : lawful_step s (here s).
Proof. by apply lawful_act, permitted_plain. Qed.

(** Every step of the run up to [s] was lawful. *)
Definition abides (s : moment) : Prop := forall s1 x, earlier (next x s1) s -> lawful_step s1 x.

Lemma abides_start x : abides (at_moment x []).
Proof. intros s1 y Hs. apply earlier_start in Hs. by destruct s1 as [w [g h]], x, y. Qed.

Lemma abides_next s x : abides s -> lawful_step s x -> abides (next x s).
Proof.
  intros Hs Hx s1 y H1. apply earlier_next_inv in H1 as [H1|H1]; [|by apply Hs].
  by apply next_inj in H1 as [-> ->].
Qed.

Lemma abides_before s x : abides (next x s) -> abides s /\ lawful_step s x.
Proof.
  intros Ha. split; [|by apply Ha]. intros s1 y H1. apply Ha. etrans; [exact H1|apply earlier_next].
Qed.

(** The rest of a computation, at a moment of its run. *)
Definition held {A} (s : moment) (p : Prog A) : Prop :=
  wp (R := arbitrary) permitted lands p (fun _ _ => True) s.

Lemma held_next {A} s x (p : Prog A) : held s p -> length (calls (group s)) <= length (calls x.2) -> held (next x s) p.
Proof. intros Hp Hx. by apply (wp_other (R := arbitrary) _ _ p _ s x). Qed.

Lemma held_step {A} s (p : Prog A) : held s p -> held (next (step p (here s)).2 s) (step p (here s)).1.
Proof. apply (wp_self (R := arbitrary)). Qed.

Lemma held_lawful {A} s (p : Prog A) : held s p -> lawful_step s (step p (here s)).2.
Proof.
  destruct p as [a|C m k|n [id|] lead join|n id r k]; intros Hp; cbn.
  - apply lawful_stay.
  - destruct (Hp s) as [Hg _]; [reflexivity|]. destruct (m s.1). by apply lawful_act.
  - destruct (call_result id (group s)); apply lawful_stay.
  - destruct (leading (group s) !! n) eqn:Hn; [apply lawful_stay|by apply lawful_begin].
  - destruct (Hp s) as [Hl _]; [reflexivity|]. by apply lawful_land.
Qed.

Lemma lawful_group s x : lawful_step s x -> group_step (group s) x.2.
Proof. destruct 1; by constructor. Qed.

Lemma lawful_calls s x : lawful_step s x -> length (calls (group s)) <= length (calls x.2).
Proof. by intros Hs%lawful_group%group_step_length. Qed.

Context {A : Type} (starts : Prog A -> Prop) (starts_obey : forall p, starts p -> obeys p).

Lemma sched_abides c c' h :
  sched starts c c' -> Forall (held (at_moment c.2 h)) c.1 -> abides (at_moment c.2 h) ->
  Forall (held (at_moment c'.2 (c.2 :: h))) c'.1 /\ abides (at_moment c'.2 (c.2 :: h)).
Proof.
  intros Hs Hps Ha. rewrite <- next_at.
  assert (forall x, length (calls c.2.2) <= length (calls x.2) ->
    Forall (held (next x (at_moment c.2 h))) c.1) as Hnext.
  { intros x Hx. eapply Forall_impl; [exact Hps|]. intros p Hp. by apply held_next. }
  destruct Hs as [i p ps [w g] Hi|p ps [w g] Hp]; cbn [fst snd] in *.
  - assert (held (at_moment (w, g) h) p) as Hp by by eapply Forall_lookup in Hps.
    pose proof (held_lawful _ _ Hp) as Hl. split; [|by apply abides_next].
    apply Forall_insert; [by apply Hnext, (lawful_calls _ _ Hl)|]. apply (held_step _ _ Hp).
  - split; [|apply abides_next; [done|apply lawful_stay]].
    apply Forall_app. split; [by apply Hnext|]. constructor; [|constructor]. by apply starts_obey.
Qed.

Lemma pool_abides c h0 h c' :
  traced (sched starts) snd c h c' -> Forall (held (at_moment c.2 h0)) c.1 -> abides (at_moment c.2 h0) ->
  Forall (held (at_moment c'.2 (h ++ h0))) c'.1 /\ abides (at_moment c'.2 (h ++ h0)).
Proof.
  induction 1 as [c|c h c1 c2 _ IH Hs]; intros Hps Ha; [done|]. destruct (IH Hps Ha) as [Hps1 Ha1].
  by apply (sched_abides c1).
Qed.

Lemma observed_abides {B} (p : Prog B) c h0 h y :
  observed starts (p, c) h y -> held (at_moment c.2 h0) p -> Forall (held (at_moment c.2 h0)) c.1 ->
  abides (at_moment c.2 h0) ->
  Forall (held (at_moment y.2.2 (h ++ h0))) y.2.1 /\ abides (at_moment y.2.2 (h ++ h0)).
Proof.
  intros Hr Hp Hps Ha. enough (held (at_moment y.2.2 (h ++ h0)) y.1 /\
    Forall (held (at_moment y.2.2 (h ++ h0))) y.2.1 /\ abides (at_moment y.2.2 (h ++ h0))) as (_ & ?) by done.
  remember (p, c) as y0 eqn:E0. induction Hr as [y|y h y1 y2 _ IH Hs]; subst; [done|].
  destruct (IH eq_refl) as (Hp1 & Hps1 & Ha1).
  inversion Hs as [q ps [w g]|q c1 c2 Hsched]; subst; cbn [fst snd] in *.
  - pose proof (held_lawful _ _ Hp1) as Hl. cbn [app]. rewrite <- next_at.
    split; [by apply (held_step _ _ Hp1)|]. split; [|by apply abides_next].
    eapply Forall_impl; [exact Hps1|]. intros q' Hq'. apply held_next; [done|]. apply (lawful_calls _ _ Hl).
  - destruct (sched_abides _ _ _ Hsched Hps1 Ha1) as [Hps2 Ha2]. split; [|by split].
    cbn [app]. rewrite <- next_at. apply held_next; [done|].
    specialize (Ha2 (at_moment c1.2 (h ++ h0)) c2.2). rewrite next_at in Ha2.
    apply (lawful_calls _ _ (Ha2 (reflexivity _))).
Qed.
End Law.

(** Steps along [R] are steps along a wider relation. *)
Section Weaken.
Context `{SqlDriver} `{StepLaw} {R S : relation Database} (HRS : forall db db', R db db' -> S db db').

Lemma guarded_weaken {A} (p : Prog A) : guarded R p -> guarded S p.
Proof.
  induction p as [a|B m k IH|n j lead IHl join IHj|n id r k IH]; [done| | |done].
  - intros (Ha & Hm & Hk). split; [done|]. split; [intros w; apply HRS, Hm|auto].
  - intros [Hl Hj]. split; auto.
Qed.

Definition steps_weaken {A} (m : Eff A) (s : Steps R m) : Steps S m :=
  {| prog := prog s; prog_run := prog_run _ s; prog_guarded := guarded_weaken _ (prog_guarded _ s);
     prog_obeys := prog_obeys _ s; prog_balanced := prog_balanced _ s |}.

(** A computation whose steps, each along [R] and some time after [s], [G]
    allows, whatever comes of it. *)
Lemma wp_guarded `{!PreOrder S} {A} (G : moment -> World -> Prop) (p : Prog A) s :
  guarded R p ->
  (forall s' w, later (R := S) s s' -> R (w_db s'.1) (w_db w) -> G s' w) ->
  wp (R := S) G (fun _ _ _ _ => True) p (fun _ _ => True) s.
Proof.
  revert s. induction p as [a|B m k IH|n [id|] lead IHl join IHj|n id r k IH]; intros s Hp HG; [done|..];
    intros s' Hs'.
  - destruct Hp as (_ & Hm & Hk). split; [by apply HG, Hm|].
    apply IH; [apply Hk|]. intros s2 w Hs2. apply HG. etrans; [exact Hs'|].
    etrans; [|exact Hs2]. apply later_after, HRS, Hm.
  - intros r Hr. apply IHj; [apply Hp|]. intros s2 w Hs2. apply HG. etrans; [exact Hs'|].
    etrans; [|exact Hs2]. apply later_stay.
  - destruct Hp as [Hl Hj]. split.
    + intros Hn. apply IHl; [apply Hl|]. intros s2 w Hs2. apply HG. etrans; [exact Hs'|].
      etrans; [|exact Hs2]. apply later_begin.
    + intros id Hid s2 r Hs2 Hr. apply IHj; [apply Hj|]. intros s3 w Hs3. apply HG. etrans; [exact Hs'|].
      etrans; [apply later_stay|]. etrans; [exact Hs2|]. etrans; [apply later_stay|exact Hs3].
  - split; [done|]. apply IH; [apply Hp|]. intros s2 w Hs2. apply HG. etrans; [exact Hs'|].
    etrans; [|exact Hs2]. apply later_land.
Qed.
End Weaken.

(** ** Every computation ends *)
(** There is always a computation that can go on, until all have ended; and
    whichever go on, they all have ended after finitely many steps. *)
Definition halted {A} (p : Prog A) : Prop := match p with Halt _ => True | _ => False end.

(** It has ended, or waits for a call that has not landed. *)
Definition blocked {A} (p : Prog A) (x : Shared) : Prop :=
  match p with
  | Halt _ => True
  | Share _ (Some id) _ _ => call_result id x.2 = None
  | _ => False
  end.

#[export] Instance blocked_dec {A} (p : Prog A) x : Decision (blocked p x).
Proof. destruct p as [a|C m k|n [id|] lead join|n id r k]; cbn; apply _. Defined.

Section Goes.
Context {A : Type}.

(** A step of a computation that is not blocked, while no new ones start. *)
Inductive goes_on : relation (list (Prog A) * Shared) :=
| goes_on_act i p ps x : ps !! i = Some p -> ~ blocked p x ->
    goes_on (ps, x) (<[i := (step p x).1]> ps, (step p x).2).

Lemma goes_on_sched starts c c' : goes_on c c' -> sched starts c c'.
Proof. destruct 1. by constructor. Qed.

(** *** It ends *)
Definition goes_to (p' p : Prog A) : Prop := exists x, ~ blocked p x /\ p' = (step p x).1.

Lemma goes_to_acc p : Acc goes_to p.
Proof.
  induction p as [a|C m k IH|n j lead IHl join IHj|n id r k IH]; constructor.
  - intros p' (x & Hb & _). destruct (Hb I).
  - intros p' (x & _ & ->). cbn. destruct (m x.1). apply IH.
  - assert (forall id, Acc goes_to (Share n (Some id) lead join)) as Hjoined.
    { intros id. constructor. intros p' (x & Hb & ->). cbn in Hb |- *. destruct (call_result id x.2); [apply IHj|by destruct Hb]. }
    intros p' (x & Hb & ->). destruct j as [id|]; cbn in Hb |- *.
    { destruct (call_result id x.2); [apply IHj|by destruct Hb]. }
    destruct (leading x.2 !! n); [apply Hjoined|apply IHl].
  - intros p' (x & _ & ->). apply IH.
Qed.

Definition one_goes (qs ps : list (Prog A)) : Prop :=
  exists i p p', ps !! i = Some p /\ goes_to p' p /\ qs = <[i := p']> ps.

Lemma one_goes_acc ps : Acc one_goes ps.
Proof.
  induction ps as [|p ps IHps]; [constructor; by intros ? ([|i] & ? & ? & ? & _)|].
  revert p. enough (forall p, Acc goes_to p -> Acc one_goes (p :: ps)) as Hgen.
  { intros p. apply Hgen, goes_to_acc. }
  induction IHps as [ps _ IHps]. intros p Hp. induction Hp as [p Hp IHp]. constructor.
  intros qs ([|i] & q & q' & Hi & Hq & ->); cbn in *.
  - injection Hi as <-. by apply IHp.
  - apply IHps; [by exists i, q, q'|by constructor].
Qed.

Lemma goes_on_acc c : Acc (flip goes_on) c.
Proof.
  destruct c as [ps x]. revert x. induction (one_goes_acc ps) as [ps _ IH]. intros x. constructor.
  intros c' Hc. inversion Hc as [i p ps' x' Hi Hb]; subst. apply IH. exists i, p, (step p x).1.
  split; [done|]. split; [by exists x|done].
Qed.

(** *** It does not stop before *)
(** A computation lands the calls it leads, and waits for calls that began. *)
Definition thread_ok (g : Group) (p : Prog A) : Prop :=
  (exists o, balanced o p) \/
  (exists n id lead join o, p = Share n (Some id) lead join /\ calls g !! id = Some (n, o) /\
     forall r, balanced None (join r)).

Record leads_land (c : list (Prog A) * Shared) : Prop := {
  ll_group : group_ok c.2.2;
  ll_threads : Forall (thread_ok c.2.2) c.1;
  ll_leader n id : leading c.2.2 !! n = Some id -> exists i p, c.1 !! i = Some p /\ balanced (Some (n, id)) p }.

(** Who waits waits for somebody who does not. *)
Lemma leads_land_goes c : leads_land c -> Forall halted c.1 \/ exists c', goes_on c c'.
Proof.
  destruct c as [ps x]. intros [Hg Ht Hl]. cbn [fst snd] in *.
  destruct (decide (Forall (fun p => blocked p x) ps)) as [Hb|Hb].
  2:{ right. apply not_Forall_Exists in Hb; [|apply _]. apply Exists_exists in Hb as (p & Hp & Hb).
      apply list_elem_of_lookup in Hp as [i Hi]. eexists. by econstructor. }
  left. apply Forall_lookup. intros i p Hi. pose proof (Forall_lookup_1 _ _ _ _ Hb Hi) as Hbp. cbn beta in Hbp.
  destruct p as [a|C m k|n [id|] lead join|n id r k]; [done..| |done|done]. exfalso. cbn in Hbp.
  destruct (Forall_lookup_1 _ _ _ _ Ht Hi) as [(o & _ & [=] & _)|(n' & id' & lead' & join' & o & Heq & Hc & _)].
  injection Heq as <- <- _ _.
  unfold call_result in Hbp. rewrite Hc in Hbp. cbn in Hbp. subst o. apply Hg, Hl in Hc as (j & q & Hj & Hq).
  pose proof (Forall_lookup_1 _ _ _ _ Hb Hj) as Hbq. cbn beta in Hbq.
  destruct q as [a|C m k|n2 [id2|] lead2 join2|n2 id2 r k]; [done| |by destruct Hq as (? & ? & _)|..]; done.
Qed.

Lemma step_thread g p x : x.2 = g -> group_ok g -> thread_ok g p -> thread_ok (step p x).2.2 (step p x).1.
Proof.
  intros <- Hg [[o Hp]|(n & id & lead & join & o & -> & Hc & Hj)].
  - destruct p as [a|C m k|n j lead join|n id r k]; cbn in Hp.
    + left. by exists o.
    + cbn. destruct (m x.1). left. exists o. apply Hp.
    + destruct Hp as (-> & -> & Hl & Hj). cbn. destruct (leading x.2 !! n) as [id|] eqn:Hn.
      * right. exists n, id, lead, join, None. split; [done|].
        apply Hg in Hn. split; [exact Hn|done].
      * left. eexists. apply Hl.
    + destruct Hp as [-> Hk]. left. by exists None.
  - cbn. destruct (call_result id x.2) as [r|]; [left; exists None; apply Hj|]. right. by exists n, id, lead, join, o.
Qed.

Lemma thread_keeps g g' (p : Prog A) : group_step g g' -> thread_ok g p -> thread_ok g' p.
Proof.
  intros Hs [Hb|(n & id & lead & join & o & -> & Hc & Hj)]; [by left|right].
  destruct (group_step_keeps g g' id n o Hs Hc) as (o' & Hc' & _). by exists n, id, lead, join, o'.
Qed.

(** The leader of a call leads it until it lands. *)
Lemma step_leads (p : Prog A) x n id :
  group_ok x.2 -> balanced (Some (n, id)) p -> leading x.2 !! n = Some id ->
  leading (step p x).2.2 !! n = Some id -> balanced (Some (n, id)) (step p x).1.
Proof.
  intros Hg Hp Hn. destruct p as [a|C m k|n' j lead join|n' id' r k]; cbn in Hp.
  - done.
  - cbn. destruct (m x.1). intros _. apply Hp.
  - by destruct Hp as [[=] _].
  - destruct Hp as [[= <- <-] _]. cbn. unfold land_call. apply Hg in Hn. rewrite Hn, String.eqb_refl.
    cbn. by rewrite lookup_delete_eq.
Qed.

(** A call under way after a step was so before, or the step began it. *)
Lemma step_began (p : Prog A) x n id :
  thread_ok x.2 p -> leading (step p x).2.2 !! n = Some id ->
  leading x.2 !! n = Some id \/ balanced (Some (n, id)) (step p x).1.
Proof.
  intros [[o Hp]|(n' & id' & lead & join & o & -> & Hc & Hj)].
  2:{ cbn. destruct (call_result id' x.2); by left. }
  destruct p as [a|C m k|n' j lead join|n' id' r k]; cbn in Hp.
  - by left.
  - cbn. destruct (m x.1). by left.
  - destruct Hp as (-> & -> & Hl & _). cbn. destruct (leading x.2 !! n') as [i|] eqn:Hn; [by left|]. cbn.
    rewrite lookup_insert. case_decide as Hne; [|by left]. subst n'. intros [= <-]. right. apply Hl.
  - cbn. unfold land_call. destruct (calls x.2 !! id') as [[m' [?|]]|]; [by left| |by left].
    destruct (m' =s n'); [|by left]. cbn. intros [_ ?]%lookup_delete_Some. by left.
Qed.

Context (starts : Prog A -> Prop) (starts_balanced : forall p, starts p -> balanced None p).

Lemma leads_land_step c c' : leads_land c -> sched starts c c' -> leads_land c'.
Proof.
  intros [Hg Ht Hl] Hs. destruct Hs as [i p ps x Hi|p ps x Hp]; cbn [fst snd] in *.
  - assert (thread_ok x.2 p) as Hp by by eapply Forall_lookup in Ht.
    pose proof (step_group p x) as Hstep. split; cbn [fst snd].
    + by eapply group_step_ok.
    + apply Forall_insert; [|by eapply step_thread]. eapply Forall_impl; [exact Ht|].
      intros q. by apply thread_keeps.
    + intros n id Hn. destruct (step_began p x n id Hp Hn) as [Hold|Hnew].
      2:{ exists i, (step p x).1. split; [|done]. apply list_lookup_insert_eq. by eapply lookup_lt_Some. }
      destruct (Hl n id Hold) as (j & q & Hj & Hq). destruct (decide (i = j)) as [->|Hne].
      * rewrite Hi in Hj. injection Hj as ->. exists j, (step q x).1. split; [|by apply step_leads].
        apply list_lookup_insert_eq. by eapply lookup_lt_Some.
      * exists j, q. split; [|done]. by rewrite list_lookup_insert_ne.
  - split; cbn [fst snd]; [done| |].
    + apply Forall_app. split; [done|]. constructor; [|constructor]. left. exists None. by apply starts_balanced.
    + intros n id (j & q & Hj & Hq)%Hl. exists j, q. split; [by apply lookup_app_l_Some|done].
Qed.

Lemma leads_land_run w c : rtc (sched starts) ([], (w, no_calls)) c -> leads_land c.
Proof.
  intros Hr. remember ([], (w, no_calls)) as c0 eqn:E. assert (leads_land c0) as H0.
  { subst. split; cbn; [by intros n id|constructor|done]. }
  clear E. induction Hr as [c|c c1 c2 Hs _ IH]; [done|]. by apply IH, (leads_land_step c).
Qed.
End Goes.
