(* ===== verification/AccountStore.v ===== *)
(** * Accounts and their keys: accounts.go, email.go, and the key half of sqlite.go

    One definition per store method, each SQL statement a function on the
    tables.  [ON DELETE RESTRICT] never fires: no statement deletes an
    account. *)
From Stdlib Require Import ZArith Lia.
From stdpp Require Import base gmap strings list.
From S2P Require Import Prelude GoStrings Errors State Times Tables Effects.
Open Scope packyard_scope.
Open Scope eff_scope.

Section Accounts.
Context `{SqlDriver} `{UnicodeTables}.

(** email.go *)
Definition canonicalEmail (s : string) : string := ToLower (TrimSpace s).

(** ** SQL statements on accounts *)
Definition sql_insert_account (id : string) (r : account_row) (db : Database) : stmt unit :=
  if negb (account_check r) then Violates (CheckFailed "accounts")
  else if bool_decide (is_Some (accounts db !! id)) then Violates (UniqueFailed "accounts.id")
  else if held_by_other a_email (accounts db) id (a_email r)
  then Violates (UniqueFailed "accounts.email")
  else Done tt (set_accounts (<[id := r]> (accounts db)) db).

(** [UPDATE accounts SET email = COALESCE(?, email), ... RETURNING ...]. *)
Definition sql_update_account (id : string) (email org_name status : option string)
    (db : Database) : stmt (option account_row) :=
  match accounts db !! id with
  | None => Done None db
  | Some r =>
      let r' := mkAccountRow (default (a_email r) email)
                  (COALESCE org_name (a_org_name r))
                  (default (a_status r) status) (a_created_at r) (a_created_by r) in
      if negb (account_check r') then Violates (CheckFailed "accounts")
      else if held_by_other a_email (accounts db) id (a_email r')
      then Violates (UniqueFailed "accounts.email")
      else Done (Some r') (set_accounts (<[id := r']> (accounts db)) db)
  end.

(** [UPDATE accounts SET status = 'deleted' WHERE id = ?]. *)
Definition sql_mark_deleted (id : string) (db : Database) : stmt unit :=
  match accounts db !! id with
  | None => Done tt db
  | Some r =>
      let r' := mkAccountRow (a_email r) (a_org_name r) "deleted" (a_created_at r)
                  (a_created_by r) in
      Done tt (set_accounts (<[id := r']> (accounts db)) db)
  end.

(** ** SQL statements on subscription_key *)
Definition deactivate (r : key_row) : key_row :=
  mkKeyRow (k_component r) (k_label r) 0 (k_created_at r) (k_expires_at r)
    (k_usage_count r) (k_account_id r).

(** [UPDATE subscription_key SET active = 0 WHERE sel]; the result is
    RowsAffected, the number of rows the WHERE clause matched. *)
Definition sql_deactivate (sel : string -> key_row -> bool) (db : Database) : stmt Z :=
  Done (Z.of_nat (count_where sel (subscription_key db)))
    (set_keys (update_where sel deactivate (subscription_key db)) db).

Definition sql_increment (id : string) (db : Database) : stmt Z :=
  let bump r := mkKeyRow (k_component r) (k_label r) (k_active r) (k_created_at r)
                  (k_expires_at r) (k_usage_count r + 1) (k_account_id r) in
  let sel k (_ : key_row) := k =s id in
  Done (Z.of_nat (count_where sel (subscription_key db)))
    (set_keys (update_where sel bump (subscription_key db)) db).

Definition sql_insert_key (id : string) (r : key_row) (db : Database) : stmt unit :=
  if bool_decide (is_Some (subscription_key db !! id))
  then Violates (UniqueFailed "subscription_key.id")
  else if bool_decide (is_Some (accounts db !! k_account_id r))
  then Done tt (set_keys (<[id := r]> (subscription_key db)) db)
  else Violates ForeignKeyFailed.

(** ** Scanning rows *)
Definition scanAccount (id : string) (r : account_row) : Account :=
  mkAccount id (a_email r) (default "" (a_org_name r)) (a_status r)
    (parse_stamp (a_created_at r)) (a_created_by r).

(** The one time in the tables that a client chose may be no text that
    [time.Parse] reads. *)
Definition scanKey (id : string) (r : key_row) : res Key :=
  let key expires := mkKey id (k_component r) (k_active r =? 1)%Z (k_label r)
    (parse_stamp (k_created_at r)) expires (k_usage_count r) (k_account_id r) in
  match k_expires_at r with
  | None => Ok (key None)
  | Some s =>
      match scan_time s with
      | Some t => Ok (key (Some t))
      | None => Err (Wrap "parse expires_at" (ErrText "parsing time"))
      end
  end.

(** The rows of a listing, up to the first that does not scan. *)
Definition scanKeys (op : string) (rows : list (string * key_row)) : res (list Key) :=
  match mapM (fun kr => scanKey kr.1 kr.2) rows with
  | Ok l => Ok l
  | Err e => Err (Wrap op e)
  end.

Definition formatNullTime (t : option Z) : option Z := format_stamp <$> t.

(** A [QueryRow] error: [sql.ErrNoRows] becomes [nf], the rest is wrapped. *)
Definition no_rows {A} (op : string) (nf : sentinel) (e : goerr) : Eff (res A) :=
  if errors_is e ErrNoRows then fail op nf else ret (Err (Wrap op e)).

(** ** The account methods *)
Definition generateAccountID : Eff (res string) := rand_hex 16.

Definition CreateAccount (inp : AccountInput) (createdBy : string) : Eff (res Account) :=
  id <-? wrapE "generate account id" generateAccountID ;;
  let email := canonicalEmail (in_Email inp) in
  t <- now ;;
  r <- sql (sql_insert_account id
         (mkAccountRow email (Some (in_OrgName inp)) "active" (format_stamp t) createdBy)) ;;
  match r with
  | Err e => ret (Err (classifyConstraintError "create account" e))
  | Ok _ => ret (Ok (mkAccount id email (in_OrgName inp) AccountStatusActive t createdBy))
  end.

Definition GetAccount (id : string) : Eff (res Account) :=
  row <- query_row (fun db => accounts db !! id) ;;
  match row with
  | Err e => no_rows "get account" ErrAccountNotFound e
  | Ok r =>
      let a := scanAccount id r in
      if Acc_Status a =s AccountStatusDeleted then fail "get account" ErrAccountNotFound
      else ret (Ok a)
  end.

Definition ListAccounts (statusFilter : string) (offset limit : Z) : Eff (res (list Account)) :=
  rows <-? wrapE "list accounts" (query (fun db =>
    sql_page offset limit
      (order_newest a_created_at
         (List.filter (fun kr => if statusFilter =s "" then a_status kr.2 <>s "deleted"
                                 else a_status kr.2 =s statusFilter)
            (scan (accounts db)))))) ;;
  ret (Ok (map (fun kr => scanAccount kr.1 kr.2) rows)).

Definition UpdateAccount (id : string) (upd : AccountUpdate) : Eff (res Account) :=
  let bad_status := match u_Status upd with
                    | Some s => s =s AccountStatusDeleted | None => false end in
  let legacy_status := match u_Status upd with
                       | Some s => s <>s AccountStatusActive | None => false end in
  let legacy_rename := match u_Email upd, u_OrgName upd with
                       | None, None => false | _, _ => true end in
  if bad_status then fail "update account" ErrInvalidStatusTransition
  else if (id =s legacyAccountID) && (legacy_status || legacy_rename)
  then fail "update account" ErrLegacyAccountProtected
  else
    let emailArg := canonicalEmail <$> u_Email upd in
    row <- sql (sql_update_account id emailArg (u_OrgName upd) (u_Status upd)) ;;
    match row with
    | Ok (Some r) => ret (Ok (scanAccount id r))
    | Ok None => fail "update account" ErrAccountNotFound
    | Err e => ret (Err (classifyConstraintError "update account" e))
    end.

Definition owned_active (id : string) (_ : string) (r : key_row) : bool :=
  (k_account_id r =s id) && (k_active r =? 1)%Z.

Definition DeleteAccountWithCascade (id : string) : Eff (res Z) :=
  if id =s legacyAccountID then fail "delete account" ErrLegacyAccountProtected
  else with_tx "begin tx" "commit delete" (fun _ => true) (
    st <- query_row (fun db => a_status <$> accounts db !! id) ;;
    match st with
    | Err e => if errors_is e ErrNoRows then fail "delete account" ErrAccountNotFound
               else ret (Err (Wrap "delete account lookup" e))
    | Ok status =>
        if status =s AccountStatusDeleted then fail "delete account" ErrAccountNotFound
        else
          revoked <-? wrapE "cascade revoke keys" (sql (sql_deactivate (owned_active id))) ;;
          _ <-? wrapE "mark account deleted" (sql (sql_mark_deleted id)) ;;
          ret (Ok revoked)
    end).

Definition CountActiveAccountKeys (id : string) : Eff (res Z) :=
  wrapE "count active account keys" (query (fun db =>
    Z.of_nat (count_where (owned_active id) (subscription_key db)))).

Definition ListAccountKeys (id : string) (offset limit : Z) : Eff (res (list Key)) :=
  rows <-? wrapE "list account keys" (query (fun db =>
    sql_page offset limit
      (order_newest k_created_at
         (List.filter (fun kr => k_account_id kr.2 =s id) (scan (subscription_key db)))))) ;;
  ret (scanKeys "scan account key" rows).

(** ** The key methods *)
Definition generateKeyValue : Eff (res string) := rand_hex 32.

Definition CreateKeyForAccount (accountID component label : string) (expiresAt : option Z) :
    Eff (res Key) :=
  id <-? wrapE "generate key" generateKeyValue ;;
  t <- now ;;
  r <- sql (sql_insert_key id
         (mkKeyRow component label 1 (format_stamp t) (formatNullTime expiresAt) 0 accountID)) ;;
  match r with
  | Err e => ret (Err (classifyConstraintError "create key for account" e))
  | Ok _ => ret (Ok (mkKey id component true label t expiresAt 0 accountID))
  end.

Definition CreateKey (accountID component label : string) (expiresAt : option Z) :
    Eff (res Key) :=
  CreateKeyForAccount accountID component label expiresAt.

Definition GetByID (id : string) : Eff (res Key) :=
  row <- query_row (fun db => subscription_key db !! id) ;;
  match row with
  | Err e => no_rows "get key" ErrNotFound e
  | Ok r => ret (match scanKey id r with Ok k => Ok k | Err e => Err (Wrap "get key" e) end)
  end.

Definition GetByValue (value : string) : Eff (res Key) :=
  row <- query_row (fun db => subscription_key db !! value) ;;
  match row with
  | Err e => no_rows "get key" ErrNotFound e
  | Ok r =>
      match scanKey value r with
      | Err e => ret (Err (Wrap "get key" e))
      | Ok k => if negb (Key_Active k) then fail "get key" ErrRevoked else ret (Ok k)
      end
  end.

Definition ListKeys (componentFilter accountFilter : string) (offset limit : Z) :
    Eff (res (list Key)) :=
  rows <-? wrapE "list keys" (query (fun db =>
    sql_page offset limit
      (order_newest_only k_created_at
         (List.filter (fun kr =>
              ((componentFilter =s "") || (k_component kr.2 =s componentFilter)) &&
              ((accountFilter =s "") || (k_account_id kr.2 =s accountFilter)))
            (scan (subscription_key db)))))) ;;
  ret (scanKeys "scan key" rows).

Definition RevokeKey (id : string) : Eff (res unit) :=
  n <-? wrapE "revoke key" (sql (sql_deactivate (fun k _ => k =s id))) ;;
  if (n =? 0)%Z then fail "revoke key" ErrNotFound else ret (Ok tt).

Definition IncrementUsage (id : string) : Eff (res unit) :=
  n <-? wrapE "increment usage" (sql (sql_increment id)) ;;
  if (n =? 0)%Z then fail "increment usage" ErrNotFound else ret (Ok tt).
End Accounts.
