(* ===== verification/ComponentStore.v ===== *)
(** * Components: the component half of sqlite.go, and ComponentPatch of store.go

    The three RPM lists are JSON text in the table; [json.Marshal] followed by
    [json.Unmarshal] gives a slice of strings back, nil going through [null],
    so the columns hold the slices themselves.  This is exact for valid UTF-8;
    the lists come out of a decoded request body, which holds nothing else
    (the decoder replaces invalid bytes). *)
From Stdlib Require Import ZArith Lia.
From stdpp Require Import base gmap strings list.
From S2P Require Import Prelude GoStrings Errors State Tables Effects AccountStore.
Open Scope packyard_scope.
Open Scope eff_scope.

Definition IsEmpty (p : ComponentPatch) : bool :=
  match p_Visibility p, p_RPMSeries p, p_RPMOSFamilies p, p_RPMArchitectures p with
  | None, None, None, None => true
  | _, _, _, _ => false
  end.

(** Turns a nil slice into an empty one. *)
Definition nonNil (v : strings_t) : strings_t := Some (elems v).

Definition scanComponent (name : string) (r : component_row) : Component :=
  mkComponent name (c_visibility r) (c_rpm_series r) (c_rpm_os_families r)
    (c_rpm_architectures r) (parse_stamp (c_created_at r)).

(** The record a patch describes: a nil field is left as it is. *)
Definition apply_patch (p : ComponentPatch) (c : Component) : Component :=
  mkComponent (Name c) (default (Visibility c) (p_Visibility p))
    (default (RPMSeries c) (p_RPMSeries p))
    (default (RPMOSFamilies c) (p_RPMOSFamilies p))
    (default (RPMArchitectures c) (p_RPMArchitectures p)) (Comp_CreatedAt c).

Section Components.
Context `{SqlDriver}.

Definition sql_insert_component (name : string) (r : component_row) (db : Database) : stmt unit :=
  if negb (component_check r) then Violates (CheckFailed "components")
  else if bool_decide (is_Some (components db !! name))
  then Violates (UniqueFailed "components.name")
  else Done tt (set_components (<[name := r]> (components db)) db).

Definition sql_delete_component (name : string) (db : Database) : stmt Z :=
  Done (if bool_decide (is_Some (components db !! name)) then 1 else 0)%Z
    (set_components (delete name (components db)) db).

(** [UPDATE components SET ... WHERE name = ? RETURNING ...]. *)
Definition sql_update_component (c : Component) (db : Database) : stmt (option component_row) :=
  match components db !! Name c with
  | None => Done None db
  | Some r =>
      let r' := mkComponentRow (Visibility c) (nonNil (RPMSeries c)) (nonNil (RPMOSFamilies c))
                  (nonNil (RPMArchitectures c)) (c_created_at r) in
      if negb (component_check r') then Violates (CheckFailed "components")
      else Done (Some r') (set_components (<[Name c := r']> (components db)) db)
  end.

Definition CreateComponent (comp : Component) : Eff (res Component) :=
  let vis := if Visibility comp =s "" then "private" else Visibility comp in
  t <- now ;;
  r <- sql (sql_insert_component (Name comp)
         (mkComponentRow vis (RPMSeries comp) (RPMOSFamilies comp) (RPMArchitectures comp)
            (format_stamp t))) ;;
  match r with
  | Err e =>
      if Contains (err_text e) "UNIQUE constraint failed"
      then fail "create component" ErrComponentExists
      else ret (Err (Wrap "create component" e))
  | Ok _ => ret (Ok (mkComponent (Name comp) vis (RPMSeries comp) (RPMOSFamilies comp)
                       (RPMArchitectures comp) t))
  end.

Definition GetComponent (name : string) : Eff (res Component) :=
  row <- query_row (fun db => components db !! name) ;;
  match row with
  | Err e => no_rows "get component" ErrComponentNotFound e
  | Ok r => ret (Ok (scanComponent name r))
  end.

Definition ListComponents (offset limit : Z) : Eff (res (list Component)) :=
  rows <-? wrapE "list components" (query (fun db =>
    sql_page offset limit (order_by_key (scan (components db))))) ;;
  ret (Ok (map (fun kr => scanComponent kr.1 kr.2) rows)).

Definition DeleteComponent (name : string) : Eff (res unit) :=
  n <-? wrapE "delete component" (sql (sql_delete_component name)) ;;
  if (n =? 0)%Z then fail "delete component" ErrComponentNotFound else ret (Ok tt).

Definition scoped_active (component : string) (_ : string) (r : key_row) : bool :=
  (k_component r =s component) && (k_active r =? 1)%Z.

Definition RevokeComponentKeys (component : string) : Eff (res Z) :=
  wrapE "revoke component keys" (sql (sql_deactivate (scoped_active component))).

Definition CountActiveComponentKeys (component : string) : Eff (res Z) :=
  wrapE "count component keys" (query (fun db =>
    Z.of_nat (count_where (scoped_active component) (subscription_key db)))).

Definition DeleteComponentWithRevoke (name : string) : Eff (res Z) :=
  with_tx "begin tx" "commit" (fun _ => true) (
    revoked <-? wrapE "revoke component keys" (sql (sql_deactivate (scoped_active name))) ;;
    n <-? wrapE "delete component" (sql (sql_delete_component name)) ;;
    if (n =? 0)%Z then fail "delete component" ErrComponentNotFound else ret (Ok revoked)).

Definition UpdateComponent (name : string) (patch : ComponentPatch) : Eff (res Component) :=
  with_tx "update component: begin" "update component: commit" (fun _ => true) (
    row <- query_row (fun db => components db !! name) ;;
    match row with
    | Err e => no_rows "update component" ErrComponentNotFound e
    | Ok r =>
        let current := apply_patch patch (scanComponent name r) in
        updated <-? wrapE "update component" (
          o <-? sql (sql_update_component current) ;;
          match o with Some r' => ret (Ok r') | None => ret (Err (Sentinel ErrNoRows)) end) ;;
        ret (Ok (scanComponent name updated))
    end).

(** The two sets, built row by row. *)
Definition LoadComponentSets : Eff (res (gset string * gset string)) :=
  rows <-? wrapE "load component sets" (query (fun db =>
    order_by_key (scan (components db)))) ;;
  ret (Ok (fold_left (fun acc kr =>
             ({[kr.1]} ∪ acc.1,
              if c_visibility kr.2 =s "public" then {[kr.1]} ∪ acc.2 else acc.2))
           rows (∅, ∅))).
End Components.
