(* ===== verification/SessionStore.v ===== *)
(** * Sessions: sessions.go *)
From Stdlib Require Import ZArith Lia.
From stdpp Require Import base gmap strings list.
From S2P Require Import Prelude GoStrings Errors State Tables Effects AccountStore.
Open Scope packyard_scope.
Open Scope eff_scope.

Definition SessionAbsoluteLifetime : Z := 24 * Hour.
Definition SessionIdleLifetime : Z := 8 * Hour.

Definition scanSession (id : string) (r : session_row) : Session :=
  mkSession id (s_operator_id r) (parse_stamp (s_created_at r)) (parse_stamp (s_last_seen_at r))
    (parse_stamp (s_expires_at r)) (default "" (s_ip r)) (default "" (s_user_agent r)).

Section Sessions.
Context `{SqlDriver}.

Definition sql_insert_session (id : string) (r : session_row) (db : Database) : stmt unit :=
  if bool_decide (is_Some (sessions db !! id)) then Violates (UniqueFailed "sessions.id")
  else if bool_decide (is_Some (operators db !! s_operator_id r))
  then Done tt (set_sessions (<[id := r]> (sessions db)) db)
  else Violates ForeignKeyFailed.

(** [UPDATE sessions SET last_seen_at = ? WHERE id = ? AND last_seen_at < ?]. *)
Definition sql_touch_session (id : string) (at_ : Z) (db : Database) : stmt Z :=
  let sel k (r : session_row) := (k =s id) && (s_last_seen_at r <? at_)%Z in
  let upd r := mkSessionRow (s_operator_id r) (s_created_at r) at_ (s_expires_at r)
                 (s_ip r) (s_user_agent r) in
  Done (Z.of_nat (count_where sel (sessions db)))
    (set_sessions (update_where sel upd (sessions db)) db).

Definition sql_delete_session (id : string) (db : Database) : stmt unit :=
  Done tt (set_sessions (delete id (sessions db)) db).

Definition sql_delete_operator_sessions (operatorID : string) (db : Database) : stmt unit :=
  Done tt (set_sessions (filter (fun kr => s_operator_id kr.2 <> operatorID) (sessions db)) db).

Definition generateSessionID : Eff (res string) := rand_hex 32.

Definition session_errors : constraintErrorMap :=
  {| UniqueErr := None; ForeignErr := Some ErrOperatorNotFound; CheckErr := None |}.

Definition CreateSession (operatorID ip userAgent : string) : Eff (res Session) :=
  id <-? wrapE "generate session id" generateSessionID ;;
  t <- now ;;
  let expires := (t + SessionAbsoluteLifetime)%Z in
  r <- sql (sql_insert_session id
         (mkSessionRow operatorID (format_stamp t) (format_stamp t) (format_stamp expires)
            (Some ip) (Some userAgent))) ;;
  match r with
  | Err e => ret (Err (classify "create session" e session_errors))
  | Ok _ => ret (Ok (mkSession id operatorID t t expires ip userAgent))
  end.

(** The inner join on operators hides a session whose operator is gone. *)
Definition GetSession (id : string) : Eff (res Session) :=
  row <- query_row (fun db =>
    match sessions db !! id with
    | Some r => match operators db !! s_operator_id r with Some _ => Some r | None => None end
    | None => None
    end) ;;
  match row with
  | Err e => no_rows "get session" ErrSessionNotFound e
  | Ok r => ret (Ok (scanSession id r))
  end.

Definition TouchSession (id : string) (t : Z) : Eff (res unit) :=
  n <-? wrapE "touch session" (sql (sql_touch_session id (format_stamp t))) ;;
  if (n =? 0)%Z then
    probe <- query_row (fun db => (fun _ => 1%Z) <$> sessions db !! id) ;;
    match probe with
    | Err _ => fail "touch session" ErrSessionNotFound
    | Ok _ => ret (Ok tt)
    end
  else ret (Ok tt).

Definition DeleteSession (id : string) : Eff (res unit) :=
  wrapE "delete session" (sql (sql_delete_session id)).

Definition DeleteOperatorSessions (operatorID : string) : Eff (res unit) :=
  if operatorID =s "" then ret (Err (ErrText "delete operator sessions: operator id is empty"))
  else wrapE "delete operator sessions" (sql (sql_delete_operator_sessions operatorID)).
End Sessions.
