(* ===== verification/OperatorStore.v ===== *)
(** * Operators: operators.go *)
From Stdlib Require Import ZArith Lia.
From stdpp Require Import base gmap strings list.
From S2P Require Import Prelude GoStrings Errors State Tables Effects AccountStore.
Open Scope packyard_scope.
Open Scope eff_scope.

Definition scanOperator (id : string) (r : operator_row) : Operator :=
  mkOperator id (o_email r) (o_role r) (o_status r) (parse_stamp (o_allowlisted_at r))
    (default "" (o_allowlisted_by r)) (parse_stamp <$> o_last_login_at r)
    (default "" (o_github_username r)) (default "" (o_microsoft_upn r))
    (default "" (o_first_seen_provider r)).

Definition active_admin (_ : string) (r : operator_row) : bool :=
  (o_role r =s "admin") && (o_status r =s "active").

Definition set_role_status (role status : option string) (r : operator_row) : operator_row :=
  mkOperatorRow (o_email r) (default (o_role r) role) (default (o_status r) status)
    (o_allowlisted_at r) (o_allowlisted_by r) (o_last_login_at r) (o_github_username r)
    (o_microsoft_upn r) (o_first_seen_provider r).

Section Operators.
Context `{SqlDriver} `{UnicodeTables}.

Definition sql_insert_operator (id : string) (r : operator_row) (db : Database) : stmt unit :=
  if negb (operator_check r) then Violates (CheckFailed "operators")
  else if bool_decide (is_Some (operators db !! id)) then Violates (UniqueFailed "operators.id")
  else if held_by_other o_email (operators db) id (o_email r)
  then Violates (UniqueFailed "operators.email")
  else Done tt (set_operators (<[id := r]> (operators db)) db).

(** [UPDATE operators SET ... WHERE id = ? AND guard]: RowsAffected, or the
    CHECK of a changed column. *)
Definition sql_update_operator (id : string) (guard : operator_row -> bool)
    (upd : operator_row -> operator_row) (db : Database) : stmt Z :=
  match operators db !! id with
  | None => Done 0%Z db
  | Some r =>
      if negb (guard r) then Done 0%Z db
      else if negb (operator_check (upd r)) then Violates (CheckFailed "operators")
      else Done 1%Z (set_operators (<[id := upd r]> (operators db)) db)
  end.

Definition generateOperatorID : Eff (res string) := rand_hex 16.

Definition operator_errors : constraintErrorMap :=
  {| UniqueErr := Some ErrOperatorExists; ForeignErr := None;
     CheckErr := Some ErrOperatorInvalid |}.

Definition GetOperator (id : string) : Eff (res Operator) :=
  row <- query_row (fun db => operators db !! id) ;;
  match row with
  | Err e => no_rows "get operator" ErrOperatorNotFound e
  | Ok r => ret (Ok (scanOperator id r))
  end.

Definition GetOperatorByEmail (email : string) : Eff (res Operator) :=
  row <- query_row (fun db => find_by o_email (canonicalEmail email) (operators db)) ;;
  match row with
  | Err e => no_rows "get operator by email" ErrOperatorNotFound e
  | Ok (id, r) => ret (Ok (scanOperator id r))
  end.

Definition new_operator_row (canon role allowlistedBy : string) (t : Z) : operator_row :=
  mkOperatorRow canon role "active" (format_stamp t) (Some allowlistedBy) None None None None.

Definition AllowlistOperator (email role allowlistedBy : string) : Eff (res Operator) :=
  id <-? wrapE "generate operator id" generateOperatorID ;;
  let canon := canonicalEmail email in
  t <- now ;;
  r <- sql (sql_insert_operator id (new_operator_row canon role allowlistedBy t)) ;;
  match r with
  | Err e => ret (Err (classify "allowlist operator" e operator_errors))
  | Ok _ => ret (Ok (mkOperator id canon role OperatorStatusActive t allowlistedBy None "" "" ""))
  end.

(** The three single-column updates share their shape. *)
Definition exec_operator (op id : string) (upd : operator_row -> operator_row) :
    Eff (res unit) :=
  n <-? wrapE op (sql (sql_update_operator id (fun _ => true) upd)) ;;
  if (n =? 0)%Z then fail op ErrOperatorNotFound else ret (Ok tt).

Definition DisableOperator (id : string) : Eff (res unit) :=
  exec_operator "disable operator" id (set_role_status None (Some "disabled")).
Definition EnableOperator (id : string) : Eff (res unit) :=
  exec_operator "enable operator" id (set_role_status None (Some "active")).
Definition ChangeOperatorRole (id role : string) : Eff (res unit) :=
  exec_operator "change operator role" id (set_role_status (Some role) None).

Definition ListOperators (offset limit : Z) : Eff (res (list Operator)) :=
  rows <-? wrapE "list operators" (query (fun db =>
    sql_page offset limit (order_newest o_allowlisted_at (scan (operators db))))) ;;
  ret (Ok (map (fun kr => scanOperator kr.1 kr.2) rows)).

Definition CountActiveAdmins : Eff (res Z) :=
  wrapE "count active admins" (query (fun db =>
    Z.of_nat (count_where active_admin (operators db)))).

Definition UpdateOperatorAtomically (id : string) (newRole newStatus : option string) :
    Eff (res (Operator * Operator)) :=
  match newRole, newStatus with
  | None, None => fail "update operator" ErrOperatorInvalid
  | _, _ =>
    with_tx "update operator begin tx" "update operator commit" (fun _ => true) (
      row <- query_row (fun db => operators db !! id) ;;
      match row with
      | Err e => if errors_is e ErrNoRows then fail "update operator" ErrOperatorNotFound
                 else ret (Err (Wrap "update operator read before" e))
      | Ok r =>
          let before := scanOperator id r in
          let afterRole := default (Op_Role before) newRole in
          let afterStatus := default (Op_Status before) newStatus in
          let wasAdminActive := (Op_Role before =s OperatorRoleAdmin) &&
                                (Op_Status before =s OperatorStatusActive) in
          let willBeAdminActive := (afterRole =s OperatorRoleAdmin) &&
                                   (afterStatus =s OperatorStatusActive) in
          _ <-? (if wasAdminActive && negb willBeAdminActive then
                   n <-? wrapE "update operator count admins" (query (fun db =>
                           Z.of_nat (count_where active_admin (operators db)))) ;;
                   if (n <=? 1)%Z then fail "update operator" ErrOperatorSelfLockout
                   else ret (Ok tt)
                 else ret (Ok tt)) ;;
          _ <-? wrapE (match newRole, newStatus with
                       | Some _, Some _ => "update operator role+status"
                       | Some _, None => "update operator role"
                       | None, _ => "update operator status"
                       end)
                  (sql (sql_update_operator id (fun _ => true)
                          (set_role_status newRole newStatus))) ;;
          r' <-? wrapE "update operator read after"
                   (query_row (fun db => operators db !! id)) ;;
          ret (Ok (before, scanOperator id r'))
      end)
  end.

Definition UpdateLastLogin (id : string) (ts : Z) : Eff (res unit) :=
  let tsStr := format_stamp ts in
  let older r := match o_last_login_at r with None => true | Some l => (l <? tsStr)%Z end in
  n <-? wrapE "update last_login_at" (sql (sql_update_operator id older (fun r =>
          mkOperatorRow (o_email r) (o_role r) (o_status r) (o_allowlisted_at r)
            (o_allowlisted_by r) (Some tsStr) (o_github_username r) (o_microsoft_upn r)
            (o_first_seen_provider r)))) ;;
  if (n =? 0)%Z then
    probe <- query_row (fun db => (fun _ => 1%Z) <$> operators db !! id) ;;
    match probe with
    | Err e => if errors_is e ErrNoRows then fail "update last_login_at" ErrOperatorNotFound
               else ret (Err (Wrap "update last_login_at existence probe" e))
    | Ok _ => ret (Ok tt)
    end
  else ret (Ok tt).

(** [COALESCE(column, ?)] keeps a value that is already there. *)
Definition UpdateLoginProvider (id providerName providerUserID : string) : Eff (res unit) :=
  if providerUserID =s "" then ret (Ok tt)
  else
    let set_github := providerName =s "github" in
    if set_github || (providerName =s "microsoft") then
      _ <-? wrapE "update login provider" (sql (sql_update_operator id (fun _ => true) (fun r =>
              mkOperatorRow (o_email r) (o_role r) (o_status r) (o_allowlisted_at r)
                (o_allowlisted_by r) (o_last_login_at r)
                (if set_github then COALESCE (o_github_username r) (Some providerUserID)
                 else o_github_username r)
                (if set_github then o_microsoft_upn r
                 else COALESCE (o_microsoft_upn r) (Some providerUserID))
                (COALESCE (o_first_seen_provider r) (Some providerName))))) ;;
      ret (Ok tt)
    else ret (Err (ErrText ("update login provider: unknown provider " +:+ Quote providerName))).

Definition OperatorCount : Eff (res Z) :=
  wrapE "count operators" (query (fun db => Z.of_nat (size (operators db)))).

(** [mail.ParseAddress] of package net/mail: whether the text is an RFC 5322
    mailbox. *)
Context (mail_ParseAddress : string -> bool).

Definition BootstrapOperatorFromEnv (email : string) : Eff (res (option Operator)) :=
  if email =s "" then ret (Ok None)
  else if negb (mail_ParseAddress email) then
    ret (Err (Suffix (Wrap "bootstrap operator" (Sentinel ErrOperatorInvalid))
                ("(got " +:+ Quote email +:+ ")")))
  else with_tx "bootstrap operator" "bootstrap operator" (fun o => bool_decide (is_Some o)) (
    n <-? wrapE "bootstrap operator" (query (fun db => Z.of_nat (size (operators db)))) ;;
    if (0 <? n)%Z then ret (Ok None)
    else
      id <-? wrapE "bootstrap operator" generateOperatorID ;;
      let canon := canonicalEmail email in
      t <- now ;;
      r <- sql (sql_insert_operator id
             (new_operator_row canon OperatorRoleAdmin "bootstrap" t)) ;;
      match r with
      | Err e => ret (Err (classify "bootstrap operator" e operator_errors))
      | Ok _ => ret (Ok (Some (mkOperator id canon OperatorRoleAdmin OperatorStatusActive t
                                 "bootstrap" None "" "" "")))
      end).
End Operators.
