(* ===== verification/AuditStore.v ===== *)
(** * The audit log: store/audit.go, and [json.Marshal] of its details *)
From Stdlib Require Import ZArith Lia Ascii.
From stdpp Require Import base gmap strings list sorting.
From S2P Require Import Prelude GoStrings Errors State Tables Effects AccountStore.
Open Scope packyard_scope.
Open Scope eff_scope.

(** ** encoding/json *)
Definition quote : ascii := of_byte 34.
Definition backslash : ascii := of_byte 92.
Definition escape (tail : string) : string := String backslash tail.

(** One byte below 0x80, HTML escaping on. *)
Definition json_ascii (c : ascii) : string :=
  let b := byte_of c in
  if (b =? 34)%Z || (b =? 92)%Z then escape (String c EmptyString)
  else if (b =? 8)%Z then escape "b"
  else if (b =? 12)%Z then escape "f"
  else if (b =? 10)%Z then escape "n"
  else if (b =? 13)%Z then escape "r"
  else if (b =? 9)%Z then escape "t"
  else if (b <? 32)%Z || (b =? 60)%Z || (b =? 62)%Z || (b =? 38)%Z
  then escape ("u00" +:+ hex_encode [b])
  else String c EmptyString.

Fixpoint json_chars (fuel : nat) (s : string) : string :=
  match fuel, s with
  | O, _ | _, EmptyString => EmptyString
  | S fuel, String c s' =>
      if is_ascii_char c then json_ascii c +:+ json_chars fuel s'
      else
        let '(r, w) := decode_rune s in
        (if (r =? rune_error)%Z && (w =? 1)%nat then escape "ufffd"
         else if (r =? 8232)%Z then escape "u2028"
         else if (r =? 8233)%Z then escape "u2029"
         else stake w s) +:+ json_chars fuel (sdrop w s)
  end.

Definition json_string (s : string) : string :=
  String quote (json_chars (String.length s) s +:+ String quote EmptyString).

Definition json_value (v : dval) : string :=
  match v with
  | DStr s => json_string s
  | DInt n => itoa n
  | DBool true => "true"
  | DBool false => "false"
  end.

(** A Go map is written with its keys in order. *)
Definition sort_details (d : details) : details :=
  merge_sort (brel (fun x y : string * dval => String.leb x.1 y.1)) d.

Fixpoint json_members (d : details) : string :=
  match d with
  | [] => ""
  | [(k, v)] => json_string k +:+ ":" +:+ json_value v
  | (k, v) :: d => json_string k +:+ ":" +:+ json_value v +:+ "," +:+ json_members d
  end.

Definition json_marshal (d : details) : string := "{" +:+ json_members (sort_details d) +:+ "}".

(** ** The store methods *)
Definition auditDetailsMaxBytes : Z := 4 * 1024.

(** [NULLIF(?, '')]. *)
Definition nullif (s : string) : option string := if s =s "" then None else Some s.

Definition nullstring (o : option string) : string := default "" o.

(** The details as they are stored: replaced by a sentinel object when their
    JSON is too long.  Marshalling the values of [dval] does not fail. *)
Definition bounded_details (d : details) : details :=
  let size := Z.of_nat (String.length (json_marshal d)) in
  if (auditDetailsMaxBytes <? size)%Z
  then [("_truncated", DBool true); ("size", DInt size)]
  else d.

Definition scanAuditRow (r : audit_row) : Entry :=
  mkEntry (l_id r) (parse_stamp (l_ts r)) (nullstring (l_operator_id r)) (l_action r)
    (nullstring (l_target_type r)) (nullstring (l_target_id r)) (l_details r)
    (nullstring (l_ip r)) (nullstring (l_user_agent r)).

(** The WHERE clause of a filter; an empty field or nil bound is no clause. *)
Definition audit_match (f : AuditFilter) (r : audit_row) : bool :=
  let col (want : string) (have : option string) :=
    (want =s "") || match have with Some h => h =s want | None => false end in
  col (f_OperatorID f) (l_operator_id r) &&
  col (f_Action f) (Some (l_action r)) &&
  col (f_TargetType f) (l_target_type r) &&
  col (f_TargetID f) (l_target_id r) &&
  match f_Since f with None => true | Some t => (format_stamp t <=? l_ts r)%Z end &&
  match f_Until f with None => true | Some t => (l_ts r <? format_stamp t)%Z end.

(** [ORDER BY ts DESC, id DESC]. *)
Definition audit_newest (x y : audit_row) : bool :=
  (l_ts y <? l_ts x)%Z || ((l_ts y =? l_ts x)%Z && (l_id y <=? l_id x)%Z).

Section Audit.
Context `{SqlDriver}.

(** The row's id is AUTOINCREMENT and its ts the database's clock. *)
Definition sql_insert_audit (ts : Z) (mk : Z -> Z -> audit_row) (db : Database) : stmt unit :=
  let id := (audit_seq db + 1)%Z in
  Done tt (set_audit (audit_log db ++ [mk id ts]) id db).

(** Fire-and-forget: a failure is logged and nothing is returned. *)
Definition Write (e : Entry) : Eff unit :=
  let action := TrimSpace (E_Action e) in
  if action =s "" then ret tt
  else
    t <- now ;;
    _ <- sql (sql_insert_audit (format_stamp t) (fun id ts =>
           mkAuditRow id ts (nullif (E_OperatorID e)) action (nullif (E_TargetType e))
             (nullif (E_TargetID e)) (bounded_details (E_Details e)) (nullif (E_IP e))
             (nullif (E_UserAgent e)))) ;;
    ret tt.

Definition ListAuditEntries (f : AuditFilter) (offset limit : Z) : Eff (res (list Entry)) :=
  rows <-? wrapE "list audit entries" (query (fun db =>
    sql_page offset limit
      (merge_sort (brel audit_newest) (List.filter (audit_match f) (audit_log db))))) ;;
  ret (Ok (map scanAuditRow rows)).
End Audit.
