(* ===== verification/StoreInvariant.v ===== *)
(** * What every store method preserves

    [db_ok] is the integrity of the database: the CHECK, UNIQUE and FOREIGN
    KEY constraints of the schema, the shape of the values the methods write,
    and the protected legacy account.  [history] relates a database to a later
    one: keys are neither removed, re-activated, re-scoped nor transferred,
    accounts are not removed, and the audit log only grows.  Both hold across
    every method, on every outcome: success, error, driver failure, rollback. *)
From Stdlib Require Import ZArith Lia.
From stdpp Require Import base gmap strings list relations sorting.
From S2P Require Import Prelude GoStrings Errors State Tables Effects AccountStore.
From S2P Require Import ComponentStore SessionStore OperatorStore AuditStore Fixtures.
Open Scope packyard_scope.

(** The row [seedLegacyAccount] inserts (sqlite.go). *)
Definition legacy_row (t : Z) : account_row :=
  mkAccountRow "legacy@packyard.internal" (Some "Pre-account keys") "active" t "bootstrap".

Definition key_ok (r : key_row) : Prop :=
  (k_active r = 0 \/ k_active r = 1)%Z /\ (0 <= k_usage_count r)%Z.

Definition session_ok (r : session_row) : Prop :=
  (s_created_at r <= s_last_seen_at r)%Z /\
  (s_expires_at r = s_created_at r + 24 * 3600)%Z.

Record db_ok (db : Database) : Prop := {
  ok_accounts : forall id r, accounts db !! id = Some r -> account_check r = true;
  ok_account_emails : unique_column a_email (accounts db);
  ok_legacy : exists t, accounts db !! legacyAccountID = Some (legacy_row t);
  ok_operators : forall id r, operators db !! id = Some r -> operator_check r = true;
  ok_operator_emails : unique_column o_email (operators db);
  ok_sessions : forall id r, sessions db !! id = Some r ->
    is_Some (operators db !! s_operator_id r) /\ session_ok r;
  ok_keys : forall id r, subscription_key db !! id = Some r ->
    is_Some (accounts db !! k_account_id r) /\ key_ok r;
  ok_components : forall n r, components db !! n = Some r -> component_check r = true;
  ok_audit : StronglySorted Z.lt (map l_id (audit_log db)) /\
    Forall (fun i => i <= audit_seq db)%Z (map l_id (audit_log db))
}.

(** What survives in a later version of a key's row. *)
Definition key_later (r r' : key_row) : Prop :=
  k_component r' = k_component r /\ k_label r' = k_label r /\
  k_created_at r' = k_created_at r /\ k_expires_at r' = k_expires_at r /\
  k_account_id r' = k_account_id r /\
  (k_active r' = k_active r \/ k_active r' = 0)%Z /\
  (k_usage_count r <= k_usage_count r')%Z.

Record history (db db' : Database) : Prop := {
  h_keys : forall id r, subscription_key db !! id = Some r ->
    exists r', subscription_key db' !! id = Some r' /\ key_later r r';
  h_accounts : forall id, is_Some (accounts db !! id) -> is_Some (accounts db' !! id);
  h_operators : forall id, is_Some (operators db !! id) -> is_Some (operators db' !! id);
  h_audit : exists l, audit_log db' = audit_log db ++ l
}.

#[export] Instance key_later_preorder : PreOrder key_later.
Proof.
  split; [intros r; unfold key_later; repeat split; auto; lia|].
  intros a b c (?&?&?&?&?&?&?) (?&?&?&?&?&?&?). unfold key_later.
  repeat split; try congruence; lia.
Qed.

#[export] Instance history_preorder : PreOrder history.
Proof.
  split.
  - intros db. split; eauto.
    + intros id r Hr. exists r. split; [done|reflexivity].
    + exists []. by rewrite app_nil_r.
  - intros a b c [Hk1 Ha1 Ho1 [l1 Hl1]] [Hk2 Ha2 Ho2 [l2 Hl2]]. split; eauto.
    + intros id r Hr. destruct (Hk1 _ _ Hr) as (r1 & Hr1 & ?).
      destruct (Hk2 _ _ Hr1) as (r2 & Hr2 & ?). exists r2. split; [done|by etrans].
    + exists (l1 ++ l2). by rewrite Hl2, Hl1, app_assoc.
Qed.

(** The two together, for one pass over the methods. *)
Definition sound (db db' : Database) : Prop := (db_ok db -> db_ok db') /\ history db db'.

#[export] Instance sound_preorder : PreOrder sound.
Proof.
  split; [intros db; split; [auto|reflexivity]|].
  intros a b c [H1 H2] [H3 H4]. split; [auto|by etrans].
Qed.

(** [history] when the parts it looks at change in the ways statements do. *)
Lemma history_update_keys db sel upd :
  (forall r, key_later r (upd r)) ->
  history db (set_keys (update_where sel upd (subscription_key db)) db).
Proof.
  intros Hu. split; simpl; [|auto|auto|by exists []; rewrite app_nil_r].
  intros id r Hr. rewrite lookup_update_where, Hr. eexists. split; [done|].
  simpl. destruct (sel id r); [apply Hu|reflexivity].
Qed.

Lemma history_same db db' :
  subscription_key db' = subscription_key db ->
  (forall id, is_Some (accounts db !! id) -> is_Some (accounts db' !! id)) ->
  (forall id, is_Some (operators db !! id) -> is_Some (operators db' !! id)) ->
  (exists l, audit_log db' = audit_log db ++ l) ->
  history db db'.
Proof.
  intros Hk Ha Ho Hl. split; auto. intros id r Hr. exists r. rewrite Hk.
  split; [done|reflexivity].
Qed.

Lemma insert_is_Some {A} (m : gmap string A) k v id :
  is_Some (m !! id) -> is_Some (<[k := v]> m !! id).
Proof. intros Hi. rewrite lookup_insert. case_decide; eauto. Qed.

#[export] Hint Resolve insert_is_Some : packyard.

(** Reads a statement's outcome [Hs : stmt = Done a db']. *)
Ltac inv_stmt Hs :=
  cbn beta zeta in Hs; repeat break_match_hyp Hs; try discriminate Hs;
  injection Hs as <- <-.

Ltac same_history :=
  apply history_same; simpl; eauto using insert_is_Some;
  try (by exists []; rewrite app_nil_r).

Section Statements.
Context `{SqlDriver}.
Implicit Types db : Database.

Lemma insert_account_sound id r db a db' :
  sql_insert_account id r db = Done a db' -> sound db db'.
Proof.
  unfold sql_insert_account. intros Hs. inv_stmt Hs. string_reflect.
  apply bool_decide_eq_false, eq_None_not_Some in E0.
  split; [|same_history]. intros [? ? [t ?] ? ? ? Hk ? ?]. split; simpl; auto.
  - intros i x. rewrite lookup_insert. case_decide; intros; simplify_eq; eauto.
  - by apply unique_column_insert.
  - exists t. rewrite lookup_insert_ne; [done|congruence].
  - intros i x Hi. destruct (Hk _ _ Hi). auto with packyard.
Qed.

Lemma update_account_sound id email org status db o db' :
  sql_update_account id email org status db = Done o db' ->
  (id = legacyAccountID -> email = None /\ org = None /\ default "active" status = "active") ->
  sound db db'.
Proof.
  unfold sql_update_account. intros Hs Hleg. inv_stmt Hs; [|reflexivity].
  string_reflect. split; [|same_history].
  intros [? ? [t Hl] ? ? ? Hk ? ?]. split; simpl; auto.
  - intros i x. rewrite lookup_insert. case_decide; intros; simplify_eq; eauto.
  - by apply unique_column_insert.
  - exists t. rewrite lookup_insert. case_decide; [|done]. subst.
    destruct Hleg as (-> & -> & Hst); [done|]. simplify_eq. simpl.
    destruct status; simpl in *; by subst.
  - intros i x Hi. destruct (Hk _ _ Hi). auto with packyard.
Qed.

Lemma mark_deleted_sound id db a db' :
  sql_mark_deleted id db = Done a db' -> id <> legacyAccountID -> sound db db'.
Proof.
  unfold sql_mark_deleted. intros Hs Hne. inv_stmt Hs; [|reflexivity].
  split; [|same_history]. intros [Ha Hu [t Hl] ? ? ? Hk ? ?]. split; simpl; auto.
  - intros i x. rewrite lookup_insert. case_decide; [|eauto]. intros [= <-].
    pose proof (Ha _ _ E) as Hc. unfold account_check in *. string_reflect.
    apply andb_true_iff. done.
  - intros i j x y. rewrite !lookup_insert. repeat case_decide; intros; simplify_eq; eauto.
  - exists t. by rewrite lookup_insert_ne.
  - intros i x Hi. destruct (Hk _ _ Hi). auto with packyard.
Qed.

Lemma keys_update_ok db sel upd :
  (forall r, k_account_id (upd r) = k_account_id r) ->
  (forall r, key_ok r -> key_ok (upd r)) ->
  db_ok db -> db_ok (set_keys (update_where sel upd (subscription_key db)) db).
Proof.
  intros Hacc Hok [? ? ? ? ? ? Hk ? ?]. split; simpl; auto.
  intros i x Hi. apply update_where_Some in Hi as (y & Hy & ->).
  destruct (Hk _ _ Hy) as [? ?]. destruct (sel i y); [rewrite Hacc|]; auto.
Qed.

Lemma deactivate_sound sel db n db' : sql_deactivate sel db = Done n db' -> sound db db'.
Proof.
  intros [= _ <-]. split.
  - apply keys_update_ok; [done|]. intros r [_ Hu]. split; [by left|done].
  - apply history_update_keys. intros r. unfold key_later. simpl. repeat split; auto; lia.
Qed.

Lemma increment_sound id db n db' : sql_increment id db = Done n db' -> sound db db'.
Proof.
  intros [= _ <-]. split.
  - apply keys_update_ok; [done|]. intros r [Ha Hu]. split; [done|simpl; lia].
  - apply history_update_keys. intros r. unfold key_later. simpl. repeat split; auto; lia.
Qed.

Lemma insert_key_sound id r db a db' :
  sql_insert_key id r db = Done a db' -> key_ok r -> sound db db'.
Proof.
  unfold sql_insert_key. intros Hs Hr. inv_stmt Hs.
  apply bool_decide_eq_false, eq_None_not_Some in E. apply bool_decide_eq_true in E0.
  split.
  - intros [? ? ? ? ? ? Hk ? ?]. split; simpl; auto.
    intros i x. rewrite lookup_insert. case_decide; intros; simplify_eq; eauto.
  - split; simpl; auto; [|by exists []; rewrite app_nil_r].
    intros i x Hi. exists x. rewrite lookup_insert_ne by congruence.
    split; [done|reflexivity].
Qed.

Lemma insert_component_sound n r db a db' :
  sql_insert_component n r db = Done a db' -> sound db db'.
Proof.
  unfold sql_insert_component. intros Hs. inv_stmt Hs. string_reflect.
  split; [|same_history]. intros [? ? ? ? ? ? ? Hc ?]. split; simpl; auto.
  intros i x. rewrite lookup_insert. case_decide; intros; simplify_eq; eauto.
Qed.

Lemma delete_component_sound n db a db' :
  sql_delete_component n db = Done a db' -> sound db db'.
Proof.
  intros [= _ <-]. split; [|same_history].
  intros [? ? ? ? ? ? ? Hc ?]. split; simpl; auto.
  intros i x. rewrite lookup_delete. case_decide; intros; simplify_eq; eauto.
Qed.

Lemma update_component_sound c db a db' :
  sql_update_component c db = Done a db' -> sound db db'.
Proof.
  unfold sql_update_component. intros Hs. inv_stmt Hs; [|reflexivity]. string_reflect.
  split; [|same_history]. intros [? ? ? ? ? ? ? Hc ?]. split; simpl; auto.
  intros i x. rewrite lookup_insert. case_decide; intros; simplify_eq; eauto.
Qed.

Lemma insert_session_sound id r db a db' :
  sql_insert_session id r db = Done a db' -> session_ok r -> sound db db'.
Proof.
  unfold sql_insert_session. intros Hs Hr. inv_stmt Hs.
  apply bool_decide_eq_true in E0. split; [|same_history].
  intros [? ? ? ? ? Hss ? ? ?]. split; simpl; auto.
  intros i x. rewrite lookup_insert. case_decide; intros; simplify_eq; eauto.
Qed.

Lemma touch_session_sound id at_ db n db' :
  sql_touch_session id at_ db = Done n db' -> sound db db'.
Proof.
  intros [= _ <-]. split; [|same_history].
  intros [? ? ? ? ? Hss ? ? ?]. split; simpl; auto.
  intros i x Hi. apply update_where_Some in Hi as (y & Hy & ->).
  destruct (Hss _ _ Hy) as [? [? ?]]. case_match; [|done]. string_reflect.
  simpl. split; [done|]. split; simpl; lia.
Qed.

Lemma delete_session_sound id db a db' :
  sql_delete_session id db = Done a db' -> sound db db'.
Proof.
  intros [= _ <-]. split; [|same_history].
  intros [? ? ? ? ? Hss ? ? ?]. split; simpl; auto.
  intros i x. rewrite lookup_delete. case_decide; intros; simplify_eq; eauto.
Qed.

Lemma delete_operator_sessions_sound id db a db' :
  sql_delete_operator_sessions id db = Done a db' -> sound db db'.
Proof.
  intros [= _ <-]. split; [|same_history].
  intros [? ? ? ? ? Hss ? ? ?]. split; simpl; auto.
  intros i x Hi. apply map_lookup_filter_Some in Hi as [Hi _]. eauto.
Qed.

Lemma insert_operator_sound id r db a db' :
  sql_insert_operator id r db = Done a db' -> sound db db'.
Proof.
  unfold sql_insert_operator. intros Hs. inv_stmt Hs. string_reflect.
  split; [|same_history]. intros [? ? ? ? ? Hss ? ? ?]. split; simpl; auto.
  - intros i x. rewrite lookup_insert. case_decide; intros; simplify_eq; eauto.
  - by apply unique_column_insert.
  - intros i x Hi. destruct (Hss _ _ Hi). auto with packyard.
Qed.

Lemma update_operator_sound id guard upd db n db' :
  sql_update_operator id guard upd db = Done n db' ->
  (forall r, o_email (upd r) = o_email r) -> sound db db'.
Proof.
  unfold sql_update_operator. intros Hs He. inv_stmt Hs; try reflexivity.
  string_reflect. split; [|same_history].
  intros [? ? ? ? Hu Hss ? ? ?]. split; simpl; auto.
  - intros i x. rewrite lookup_insert. case_decide; intros; simplify_eq; eauto.
  - intros i j x y. rewrite !lookup_insert. repeat case_decide; intros; simplify_eq;
      rewrite ?He in *; eauto.
  - intros i x Hi. destruct (Hss _ _ Hi). auto with packyard.
Qed.

Lemma insert_audit_sound ts mk db a db' :
  sql_insert_audit ts mk db = Done a db' -> (forall i t, l_id (mk i t) = i) -> sound db db'.
Proof.
  intros [= _ <-] Hid. split; [|same_history; eauto].
  intros [? ? ? ? ? ? ? ? [Hs Hb]]. split; simpl; auto.
  rewrite map_app, Forall_app. simpl. rewrite Hid. split.
  - revert Hs Hb. generalize (map l_id (audit_log db)). intros l Hs Hb.
    induction Hs; inversion Hb; subst; simpl; constructor; auto using SSorted_nil.
    apply Forall_app. split; [done|]. constructor; [lia|done].
  - split; [|by constructor]. eapply Forall_impl; [done|]. simpl. lia.
Qed.
End Statements.

(** ** The small installation is in order *)
Ltac pick H :=
  repeat (apply lookup_insert_Some in H as [[<- <-]|[_ H]]);
  try (apply lookup_singleton_Some in H as [<- <-]);
  try (rewrite lookup_empty in H; discriminate H).

Lemma demo_ok : db_ok demo_db.
Proof.
  split; simpl; unfold demo_accounts.
  - intros id r Hr. pick Hr; reflexivity.
  - intros i j r s Hr Hs. pick Hr; pick Hs; try done; discriminate.
  - exists 0%Z. reflexivity.
  - intros id r Hr. pick Hr; reflexivity.
  - intros i j r s Hr Hs. pick Hr; pick Hs; done.
  - intros id r Hr. pick Hr. split; [by eexists|]. split; [done|reflexivity].
  - intros id r Hr. pick Hr. split; [by eexists|]. split; [by right|done].
  - intros n r Hr. pick Hr; reflexivity.
  - split; constructor.
Qed.
