(* ===== verification/StoreMethods.v ===== *)
(** * Every store method preserves the database's integrity and its history

    [store_call] lists the methods of KeyStore, ComponentStore, AccountStore,
    OperatorStore, SessionStore and AuditStore that reach the database, and
    [run_call] runs one.  The theorems are about any sequence of calls. *)
From Stdlib Require Import ZArith Lia.
From stdpp Require Import base gmap strings list relations sorting.
From S2P Require Import Prelude GoStrings Errors State Tables Effects AccountStore.
From S2P Require Import ComponentStore SessionStore OperatorStore AuditStore StoreInvariant.
From S2P Require Import Fixtures.
Open Scope packyard_scope.
Open Scope eff_scope.

Inductive store_call :=
| CCreateAccount (inp : AccountInput) (createdBy : string)
| CGetAccount (id : string)
| CListAccounts (status : string) (offset limit : Z)
| CUpdateAccount (id : string) (upd : AccountUpdate)
| CDeleteAccount (id : string)
| CCountAccountKeys (id : string)
| CListAccountKeys (id : string) (offset limit : Z)
| CCreateKey (accountID component label : string) (expiresAt : option Z)
| CGetByID (id : string)
| CGetByValue (value : string)
| CListKeys (component account : string) (offset limit : Z)
| CRevokeKey (id : string)
| CIncrementUsage (id : string)
| CCreateComponent (comp : Component)
| CGetComponent (name : string)
| CListComponents (offset limit : Z)
| CDeleteComponent (name : string)
| CRevokeComponentKeys (name : string)
| CCountComponentKeys (name : string)
| CDeleteComponentWithRevoke (name : string)
| CUpdateComponent (name : string) (patch : ComponentPatch)
| CLoadComponentSets
| CCreateSession (operatorID ip ua : string)
| CGetSession (id : string)
| CTouchSession (id : string) (t : Z)
| CDeleteSession (id : string)
| CDeleteOperatorSessions (id : string)
| CGetOperator (id : string)
| CGetOperatorByEmail (email : string)
| CAllowlistOperator (email role by_ : string)
| CDisableOperator (id : string)
| CEnableOperator (id : string)
| CChangeOperatorRole (id role : string)
| CListOperators (offset limit : Z)
| CCountActiveAdmins
| CUpdateOperator (id : string) (role status : option string)
| CUpdateLastLogin (id : string) (ts : Z)
| CUpdateLoginProvider (id provider user : string)
| COperatorCount
| CBootstrap (email : string)
| CWrite (e : Entry)
| CListAudit (f : AuditFilter) (offset limit : Z).

Section Methods.
Context `{SqlDriver} `{UnicodeTables} (mail_ParseAddress : string -> bool).

Definition ignore {A} (m : Eff A) : Eff unit := m ;;; ret tt.

Definition run_call (c : store_call) : Eff unit :=
  match c with
  | CCreateAccount i b => ignore (CreateAccount i b)
  | CGetAccount id => ignore (GetAccount id)
  | CListAccounts s o l => ignore (ListAccounts s o l)
  | CUpdateAccount id u => ignore (UpdateAccount id u)
  | CDeleteAccount id => ignore (DeleteAccountWithCascade id)
  | CCountAccountKeys id => ignore (CountActiveAccountKeys id)
  | CListAccountKeys id o l => ignore (ListAccountKeys id o l)
  | CCreateKey a c l e => ignore (CreateKey a c l e)
  | CGetByID id => ignore (GetByID id)
  | CGetByValue v => ignore (GetByValue v)
  | CListKeys c a o l => ignore (ListKeys c a o l)
  | CRevokeKey id => ignore (RevokeKey id)
  | CIncrementUsage id => ignore (IncrementUsage id)
  | CCreateComponent c => ignore (CreateComponent c)
  | CGetComponent n => ignore (GetComponent n)
  | CListComponents o l => ignore (ListComponents o l)
  | CDeleteComponent n => ignore (DeleteComponent n)
  | CRevokeComponentKeys n => ignore (RevokeComponentKeys n)
  | CCountComponentKeys n => ignore (CountActiveComponentKeys n)
  | CDeleteComponentWithRevoke n => ignore (DeleteComponentWithRevoke n)
  | CUpdateComponent n p => ignore (UpdateComponent n p)
  | CLoadComponentSets => ignore LoadComponentSets
  | CCreateSession o i u => ignore (CreateSession o i u)
  | CGetSession id => ignore (GetSession id)
  | CTouchSession id t => ignore (TouchSession id t)
  | CDeleteSession id => ignore (DeleteSession id)
  | CDeleteOperatorSessions id => ignore (DeleteOperatorSessions id)
  | CGetOperator id => ignore (GetOperator id)
  | CGetOperatorByEmail e => ignore (GetOperatorByEmail e)
  | CAllowlistOperator e r b => ignore (AllowlistOperator e r b)
  | CDisableOperator id => ignore (DisableOperator id)
  | CEnableOperator id => ignore (EnableOperator id)
  | CChangeOperatorRole id r => ignore (ChangeOperatorRole id r)
  | CListOperators o l => ignore (ListOperators o l)
  | CCountActiveAdmins => ignore CountActiveAdmins
  | CUpdateOperator id r s => ignore (UpdateOperatorAtomically id r s)
  | CUpdateLastLogin id t => ignore (UpdateLastLogin id t)
  | CUpdateLoginProvider id p u => ignore (UpdateLoginProvider id p u)
  | COperatorCount => ignore OperatorCount
  | CBootstrap e => ignore (BootstrapOperatorFromEnv mail_ParseAddress e)
  | CWrite e => ignore (Write e)
  | CListAudit f o l => ignore (ListAuditEntries f o l)
  end.

Fixpoint run_calls (cs : list store_call) : Eff unit :=
  match cs with [] => ret tt | c :: cs => run_call c ;;; run_calls cs end.

(** ** The writing methods, one by one *)
Lemma expiry_seconds t :
  format_stamp (t + SessionAbsoluteLifetime) = (format_stamp t + 24 * 3600)%Z.
Proof.
  unfold format_stamp, SessionAbsoluteLifetime, Hour, Minute.
  replace (t + 24 * (60 * (60 * Second)))%Z with (t + 24 * 3600 * Second)%Z by lia.
  apply Z.div_add. done.
Qed.

Lemma CreateAccount_sound i b : moves sound (CreateAccount i b).
Proof. unfold CreateAccount, generateAccountID. solve_moves. apply moves_sql. apply insert_account_sound. Qed.

(** What the guard of [UpdateAccount] refuses for the legacy account. *)
Lemma legacy_untouched id u :
  (id =s legacyAccountID) &&
    (match u_Status u with Some s => s <>s AccountStatusActive | None => false end ||
     match u_Email u, u_OrgName u with None, None => false | _, _ => true end) = false ->
  id = legacyAccountID ->
  canonicalEmail <$> u_Email u = None /\ u_OrgName u = None /\
  default "active" (u_Status u) = "active".
Proof.
  intros Hl ->. rewrite String.eqb_refl in Hl. simpl in Hl. string_reflect.
  destruct (u_Email u), (u_OrgName u); try done. split; [done|]. split; [done|].
  destruct (u_Status u); simpl in *; by string_reflect.
Qed.

Lemma UpdateAccount_sound id u : moves sound (UpdateAccount id u).
Proof.
  unfold UpdateAccount. destruct (match u_Status u with _ => _ end) eqn:Hs; [solve_moves|].
  destruct (_ && _) eqn:Hl; [solve_moves|]. solve_moves. apply moves_sql.
  intros db a db' Hu. by eapply update_account_sound, legacy_untouched.
Qed.

Lemma DeleteAccountWithCascade_sound id : moves sound (DeleteAccountWithCascade id).
Proof.
  unfold DeleteAccountWithCascade. destruct (id =s legacyAccountID) eqn:Hl; [solve_moves|].
  string_reflect. solve_moves.
  - apply moves_sql. apply deactivate_sound.
  - apply moves_sql. intros db u db' Hm. by eapply mark_deleted_sound.
Qed.

Lemma CreateKey_sound a c l e : moves sound (CreateKey a c l e).
Proof.
  unfold CreateKey, CreateKeyForAccount, generateKeyValue. solve_moves.
  apply moves_sql. intros db u db' Hi. eapply insert_key_sound; [done|].
  split; [by right|done].
Qed.

Lemma RevokeKey_sound id : moves sound (RevokeKey id).
Proof. unfold RevokeKey. solve_moves. apply moves_sql. apply deactivate_sound. Qed.

Lemma IncrementUsage_sound id : moves sound (IncrementUsage id).
Proof. unfold IncrementUsage. solve_moves. apply moves_sql. apply increment_sound. Qed.

Lemma CreateComponent_sound c : moves sound (CreateComponent c).
Proof. unfold CreateComponent. solve_moves. apply moves_sql. apply insert_component_sound. Qed.

Lemma DeleteComponent_sound n : moves sound (DeleteComponent n).
Proof. unfold DeleteComponent. solve_moves. apply moves_sql. apply delete_component_sound. Qed.

Lemma RevokeComponentKeys_sound n : moves sound (RevokeComponentKeys n).
Proof. unfold RevokeComponentKeys. solve_moves. apply moves_sql. apply deactivate_sound. Qed.

Lemma DeleteComponentWithRevoke_sound n : moves sound (DeleteComponentWithRevoke n).
Proof.
  unfold DeleteComponentWithRevoke. solve_moves; apply moves_sql;
    [apply deactivate_sound|apply delete_component_sound].
Qed.

Lemma UpdateComponent_sound n p : moves sound (UpdateComponent n p).
Proof.
  unfold UpdateComponent, no_rows. solve_moves. apply moves_sql. apply update_component_sound.
Qed.

Lemma CreateSession_sound o i u : moves sound (CreateSession o i u).
Proof.
  unfold CreateSession, generateSessionID. solve_moves. apply moves_sql.
  intros db x db' Hi. eapply insert_session_sound; [done|].
  split; simpl; [done|apply expiry_seconds].
Qed.

Lemma TouchSession_sound id t : moves sound (TouchSession id t).
Proof. unfold TouchSession. solve_moves. apply moves_sql. apply touch_session_sound. Qed.

Lemma DeleteSession_sound id : moves sound (DeleteSession id).
Proof. unfold DeleteSession. solve_moves. apply moves_sql. apply delete_session_sound. Qed.

Lemma DeleteOperatorSessions_sound id : moves sound (DeleteOperatorSessions id).
Proof.
  unfold DeleteOperatorSessions. solve_moves. apply moves_sql.
  apply delete_operator_sessions_sound.
Qed.

Lemma AllowlistOperator_sound e r b : moves sound (AllowlistOperator e r b).
Proof.
  unfold AllowlistOperator, generateOperatorID. solve_moves. apply moves_sql.
  apply insert_operator_sound.
Qed.

Lemma exec_operator_sound op id upd :
  (forall r, o_email (upd r) = o_email r) -> moves sound (exec_operator op id upd).
Proof.
  intros He. unfold exec_operator. solve_moves. apply moves_sql. intros db n db' Hu.
  by eapply update_operator_sound.
Qed.

Lemma UpdateOperatorAtomically_sound id r s : moves sound (UpdateOperatorAtomically id r s).
Proof.
  unfold UpdateOperatorAtomically. solve_moves; apply moves_sql; intros db n db' Hu;
    by eapply update_operator_sound.
Qed.

Lemma UpdateLastLogin_sound id t : moves sound (UpdateLastLogin id t).
Proof.
  unfold UpdateLastLogin. solve_moves. apply moves_sql. intros db n db' Hu.
  by eapply update_operator_sound.
Qed.

Lemma UpdateLoginProvider_sound id p u : moves sound (UpdateLoginProvider id p u).
Proof.
  unfold UpdateLoginProvider. solve_moves. apply moves_sql. intros db n db' Hu.
  by eapply update_operator_sound.
Qed.

Lemma Bootstrap_sound e : moves sound (BootstrapOperatorFromEnv mail_ParseAddress e).
Proof.
  unfold BootstrapOperatorFromEnv, generateOperatorID. solve_moves. apply moves_sql.
  apply insert_operator_sound.
Qed.

Lemma Write_sound e : moves sound (Write e).
Proof.
  unfold Write. solve_moves. apply moves_sql. intros db u db' Hi.
  by eapply insert_audit_sound.
Qed.
End Methods.

#[export] Hint Resolve CreateAccount_sound UpdateAccount_sound DeleteAccountWithCascade_sound
  CreateKey_sound RevokeKey_sound IncrementUsage_sound CreateComponent_sound
  DeleteComponent_sound RevokeComponentKeys_sound DeleteComponentWithRevoke_sound
  UpdateComponent_sound CreateSession_sound TouchSession_sound DeleteSession_sound
  DeleteOperatorSessions_sound AllowlistOperator_sound exec_operator_sound
  UpdateOperatorAtomically_sound UpdateLastLogin_sound UpdateLoginProvider_sound
  Bootstrap_sound Write_sound : packyard.

(** ** The reading methods leave the database as it is *)
Section Readers.
Context `{SqlDriver} `{UnicodeTables} {R : relation Database} `{!PreOrder R}.

Ltac solve_reader := intros; unfold no_rows; solve_moves.

Lemma GetAccount_moves id : moves R (GetAccount id).
Proof. unfold GetAccount. solve_reader. Qed.
Lemma ListAccounts_moves s o l : moves R (ListAccounts s o l).
Proof. unfold ListAccounts. solve_reader. Qed.
Lemma CountActiveAccountKeys_moves id : moves R (CountActiveAccountKeys id).
Proof. unfold CountActiveAccountKeys. solve_reader. Qed.
Lemma ListAccountKeys_moves id o l : moves R (ListAccountKeys id o l).
Proof. unfold ListAccountKeys. solve_reader. Qed.
Lemma GetByID_moves id : moves R (GetByID id).
Proof. unfold GetByID. solve_reader. Qed.
Lemma GetByValue_moves v : moves R (GetByValue v).
Proof. unfold GetByValue. solve_reader. Qed.
Lemma ListKeys_moves c a o l : moves R (ListKeys c a o l).
Proof. unfold ListKeys. solve_reader. Qed.
Lemma GetComponent_moves n : moves R (GetComponent n).
Proof. unfold GetComponent. solve_reader. Qed.
Lemma ListComponents_moves o l : moves R (ListComponents o l).
Proof. unfold ListComponents. solve_reader. Qed.
Lemma CountActiveComponentKeys_moves n : moves R (CountActiveComponentKeys n).
Proof. unfold CountActiveComponentKeys. solve_reader. Qed.
Lemma LoadComponentSets_moves : moves R LoadComponentSets.
Proof. unfold LoadComponentSets. solve_reader. Qed.
Lemma GetSession_moves id : moves R (GetSession id).
Proof. unfold GetSession. solve_reader. Qed.
Lemma GetOperator_moves id : moves R (GetOperator id).
Proof. unfold GetOperator. solve_reader. Qed.
Lemma GetOperatorByEmail_moves e : moves R (GetOperatorByEmail e).
Proof. unfold GetOperatorByEmail. solve_reader. Qed.
Lemma ListOperators_moves o l : moves R (ListOperators o l).
Proof. unfold ListOperators. solve_reader. Qed.
Lemma CountActiveAdmins_moves : moves R CountActiveAdmins.
Proof. unfold CountActiveAdmins. solve_reader. Qed.
Lemma OperatorCount_moves : moves R OperatorCount.
Proof. unfold OperatorCount. solve_reader. Qed.
Lemma ListAuditEntries_moves f o l : moves R (ListAuditEntries f o l).
Proof. unfold ListAuditEntries. solve_reader. Qed.
End Readers.

#[export] Hint Resolve GetAccount_moves ListAccounts_moves CountActiveAccountKeys_moves
  ListAccountKeys_moves GetByID_moves GetByValue_moves ListKeys_moves GetComponent_moves
  ListComponents_moves CountActiveComponentKeys_moves LoadComponentSets_moves GetSession_moves
  GetOperator_moves GetOperatorByEmail_moves ListOperators_moves CountActiveAdmins_moves
  OperatorCount_moves ListAuditEntries_moves : packyard.

Section Sequences.
Context `{SqlDriver} `{UnicodeTables} (mail_ParseAddress : string -> bool).

Lemma run_call_sound c : moves sound (run_call mail_ParseAddress c).
Proof.
  destruct c; cbn [run_call]; unfold ignore, DisableOperator, EnableOperator,
    ChangeOperatorRole; solve_moves.
Qed.

Lemma run_calls_sound cs : moves sound (run_calls mail_ParseAddress cs).
Proof.
  induction cs as [|c cs IH]; cbn [run_calls]; [apply moves_ret|].
  apply moves_bind; [apply run_call_sound|intros _; apply IH].
Qed.

(** C15. Whatever sequence of store methods runs, on whatever inputs and
    under whatever clock, entropy and driver failures, the database keeps
    its integrity: all CHECK constraints, unique emails, every key owned by
    an existing account, every session by an existing operator, the seeded
    legacy account untouched, audit ids strictly increasing. *)
Theorem store_integrity cs w :
  db_ok (w_db w) -> db_ok (w_db (run_calls mail_ParseAddress cs w).2).
Proof. apply run_calls_sound. Qed.

(** No sequence of store methods brings a revoked key back, moves a key
    to another account or component, loses its usage count, removes a key
    or an account, or rewrites a row of the audit log. *)
Theorem store_history cs w :
  history (w_db w) (w_db (run_calls mail_ParseAddress cs w).2).
Proof. apply run_calls_sound. Qed.
End Sequences.

Lemma store_integrity_witness :
  db_ok (w_db (@run_calls sqlite_driver ascii_tables (fun _ => true)
    [CDeleteAccount "acct"; CUpdateAccount "acct" (mkAccountUpdate None None (Some "active"));
     CUpdateOperator "op" (Some "readonly") None] (demo_world demo_db)).2).
Proof.
  exact (@store_integrity sqlite_driver ascii_tables (fun _ => true) _ (demo_world demo_db) demo_ok).
Defined.
