(* ===== verification/Opening.v ===== *)
(** * Opening the database: NewSQLiteStore and the migration (sqlite.go)

    A [Disk] is a database file as some version of the service may have left
    it: tables can be missing, and subscription_key can lack the account_id
    column or have it without NOT NULL.  Each statement outside a transaction
    commits by itself, so an opening that stops anywhere leaves the effect of
    the statements before.  [o_fault] says for each coming statement whether
    the driver fails it; since nothing but statements touches the file, the
    disk a crash leaves is the disk of a run that fails at that point. *)
From Stdlib Require Import ZArith Lia.
From stdpp Require Import base gmap strings list.
From S2P Require Import Prelude GoStrings Errors State Tables Effects StoreInvariant.
Open Scope packyard_scope.

(** ** The file *)
(** A row of subscription_key before or after the account column came. *)
Record raw_key := mkRawKey {
  r_component : string; r_label : string; r_active : Z; r_created_at : Z;
  r_expires_at : option Z; r_usage_count : Z; r_account_id : option string }.

(** The account_id column of subscription_key. *)
Inductive account_column := NoColumn | Nullable | NotNull.

Record KeyTable := mkKeyTable {
  kt_column : account_column; kt_rows : gmap string raw_key }.

Record Disk := mkDisk {
  t_accounts : option (gmap string account_row);
  t_operators : option (gmap string operator_row);
  t_sessions : option (gmap string session_row);
  t_audit : option (list audit_row * Z);
  t_keys : option KeyTable;
  t_keys_old : option KeyTable; (* subscription_key_old *)
  t_components : option (gmap string component_row) }.

Definition blank_disk : Disk := mkDisk None None None None None None None.

Definition with_accounts (t : gmap string account_row) (d : Disk) : Disk :=
  mkDisk (Some t) (t_operators d) (t_sessions d) (t_audit d) (t_keys d) (t_keys_old d)
    (t_components d).
Definition with_keys (t : option KeyTable) (d : Disk) : Disk :=
  mkDisk (t_accounts d) (t_operators d) (t_sessions d) (t_audit d) t (t_keys_old d)
    (t_components d).
Definition with_keys_old (t : option KeyTable) (d : Disk) : Disk :=
  mkDisk (t_accounts d) (t_operators d) (t_sessions d) (t_audit d) (t_keys d) t
    (t_components d).

(** The one connection of the pool: [fk] is its PRAGMA foreign_keys. *)
Record Conn := mkConn { disk : Disk; fk : bool; o_fault : nat -> option string }.

Definition tick (c : Conn) : Conn := mkConn (disk c) (fk c) (fun i => o_fault c (S i)).
Definition set_disk (d : Disk) (c : Conn) : Conn := mkConn d (fk c) (o_fault c).
Definition set_fk (b : bool) (c : Conn) : Conn := mkConn (disk c) b (o_fault c).

(** A computation on the connection that can return an error. *)
Definition Opening (A : Type) : Type := Conn -> res A * Conn.

#[export] Instance opening_ret : MRet Opening := fun A a c => (Ok a, c).
#[export] Instance opening_bind : MBind Opening := fun A B k m c =>
  let '(r, c') := m c in match r with Ok a => k a c' | Err e => (Err e, c') end.

(** ** Statements *)
Inductive effect := Changed (d : Disk) | Refused (message : string).

Section Opening.
Context `{SqlDriver}.

(** A statement that fails with the driver's error or takes effect. *)
Definition statement (op : string) (f : Conn -> effect) : Opening unit := fun c =>
  match o_fault c 0 with
  | Some m => (Err (Wrap op (ErrText m)), tick c)
  | None =>
      match f c with
      | Changed d => (Ok tt, set_disk d (tick c))
      | Refused m => (Err (Wrap op (ErrText m)), tick c)
      end
  end.

(** A statement, or step of reading rows, that has no effect on the file. *)
Definition no_effect (op : string) : Opening unit := statement op (fun c => Changed (disk c)).

Definition read {A} (f : Disk -> A) : Opening A := fun c => (Ok (f (disk c)), c).
Definition enforce (b : bool) : Opening unit := fun c => (Ok tt, set_fk b c).

Definition ask {A} (op : string) (f : Disk -> A) : Opening A :=
  _ ← no_effect op; read f.

Definition foreign_keys (op : string) (b : bool) : Opening unit :=
  _ ← no_effect op; enforce b.

Definition refuse {A} (e : goerr) : Opening A := fun c => (Err e, c).

Fixpoint in_order (l : list (Opening unit)) : Opening unit :=
  match l with [] => mret tt | m :: l => _ ← m; in_order l end.

(** [BeginTx], the body, and [Commit]; the deferred [Rollback] after an
    error. *)
Definition transaction (bp cp : string) (body : Opening unit) : Opening unit := fun c =>
  match no_effect bp c with
  | (Err e, c') => (Err e, c')
  | (Ok _, c') =>
      match body c' with
      | (Err e, c2) => (Err e, set_disk (disk c) c2)
      | (Ok _, c2) =>
          match no_effect cp c2 with
          | (Err e, c3) => (Err e, set_disk (disk c) c3)
          | (Ok _, c3) => (Ok tt, c3)
          end
      end
  end.

(** ** The schema *)
Definition missing {A} (t : option A) (empty : A) : option A := Some (default empty t).

Definition schema_tables : list (Disk -> Disk) :=
  let index d := d in [
  fun d => with_accounts (default ∅ (t_accounts d)) d; index;
  fun d => mkDisk (t_accounts d) (missing (t_operators d) ∅) (t_sessions d) (t_audit d)
             (t_keys d) (t_keys_old d) (t_components d);
  fun d => mkDisk (t_accounts d) (t_operators d) (missing (t_sessions d) ∅) (t_audit d)
             (t_keys d) (t_keys_old d) (t_components d); index; index;
  fun d => mkDisk (t_accounts d) (t_operators d) (t_sessions d) (missing (t_audit d) ([], 0%Z))
             (t_keys d) (t_keys_old d) (t_components d); index; index; index;
  fun d => with_keys (missing (t_keys d) (mkKeyTable NotNull ∅)) d; index;
  fun d => mkDisk (t_accounts d) (t_operators d) (t_sessions d) (t_audit d)
             (t_keys d) (t_keys_old d) (missing (t_components d) ∅) ].

Definition create_schema : Opening unit :=
  in_order (map (fun f => statement "create schema" (fun c => Changed (f (disk c)))) schema_tables).

(** ** The legacy account *)
(** [INSERT OR IGNORE]: a row that would break a UNIQUE constraint is not
    inserted, and that is no error.  [t] is the second of the database's clock. *)
Definition seedLegacyAccount (t : Z) : Opening unit :=
  statement "seed legacy account" (fun c =>
    match t_accounts (disk c) with
    | None => Refused "no such table: accounts"
    | Some accounts =>
        let row := legacy_row t in
        if bool_decide (is_Some (accounts !! legacyAccountID)) ||
           held_by_other a_email accounts legacyAccountID (a_email row)
        then Changed (disk c)
        else Changed (with_accounts (<[legacyAccountID := row]> accounts) (disk c))
    end).

(** ** The account column *)
(** From PRAGMA table_info: does the column exist, is it NOT NULL. *)
Definition subscriptionKeyAccountIDColumn : Opening (bool * bool) :=
  found ← ask "table_info" (fun d =>
    match kt_column <$> t_keys d with
    | Some Nullable => (true, false)
    | Some NotNull => (true, true)
    | _ => (false, false)
    end);
  if found.1 : bool then mret found
  else (_ ← no_effect "table_info rows"; mret found).

(** A statement on the rows of a key table. *)
Definition on_keys (f : KeyTable -> effect) (d : Disk) : effect :=
  match t_keys d with
  | None => Refused "no such table: subscription_key"
  | Some t => f t
  end.

Definition no_account (k : raw_key) : raw_key :=
  mkRawKey (r_component k) (r_label k) (r_active k) (r_created_at k) (r_expires_at k)
    (r_usage_count k) None.

Definition add_column : Opening unit :=
  statement "add account_id column" (fun c => on_keys (fun t =>
    match kt_column t with
    | NoColumn => Changed (with_keys (Some (mkKeyTable Nullable (no_account <$> kt_rows t))) (disk c))
    | _ => Refused "duplicate column name: account_id"
    end) (disk c)).

Definition unowned (k : raw_key) : bool :=
  match r_account_id k with None => true | Some _ => false end.

Definition to_legacy (k : raw_key) : raw_key :=
  mkRawKey (r_component k) (r_label k) (r_active k) (r_created_at k) (r_expires_at k)
    (r_usage_count k) (Some (default legacyAccountID (r_account_id k))).

(** [UPDATE ... SET account_id = 'legacy' WHERE account_id IS NULL], under
    the foreign key to accounts. *)
Definition backfill : Opening unit :=
  statement "backfill legacy account" (fun c => on_keys (fun t =>
    let rows := update_where (fun _ k => unowned k) to_legacy (kt_rows t) in
    if match kt_column t with NoColumn => true | _ => false end
    then Refused "no such column: account_id"
    else if fk c && negb (count_where (fun _ k => unowned k) (kt_rows t) =? 0)%nat &&
       negb (bool_decide (is_Some (t_accounts (disk c) ≫= lookup legacyAccountID)))
    then Refused (driver_message ForeignKeyFailed)
    else Changed (with_keys (Some (mkKeyTable (kt_column t) rows)) (disk c))) (disk c)).

(** ** The rebuild *)
Definition drop_old (d : Disk) : effect := Changed (with_keys_old None d).
Definition rename_to_old (d : Disk) : effect :=
  on_keys (fun t =>
    match t_keys_old d with
    | None => Changed (with_keys None (with_keys_old (Some t) d))
    | Some _ => Refused "there is already another table or index with this name: subscription_key_old"
    end) d.
Definition create_required (d : Disk) : effect :=
  match t_keys d with
  | None => Changed (with_keys (Some (mkKeyTable NotNull ∅)) d)
  | Some _ => Refused "table subscription_key already exists"
  end.
(** [INSERT INTO subscription_key SELECT ... FROM subscription_key_old]. *)
Definition copy_rows (d : Disk) : effect :=
  match t_keys_old d with
  | None => Refused "no such table: subscription_key_old"
  | Some old =>
      on_keys (fun t =>
        match kt_column old with
        | NoColumn => Refused "no such column: account_id"
        | _ =>
            if negb (count_where (fun _ k => unowned k) (kt_rows old) =? 0)%nat
            then Refused (driver_message (NotNullFailed "subscription_key.account_id"))
            else Changed (with_keys (Some (mkKeyTable (kt_column t) (kt_rows old ∪ kt_rows t))) d)
        end) d
  end.

Definition rebuild_statements : list (Disk -> effect) :=
  [drop_old; rename_to_old; create_required; copy_rows; drop_old; Changed; Changed].

(** [PRAGMA foreign_key_check]: does any row of any table lack its parent? *)
Definition dangling {A B} (parent : A -> option string) (t : gmap string A) (p : gmap string B) : bool :=
  negb (count_where (fun _ r => match parent r with
                                | Some id => negb (bool_decide (is_Some (p !! id)))
                                | None => false
                                end) t =? 0)%nat.

Definition foreign_key_violations (d : Disk) : bool :=
  dangling (fun s => Some (s_operator_id s)) (default ∅ (t_sessions d)) (default ∅ (t_operators d)) ||
  dangling r_account_id (default ∅ (kt_rows <$> t_keys d)) (default ∅ (t_accounts d)).

Definition foreign_key_check : Opening unit :=
  found ← ask "foreign_key_check" foreign_key_violations;
  if found : bool then refuse (ErrText
    "rebuild subscription_key: foreign_key_check reported violations after rebuild — refusing to re-enable FK enforcement")
  else no_effect "foreign_key_check rows".

(** The deferred PRAGMA: it runs whatever the outcome, and its own error is
    returned only if there is no other. *)
Definition then_reenable (m : Opening unit) : Opening unit := fun c =>
  let '(r, c') := m c in
  match foreign_keys "re-enable fk" true c' with
  | (Err e, c2) => (match r with Ok _ => Err e | Err _ => r end, c2)
  | (Ok _, c2) => (r, c2)
  end.

Definition rebuildSubscriptionKeyNotNull : Opening unit :=
  _ ← no_effect "acquire conn";
  _ ← foreign_keys "disable fk" false;
  then_reenable (
    _ ← transaction "begin rebuild tx" "commit rebuild"
          (in_order (map (fun f => statement "rebuild subscription_key" (fun c => f (disk c)))
             rebuild_statements));
    foreign_key_check).

Definition migrateSubscriptionKeyAccountID : Opening unit :=
  found ← subscriptionKeyAccountIDColumn;
  let '(colExists, colNotNull) := found in
  _ ← (if colExists : bool then mret tt else add_column);
  _ ← no_effect "create account_id index";
  _ ← backfill;
  if negb colExists || negb colNotNull then rebuildSubscriptionKeyNotNull else mret tt.

(** ** NewSQLiteStore *)
Definition NewSQLiteStore (t : Z) : Opening unit :=
  _ ← no_effect "open sqlite";
  _ ← no_effect "exec PRAGMA journal_mode=WAL";
  _ ← no_effect "exec PRAGMA synchronous=NORMAL";
  _ ← no_effect "exec PRAGMA busy_timeout=5000";
  _ ← foreign_keys "exec PRAGMA foreign_keys=ON" true;
  _ ← create_schema;
  _ ← seedLegacyAccount t;
  migrateSubscriptionKeyAccountID.

(** The database an opened file holds for the store's methods. *)
Definition key_of_raw (k : raw_key) : key_row :=
  mkKeyRow (r_component k) (r_label k) (r_active k) (r_created_at k) (r_expires_at k)
    (r_usage_count k) (default legacyAccountID (r_account_id k)).

Definition database_of (d : Disk) : Database :=
  let audit := default ([], 0%Z) (t_audit d) in
  mkDatabase (default ∅ (t_accounts d)) (default ∅ (t_operators d)) (default ∅ (t_sessions d))
    (key_of_raw <$> default ∅ (kt_rows <$> t_keys d)) (default ∅ (t_components d)) audit.1 audit.2.

(** Every table is there, and keys name their accounts. *)
Definition current (d : Disk) : Prop :=
  is_Some (t_accounts d) /\ is_Some (t_operators d) /\ is_Some (t_sessions d) /\
  is_Some (t_audit d) /\ is_Some (t_components d) /\
  exists rows, t_keys d = Some (mkKeyTable NotNull rows) /\
    forall id k, rows !! id = Some k -> is_Some (r_account_id k).

(** A process that opens the file at [t]; the driver fails as [faults] says. *)
Definition open_disk (t : Z) (faults : nat -> option string) (d : Disk) : res unit * Conn :=
  NewSQLiteStore t (mkConn d false faults).

(** Openings one after the other, whether they succeed or not: the file that
    is left. *)
Fixpoint attempts (l : list (Z * (nat -> option string))) (d : Disk) : Disk :=
  match l with
  | [] => d
  | (t, faults) :: l => attempts l (disk (open_disk t faults d).2)
  end.
End Opening.

(** ** Concrete files *)
Definition no_fault : nat -> option string := fun _ => None.

(** A file from before accounts, with one key. *)
Definition old_disk : Disk :=
  mkDisk None None None None
    (Some (mkKeyTable NoColumn {["k1" := mkRawKey "core" "ci" 1 100 None 7 None]})) None None.

Example old_disk_opens :
  let out := @open_disk sqlite_driver 200 no_fault old_disk in
  out.1 = Ok tt /\ fk out.2 = true /\
  subscription_key (database_of (disk out.2)) = {["k1" := mkKeyRow "core" "ci" 1 100 None 7 "legacy"]}.
Proof. vm_compute. repeat split. Qed.
