(* ===== verification/OpeningSpec.v ===== *)
(** * What opening promises: whatever interrupts it, nothing is lost *)
From Stdlib Require Import ZArith Lia.
From stdpp Require Import base gmap strings list relations.
From S2P Require Import Prelude GoStrings Errors State Tables Effects StoreInvariant Opening.
From S2P Require Import Fixtures.
Open Scope packyard_scope.

(** ** The abstract upgrade *)
(** All an upgrade does to the data, seen as the store sees it. *)
Definition seeded (t : Z) (db : Database) : Database :=
  match accounts db !! legacyAccountID with
  | Some _ => db
  | None => set_accounts (<[legacyAccountID := legacy_row t]> (accounts db)) db
  end.

Lemma seeded_legacy t db : is_Some (accounts (seeded t db) !! legacyAccountID).
Proof.
  unfold seeded. destruct (accounts db !! legacyAccountID) eqn:E; [by rewrite E|].
  simpl. by rewrite lookup_insert_eq.
Qed.

Lemma seeded_id t db : is_Some (accounts db !! legacyAccountID) -> seeded t db = db.
Proof. unfold seeded. by intros [r ->]. Qed.

(** ** Files the service may find *)
Definition all_keys (P : raw_key -> Prop) (t : KeyTable) : Prop :=
  forall id k, kt_rows t !! id = Some k -> P k.

(** Rows fit the column: without it no row names an account, under NOT NULL
    every row does. *)
Definition column_ok (d : Disk) : Prop :=
  forall t, t_keys d = Some t ->
    match kt_column t with
    | NoColumn => all_keys (fun k => r_account_id k = None) t
    | Nullable => True
    | NotNull => all_keys (fun k => is_Some (r_account_id k)) t
    end.

(** The tables that exist satisfy the constraints of the schema, once the
    legacy account is there. *)
Definition disk_ok (d : Disk) : Prop :=
  column_ok d /\ forall t, db_ok (seeded t (database_of d)).

(** What any number of statements does to a file. *)
Definition advanced (d d' : Disk) : Prop :=
  column_ok d -> column_ok d' /\
  (database_of d' = database_of d \/ exists t, database_of d' = seeded t (database_of d)).

#[export] Instance advanced_preorder : PreOrder advanced.
Proof.
  split; [intros d Hc; split; [done|by left]|].
  intros a b c H1 H2 Hc. destruct (H1 Hc) as [Hc1 Hd1]. destruct (H2 Hc1) as [Hc2 Hd2].
  split; [done|].
  destruct Hd2 as [->|[t ->]]; [done|]. destruct Hd1 as [->|[t' ->]]; [by right; eexists|].
  right. exists t'. apply seeded_id, seeded_legacy.
Qed.

Lemma advanced_ok d d' : disk_ok d -> advanced d d' -> disk_ok d'.
Proof.
  intros [Hc Hdb] Ha. destruct (Ha Hc) as [Hc' Hd]. split; [done|]. intros t. destruct Hd as [->|[t' ->]]; [done|].
  rewrite (seeded_id t) by apply seeded_legacy. apply Hdb.
Qed.

Section Spec.
Context `{SqlDriver}.

(** ** Whatever happens, the file advances *)
Definition stays {A} (R : relation Disk) (m : Opening A) : Prop :=
  forall c, R (disk c) (disk (m c).2).

Section Stays.
Context {R : relation Disk} `{!PreOrder R}.

Lemma stays_ret {A} (a : A) : stays R (mret a : Opening A).
Proof. intros c. reflexivity. Qed.

Lemma stays_bind {A B} (m : Opening A) (k : A -> Opening B) :
  stays R m -> (forall a, stays R (k a)) -> stays R (m ≫= k).
Proof.
  intros Hm Hk c. unfold mbind, opening_bind. specialize (Hm c).
  destruct (m c) as [[a|e] c']; [|done]. etrans; [apply Hm|apply Hk].
Qed.

Lemma stays_statement op f :
  (forall c d, f c = Changed d -> R (disk c) d) -> stays R (statement op f).
Proof.
  intros Hf c. unfold statement. destruct (o_fault c 0); [done|].
  destruct (f c) eqn:E; [by apply Hf|done].
Qed.

Lemma stays_no_effect op : stays R (no_effect op).
Proof. apply stays_statement. intros c d [= <-]. reflexivity. Qed.

Lemma stays_ask {A} op (f : Disk -> A) : stays R (ask op f).
Proof. apply stays_bind; [apply stays_no_effect|]. intros [] c. reflexivity. Qed.

Lemma stays_foreign_keys op b : stays R (foreign_keys op b).
Proof. apply stays_bind; [apply stays_no_effect|]. intros [] c. reflexivity. Qed.

Lemma stays_refuse {A} e : stays R (refuse e : Opening A).
Proof. intros c. reflexivity. Qed.

Lemma stays_in_order l : Forall (stays R) l -> stays R (in_order l).
Proof.
  induction 1 as [|m l Hm _ IH]; cbn [in_order]; [apply stays_ret|].
  by apply stays_bind.
Qed.

Lemma stays_reenable m : stays R m -> stays R (then_reenable m).
Proof.
  intros Hm c. unfold then_reenable. specialize (Hm c). destruct (m c) as [r c'].
  pose proof (stays_foreign_keys "re-enable fk" true c') as Hf.
  destruct (foreign_keys _ _ c') as [[x|e] c2]; by etrans.
Qed.
End Stays.

(** A transaction is all its statements, or nothing. *)
Fixpoint all_effects (fs : list (Disk -> effect)) (d : Disk) : option Disk :=
  match fs with
  | [] => Some d
  | f :: fs => match f d with Changed d' => all_effects fs d' | Refused _ => None end
  end.

Lemma in_order_effects op fs c c' :
  in_order (map (fun f => statement op (fun c => f (disk c))) fs) c = (Ok tt, c') ->
  all_effects fs (disk c) = Some (disk c').
Proof.
  revert c. induction fs as [|f fs IH]; intros c; cbn [map in_order all_effects].
  { by intros [= <-]. }
  unfold mbind, opening_bind, statement at 1. destruct (o_fault c 0); [done|].
  destruct (f (disk c)) as [d|m]; [|done]. intros Hr. by apply IH in Hr.
Qed.

Lemma stays_transaction {R : relation Disk} `{!PreOrder R} bp cp op fs :
  (forall d d', all_effects fs d = Some d' -> R d d') ->
  stays R (transaction bp cp (in_order (map (fun f => statement op (fun c => f (disk c))) fs))).
Proof.
  intros Hfs c. unfold transaction.
  assert (forall op c, disk (no_effect op c).2 = disk c) as Hno.
  { intros op' c'. symmetry. apply (stays_no_effect (R := eq)). }
  pose proof (Hno bp c) as Hb. destruct (no_effect bp c) as [[[]|e] c1]; cbn [snd] in *; [|by rewrite Hb].
  destruct (in_order _ c1) as [[[]|e] c2] eqn:E; cbn [snd]; [|reflexivity].
  apply in_order_effects, Hfs in E. rewrite Hb in E.
  pose proof (Hno cp c2) as Hc. destruct (no_effect cp c2) as [[[]|e] c3]; cbn [snd] in *; [|reflexivity].
  by rewrite Hc.
Qed.

(** ** The statements advance the file *)
Lemma advanced_same d d' :
  (column_ok d -> column_ok d' /\ database_of d' = database_of d) -> advanced d d'.
Proof. intros Hs Hc. destruct (Hs Hc). by split; [|left]. Qed.

Lemma create_schema_advances : stays advanced create_schema.
Proof.
  apply stays_in_order. unfold schema_tables. cbn [map].
  repeat (apply Forall_cons; split); try apply Forall_nil_2.
  all: apply stays_statement; intros c d [= <-]; apply advanced_same; intros Hc.
  all: destruct (disk c) as [[?|] [?|] [?|] [?|] [[col rows]|] ? [?|]]; split; try exact Hc; try reflexivity.
  all: intros t [= <-] id k Hk; cbn in Hk; by rewrite lookup_empty in Hk.
Qed.

Lemma seed_advances t : stays advanced (seedLegacyAccount t).
Proof.
  apply stays_statement. intros c d. destruct (t_accounts (disk c)) as [accs|] eqn:Ea; [|done].
  cbv zeta. case_match eqn:E; intros [= <-]; [reflexivity|].
  apply orb_false_iff in E as [E _]. apply bool_decide_eq_false in E. intros Hc. split; [exact Hc|].
  right. exists t. unfold seeded, database_of. cbn. rewrite Ea. cbn.
  destruct (accs !! legacyAccountID) eqn:El; [by destruct E|]. done.
Qed.

Lemma key_of_no_account k : r_account_id k = None -> key_of_raw (no_account k) = key_of_raw k.
Proof. unfold key_of_raw. by intros ->. Qed.

Lemma key_of_to_legacy k : key_of_raw (to_legacy k) = key_of_raw k.
Proof. unfold key_of_raw. simpl. by destruct (r_account_id k). Qed.

Lemma add_column_advances : stays advanced add_column.
Proof.
  apply stays_statement. intros c d. unfold on_keys.
  destruct (t_keys (disk c)) as [[[] rows]|] eqn:Ek; try done. intros [= <-].
  apply advanced_same. intros Hc. specialize (Hc _ Ek) as Hnone. split.
  - intros t [= <-]. done.
  - unfold database_of. cbn. rewrite Ek. cbn. f_equal. rewrite <-map_fmap_compose.
    apply map_fmap_ext. intros id k Hk. simpl. by apply key_of_no_account, (Hnone id).
Qed.

Lemma backfill_advances : stays advanced backfill.
Proof.
  apply stays_statement. intros c d. unfold on_keys.
  destruct (t_keys (disk c)) as [[col rows]|] eqn:Ek; [|done]. cbn [kt_column kt_rows].
  destruct (match col with NoColumn => true | _ => false end) eqn:Ecol; [done|].
  destruct (_ && _); [done|]. intros [= <-]. apply advanced_same. intros Hc.
  specialize (Hc _ Ek). split.
  - intros t [= <-]. cbn in *. destruct col; [done..|]. intros id k. cbn.
    rewrite lookup_update_where. intros (k0 & Hk0 & ->)%fmap_Some.
    destruct (unowned k0); [by eexists|by eapply Hc].
  - unfold database_of. cbn. rewrite Ek. cbn. f_equal. apply map_eq. intros id.
    rewrite !lookup_fmap, lookup_update_where. destruct (rows !! id) as [k|]; [|done]. simpl.
    destruct (unowned k); [by rewrite key_of_to_legacy|done].
Qed.

Lemma unowned_none (rows : gmap string raw_key) :
  count_where (fun _ k => unowned k) rows = 0 <->
  forall id k, rows !! id = Some k -> is_Some (r_account_id k).
Proof.
  rewrite count_where_zero. split; intros Hall id k Hk; specialize (Hall id k Hk);
    unfold unowned in *; destruct (r_account_id k); by eauto.
Qed.

(** What the rebuild leaves: the same rows, all owned, under NOT NULL. *)
Lemma rebuild_effects d d' :
  all_effects rebuild_statements d = Some d' ->
  exists col rows, t_keys d = Some (mkKeyTable col rows) /\ col <> NoColumn /\
    (forall id k, rows !! id = Some k -> is_Some (r_account_id k)) /\
    d' = with_keys_old None (with_keys (Some (mkKeyTable NotNull rows)) d).
Proof.
  unfold rebuild_statements. cbn [all_effects drop_old]. unfold rename_to_old at 1, on_keys. cbn.
  destruct (t_keys d) as [[col rows]|] eqn:Ek; [|done]. cbn.
  unfold copy_rows. cbn. unfold on_keys. cbn.
  destruct col; [done|..]; destruct (count_where _ rows) eqn:En; try done; cbn;
    intros [= <-]; eexists _, rows; split; try done; split; try done;
    (split; [by apply unowned_none|]); unfold with_keys_old, with_keys; cbn; by rewrite map_union_empty.
Qed.

Lemma rebuild_advances d d' : all_effects rebuild_statements d = Some d' -> advanced d d'.
Proof.
  intros (col & rows & Ek & Hcol & Hall & ->)%rebuild_effects. apply advanced_same. intros _. split.
  - intros t [= <-]. exact Hall.
  - unfold database_of. cbn. by rewrite Ek.
Qed.

Lemma foreign_key_check_advances : stays advanced foreign_key_check.
Proof.
  apply stays_bind; [apply stays_ask|]. intros []; [apply stays_refuse|apply stays_no_effect].
Qed.

(** Any opening advances the file, wherever it stops. *)
Lemma NewSQLiteStore_advances t : stays advanced (NewSQLiteStore t).
Proof.
  unfold NewSQLiteStore, migrateSubscriptionKeyAccountID, rebuildSubscriptionKeyNotNull,
    subscriptionKeyAccountIDColumn.
  repeat first
    [ apply stays_no_effect | apply stays_foreign_keys | apply stays_ret | apply stays_ask
    | apply create_schema_advances | apply seed_advances | apply add_column_advances
    | apply backfill_advances | apply foreign_key_check_advances | apply stays_reenable
    | apply stays_transaction; apply rebuild_advances
    | match goal with
      | |- stays _ (match ?x with (_, _) => _ end) => destruct x
      | |- stays _ (if ?b then _ else _) => destruct b
      end
    | apply stays_bind; [|intros ?] ].
Qed.

Lemma attempts_advance l d : advanced d (attempts l d).
Proof.
  revert d. induction l as [|[t faults] l IH]; intros d; cbn [attempts]; [reflexivity|].
  etrans; [|apply IH]. apply (NewSQLiteStore_advances t (mkConn d false faults)).
Qed.

(** ** Without failures an opening succeeds *)
Definition unfailing (c : Conn) : Prop := forall i, o_fault c i = None.

(** From [P], the computation ends in [Q] or fails; it fails only if the
    driver does. *)
Definition triple {A} (P : Conn -> Prop) (m : Opening A) (Q : A -> Conn -> Prop) : Prop :=
  forall c, P c ->
    match m c with
    | (Ok a, c') => (unfailing c -> unfailing c') /\ Q a c'
    | (Err _, _) => ~ unfailing c
    end.

Lemma triple_ret {A} (a : A) P : triple P (mret a : Opening A) (fun b c => b = a /\ P c).
Proof. intros c Hc. by split. Qed.

Lemma triple_bind {A B} P (m : Opening A) Q (k : A -> Opening B) S :
  triple P m Q -> (forall a, triple (Q a) (k a) S) -> triple P (m ≫= k) S.
Proof.
  intros Hm Hk c Hc. specialize (Hm c Hc). unfold mbind, opening_bind.
  destruct (m c) as [[a|e] c']; [|done]. destruct Hm as [Hu Hq]. specialize (Hk a c' Hq).
  destruct (k a c') as [[b|e] c2]; [|by auto]. destruct Hk. auto.
Qed.

Lemma triple_weaken {A} (P P' : Conn -> Prop) (m : Opening A) (Q Q' : A -> Conn -> Prop) :
  triple P m Q -> (forall c, P' c -> P c) -> (forall a c, Q a c -> Q' a c) -> triple P' m Q'.
Proof.
  intros Hm HP HQ c Hc%HP%Hm. destruct (m c) as [[a|e] c']; [|done]. destruct Hc. auto.
Qed.

(** A predicate on what the file holds rides along. *)
Lemma triple_frame {A} P (m : Opening A) Q :
  stays advanced m -> triple P m Q ->
  triple (fun c => disk_ok (disk c) /\ P c) m (fun a c => disk_ok (disk c) /\ Q a c).
Proof.
  intros Ha Hm c [Hd Hp]. specialize (Hm c Hp). specialize (Ha c).
  destruct (m c) as [[a|e] c']; [|done]. destruct Hm. split; [done|].
  split; [by eapply advanced_ok|done].
Qed.

Lemma triple_statement op f P (Q : Conn -> Prop) :
  (forall c, P c -> exists d, f c = Changed d /\ forall faults, Q (mkConn d (fk c) faults)) ->
  triple P (statement op f) (fun _ => Q).
Proof.
  intros Hf c Hc. destruct (Hf c Hc) as (d & He & Hq). unfold statement.
  destruct (o_fault c 0) eqn:E; [by intros Hu; rewrite Hu in E|]. rewrite He.
  split; [|apply Hq]. intros Hu i. apply (Hu (S i)).
Qed.

Lemma triple_no_effect op (P : bool -> Disk -> Prop) :
  triple (fun c => P (fk c) (disk c)) (no_effect op) (fun _ c => P (fk c) (disk c)).
Proof. apply triple_statement. intros c Hc. exists (disk c). by split. Qed.

Lemma triple_ask {A} op (f : Disk -> A) (P : bool -> Disk -> Prop) :
  triple (fun c => P (fk c) (disk c)) (ask op f) (fun a c => a = f (disk c) /\ P (fk c) (disk c)).
Proof.
  eapply triple_bind; [apply triple_no_effect|]. intros [] c Hc. by split.
Qed.

Lemma triple_foreign_keys op b (P : Disk -> Prop) :
  triple (fun c => P (disk c)) (foreign_keys op b) (fun _ c => fk c = b /\ P (disk c)).
Proof.
  eapply triple_bind; [apply (triple_no_effect _ (fun _ => P))|]. intros [] c Hc. by split.
Qed.

(** Unconditional statements, in order. *)
Lemma triple_changes op fs b d' :
  triple (fun c => fk c = b /\ all_effects fs (disk c) = Some d')
    (in_order (map (fun f => statement op (fun c => f (disk c))) fs))
    (fun _ c => fk c = b /\ disk c = d').
Proof.
  induction fs as [|f fs IH]; cbn [map in_order all_effects].
  - intros c [Hb [= <-]]. by split.
  - eapply triple_bind; [|intros ?; apply IH]. apply triple_statement. intros c [Hb Hd].
    destruct (f (disk c)); [|done]. by eexists.
Qed.

Lemma triple_transaction bp cp op fs d' :
  triple (fun c => all_effects fs (disk c) = Some d')
    (transaction bp cp (in_order (map (fun f => statement op (fun c => f (disk c))) fs)))
    (fun _ c => disk c = d').
Proof.
  intros c Hc. unfold transaction.
  pose proof (triple_no_effect bp (fun _ d => all_effects fs d = Some d') c Hc) as Hb.
  destruct (no_effect bp c) as [[[]|e] c1]; [|done]. destruct Hb as [Hu1 Hb].
  pose proof (triple_changes op fs _ d' c1 (conj eq_refl Hb)) as Hm.
  destruct (in_order _ c1) as [[[]|e] c2]; [|by auto]. destruct Hm as (Hu2 & _ & Hm).
  pose proof (triple_no_effect cp (fun _ d => d = d') c2 Hm) as Hcp.
  destruct (no_effect cp c2) as [[[]|e] c3]; [|by auto]. destruct Hcp. auto.
Qed.

Lemma triple_reenable P (m : Opening unit) (Q : Disk -> Prop) :
  triple P m (fun _ c => Q (disk c)) -> triple P (then_reenable m) (fun _ c => fk c = true /\ Q (disk c)).
Proof.
  intros Hm c Hc. specialize (Hm c Hc). unfold then_reenable.
  destruct (m c) as [[[]|e] c1].
  - destruct Hm as [Hu Hq]. pose proof (triple_foreign_keys "re-enable fk" true Q c1 Hq) as Hf.
    destruct (foreign_keys _ _ c1) as [[[]|e] c2]; [|by auto]. destruct Hf. auto.
  - destruct (foreign_keys _ _ c1) as [[[]|e'] c2]; done.
Qed.

(** ** The steps of a successful opening *)
(** All tables but subscription_key are there, the legacy account is in, and
    the key table satisfies [K]. *)
Definition others (d : Disk) : Prop :=
  is_Some (t_operators d) /\ is_Some (t_sessions d) /\ is_Some (t_audit d) /\ is_Some (t_components d).

Definition ready (K : KeyTable -> Prop) (d : Disk) : Prop :=
  is_Some (t_accounts d ≫= lookup legacyAccountID) /\ others d /\
  exists kt, t_keys d = Some kt /\ K kt.

Definition all_owned (kt : KeyTable) : Prop := all_keys (fun k => is_Some (r_account_id k)) kt.

Lemma create_schema_triple :
  triple (fun c => fk c = true) create_schema
    (fun _ c => fk c = true /\ is_Some (t_accounts (disk c)) /\ others (disk c) /\
                is_Some (t_keys (disk c))).
Proof.
  unfold create_schema. intros c Hc.
  set (fs := map (fun f d => Changed (f d)) schema_tables).
  assert (exists d', all_effects fs (disk c) = Some d') as [d' Hd'] by by eexists.
  pose proof (triple_changes "create schema" fs true d' c (conj Hc Hd')) as Ht. subst fs.
  rewrite map_map in Ht. destruct (in_order _ c) as [[[]|e] c']; [|done].
  destruct Ht as (Hu & Hf & ->). split; [done|]. injection Hd' as <-. unfold others.
  repeat split; try done; by eexists.
Qed.

Lemma seed_triple t :
  triple (fun c => disk_ok (disk c) /\ fk c = true /\ is_Some (t_accounts (disk c)) /\
                   others (disk c) /\ is_Some (t_keys (disk c)))
    (seedLegacyAccount t) (fun _ c => fk c = true /\ ready (fun _ => True) (disk c)).
Proof.
  apply triple_statement. intros c ([_ Hok] & Hf & [accs Ha] & Ho & [kt Hk]). rewrite Ha.
  cbv zeta. case_match eqn:E; (eexists; split; [reflexivity|]); intros faults; cbn [fk disk].
  all: split; [done|]; unfold ready; cbn; (split; [|split; [exact Ho|by exists kt]]).
  - rewrite Ha. cbn. destruct (accs !! legacyAccountID) eqn:El; [by eexists|exfalso].
    rewrite bool_decide_eq_false_2 in E by by intros [? ?]. cbn [orb] in E.
    apply not_false_iff_true in E. apply E. apply held_by_other_false. intros k r Hr Hne He. 
    specialize (Hok t). apply Hne. unfold seeded, database_of in Hok. cbn in Hok. rewrite Ha in Hok.
    cbn in Hok. rewrite El in Hok. apply ok_account_emails in Hok. cbn in Hok.
    eapply Hok; [by rewrite lookup_insert_ne by done|apply lookup_insert_eq|done].
  - by rewrite lookup_insert_eq.
Qed.

Definition flags (d : Disk) : bool * bool :=
  match kt_column <$> t_keys d with
  | Some Nullable => (true, false)
  | Some NotNull => (true, true)
  | _ => (false, false)
  end.

Lemma column_triple (P : bool -> Disk -> Prop) :
  triple (fun c => P (fk c) (disk c)) subscriptionKeyAccountIDColumn
    (fun a c => a = flags (disk c) /\ P (fk c) (disk c)).
Proof.
  eapply triple_bind; [apply triple_ask|]. intros a. cbv beta.
  destruct (a.1); [intros c Hc; by split|].
  eapply triple_bind; [apply (triple_no_effect _ (fun b d => a = flags d /\ P b d))|].
  intros ? c Hc. by split.
Qed.

Lemma add_column_triple :
  triple (fun c => fk c = true /\ ready (fun kt => kt_column kt = NoColumn) (disk c)) add_column
    (fun _ c => fk c = true /\ ready (fun kt => kt_column kt = Nullable) (disk c)).
Proof.
  apply triple_statement. intros c (Hf & Ha & Ho & kt & Hk & Hcol). unfold on_keys. rewrite Hk, Hcol.
  eexists. split; [reflexivity|]. intros faults. split; [done|]. split; [exact Ha|].
  split; [exact Ho|]. by eexists.
Qed.

Lemma backfill_triple col :
  col <> NoColumn ->
  triple (fun c => fk c = true /\ ready (fun kt => kt_column kt = col) (disk c)) backfill
    (fun _ c => fk c = true /\ ready (fun kt => kt_column kt = col /\ all_owned kt) (disk c)).
Proof.
  intros Hcol. apply triple_statement. intros c (Hf & Ha & Ho & [col' rows] & Hk & <-).
  unfold on_keys. rewrite Hk. cbn [kt_column kt_rows] in *.
  replace (match col' with NoColumn => true | _ => false end) with false by by destruct col'.
  rewrite bool_decide_eq_true_2 by done. rewrite andb_false_r.
  eexists. split; [reflexivity|]. intros faults. split; [done|]. split; [exact Ha|].
  split; [exact Ho|]. eexists. split; [reflexivity|]. split; [done|].
  intros id k. cbn. rewrite lookup_update_where. intros (k0 & _ & ->)%fmap_Some.
  unfold unowned. destruct (r_account_id k0) eqn:E; [by rewrite E|by eexists].
Qed.

Lemma no_violations d :
  disk_ok d -> ready (fun kt => kt_column kt = NotNull /\ all_owned kt) d ->
  foreign_key_violations d = false.
Proof.
  intros [_ Hok] ([r Hr] & _ & [col rows] & Hk & _ & Hall). specialize (Hok 0%Z).
  assert (is_Some (accounts (database_of d) !! legacyAccountID)) as Hleg.
  { destruct (t_accounts d) as [accs|] eqn:Ea; [|done]. exists r. cbn. by rewrite Ea. }
  rewrite seeded_id in Hok by done.
  unfold foreign_key_violations, dangling. apply orb_false_iff.
  split; apply negb_false_iff, Nat.eqb_eq, count_where_zero; intros id x Hx.
  - destruct (ok_sessions _ Hok id x Hx) as [Hop _]. by rewrite bool_decide_eq_true_2.
  - rewrite Hk in Hx. cbn in Hx. destruct (Hall id x Hx) as [a Haid]. rewrite Haid.
    assert (subscription_key (database_of d) !! id = Some (key_of_raw x)) as Hkey.
    { cbn. rewrite Hk. cbn. by rewrite lookup_fmap, Hx. }
    destruct (ok_keys _ Hok _ _ Hkey) as [Hacc _]. cbn in Hacc. rewrite Haid in Hacc. cbn in Hacc.
    by rewrite bool_decide_eq_true_2.
Qed.

Lemma rebuild_all col rows d :
  t_keys d = Some (mkKeyTable col rows) -> col <> NoColumn -> all_owned (mkKeyTable col rows) ->
  all_effects rebuild_statements d =
    Some (with_keys_old None (with_keys (Some (mkKeyTable NotNull rows)) d)).
Proof.
  intros Hk Hcol Hall. unfold rebuild_statements. cbn [all_effects drop_old].
  unfold rename_to_old at 1, on_keys. cbn. rewrite Hk. cbn. unfold copy_rows. cbn. unfold on_keys. cbn.
  apply unowned_none in Hall. cbn in Hall. rewrite Hall. cbn.
  destruct col; [done|..]; cbn; unfold with_keys_old, with_keys; cbn; by rewrite map_union_empty.
Qed.

Definition opened (c : Conn) : Prop :=
  fk c = true /\ ready (fun kt => kt_column kt = NotNull /\ all_owned kt) (disk c).

Lemma check_triple d' :
  foreign_key_violations d' = false ->
  triple (fun c => disk c = d') foreign_key_check (fun _ c => disk c = d').
Proof.
  intros Hfk. eapply triple_bind; [apply (triple_ask _ _ (fun _ d => d = d'))|].
  intros a c [-> Hc]. cbv beta in Hc. rewrite Hc, Hfk.
  apply (triple_no_effect _ (fun _ d => d = d')). exact Hc.
Qed.

Lemma rebuild_triple col :
  col <> NoColumn ->
  triple (fun c => disk_ok (disk c) /\ fk c = true /\
            ready (fun kt => kt_column kt = col /\ all_owned kt) (disk c))
    rebuildSubscriptionKeyNotNull (fun _ => opened).
Proof.
  intros Hcol c (Hok & _ & Ha & Ho & [col' rows] & Hk & Hc & Hall).
  cbn in Hc. subst col'.
  pose proof (rebuild_all _ _ _ Hk Hcol Hall) as Heff. revert Heff.
  set (d' := with_keys_old None _). intros Heff.
  assert (ready (fun kt => kt_column kt = NotNull /\ all_owned kt) d') as Hready.
  { split; [exact Ha|]. split; [exact Ho|]. eexists. split; [reflexivity|]. by split. }
  assert (foreign_key_violations d' = false) as Hfk.
  { apply no_violations; [|done]. by eapply advanced_ok; [|apply rebuild_advances]. }
  assert (triple (fun c => all_effects rebuild_statements (disk c) = Some d')
    rebuildSubscriptionKeyNotNull (fun _ c => fk c = true /\ disk c = d')) as Ht.
  { eapply triple_bind; [apply (triple_no_effect _ (fun _ d => all_effects rebuild_statements d = Some d'))|].
    intros ?. eapply triple_bind; [apply (triple_foreign_keys _ _ (fun d => all_effects rebuild_statements d = Some d'))|].
    intros ?. apply (triple_reenable _ _ (fun d => d = d')).
    eapply triple_weaken; [|intros c' [_ Hc']; exact Hc'|intros a1 c' Hq; exact Hq].
    eapply triple_bind; [apply triple_transaction|]. intros ?. by apply check_triple. }
  specialize (Ht c Heff). destruct (rebuildSubscriptionKeyNotNull c) as [[a|e] c']; [|done].
  destruct Ht as (Hu & Hf & Hd). split.
  { intros Hu'. apply Hu. exact Hu'. }
  unfold opened. rewrite Hd. by split.
Qed.

Lemma migrate_triple :
  triple (fun c => disk_ok (disk c) /\ fk c = true /\ ready (fun _ => True) (disk c))
    migrateSubscriptionKeyAccountID (fun _ => opened).
Proof.
  unfold migrateSubscriptionKeyAccountID.
  eapply triple_bind; [apply (column_triple (fun b d => disk_ok d /\ b = true /\ ready (fun _ => True) d))|].
  intros a. apply (triple_weaken (fun c => exists col, a = flags (disk c) /\ disk_ok (disk c) /\
    fk c = true /\ ready (fun kt => kt_column kt = col) (disk c)) _ _ (fun _ => opened) (fun _ => opened));
    [| |done].
  2:{ intros c (-> & Hok & Hf & Ha & Ho & kt & Hk & _). exists (kt_column kt).
      split; [done|]. split; [done|]. split; [done|]. split; [done|]. split; [done|]. by exists kt. }
  intros c (col & -> & Hok & Hf & Hr).
  assert (flags (disk c) = match col with NoColumn => (false, false) | Nullable => (true, false)
    | NotNull => (true, true) end) as ->.
  { destruct Hr as (_ & _ & kt & Hk & <-). unfold flags. rewrite Hk. cbn. by destruct (kt_column kt). }
  set (col2 := match col with NotNull => NotNull | _ => Nullable end).
  assert (col2 <> NoColumn) as Hcol2 by by destruct col.
  (* from the column on *)
  assert (triple (fun c => disk_ok (disk c) /\ fk c = true /\ ready (fun kt => kt_column kt = col2) (disk c))
    (_ ← no_effect "create account_id index"; _ ← backfill;
     if match col with NotNull => false | _ => true end then rebuildSubscriptionKeyNotNull else mret tt : Opening unit)
    (fun _ => opened)) as Htail.
  { eapply triple_bind; [apply (triple_no_effect _ (fun b d => disk_ok d /\ b = true /\ ready (fun kt => kt_column kt = col2) d))|].
    intros ?. eapply triple_bind; [apply triple_frame; [apply backfill_advances|by apply backfill_triple]|].
    intros ?. destruct col; [by apply rebuild_triple..|].
    eapply triple_weaken; [apply triple_ret| |]; [intros c' Hc'; exact Hc'|].
    intros ? c' (_ & _ & Hf' & Hr'). by split. }
  destruct col; cbn [negb orb].
  - eapply (triple_bind _ _ _ _ (fun _ => opened));
      [apply triple_frame; [apply add_column_advances|apply add_column_triple]
      |intros ?; apply Htail|exact (conj Hok (conj Hf Hr))].
  - exact (Htail c (conj Hok (conj Hf Hr))).
  - exact (Htail c (conj Hok (conj Hf Hr))).
Qed.

(** ** The whole opening *)
Lemma opening_triple t :
  triple (fun c => disk_ok (disk c)) (NewSQLiteStore t) (fun _ => opened).
Proof.
  unfold NewSQLiteStore.
  do 4 (eapply triple_bind; [apply (triple_no_effect _ (fun _ d => disk_ok d))|intros ?]).
  eapply triple_bind; [apply (triple_foreign_keys _ _ disk_ok)|intros ?].
  eapply triple_bind.
  { eapply triple_weaken; [apply triple_frame; [apply create_schema_advances|apply create_schema_triple]
      |intros c [Hf Hok]; exact (conj Hok Hf)|intros ? c Hq; exact Hq]. }
  intros ?. eapply triple_bind; [|intros ?; apply migrate_triple].
  eapply triple_weaken; [apply triple_frame; [apply (seed_advances t)|apply (seed_triple t)]| |].
  - intros c (Hok & Hf & Ha & Ho & Hk). split; [exact Hok|].
    exact (conj Hok (conj Hf (conj Ha (conj Ho Hk)))).
  - intros ? c Hq. exact Hq.
Qed.

Lemma opened_current c : opened c -> current (disk c) /\ is_Some (accounts (database_of (disk c)) !! legacyAccountID).
Proof.
  intros (_ & Ha & (Ho & Hs & Hau & Hco) & [col rows] & Hk & Hcol & Hall). cbn in Hcol. subst col.
  destruct Ha as [r Hr]. cbn. destruct (t_accounts (disk c)) as [accs|] eqn:Ea; [|done].
  split; [|by exists r].
  unfold current. rewrite Ea. split_and!; try done. by exists rows.
Qed.

(** Whatever stopped the earlier attempts, wherever it did. *)
Lemma open_after_attempts l t faults d :
  disk_ok d ->
  let '(r, c) := open_disk t faults (attempts l d) in
  ((forall i, faults i = None) -> r = Ok tt) /\
  (r = Ok tt -> fk c = true /\ current (disk c) /\ db_ok (database_of (disk c)) /\
     exists t', database_of (disk c) = seeded t' (database_of d)).
Proof.
  intros Hd. pose proof (attempts_advance l d) as Ha. set (d1 := attempts l d) in *.
  pose proof (NewSQLiteStore_advances t (mkConn d1 false faults)) as Ho. cbn [disk] in Ho.
  pose proof (opening_triple t (mkConn d1 false faults) (advanced_ok _ _ Hd Ha)) as Ht.
  unfold open_disk. destruct (NewSQLiteStore t _) as [[[]|e] c]; cbn [snd] in Ho.
  2:{ split; [intros Hf; by destruct Ht|done]. }
  split; [done|]. intros _. destruct Ht as [_ Hop].
  destruct (opened_current c Hop) as [Hcur Hleg].
  assert (advanced d (disk c)) as Had by (by etrans). pose proof (advanced_ok _ _ Hd Had) as [_ Hok].
  destruct (Had (proj1 Hd)) as [_ Hdb].
  split; [apply Hop|]. split; [done|]. split; [by rewrite <-(seeded_id 0%Z) by done|].
  destruct Hdb as [Hdb|Hdb]; [|done]. exists 0%Z. by rewrite <-Hdb, seeded_id.
Qed.
End Spec.

(** C16. An upgrade survives interruption.  Start from any file a version of
    the service may have left - tables missing, no account column, or the
    nullable one - and open it any number of times, each opening failing
    wherever the driver fails it.  The next opening, if the driver does not
    fail, succeeds; and whenever it succeeds, foreign keys are enforced, every
    table is there, each key names its account, the constraints hold, and the
    data are those of the first file, with the legacy account added if it was
    missing. *)
Theorem opening_recovers `{SqlDriver} l t faults d :
  disk_ok d ->
  let '(r, c) := open_disk t faults (attempts l d) in
  ((forall i, faults i = None) -> r = Ok tt) /\
  (r = Ok tt -> fk c = true /\ current (disk c) /\ db_ok (database_of (disk c)) /\
     exists t', database_of (disk c) = seeded t' (database_of d)).
Proof. apply open_after_attempts. Qed.

Lemma old_disk_ok : disk_ok old_disk.
Proof.
  split.
  - intros t [= <-] id k Hk. cbn in Hk. by pick Hk.
  - intros t. change (seeded t (database_of old_disk)) with
      (mkDatabase {[legacyAccountID := legacy_row t]} ∅ ∅
         (key_of_raw <$> {["k1" := mkRawKey "core" "ci" 1 100 None 7 None]}) ∅ [] 0).
    split; cbn; try done.
    + intros id r Hr. pick Hr. reflexivity.
    + intros i j r s Hr Hs. pick Hr. by pick Hs.
    + by exists t.
    + intros id r (k & <- & Hk)%lookup_fmap_Some. pick Hk. split; [by eexists|]. by split; [right|].
    + split; constructor.
Qed.

(** One statement fails; at 26 the rebuild is under way. *)
Definition fault_at (n : nat) : nat -> option string :=
  fun i => if (i =? n)%nat then Some "disk I/O error" else None.

Lemma opening_recovers_witness :
  let d1 := @attempts sqlite_driver [(200%Z, fault_at 26)] old_disk in
  kt_column <$> t_keys d1 = Some Nullable /\
  let '(r, c) := @open_disk sqlite_driver 300 no_fault d1 in
  r = Ok tt /\ current (disk c) /\ exists t', database_of (disk c) = seeded t' (database_of old_disk).
Proof.
  cbv zeta. split; [by vm_compute|].
  pose proof (@opening_recovers sqlite_driver [(200%Z, fault_at 26)] 300 no_fault old_disk old_disk_ok) as Hr.
  destruct (@open_disk sqlite_driver 300 no_fault _) as [r c]. destruct Hr as [Hok Hr].
  specialize (Hok (fun _ => eq_refl)). destruct (Hr Hok) as (_ & Hcur & _ & Hdb). done.
Defined.

(** ** A violation is refused once *)
(** A key of a nullable table names an account that is not there. *)
Definition dangling_disk : Disk :=
  mkDisk None None None None
    (Some (mkKeyTable Nullable {["k1" := mkRawKey "core" "ci" 1 100 None 7 (Some "gone")]})) None None.

(** The first opening commits the rebuild and then reports the violation; the
    second finds the column NOT NULL, does not look, and succeeds. *)
Theorem violation_refused_once :
  let r1 := @open_disk sqlite_driver 200 no_fault dangling_disk in
  let r2 := @open_disk sqlite_driver 300 no_fault (disk r1.2) in
  foreign_key_violations dangling_disk = true /\
  (exists e, r1.1 = Err e) /\ fk r1.2 = true /\
  r2.1 = Ok tt /\ fk r2.2 = true /\ foreign_key_violations (disk r2.2) = true.
Proof. vm_compute. split_and!; try done. by eexists. Qed.
