(* ===== verification/ComponentCache.v ===== *)
(** * CachedComponentStore: cached_components.go

    The operations on the cache state under its mutex are pure functions of
    [Cache]; the store methods compose them.  This file runs them one request
    at a time, [CacheProtocol] interleaves them. *)
From Stdlib Require Import ZArith Lia.
From stdpp Require Import base gmap strings list relations.
From S2P Require Import Prelude GoStrings Errors Metrics State Tables Effects AccountStore.
From S2P Require Import ComponentStore StoreInvariant StoreMethods.
Open Scope packyard_scope.
Open Scope eff_scope.

(** ** Critical sections *)
(** [c.gen[name]]; a missing key reads as zero. *)
Definition generation (name : string) (c : Cache) : Z := default 0%Z (cache_gen c !! name).

Arguments generation : simpl never.

(** The generation is a uint64. *)
Definition uint64_succ (n : Z) : Z := ((n + 1) mod 2 ^ 64)%Z.

Definition cache_insert (ttl t : Z) (name : string) (comp : Component) (gen : Z) (c : Cache) : Cache :=
  if (generation name c =? gen)%Z
  then mkCache (<[name := mkCached comp (t + ttl)%Z]> (cache_entries c)) (cache_gen c)
  else c.

Definition cache_evict (name : string) (c : Cache) : Cache :=
  mkCache (delete name (cache_entries c))
    (<[name := uint64_succ (generation name c)]> (cache_gen c)).

(** The second critical section of [lookup]: an expired entry is removed only
    if it is still the one that was found expired. *)
Definition still_expired (name : string) (expiresAt : Z) (c : Cache) : bool :=
  match cache_entries c !! name with
  | Some cur => (cc_expiresAt cur =? expiresAt)%Z
  | None => false
  end.

Definition cache_drop_expired (name : string) (expiresAt : Z) (c : Cache) : Cache :=
  if still_expired name expiresAt c
  then mkCache (delete name (cache_entries c)) (cache_gen c) else c.

Definition get_cache {A} (f : Cache -> A) : Eff A := fun w => (f (w_cache w), w).
(** A critical section that writes; on the condition [sets] it ends with
    [ComponentCacheEntries.Set(float64(len(c.entries)))]. *)
Definition modify_cache (sets : Cache -> bool) (f : Cache -> Cache) : Eff unit := fun w =>
  let c := f (w_cache w) in
  let m := if sets (w_cache w) then set_entries (Z.of_nat (size (cache_entries c))) (w_metrics w)
           else w_metrics w in
  (tt, with_cache c (with_metrics m w)).

Section Cached.
Context `{SqlDriver} (ttl : Z).

Definition enabled : bool := (0 <? ttl)%Z.

Definition Len : Eff Z := get_cache (fun c => Z.of_nat (size (cache_entries c))).

Definition lookup_entry (name : string) : Eff (option Component) :=
  e <- get_cache (fun c => cache_entries c !! name) ;;
  match e with
  | None => ret None
  | Some e =>
      t <- now ;;
      if (t <? cc_expiresAt e)%Z then ret (Some (cc_comp e))
      else modify_cache (still_expired name (cc_expiresAt e))
             (cache_drop_expired name (cc_expiresAt e)) ;;; ret None
  end.

Definition insert_entry (name : string) (comp : Component) (gen : Z) : Eff unit :=
  t <- now ;;
  modify_cache (fun c => generation name c =? gen)%Z (cache_insert ttl t name comp gen).

Definition CachedGetComponent (name : string) : Eff (res Component) :=
  meter count_lookup ;;;
  if negb enabled then GetComponent name
  else
    hit <- lookup_entry name ;;
    match hit with
    | Some comp => meter count_hit ;;; ret (Ok comp)
    | None =>
        gen <- get_cache (generation name) ;;
        comp <-? GetComponent name ;;
        if Visibility comp =s "public"
        then insert_entry name comp gen ;;; ret (Ok comp)
        else ret (Ok comp)
    end.

(** Writes pass through and evict on success. *)
Definition evicting {A} (name : string) (m : Eff (res A)) : Eff (res A) :=
  r <- m ;;
  (if is_ok r && enabled then modify_cache (fun _ => true) (cache_evict name) else ret tt) ;;;
  ret r.

Definition CachedUpdateComponent (name : string) (patch : ComponentPatch) : Eff (res Component) :=
  evicting name (UpdateComponent name patch).
Definition CachedDeleteComponent (name : string) : Eff (res unit) :=
  evicting name (DeleteComponent name).
Definition CachedDeleteComponentWithRevoke (name : string) : Eff (res Z) :=
  evicting name (DeleteComponentWithRevoke name).

(** ** The sequential contract *)
Section CachedMoves.
Context {R : relation Database} `{!PreOrder R}.

Lemma moves_get_cache {A} (f : Cache -> A) : moves R (get_cache f).
Proof. intros w. simpl. reflexivity. Qed.

Lemma moves_modify_cache sets f : moves R (modify_cache sets f).
Proof. intros w. simpl. reflexivity. Qed.

Lemma moves_evicting {A} n (m : Eff (res A)) : moves R m -> moves R (evicting n m).
Proof.
  intros Hm. unfold evicting. solve_moves; apply moves_modify_cache.
Qed.

Lemma CachedGetComponent_moves n : moves R (CachedGetComponent n).
Proof.
  unfold CachedGetComponent, lookup_entry, insert_entry.
  solve_moves; first [apply moves_get_cache|apply moves_modify_cache].
Qed.
End CachedMoves.
End Cached.
#[export] Hint Resolve moves_get_cache moves_modify_cache moves_evicting
  CachedGetComponent_moves : packyard.

(** The cache agrees with the table: every entry is the current, public
    record of its component.  Expiry only removes entries. *)
Definition coherent (w : World) : Prop :=
  forall n e, cache_entries (w_cache w) !! n = Some e ->
    exists r, components (w_db w) !! n = Some r /\ scanComponent n r = cc_comp e /\
      c_visibility r = "public".

Section Coherence.
Context `{SqlDriver} (ttl : Z).

(** The outcome of the store's own lookup. *)
Lemma GetComponent_run n w :
  GetComponent n w =
    (match w_fault w 0 with
     | Some m => Err (Wrap "get component" (ErrText m))
     | None => match components (w_db w) !! n with
               | Some r => Ok (scanComponent n r)
               | None => Err (Wrap "get component" (Sentinel ErrComponentNotFound))
               end
     end, tick_fault w).
Proof.
  unfold GetComponent, no_rows, fail, query_row, query, sql, bindR, bind, ret.
  destruct (w_fault w 0); simpl; [done|]. destruct w; simpl.
  by destruct (components _ !! n).
Qed.

Lemma drop_expired_subset name x c n e :
  cache_entries (cache_drop_expired name x c) !! n = Some e -> cache_entries c !! n = Some e.
Proof.
  unfold cache_drop_expired. repeat case_match; simpl; try done.
  rewrite lookup_delete. by case_decide.
Qed.

Lemma lookup_entry_run n w :
  lookup_entry n w =
    match cache_entries (w_cache w) !! n with
    | None => (None, w)
    | Some e =>
        if (w_clock w 0 <? cc_expiresAt e)%Z then (Some (cc_comp e), tick_clock w)
        else (None, (modify_cache (still_expired n (cc_expiresAt e))
                      (cache_drop_expired n (cc_expiresAt e)) (tick_clock w)).2)
    end.
Proof.
  unfold lookup_entry, bind, get_cache, modify_cache, now, ret.
  destruct (cache_entries (w_cache w) !! n); [|done]. by destruct (_ <? _)%Z.
Qed.

(** What a lookup may answer in world [w]: the current record, or an error
    that is "not found" only when the component does not exist. *)
Definition current_answer (n : string) (w : World) (r : res Component) : Prop :=
  match r with
  | Ok c => exists row, components (w_db w) !! n = Some row /\ c = scanComponent n row
  | Err e => errors_is e ErrComponentNotFound = true -> components (w_db w) !! n = None
  end.

(** The miss path. *)
Definition fill (n : string) : Eff (res Component) :=
  gen <- get_cache (generation n) ;;
  comp <-? GetComponent n ;;
  if Visibility comp =s "public"
  then insert_entry ttl n comp gen ;;; ret (Ok comp)
  else ret (Ok comp).

Lemma GetComponent_answer n w :
  current_answer n w (GetComponent n w).1.
Proof.
  rewrite GetComponent_run. unfold current_answer. simpl.
  destruct (w_fault w 0); [done|].
  destruct (components (w_db w) !! n) as [r|] eqn:Er; [eauto|done].
Qed.

Lemma fill_coherent n w :
  coherent w ->
  coherent (fill n w).2 /\ w_db (fill n w).2 = w_db w /\ current_answer n w (fill n w).1.
Proof.
  intros Hc. pose proof (GetComponent_answer n w) as Ha.
  unfold fill. rewrite bind_run, bindR_run. unfold get_cache. cbn [fst snd].
  rewrite GetComponent_run in *. cbn [fst snd] in *.
  destruct (w_fault w 0); [done|].
  destruct (components (w_db w) !! n) as [r|] eqn:Er; [|done]. simpl.
  destruct (c_visibility r =s "public") eqn:Ev; [|done].
  split; [|done]. string_reflect. intros m e. simpl. unfold cache_insert.
  case_match; simpl; [|apply Hc]. rewrite lookup_insert. case_decide; [|apply Hc].
  intros [= <-]. subst. eauto.
Qed.

Lemma CachedGetComponent_coherent n w :
  coherent w ->
  coherent (CachedGetComponent ttl n w).2 /\
  w_db (CachedGetComponent ttl n w).2 = w_db w /\
  current_answer n w (CachedGetComponent ttl n w).1.
Proof.
  intros Hc. unfold CachedGetComponent. rewrite bind_run. cbn [meter fst snd].
  change (w_db w) with (w_db (with_metrics (count_lookup (w_metrics w)) w)).
  change (coherent (with_metrics (count_lookup (w_metrics w)) w)) in Hc.
  change (current_answer n w) with (current_answer n (with_metrics (count_lookup (w_metrics w)) w)).
  generalize dependent (with_metrics (count_lookup (w_metrics w)) w). clear w. intros w Hc.
  destruct (enabled ttl); cbn [negb]; cycle 1.
  { pose proof (GetComponent_answer n w) as Ha. rewrite GetComponent_run in *. done. }
  rewrite bind_run, lookup_entry_run.
  destruct (cache_entries (w_cache w) !! n) as [e|] eqn:Ee; cycle 1.
  { by apply fill_coherent. }
  destruct (_ <? _)%Z; cbn [fst snd].
  - split; [done|]. split; [done|]. destruct (Hc _ _ Ee) as (r & ? & ? & ?).
    simpl. eauto.
  - change (gen <- get_cache (generation n) ;; _) with (fill n).
    match goal with |- coherent (fill _ ?w').2 /\ _ => apply (fill_coherent n w') end.
    intros m x Hx. apply drop_expired_subset in Hx. by apply Hc.
Qed.

(** A write that leaves every other component alone keeps the cache coherent
    because it evicts the one it may have changed. *)
Lemma evicting_coherent {A} n (m : Eff (res A)) w :
  enabled ttl = true -> coherent w -> w_cache (m w).2 = w_cache w ->
  (forall k, k <> n -> components (w_db (m w).2) !! k = components (w_db w) !! k) ->
  (is_ok (m w).1 = false -> components (w_db (m w).2) = components (w_db w)) ->
  coherent (evicting ttl n m w).2.
Proof.
  intros He Hc Hcache Hother Herr. unfold evicting, bind, ret, modify_cache.
  destruct (m w) as [r w'] eqn:E. simpl in *. rewrite He, andb_true_r.
  destruct (is_ok r); simpl.
  - intros k e. simpl. rewrite Hcache, lookup_delete. case_decide; [done|].
    intros Hk. rewrite Hother by done. by apply Hc.
  - intros k e. rewrite Hcache, Herr by done. apply Hc.
Qed.
End Coherence.

(** ** Methods that leave the cache alone *)
Section NoCache.
Context `{SqlDriver}.

Definition no_cache {A} (m : Eff A) : Prop := forall w, w_cache (m w).2 = w_cache w.

Lemma no_cache_bind {A B} (m : Eff A) (k : A -> Eff B) :
  no_cache m -> (forall a, no_cache (k a)) -> no_cache (bind m k).
Proof. intros Hm Hk w. rewrite bind_run. by rewrite Hk, Hm. Qed.

Lemma no_cache_bindR {A B} (m : Eff (res A)) (k : A -> Eff (res B)) :
  no_cache m -> (forall a, no_cache (k a)) -> no_cache (bindR m k).
Proof. intros Hm Hk. apply no_cache_bind; [done|]. by intros [a|e]. Qed.

Lemma no_cache_sql {A} (f : Database -> stmt A) : no_cache (sql f).
Proof. intros w. rewrite sql_run. destruct (w_fault w 0); [done|]. by destruct (f (w_db w)). Qed.

Lemma no_cache_with_tx {A} bp cp commits (body : Eff (res A)) :
  no_cache body -> no_cache (with_tx bp cp commits body).
Proof.
  intros Hb w. unfold with_tx. destruct (w_fault w 0); [done|].
  specialize (Hb (tick_fault w)). destruct (body (tick_fault w)) as [[a|e] w2]; [|done].
  destruct (commits a); [|done]. by destruct (w_fault w2 0).
Qed.
End NoCache.

Ltac solve_no_cache :=
  repeat match goal with
  | |- no_cache (bind _ _) => apply no_cache_bind; [|intros ?]
  | |- no_cache (bindR _ _) => apply no_cache_bindR; [|intros ?]
  | |- no_cache (with_tx _ _ _ _) => apply no_cache_with_tx
  | |- no_cache (sql _) => apply no_cache_sql
  | |- no_cache (match ?x with _ => _ end) => destruct x
  | |- no_cache _ => by intros ?
  | |- no_cache _ => progress unfold query_row, query, wrapE, no_rows
  end.
