(* ===== verification/CacheLaw.v ===== *)
(** * The component cache among the requests of the service

    CacheProtocol.v interleaves the operations of the cache with each other.
    Here the cache is the one in the world of the service, and the law says
    what any step of any request may do to it: an entry that a step inserts is
    a row which that request read, of the generation it had captured before.
    And what a shared look-up delivers as public was read in its course.  It
    follows that every entry was the row of its component at some moment since
    which nothing of that name was evicted, and that who joins a look-up gets a
    row from after it arrived, or from a look-up under way then. *)
From Stdlib Require Import ZArith Lia.
From stdpp Require Import base gmap strings list relations.
From S2P Require Import Prelude GoStrings Errors State Tables Effects ComponentStore ComponentCache Steps Schedules.
Open Scope packyard_scope.

(** [c] is the public record that the table has for [n] at [s]. *)
Definition public_record (n : string) (c : Component) (s : moment) : Prop :=
  exists row, components (w_db s.1) !! n = Some row /\ c = scanComponent n row /\ c_visibility row = "public".

Definition gen_at (n : string) (s : moment) : Z := generation n (w_cache s.1).

Inductive cache_allowed (s : moment) (w : World) : Prop :=
| allow_same : w_cache w = w_cache s.1 -> cache_allowed s w
| allow_fewer :
    cache_gen (w_cache w) = cache_gen (w_cache s.1) ->
    cache_entries (w_cache w) ⊆ cache_entries (w_cache s.1) -> cache_allowed s w
| allow_evict n : w_cache w = cache_evict n (w_cache s.1) -> cache_allowed s w
| allow_insert n c x s1 s2 :
    earlier s1 s2 -> earlier s2 s -> gen_at n s1 = gen_at n s -> public_record n c s2 ->
    w_cache w = mkCache (<[n := mkCached c x]> (cache_entries (w_cache s.1))) (cache_gen (w_cache s.1)) ->
    cache_allowed s w.

(** The call has begun. *)
Definition begun_call (id : nat) (s : moment) : Prop := id < length (calls (group s)).

(** A public component that lands was the record since the call began. *)
Definition cache_lands (s : moment) (n : string) (id : nat) (r : res Component) : Prop :=
  forall c, r = Ok c -> Visibility c = "public" ->
  exists s1, begun_call id s1 /\ earlier s1 s /\ public_record n c s1.

#[export] Instance cache_law : StepLaw := {|
  permitted := cache_allowed;
  permitted_plain := fun s w Hw => allow_same s w Hw;
  lands := cache_lands |}.

Lemma lawful_cache s x : lawful_step s x -> cache_allowed s x.1.
Proof. by destruct 1; [|apply allow_same..]. Qed.

(** ** What the law brings *)
(** From [s1] to [s2] no entry of [n] is evicted. *)
Definition unevicted (n : string) (s1 s2 : moment) : Prop :=
  earlier s1 s2 /\ forall s, earlier s1 s -> earlier s s2 -> gen_at n s = gen_at n s2.

Lemma unevicted_refl n s : unevicted n s s.
Proof. split; [reflexivity|]. intros s1 H1 H2. by rewrite (earlier_antisym s1 s H2 H1). Qed.

Lemma evict_generation n c : generation n (cache_evict n c) <> generation n c.
Proof.
  unfold cache_evict, uint64_succ. unfold generation at 1. cbn. rewrite lookup_insert_eq. cbn.
  intros Hg. pose proof (Z.mod_pos_bound (generation n c + 1) (2 ^ 64)) as Hb.
  destruct (decide (generation n c + 1 = 2 ^ 64)%Z) as [E|E]; [rewrite E, Z.mod_same in Hg; lia|].
  rewrite Z.mod_small in Hg; lia.
Qed.

(** What an eviction precedes, it was read after. *)
Lemma unevicted_since n s1 s2 s w :
  unevicted n s1 s2 -> earlier (after w s) s2 -> w_cache w = cache_evict n (w_cache s.1) ->
  earlier (after w s) s1.
Proof.
  intros [H12 Hun] Hs Hw.
  destruct (suffix_weak_total _ _ _ Hs H12) as [?|H1]; [done|].
  apply earlier_next_inv in H1 as [->|H1]; [reflexivity|]. exfalso.
  assert (gen_at n (after w s) = gen_at n s) as Hg.
  { rewrite (Hun (after w s)), (Hun s); [done|done| |etrans; [exact H1|apply earlier_after]|done].
    etrans; [apply earlier_after|exact Hs]. }
  change (generation n (w_cache w) = generation n (w_cache s.1)) in Hg. rewrite Hw in Hg. by apply evict_generation in Hg.
Qed.

(** [c] was the public record of [n], and has not been evicted since. *)
Definition once_public (n : string) (c : Component) (s : moment) : Prop :=
  exists s1, public_record n c s1 /\ unevicted n s1 s.

(** The service starts with an empty cache and no calls. *)
Definition fresh (x : Shared) : Prop := w_cache x.1 = mkCache ∅ ∅ /\ x.2 = no_calls.

Definition fresh_start (s : moment) : Prop :=
  exists x0, last (here s :: past s) = Some x0 /\ fresh x0.

Record cache_inv (s : moment) : Prop := {
  ci_bound n : (0 <= gen_at n s <= Z.of_nat (length (past s)))%Z;
  ci_mono n s1 s2 : earlier s1 s2 -> earlier s2 s -> (gen_at n s1 <= gen_at n s2)%Z;
  ci_entry n e : cache_entries (w_cache s.1) !! n = Some e -> once_public n (cc_comp e) s }.

(** Generations only grow, by one at most. *)
Lemma gen_allowed n s w :
  cache_allowed s w -> (0 <= gen_at n s < 2 ^ 64 - 1)%Z ->
  (gen_at n s <= gen_at n (after w s) <= gen_at n s + 1)%Z.
Proof.
  intros Ha Hb. change (gen_at n (after w s)) with (generation n (w_cache w)). unfold gen_at in *.
  destruct Ha as [->|Hg _|m ->|m c x s1 s2 _ _ _ _ ->]; unfold generation in *; cbn; rewrite ?Hg; try lia.
  rewrite lookup_insert. case_decide as Hm; [|lia]. subst m. cbn. unfold uint64_succ, generation.
  rewrite Z.mod_small; lia.
Qed.

(** An entry that is still there was not evicted. *)
Lemma kept_entry n e s w :
  cache_allowed s w -> cache_entries (w_cache w) !! n = Some e ->
  gen_at n (after w s) = gen_at n s /\
  (cache_entries (w_cache s.1) !! n = Some e \/
   exists s1 s2, earlier s1 s2 /\ earlier s2 s /\ gen_at n s1 = gen_at n s /\ public_record n (cc_comp e) s2).
Proof.
  intros Ha He. change (gen_at n (after w s)) with (generation n (w_cache w)). unfold gen_at.
  destruct Ha as [Hw|Hg Hsub|m Hw|m c x s1 s2 H12 H2 Hgen Hrec Hw]; try rewrite Hw in *.
  - auto.
  - split; [unfold generation; by rewrite Hg|]. left. by eapply lookup_weaken.
  - cbn in He. rewrite lookup_delete in He. case_decide as Hm; [done|]. split; [|by left].
    unfold generation. cbn. by rewrite lookup_insert_ne.
  - split; [done|]. cbn in He. rewrite lookup_insert in He. case_decide as Hm; [|by left].
    subst m. injection He as <-. right. by exists s1, s2.
Qed.

Lemma inv_next s x :
  cache_inv s -> cache_allowed s x.1 -> (Z.of_nat (length (past s)) < 2 ^ 64 - 1)%Z -> cache_inv (next x s).
Proof.
  intros [Hb Hm He] Ha Hlen.
  assert (forall n, (gen_at n s <= gen_at n (next x s) <= gen_at n s + 1)%Z) as Hg.
  { intros n. apply (gen_allowed n s x.1); [done|]. specialize (Hb n). lia. }
  assert (forall n s1 s2, earlier s1 s2 -> earlier s2 (next x s) -> (gen_at n s1 <= gen_at n s2)%Z) as Hmono.
  { intros n s1 s2 H12 H2. apply earlier_next_inv in H2 as [->|H2]; [|by apply Hm].
    apply earlier_next_inv in H12 as [->|H1]; [done|]. specialize (Hg n).
    specialize (Hm n s1 s H1 (reflexivity _)). lia. }
  split; [|exact Hmono|].
  - intros n. specialize (Hb n). specialize (Hg n). change (past (next x s)) with (here s :: past s).
    cbn [length]. lia.
  - intros n e Hn. destruct (kept_entry n e s x.1 Ha Hn) as [Hgen Hold].
    assert (exists s1, earlier s1 s /\ public_record n (cc_comp e) s1 /\
      forall s', earlier s1 s' -> earlier s' s -> gen_at n s' = gen_at n s) as (s1 & H1 & Hrec & Hun).
    { destruct Hold as [Hold|(s1 & s2 & H12 & H2 & Heq & Hrec)].
      - destruct (He n e Hold) as (s1 & Hrec & H1 & Hun). by exists s1.
      - exists s2. split; [done|]. split; [done|]. intros s' Hs2 Hs'.
        pose proof (Hm n s1 s' (transitivity H12 Hs2) Hs'). pose proof (Hm n s' s Hs' (reflexivity _)). lia. }
    exists s1. split; [done|]. split; [etrans; [done|apply earlier_next]|].
    intros s' Hs1 Hs'. apply earlier_next_inv in Hs' as [->|Hs']; [done|].
    transitivity (gen_at n s); [by apply Hun|done].
Qed.

Lemma fresh_before s x : fresh_start (next x s) -> fresh_start s.
Proof. done. Qed.

Lemma fresh_first x : fresh_start (at_moment x []) -> fresh x.
Proof. intros (x0 & Hl & Hx0). destruct x. by injection Hl as <-. Qed.

(** Nothing wraps as long as the run has less than 2^64 steps. *)
Lemma cache_inv_run s :
  abides s -> fresh_start s -> (Z.of_nat (length (past s)) < 2 ^ 64)%Z -> cache_inv s.
Proof.
  revert s. apply (moment_ind (fun s => abides s -> fresh_start s -> _ -> cache_inv s)).
  - intros x _ [Hx _]%fresh_first _. split; unfold gen_at, generation; cbn [at_moment fst].
    + intros n. by rewrite Hx.
    + intros n s1 s2 H1 H2. apply earlier_start in H2 as ->. by apply earlier_start in H1 as ->.
    + intros n e. by rewrite Hx.
  - intros x s IH [Ha Hx]%abides_before Hf Hlen. change (past (next x s)) with (here s :: past s) in Hlen.
    cbn [length] in Hlen. apply inv_next; [apply IH; [done|done|lia]|by apply lawful_cache|lia].
Qed.

(** An earlier moment of such a run is one. *)
Lemma run_earlier s s' :
  earlier s s' -> abides s' -> fresh_start s' -> (Z.of_nat (length (past s')) < 2 ^ 64)%Z ->
  abides s /\ fresh_start s /\ (Z.of_nat (length (past s)) < 2 ^ 64)%Z.
Proof.
  intros He Ha (x0 & Hl & Hx0) Hlen. split; [intros s1 x H1; apply Ha; by etrans|]. split.
  - exists x0. split; [|done]. unfold earlier in He. destruct He as [k Hk]. rewrite Hk, last_app in Hl.
    by destruct (last (here s :: past s)) eqn:E; [|apply last_None in E].
  - apply suffix_length in He. cbn in He. lia.
Qed.

(** ** What the group delivers *)
Lemma calls_keep s s' id n o :
  abides s' -> earlier s s' -> calls (group s) !! id = Some (n, o) ->
  exists o', calls (group s') !! id = Some (n, o') /\ (forall r, o = Some r -> o' = Some r).
Proof.
  intros Ha Hs Hid. revert s' Ha Hs.
  apply (moment_ind (fun s' => abides s' -> earlier s s' -> exists o', calls (group s') !! id = Some (n, o') /\ _)).
  - intros x _ ->%earlier_start. by exists o.
  - intros x s' IH [Ha Hx]%abides_before [->|Hs]%earlier_next_inv; [by exists o|].
    destruct (IH Ha Hs) as (o1 & H1 & Hr1). destruct (group_step_keeps _ _ id n o1 (lawful_group s' x Hx) H1) as (o2 & H2 & Hr2).
    exists o2. split; [exact H2|auto].
Qed.

Lemma group_ok_run s : abides s -> fresh_start s -> group_ok (group s).
Proof.
  revert s. apply (moment_ind (fun s => abides s -> fresh_start s -> group_ok (group s))).
  - intros x _ [_ Hx]%fresh_first n id. destruct x as [w g]. cbn in *. by subst g.
  - intros x s IH [Ha Hx]%abides_before Hf. eapply group_step_ok; [exact (lawful_group s x Hx)|by apply IH].
Qed.

(** A call that has a result landed. *)
Lemma landed_between n id r s s' :
  abides s' -> earlier s s' -> calls (group s) !! id = Some (n, None) ->
  call_result id (group s') = Some r ->
  exists sl, earlier s sl /\ earlier sl s' /\ cache_lands sl n id r.
Proof.
  intros Ha Hs Hid. revert s' Ha Hs.
  apply (moment_ind (fun s' => abides s' -> earlier s s' -> call_result id (group s') = Some r -> exists sl, _)).
  - intros x _ ->%earlier_start. unfold call_result. by rewrite Hid.
  - intros x s' IH [Ha Hx]%abides_before [->|Hs]%earlier_next_inv; [unfold call_result; by rewrite Hid|].
    destruct (calls_keep s s' id n None Ha Hs Hid) as (o & Ho & _).
    assert (forall sl, earlier sl s' -> earlier sl (next x s')) as Hnext
      by (intros; etrans; [done|apply earlier_next]).
    destruct o as [r1|].
    { destruct (group_step_keeps _ _ id n (Some r1) (lawful_group s' x Hx) Ho) as (o2 & H2 & Hr2). rewrite (Hr2 r1 eq_refl) in H2.
      unfold call_result. change (group (next x s')) with x.2. rewrite H2. intros [= <-].
      destruct IH as (sl & ? & ? & ?); [done|done|unfold call_result; by rewrite Ho|]. exists sl. auto. }
    intros Hr. exists s'. split; [done|]. split; [apply earlier_next|]. revert Hr. unfold call_result.
    change (group (next x s')) with x.2. destruct Hx as [w _|m _|m i r' Hl]; cbn [snd].
    + by rewrite Ho.
    + cbn. by rewrite (lookup_app_l_Some _ _ _ _ Ho).
    + unfold land_call. destruct (calls (group s') !! i) as [[m' [?|]]|] eqn:Hi; [by rewrite Ho| |by rewrite Ho].
      destruct (m' =s m) eqn:Hm; [|by rewrite Ho]. apply String.eqb_eq in Hm as ->. cbn.
      destruct (decide (i = id)) as [->|Hne]; [|by rewrite list_lookup_insert_ne, Ho].
      rewrite list_lookup_insert_eq by by eapply lookup_lt_Some. cbn. intros [= <-]. by simplify_eq.
Qed.

(** [n]'s call [id] was under way at [s0] already, and [s1] is in its course. *)
Definition joined_late (n : string) (id : nat) (s0 s1 : moment) : Prop :=
  leading (group s0) !! n = Some id /\ begun_call id s1.

(** Who joins a call after [s0] and is answered a public component has a
    record from after [s0], unless the call was under way at [s0]. *)
Lemma joined_public n id c s0 sj s2 :
  abides s2 -> fresh_start s2 -> earlier s0 sj -> earlier sj s2 ->
  leading (group sj) !! n = Some id -> call_result id (group s2) = Some (Ok c) -> Visibility c = "public" ->
  exists s1, public_record n c s1 /\ earlier s1 s2 /\ (earlier s0 s1 \/ joined_late n id s0 s1).
Proof.
  intros Ha Hf H0j Hj2 Hlead Hres Hv.
  assert (forall s, earlier s s2 -> group_ok (group s)) as Hinv.
  { intros s Hs. apply group_ok_run; [intros s1 x H1; apply Ha; by etrans|].
    destruct Hf as (x0 & Hl & Hx0). exists x0. split; [|done]. destruct Hs as [k Hk]. rewrite Hk, last_app in Hl.
    by destruct (last (here s :: past s)) eqn:E; [|apply last_None in E]. }
  apply (Hinv sj Hj2) in Hlead as Hent.
  destruct (landed_between n id (Ok c) sj s2 Ha Hj2 Hent Hres) as (sl & _ & Hsl & Hlands).
  destruct (Hlands c eq_refl Hv) as (s1 & Hbegun & H1 & Hrec). exists s1. split; [done|].
  assert (earlier s1 s2) as H12 by by etrans. split; [done|].
  assert (earlier s0 s2) as H02 by by etrans.
  destruct (suffix_weak_total _ _ _ H02 H12) as [?|H10]; [by left|right]. split; [|done].
  assert (abides s0) as Ha0 by (intros s' x ?; apply Ha; by etrans).
  assert (abides sj) as Haj by (intros s' x ?; apply Ha; by etrans).
  destruct (lookup_lt_is_Some_2 _ _ Hbegun) as [[n1 o1] Hid1].
  destruct (calls_keep s1 s0 id n1 o1 Ha0 H10 Hid1) as (o0 & Hid0 & _).
  destruct (calls_keep s0 sj id n1 o0 Haj H0j Hid0) as (oj & Hidj & Hkeep).
  rewrite Hent in Hidj. injection Hidj as <- <-. apply (Hinv s0 H02).
  destruct o0 as [r|]; [by specialize (Hkeep r eq_refl)|done].
Qed.
