(* ===== verification/CacheProtocol.v ===== *)
(** * The component cache under concurrency

    [ComponentCache] runs one request at a time.  Here requests, shared
    lookups and writers interleave: each critical section of
    cached_components.go, each call of the inner store and each transition of
    the singleflight group is one step.  The critical sections are the
    functions of [ComponentCache].

    A lookup that misses starts the flight of its name or joins the one in
    progress.  A flight captures the generation, reads the table, inserts, and
    is delivered to everybody who joined.  A writer first commits, then
    evicts; in between its eviction is pending.  Writes of other processes
    are not modelled. *)
From Stdlib Require Import ZArith Lia.
From stdpp Require Import base gmap strings list relations.
From S2P Require Import Prelude GoStrings Errors State Tables Effects AccountStore.
From S2P Require Import ComponentStore ComponentCache Fixtures.
Open Scope packyard_scope.

(** ** States *)
(** How far the function passed to [sf.Do] has come.  A read that fails, or
    finds nothing, yields [None]. *)
Inductive stage :=
| Joinable
| Captured (gen : Z)
| HaveRead (gen : Z) (r : option Component)
| Finished (r : option Component).

(** [fl_dirty] records that the table changed at the name since the flight
    began. *)
Record flight := mkFlight { fl_stage : stage; fl_dirty : bool }.

Record PState := mkPState {
  p_table : gmap string component_row;
  p_cache : Cache;
  p_flights : gmap string flight;
  p_pending : gmap string nat; (* committed writes that have not evicted yet *)
  p_now : Z;
  p_evictions : Z (* how many evictions have happened *) }.

Definition with_flights (f : gmap string flight) (s : PState) : PState :=
  mkPState (p_table s) (p_cache s) f (p_pending s) (p_now s) (p_evictions s).
Definition with_pcache (c : Cache) (s : PState) : PState :=
  mkPState (p_table s) c (p_flights s) (p_pending s) (p_now s) (p_evictions s).

Definition pending (n : string) (s : PState) : nat := default 0 (p_pending s !! n).

Definition dirty_at (n : string) (fs : gmap string flight) : gmap string flight :=
  alter (fun f => mkFlight (fl_stage f) true) n fs.

Inductive event :=
| Silent
| Hit (n : string) (c : Component)            (* a call is answered from the cache *)
| Join (n : string)                           (* a call that missed waits for the flight *)
| Deliver (n : string) (r : option Component) (* all who joined get the result *).

Section Protocol.
Context (ttl : Z).

Definition move (n : string) (st : stage) (f : flight) (s : PState) : PState :=
  with_flights (<[n := mkFlight st (fl_dirty f)]> (p_flights s)) s.

Inductive step (s : PState) : event -> PState -> Prop :=
(* lookup: a fresh entry *)
| step_hit n e :
    cache_entries (p_cache s) !! n = Some e -> (p_now s < cc_expiresAt e)%Z ->
    step s (Hit n (cc_comp e)) s
(* lookup: an entry was found expired; the second critical section *)
| step_drop n x :
    (x <= p_now s)%Z -> step s Silent (with_pcache (cache_drop_expired n x (p_cache s)) s)
(* sf.Do: start a flight, or join it *)
| step_lead n :
    p_flights s !! n = None ->
    step s (Join n) (with_flights (<[n := mkFlight Joinable false]> (p_flights s)) s)
| step_join n f : p_flights s !! n = Some f -> step s (Join n) s
(* the flight *)
| step_capture n f :
    p_flights s !! n = Some f -> fl_stage f = Joinable ->
    step s Silent (move n (Captured (generation n (p_cache s))) f s)
| step_read n f g :
    p_flights s !! n = Some f -> fl_stage f = Captured g ->
    step s Silent (move n (HaveRead g (scanComponent n <$> p_table s !! n)) f s)
| step_read_fails n f g :
    p_flights s !! n = Some f -> fl_stage f = Captured g ->
    step s Silent (move n (HaveRead g None) f s)
| step_insert n f g c :
    p_flights s !! n = Some f -> fl_stage f = HaveRead g (Some c) ->
    Visibility c = "public" ->
    step s Silent
      (move n (Finished (Some c)) f (with_pcache (cache_insert ttl (p_now s) n c g (p_cache s)) s))
| step_no_insert n f g r :
    p_flights s !! n = Some f -> fl_stage f = HaveRead g r ->
    (forall c, r = Some c -> Visibility c <> "public") ->
    step s Silent (move n (Finished r) f s)
| step_deliver n f r :
    p_flights s !! n = Some f -> fl_stage f = Finished r ->
    step s (Deliver n r) (with_flights (delete n (p_flights s)) s)
(* UpdateComponent, DeleteComponent, DeleteComponentWithRevoke: the inner
   call succeeds and changes the row of [n] *)
| step_commit n row :
    step s Silent
      (mkPState (partial_alter (fun _ => row) n (p_table s)) (p_cache s)
         (dirty_at n (p_flights s)) (<[n := S (pending n s)]> (p_pending s)) (p_now s)
         (p_evictions s))
(* ... and evicts *)
| step_evict n k :
    pending n s = S k ->
    step s Silent
      (mkPState (p_table s) (cache_evict n (p_cache s)) (p_flights s)
         (<[n := k]> (p_pending s)) (p_now s) (p_evictions s + 1)%Z)
(* CreateComponent does not evict *)
| step_create n row :
    p_table s !! n = None ->
    step s Silent
      (mkPState (<[n := row]> (p_table s)) (p_cache s) (dirty_at n (p_flights s))
         (p_pending s) (p_now s) (p_evictions s))
| step_time t :
    (p_now s <= t)%Z ->
    step s Silent (mkPState (p_table s) (p_cache s) (p_flights s) (p_pending s) t (p_evictions s)).

Definition initial (table : gmap string component_row) (t : Z) : PState :=
  mkPState table (mkCache ∅ ∅) ∅ ∅ t 0.

Inductive reachable : PState -> Prop :=
| reach_init table t : reachable (initial table t)
| reach_step s ev s' : reachable s -> step s ev s' -> reachable s'.

(** ** The invariant *)
(** [c] is the record the table has for [n]. *)
Definition current (s : PState) (n : string) (c : Component) : Prop :=
  exists row, p_table s !! n = Some row /\ c = scanComponent n row.

Definition stage_gen (st : stage) : option Z :=
  match st with Captured g | HaveRead g _ => Some g | _ => None end.
Definition stage_result (st : stage) : option Component :=
  match st with HaveRead _ r | Finished r => r | _ => None end.

Record inv (s : PState) : Prop := {
  inv_entry : forall n e, cache_entries (p_cache s) !! n = Some e -> pending n s = 0 ->
    current s n (cc_comp e) /\ Visibility (cc_comp e) = "public";
  inv_read : forall n f g c, p_flights s !! n = Some f -> fl_stage f = HaveRead g (Some c) ->
    g = generation n (p_cache s) -> pending n s = 0 -> current s n c;
  inv_gen : forall n, (0 <= generation n (p_cache s) <= p_evictions s)%Z;
  inv_flight_gen : forall n f g, p_flights s !! n = Some f -> stage_gen (fl_stage f) = Some g ->
    (g <= generation n (p_cache s))%Z;
  inv_clean : forall n f c, p_flights s !! n = Some f -> fl_dirty f = false ->
    stage_result (fl_stage f) = Some c -> current s n c }.

Lemma evictions_mono s ev s' : step s ev s' -> (p_evictions s <= p_evictions s')%Z.
Proof. destruct 1; simpl; lia. Qed.

Lemma inv_initial table t : inv (initial table t).
Proof. by split. Qed.

(** A flight at another name, or the one that moved. *)
Lemma lookup_move n st f s m f' :
  p_flights (move n st f s) !! m = Some f' ->
  (m = n /\ f' = mkFlight st (fl_dirty f)) \/ (m <> n /\ p_flights s !! m = Some f').
Proof. simpl. rewrite lookup_insert. case_decide; intros; simplify_eq; auto. Qed.

(** Moving a flight keeps the invariant if the new stage has a generation
    and a result that fit. *)
Lemma inv_move n st f s :
  inv s -> p_flights s !! n = Some f ->
  (forall g, stage_gen st = Some g -> (g <= generation n (p_cache s))%Z) ->
  (forall g c, st = HaveRead g (Some c) -> g = generation n (p_cache s) -> pending n s = 0 ->
     current s n c) ->
  (forall c, stage_result st = Some c -> fl_dirty f = false -> current s n c) ->
  inv (move n st f s).
Proof.
  intros [He Hr Hg Hfg Hc] Hf H1 H2 H3. split; [exact He| |exact Hg| |].
  - intros m f' g c Hm. apply lookup_move in Hm as [[-> ->]|[? Hm]]; [apply H2|by eapply Hr].
  - intros m f' g Hm. apply lookup_move in Hm as [[-> ->]|[? Hm]]; [apply H1|by eapply Hfg].
  - intros m f' c Hm. apply lookup_move in Hm as [[-> ->]|[? Hm]]; [|by eapply Hc].
    intros Hd Hs. by apply H3.
Qed.

(** Replacing the cache, when entries and generations fit. *)
Lemma inv_cache c s :
  inv s -> cache_gen c = cache_gen (p_cache s) ->
  (forall n e, cache_entries c !! n = Some e ->
     cache_entries (p_cache s) !! n = Some e \/
     (pending n s = 0 -> current s n (cc_comp e) /\ Visibility (cc_comp e) = "public")) ->
  inv (with_pcache c s).
Proof.
  intros [He Hr Hg Hfg Hc] Hgen Hent.
  assert (forall n, generation n c = generation n (p_cache s)) as Hgn
    by (intros n; unfold generation; by rewrite Hgen).
  apply Build_inv; cbn [p_cache p_flights with_pcache];
    [| |intros n; rewrite Hgn; apply Hg| |exact Hc].
  - intros n e Hn Hp. destruct (Hent _ _ Hn) as [Ho|Ho]; [by eapply He|by apply Ho].
  - intros n f g c' Hf Hs Hg' Hp. rewrite Hgn in Hg'. by eapply Hr.
  - intros n f g Hf Hs. rewrite Hgn. by eapply Hfg.
Qed.

Lemma inv_insert n c g s f :
  inv s -> p_flights s !! n = Some f -> fl_stage f = HaveRead g (Some c) ->
  Visibility c = "public" -> inv (with_pcache (cache_insert ttl (p_now s) n c g (p_cache s)) s).
Proof.
  intros Hi Hf Hs Hv. unfold cache_insert. destruct (_ =? _)%Z eqn:Eg.
  2:{ apply inv_cache; auto. }
  apply Z.eqb_eq in Eg. apply inv_cache; [done|done|]. intros m e. simpl.
  rewrite lookup_insert. case_decide as Hm; [|by left]. intros [= <-]. subst m. right.
  intros Hp. split; [|done]. simpl. by eapply inv_read.
Qed.

(** The row of [n] changes and every flight of [n] is marked. *)
Lemma inv_change n row s pend :
  inv s ->
  (forall m, m <> n -> default 0 (pend !! m) = pending m s) ->
  default 0 (pend !! n) <> 0 \/
    (default 0 (pend !! n) = pending n s /\ p_table s !! n = None) ->
  inv (mkPState (partial_alter (fun _ => row) n (p_table s)) (p_cache s)
         (dirty_at n (p_flights s)) pend (p_now s) (p_evictions s)).
Proof.
  intros [He Hr Hg Hfg Hc] Hpm Hpn.
  assert (forall m c, m <> n -> current s m c -> current
    (mkPState (partial_alter (fun _ => row) n (p_table s)) (p_cache s)
       (dirty_at n (p_flights s)) pend (p_now s) (p_evictions s)) m c) as Hcur.
  { intros m c Hm (x & Hx & ->). exists x. simpl. by rewrite lookup_partial_alter_ne by done. }
  assert (forall m f, dirty_at n (p_flights s) !! m = Some f ->
    exists f0, p_flights s !! m = Some f0 /\ fl_stage f = fl_stage f0 /\
      (fl_dirty f = false -> m <> n /\ fl_dirty f0 = false)) as Hfl.
  { intros m f. unfold dirty_at. destruct (decide (m = n)) as [->|Hm].
    - rewrite lookup_alter_eq. intros (f0 & -> & Hf)%fmap_Some. subst f. by exists f0.
    - rewrite lookup_alter_ne by done. eauto. }
  assert (forall c, default 0 (pend !! n) = 0 -> pending n s = 0 -> current s n c -> False) as Habs.
  { intros c Hp _ (x & Hx & _). destruct Hpn as [?|[_ Hn]]; [done|congruence]. }
  split; unfold pending; simpl; [| |exact Hg| |].
  - intros m e Hm Hp. destruct (decide (m = n)) as [->|Hne].
    + exfalso. destruct Hpn as [?|[Hpe Hn]]; [done|].
      destruct (He _ _ Hm) as [Hcc _]; [by rewrite <- Hpe|]. eapply Habs; eauto. by rewrite <- Hpe.
    + rewrite Hpm in Hp by done. destruct (He _ _ Hm Hp). auto.
  - intros m f g c Hm Hs Hgm Hp. destruct (Hfl _ _ Hm) as (f0 & Hf0 & Hst & _).
    rewrite Hst in Hs. destruct (decide (m = n)) as [->|Hne].
    + exfalso. destruct Hpn as [?|[Hpe Hn]]; [done|].
      eapply Habs; [done|by rewrite <- Hpe|]. eapply Hr; eauto. by rewrite <- Hpe.
    + rewrite Hpm in Hp by done. eapply Hcur, Hr; eauto.
  - intros m f g Hm Hs. destruct (Hfl _ _ Hm) as (f0 & Hf0 & Hst & _).
    rewrite Hst in Hs. by eapply Hfg.
  - intros m f c Hm Hd Hs. destruct (Hfl _ _ Hm) as (f0 & Hf0 & Hst & Hcl).
    destruct (Hcl Hd) as [Hne Hd0]. rewrite Hst in Hs. eapply Hcur, Hc; eauto.
Qed.

Lemma generation_evict m n c :
  generation m (cache_evict n c) =
    if decide (m = n) then uint64_succ (generation n c) else generation m c.
Proof.
  unfold generation, cache_evict. simpl. rewrite lookup_insert.
  by repeat case_decide; subst.
Qed.

Lemma inv_evict n k s :
  inv s -> (p_evictions s + 1 < 2 ^ 64)%Z -> pending n s = S k ->
  inv (mkPState (p_table s) (cache_evict n (p_cache s)) (p_flights s)
         (<[n := k]> (p_pending s)) (p_now s) (p_evictions s + 1)%Z).
Proof.
  intros [He Hr Hg Hfg Hc] Hb Hk.
  assert (uint64_succ (generation n (p_cache s)) = (generation n (p_cache s) + 1)%Z) as Hsucc.
  { unfold uint64_succ. apply Z.mod_small. specialize (Hg n). lia. }
  split; unfold pending; simpl; [| | | |exact Hc].
  - intros m e. rewrite lookup_delete. case_decide as Hm; [done|].
    rewrite lookup_insert_ne by done. apply He.
  - intros m f g c Hf Hs. rewrite generation_evict, lookup_insert. case_decide as Hm.
    + subst m. rewrite Hsucc. intros ->. exfalso.
      assert (stage_gen (fl_stage f) = Some (generation n (p_cache s) + 1)%Z) as Hsg
        by (by rewrite Hs).
      specialize (Hfg _ _ _ Hf Hsg). lia.
    + rewrite decide_False by congruence. by eapply Hr.
  - intros m. rewrite generation_evict. case_decide; [rewrite Hsucc|];
      [specialize (Hg n)|specialize (Hg m)]; lia.
  - intros m f g Hf Hs. specialize (Hfg _ _ _ Hf Hs). rewrite generation_evict.
    case_decide; [subst; rewrite Hsucc; lia|done].
Qed.

Lemma inv_step s ev s' :
  inv s -> step s ev s' -> (p_evictions s' < 2 ^ 64)%Z -> inv s'.
Proof.
  intros Hi Hs Hb. destruct Hs as [n e|n x|n|n f|n f Hf Hst|n f g Hf Hst|n f g Hf Hst
    |n f g c Hf Hst|n f g r Hf Hst Hv|n f r|n row|n k|n row|t]; simpl in *; auto.
  - apply inv_cache; [done|by unfold cache_drop_expired; repeat case_match|].
    intros m e Hm. left. by eapply drop_expired_subset.
  - change (inv (move n Joinable (mkFlight Joinable false) s)).
    destruct Hi as [He Hr Hg Hfg Hc]. split; [exact He| |exact Hg| |].
    + intros m f' g c Hm. apply lookup_move in Hm as [[-> ->]|[? Hm]]; [done|by eapply Hr].
    + intros m f' g Hm. apply lookup_move in Hm as [[-> ->]|[? Hm]]; [done|by eapply Hfg].
    + intros m f' c Hm. apply lookup_move in Hm as [[-> ->]|[? Hm]]; [done|by eapply Hc].
  - apply inv_move; simpl; try done. intros g [= <-]. done.
  - assert (forall c, scanComponent n <$> p_table s !! n = Some c -> current s n c) as Hcur.
    { intros c (row & Hrow & ->)%fmap_Some. by exists row. }
    apply inv_move; simpl; auto.
    + intros g' [= <-]. eapply inv_flight_gen; eauto. by rewrite Hst.
    + intros g' c [= <- Hc] _ _. auto.
  - apply inv_move; simpl; try done. intros g' [= <-]. eapply inv_flight_gen; eauto. by rewrite Hst.
  - apply inv_move; simpl; try done; [by eapply inv_insert|].
    intros c' [= <-] Hd. apply (inv_clean _ Hi n f c); auto. by rewrite Hst.
  - apply inv_move; simpl; try done. intros c ? Hd.
    apply (inv_clean _ Hi n f c); auto. by rewrite Hst.
  - destruct Hi as [He Hr Hg Hfg Hc]. apply Build_inv; simpl; [exact He| |exact Hg| |].
    + intros m f' g c Hm. apply lookup_delete_Some in Hm as [_ Hm]. by eapply Hr.
    + intros m f' g Hm. apply lookup_delete_Some in Hm as [_ Hm]. by eapply Hfg.
    + intros m f' c Hm. apply lookup_delete_Some in Hm as [_ Hm]. by eapply Hc.
  - apply inv_change; [done| |].
    + intros m Hm. by rewrite lookup_insert_ne.
    + left. by rewrite lookup_insert_eq.
  - by apply inv_evict.
  - apply (inv_change n (Some row)); auto.
  - destruct Hi. by split.
Qed.

Lemma inv_reachable s : reachable s -> (p_evictions s < 2 ^ 64)%Z -> inv s.
Proof.
  induction 1 as [|s ev s' Hr IH Hs]; intros Hb; [apply inv_initial|].
  eapply inv_step; [|done..]. apply IH. apply evictions_mono in Hs. lia.
Qed.

(** However requests, shared lookups and writers interleave, the cache
    serves no stale record: when no successful write to a component still
    has its eviction to run, an answer from the cache is the record the
    table has now, and it is public.  In particular a public-to-private
    change cannot be undone by a lookup that was in flight when it landed.
    The generation counter is a uint64: the bound says it did not wrap. *)
Theorem cache_hit_current s n c s' :
  reachable s -> (p_evictions s < 2 ^ 64)%Z -> step s (Hit n c) s' -> pending n s = 0 ->
  current s n c /\ Visibility c = "public".
Proof.
  intros Hr Hb Hs Hp. inversion Hs; subst. eapply inv_entry; eauto using inv_reachable.
Qed.

(** The result of a shared lookup is the table's record at delivery,
    unless a write to the component landed after the lookup began. *)
Theorem flight_result_current s n f c s' :
  reachable s -> (p_evictions s < 2 ^ 64)%Z -> p_flights s !! n = Some f ->
  fl_dirty f = false -> step s (Deliver n (Some c)) s' -> current s n c.
Proof.
  intros Hr Hb Hf Hd Hs. inversion Hs as [ | | | | | | | | |n' f' r Hf' Hst| | | |]; subst.
  simplify_eq. eapply inv_clean; eauto using inv_reachable. by rewrite Hst.
Qed.
End Protocol.

(** ** A caller that joins late *)
Definition public_row : component_row := mkComponentRow "public" None None None 0.
Definition private_row : component_row := mkComponentRow "private" None None None 0.

Section LateJoin.
Context (ttl : Z).

Definition core_comp : Component := scanComponent "core" public_row.

(** The table says private, the write has evicted, the flight that read
    "public" before the write is still on its way. *)
Definition late_state : PState :=
  mkPState {["core" := private_row]} (mkCache ∅ {["core" := 1%Z]})
    {["core" := mkFlight (HaveRead 0 (Some core_comp)) true]} {["core" := 0]} 0 1.

Lemma late_state_reachable : reachable ttl late_state.
Proof.
  pose (s0 := initial {["core" := public_row]} 0).
  assert (reachable ttl s0) as H0 by constructor.
  eapply reach_step in H0; [|by apply (step_lead _ s0 "core")].
  eapply reach_step in H0; [|by eapply (step_capture _ _ "core")].
  eapply reach_step in H0; [|by eapply (step_read _ _ "core")].
  eapply reach_step in H0; [|by apply (step_commit _ _ "core" (Some private_row))].
  eapply reach_step in H0; [|by apply (step_evict _ _ "core" 0)].
  exact H0.
Qed.

(** A call may be answered with a stale public record although the
    write that made the component private, and its eviction, were complete
    before the call began: it joins a flight that read the table earlier. *)
Theorem late_join_stale :
  exists s s1 s2 row, reachable ttl s /\ pending "core" s = 0 /\
    p_table s !! "core" = Some row /\ c_visibility row = "private" /\
    step ttl s (Join "core") s /\ step ttl s Silent s1 /\
    step ttl s1 (Deliver "core" (Some core_comp)) s2 /\ Visibility core_comp = "public".
Proof.
  eexists late_state, _, _, private_row. split; [apply late_state_reachable|].
  do 3 (split; [done|]). split; [by eapply step_join|].
  split; [by eapply (step_insert _ _ "core")|]. split; [|done].
  by eapply step_deliver.
Qed.
End LateJoin.

(** ** Concrete runs *)
Definition hit_state : PState :=
  mkPState {["core" := public_row]} (mkCache {["core" := mkCached core_comp 30]} ∅) ∅ ∅ 0 0.

Lemma reading_reachable :
  reachable 30 (move "core" (HaveRead 0 (Some core_comp)) (mkFlight (Captured 0) false)
    (initial {["core" := public_row]} 0)).
Proof.
  pose (s0 := initial {["core" := public_row]} 0).
  assert (reachable 30 s0) as H0 by constructor.
  eapply reach_step in H0; [|by apply (step_lead _ s0 "core")].
  eapply reach_step in H0; [|by eapply (step_capture _ _ "core")].
  eapply reach_step in H0; [|by eapply (step_read _ _ "core")].
  exact H0.
Qed.

Lemma finished_reachable :
  reachable 30 (move "core" (Finished (Some core_comp)) (mkFlight Joinable false)
    (with_pcache (mkCache {["core" := mkCached core_comp 30]} ∅)
      (initial {["core" := public_row]} 0))).
Proof.
  pose proof reading_reachable as H0.
  eapply reach_step in H0; [|by eapply (step_insert _ _ "core")]. exact H0.
Qed.

Lemma cache_hit_current_witness :
  current hit_state "core" core_comp /\ Visibility core_comp = "public".
Proof.
  apply (cache_hit_current 30 hit_state "core" core_comp hit_state); [|done| |done].
  - pose proof finished_reachable as H0.
    eapply reach_step in H0; [|by eapply (step_deliver _ _ "core")]. exact H0.
  - by apply (step_hit 30 hit_state "core" (mkCached core_comp 30)).
Defined.

Lemma flight_result_current_witness :
  current (initial {["core" := public_row]} 0) "core" core_comp.
Proof.
  pose proof finished_reachable as Hr.
  change (current (move "core" (Finished (Some core_comp)) (mkFlight Joinable false)
    (with_pcache (mkCache {["core" := mkCached core_comp 30]} ∅)
      (initial {["core" := public_row]} 0))) "core" core_comp).
  eapply (flight_result_current 30 _ "core" (mkFlight (Finished (Some core_comp)) false));
    [exact Hr|done|done|done|].
  by eapply (step_deliver _ _ "core").
Defined.
