(* ===== verification/Slices.v ===== *)
(** * Go slices on a heap

    The rest of the development takes a []string for its elements.  Where the
    code copies slices so that nobody else can change them, this file has what
    that is about: a slice is a window on an array of the heap, an assignment
    through one slice is seen through every other slice of that array. *)
From Stdlib Require Import ZArith Lia.
From stdpp Require Import base gmap strings list.
From S2P Require Import Prelude State.
Open Scope packyard_scope.

Abbreviation loc := positive.
Abbreviation heap := (gmap loc (list string)).

(** [s_len] elements from [s_off] on, and room for [s_cap]; [None] is nil. *)
Record slice := mkSlice { s_array : loc; s_off : nat; s_len : nat; s_cap : nat }.
Abbreviation goslice := (option slice).

Definition window (h : heap) (s : slice) : list string :=
  take (s_len s) (drop (s_off s) (default [] (h !! s_array s))).

(** The elements, as the rest of the development has them. *)
Definition read (h : heap) (s : goslice) : strings_t := window h <$> s.

Arguments read : simpl never.

(** The arrays a slice reaches. *)
Definition arrays (s : goslice) : gset loc := from_option (fun s => {[ s_array s ]}) ∅ s.

(** ** Operations *)
(** [s[i] = v]; out of range it panics. *)
Definition assign (s : slice) (i : nat) (v : string) (h : heap) : option heap :=
  if decide (i < s_len s) then Some (alter (<[s_off s + i := v]>) (s_array s) h) else None.

(** [s[i:j]], up to the capacity. *)
Definition reslice (s : slice) (i j : nat) : option slice :=
  if decide (i <= j <= s_cap s) then Some (mkSlice (s_array s) (s_off s + i) (j - i) (s_cap s - i)) else None.

Section Runtime.
(** The room the runtime leaves beyond the elements of a new array. *)
Context (spare : nat -> nat).

Definition alloc (l : strings_t) (h : heap) : goslice * heap :=
  match l with
  | None => (None, h)
  | Some l =>
      let a := fresh (dom h) in
      (Some (mkSlice a 0 (length l) (length l + spare (length l))),
       <[a := l ++ replicate (spare (length l)) ""]> h)
  end.

(** slices.Clone: nil for nil, else the elements in a new array. *)
Definition Clone (s : goslice) (h : heap) : goslice * heap := alloc (read h s) h.

(** [append(s, v)]: in place while there is room. *)
Definition append (s : slice) (v : string) (h : heap) : slice * heap :=
  if decide (s_len s < s_cap s)
  then (mkSlice (s_array s) (s_off s) (S (s_len s)) (s_cap s),
        alter (<[s_off s + s_len s := v]>) (s_array s) h)
  else
    let l := window h s ++ [v] in
    let a := fresh (dom h) in
    (mkSlice a 0 (length l) (length l + spare (length l)),
     <[a := l ++ replicate (spare (length l)) ""]> h).

End Runtime.

(** ** What is read stays while the array does *)
Lemma read_agree h h' s :
  (forall a, a ∈ arrays s -> h' !! a = h !! a) -> read h' s = read h s.
Proof.
  intros Ha. destruct s as [s|]; [|done]. cbn in Ha. unfold read, window. cbn. by rewrite Ha by set_solver.
Qed.

Lemma agree_subseteq (h h' : heap) (X : gset loc) a :
  h ⊆ h' -> X ⊆ dom h -> a ∈ X -> h' !! a = h !! a.
Proof.
  intros Hh HX Ha. apply HX, elem_of_dom in Ha as [l Hl]. transitivity (Some l); [by eapply lookup_weaken|done].
Qed.

Lemma read_weaken h h' s : h ⊆ h' -> arrays s ⊆ dom h -> read h' s = read h s.
Proof. intros Hh Hs. apply read_agree. intros a. by apply agree_subseteq. Qed.

(** A new slice reads as asked, and reaches only what is new. *)
Record allocated (l : strings_t) (h : heap) (s : goslice) (h' : heap) : Prop := {
  alloc_extends : h ⊆ h';
  alloc_reads : read h' s = l;
  alloc_dom : arrays s ⊆ dom h';
  alloc_new : arrays s ## dom h }.

Lemma alloc_allocated spare l h : allocated l h (alloc spare l h).1 (alloc spare l h).2.
Proof.
  destruct l as [l|]; cbn; [|split; set_solver].
  pose proof (is_fresh (dom h)) as Hf. split; cbn.
  - by apply insert_subseteq, not_elem_of_dom.
  - unfold read, window. cbn. f_equal. rewrite lookup_insert_eq. apply take_app_length.
  - rewrite dom_insert. set_solver.
  - set_solver.
Qed.

Lemma Clone_allocated spare s h : allocated (read h s) h (Clone spare s h).1 (Clone spare s h).2.
Proof. apply alloc_allocated. Qed.

(** ** What holders of slices can do *)
(** From [h], where they reach the arrays of [out], to [h'] with [out']: they
    change these, and make new ones. *)
Record meddles (h : heap) (out : gset loc) (h' : heap) (out' : gset loc) : Prop := {
  meddle_frame : forall a, a ∈ dom h -> a ∉ out -> h' !! a = h !! a;
  meddle_dom : dom h ⊆ dom h';
  meddle_out : out' = out ∪ (dom h' ∖ dom h) }.

Lemma assign_meddles s i v h h' out :
  arrays (Some s) ⊆ out -> assign s i v h = Some h' -> meddles h out h' out.
Proof.
  intros Hs Ha. unfold assign in Ha. case_decide; [|done]. injection Ha as <-. cbn in Hs.
  assert (dom (alter (<[s_off s + i := v]>) (s_array s) h) = dom h) as Hd by by rewrite dom_alter_L.
  split; [| |]; rewrite ?Hd; [|done|by rewrite difference_diag_L, union_empty_r_L].
  intros a _ Hout. apply lookup_alter_ne. clear Hd. set_solver.
Qed.

Lemma reslice_reaches s i j s' : reslice s i j = Some s' -> arrays (Some s') = arrays (Some s).
Proof. unfold reslice. case_decide; [|done]. by intros [= <-]. Qed.

Lemma append_meddles spare s v h out :
  arrays (Some s) ⊆ out -> s_array s ∈ dom h ->
  exists out', meddles h out (append spare s v h).2 out' /\ arrays (Some (append spare s v h).1) ⊆ out'.
Proof.
  intros Hs Hin. unfold append. case_decide.
  - exists out. split; [|done]. cbn in *.
    assert (dom (alter (<[s_off s + s_len s := v]>) (s_array s) h) = dom h) as Hd by by rewrite dom_alter_L.
    split; rewrite ?Hd; [|done|by rewrite difference_diag_L, union_empty_r_L]. intros a _ Hout. apply lookup_alter_ne. clear Hd. set_solver.
  - eexists. pose proof (is_fresh (dom h)) as Hf. split; [split; [|..|reflexivity]|]; cbn.
    + intros a Ha _. apply lookup_insert_ne. by intros <-.
    + rewrite dom_insert. set_solver.
    + rewrite dom_insert. set_solver.
Qed.

(** Two slices of one array. *)
Example shared_array :
  let '(s, h) := alloc (fun _ => 1) (Some ["a"; "b"]) ∅ in
  match s with
  | Some s =>
      match reslice s 1 2, assign s 1 "x" h with
      | Some t, Some h' => (window h' t, window (append (fun _ => 0) t "y" h').2 s, Clone (fun _ => 0) (Some t) h')
      | _, _ => ([], [], (None, ∅))
      end
  | None => ([], [], (None, ∅))
  end = (["x"], ["a"; "x"], (Some (mkSlice 2 0 1 1), {[1%positive := ["a"; "x"; ""]; 2%positive := ["x"]]})).
Proof. vm_compute. reflexivity. Qed.
