(* ===== verification/CacheHeap.v ===== *)
(** * The component cache with its references

    CacheProtocol.v takes components for values.  In the program a component
    has slices, an entry of the cache and the result of a shared lookup hold
    them, and callers are handed components whose slices they may change.
    Here the protocol runs on a heap, with [cloneComponent] where the code has
    it, and callers may do what they like to every array they reach.  The
    simulation at the end says that this is the protocol on values. *)
From Stdlib Require Import ZArith Lia.
From stdpp Require Import base gmap strings list.
From S2P Require Import Prelude State Tables ComponentStore ComponentCache CacheProtocol Slices.
Open Scope packyard_scope.

(** [Component] as it lies on the heap. *)
Record component := mkRef {
  r_Name : string; r_Visibility : string;
  r_RPMSeries : goslice; r_RPMOSFamilies : goslice; r_RPMArchitectures : goslice;
  r_CreatedAt : Z }.

Definition value (h : heap) (c : component) : Component :=
  mkComponent (r_Name c) (r_Visibility c) (read h (r_RPMSeries c)) (read h (r_RPMOSFamilies c))
    (read h (r_RPMArchitectures c)) (r_CreatedAt c).

Definition reach (c : component) : gset loc :=
  arrays (r_RPMSeries c) ∪ arrays (r_RPMOSFamilies c) ∪ arrays (r_RPMArchitectures c).

Section Heap.
Context (spare : nat -> nat).

Definition cloneComponent (src : component) (h : heap) : component * heap :=
  let '(series, h) := Clone spare (r_RPMSeries src) h in
  let '(families, h) := Clone spare (r_RPMOSFamilies src) h in
  let '(archs, h) := Clone spare (r_RPMArchitectures src) h in
  (mkRef (r_Name src) (r_Visibility src) series families archs (r_CreatedAt src), h).

(** What [scanComponent] builds from a row: its lists are decoded into arrays
    of their own. *)
Definition build (c : Component) (h : heap) : component * heap :=
  let '(series, h) := alloc spare (RPMSeries c) h in
  let '(families, h) := alloc spare (RPMOSFamilies c) h in
  let '(archs, h) := alloc spare (RPMArchitectures c) h in
  (mkRef (Name c) (Visibility c) series families archs (Comp_CreatedAt c), h).

(** A component that reads as asked and reaches only what is new. *)
Record built (c : Component) (h : heap) (r : component) (h' : heap) : Prop := {
  built_extends : h ⊆ h';
  built_value : value h' r = c;
  built_dom : reach r ⊆ dom h';
  built_new : reach r ## dom h }.

Lemma build_built c h : built c h (build c h).1 (build c h).2.
Proof.
  unfold build. pose proof (alloc_allocated spare (RPMSeries c) h) as [E1 R1 D1 N1].
  destruct (alloc spare (RPMSeries c) h) as [s1 h1]. cbn [fst snd] in *.
  pose proof (alloc_allocated spare (RPMOSFamilies c) h1) as [E2 R2 D2 N2].
  destruct (alloc spare (RPMOSFamilies c) h1) as [s2 h2]. cbn [fst snd] in *.
  pose proof (alloc_allocated spare (RPMArchitectures c) h2) as [E3 R3 D3 N3].
  destruct (alloc spare (RPMArchitectures c) h2) as [s3 h3]. cbn [fst snd] in *.
  assert (h1 ⊆ h3) as E13 by by etrans.
  pose proof (subseteq_dom _ _ E1) as S1. pose proof (subseteq_dom _ _ E2) as S2.
  pose proof (subseteq_dom _ _ E3) as S3.
  split.
  - by etrans.
  - unfold value. cbn. rewrite R3, (read_weaken h1 h3 s1), (read_weaken h2 h3 s2), R1, R2 by done. by destruct c.
  - unfold reach. cbn. clear -D1 D2 D3 S2 S3. set_solver.
  - unfold reach. cbn. clear -N1 N2 N3 S1 S2. set_solver.
Qed.

Lemma value_weaken h h' c : h ⊆ h' -> reach c ⊆ dom h -> value h' c = value h c.
Proof. unfold reach. intros Hh Hc. unfold value. f_equal; apply read_weaken; set_solver. Qed.

Lemma value_agree h h' c : (forall a, a ∈ reach c -> h' !! a = h !! a) -> value h' c = value h c.
Proof.
  unfold reach. intros Ha. unfold value. f_equal; apply read_agree; intros a Hin; apply Ha; set_solver.
Qed.

(** Copying is building anew. *)
Lemma cloneComponent_built c h :
  reach c ⊆ dom h -> built (value h c) h (cloneComponent c h).1 (cloneComponent c h).2.
Proof.
  intros Hc. enough (cloneComponent c h = build (value h c) h) as -> by apply build_built.
  unfold reach in Hc. unfold cloneComponent, build, Clone. cbn [RPMSeries RPMOSFamilies RPMArchitectures value].
  pose proof (alloc_allocated spare (read h (r_RPMSeries c)) h) as [E1 _ _ _].
  destruct (alloc spare (read h (r_RPMSeries c)) h) as [s1 h1]. cbn [fst snd] in *.
  rewrite (read_weaken h h1) by set_solver.
  pose proof (alloc_allocated spare (read h (r_RPMOSFamilies c)) h1) as [E2 _ _ _].
  destruct (alloc spare (read h (r_RPMOSFamilies c)) h1) as [s2 h2]. cbn [fst snd] in *.
  rewrite (read_weaken h h2); [done|by etrans|set_solver].
Qed.

(** ** The protocol *)
Inductive hstage :=
| HJoinable
| HCaptured (gen : Z)
| HHaveRead (gen : Z) (r : option component)
| HFinished (r : option component).

Record hflight := mkHFlight { hf_stage : hstage; hf_dirty : bool }.

Record HState := mkHState {
  h_heap : heap;
  h_out : gset loc;                          (* the arrays that callers reach *)
  h_table : gmap string component_row;
  h_entries : gmap string (component * Z);   (* and when they expire *)
  h_gen : gmap string Z;
  h_flights : gmap string hflight;
  h_handed : list (component * Component);   (* results of flights on the way to
                                                those who joined, and what they
                                                were when the flight ended *)
  h_pending : gmap string nat;
  h_now : Z;
  h_evictions : Z }.

(** The steps change a few fields each. *)
Definition with_heap (h : heap) (s : HState) : HState :=
  mkHState h (h_out s) (h_table s) (h_entries s) (h_gen s) (h_flights s) (h_handed s)
    (h_pending s) (h_now s) (h_evictions s).
Definition with_out (out : gset loc) (s : HState) : HState :=
  mkHState (h_heap s) out (h_table s) (h_entries s) (h_gen s) (h_flights s) (h_handed s)
    (h_pending s) (h_now s) (h_evictions s).
Definition with_entries (es : gmap string (component * Z)) (s : HState) : HState :=
  mkHState (h_heap s) (h_out s) (h_table s) es (h_gen s) (h_flights s) (h_handed s)
    (h_pending s) (h_now s) (h_evictions s).
Definition with_hflights (fs : gmap string hflight) (s : HState) : HState :=
  mkHState (h_heap s) (h_out s) (h_table s) (h_entries s) (h_gen s) fs (h_handed s)
    (h_pending s) (h_now s) (h_evictions s).
Definition with_handed (hs : list (component * Component)) (s : HState) : HState :=
  mkHState (h_heap s) (h_out s) (h_table s) (h_entries s) (h_gen s) (h_flights s) hs
    (h_pending s) (h_now s) (h_evictions s).

Definition hmove (n : string) (st : hstage) (f : hflight) (s : HState) : HState :=
  with_hflights (<[n := mkHFlight st (hf_dirty f)]> (h_flights s)) s.

Definition hdirty_at (n : string) (fs : gmap string hflight) : gmap string hflight :=
  alter (fun f => mkHFlight (hf_stage f) true) n fs.

Definition hgeneration (n : string) (s : HState) : Z := default 0%Z (h_gen s !! n).
Definition hpending (n : string) (s : HState) : nat := default 0 (h_pending s !! n).

Inductive hevent :=
| HSilent
| HHit (n : string) (c : component)
| HJoin (n : string)
| HDeliver (n : string) (r : option Component)
| HReceive (v : Component) (c : component) (* one who joined gets a copy of the result [v] *)
| HMeddle (* a caller changes what it was handed *).

(** A caller is handed [c]. *)
Definition handed_out (c : component) (h : heap) (s : HState) : HState :=
  with_out (h_out s ∪ reach c) (with_heap h s).

Section Steps.
Context (ttl : Z).

Inductive hstep (s : HState) : hevent -> HState -> Prop :=
| h_hit n e x c h :
    h_entries s !! n = Some (e, x) -> (h_now s < x)%Z ->
    cloneComponent e (h_heap s) = (c, h) -> hstep s (HHit n c) (handed_out c h s)
| h_drop n x :
    (x <= h_now s)%Z ->
    hstep s HSilent
      (match h_entries s !! n with
       | Some (_, cur) => if (cur =? x)%Z then with_entries (delete n (h_entries s)) s else s
       | None => s
       end)
| h_lead n :
    h_flights s !! n = None ->
    hstep s (HJoin n) (with_hflights (<[n := mkHFlight HJoinable false]> (h_flights s)) s)
| h_join n f : h_flights s !! n = Some f -> hstep s (HJoin n) s
| h_capture n f :
    h_flights s !! n = Some f -> hf_stage f = HJoinable ->
    hstep s HSilent (hmove n (HCaptured (hgeneration n s)) f s)
| h_read n f g row c h :
    h_flights s !! n = Some f -> hf_stage f = HCaptured g -> h_table s !! n = Some row ->
    build (scanComponent n row) (h_heap s) = (c, h) ->
    hstep s HSilent (hmove n (HHaveRead g (Some c)) f (with_heap h s))
| h_read_none n f g :
    h_flights s !! n = Some f -> hf_stage f = HCaptured g ->
    hstep s HSilent (hmove n (HHaveRead g None) f s)
| h_insert n f g c :
    h_flights s !! n = Some f -> hf_stage f = HHaveRead g (Some c) -> r_Visibility c = "public" ->
    hstep s HSilent
      (hmove n (HFinished (Some c)) f
         (if (hgeneration n s =? g)%Z
          then let '(e, h) := cloneComponent c (h_heap s) in
               with_entries (<[n := (e, h_now s + ttl)%Z]> (h_entries s)) (with_heap h s)
          else s))
| h_no_insert n f g r :
    h_flights s !! n = Some f -> hf_stage f = HHaveRead g r ->
    (forall c, r = Some c -> r_Visibility c <> "public") ->
    hstep s HSilent (hmove n (HFinished r) f s)
| h_deliver n f r :
    h_flights s !! n = Some f -> hf_stage f = HFinished r ->
    hstep s (HDeliver n (value (h_heap s) <$> r))
      (with_handed (match r with Some c => (c, value (h_heap s) c) :: h_handed s | None => h_handed s end)
         (with_hflights (delete n (h_flights s)) s))
| h_receive r v c h :
    (r, v) ∈ h_handed s ->
    cloneComponent r (h_heap s) = (c, h) -> hstep s (HReceive v c) (handed_out c h s)
| h_meddle h out :
    meddles (h_heap s) (h_out s) h out -> hstep s HMeddle (with_out out (with_heap h s))
| h_commit n row :
    hstep s HSilent
      (mkHState (h_heap s) (h_out s) (partial_alter (fun _ => row) n (h_table s)) (h_entries s) (h_gen s)
         (hdirty_at n (h_flights s)) (h_handed s) (<[n := S (hpending n s)]> (h_pending s)) (h_now s)
         (h_evictions s))
| h_evict n k :
    hpending n s = S k ->
    hstep s HSilent
      (mkHState (h_heap s) (h_out s) (h_table s) (delete n (h_entries s))
         (<[n := uint64_succ (hgeneration n s)]> (h_gen s)) (h_flights s) (h_handed s)
         (<[n := k]> (h_pending s)) (h_now s) (h_evictions s + 1)%Z)
| h_create n row :
    h_table s !! n = None ->
    hstep s HSilent
      (mkHState (h_heap s) (h_out s) (<[n := row]> (h_table s)) (h_entries s) (h_gen s)
         (hdirty_at n (h_flights s)) (h_handed s) (h_pending s) (h_now s) (h_evictions s))
| h_time t :
    (h_now s <= t)%Z ->
    hstep s HSilent
      (mkHState (h_heap s) (h_out s) (h_table s) (h_entries s) (h_gen s) (h_flights s) (h_handed s)
         (h_pending s) t (h_evictions s)).

Definition hinitial (table : gmap string component_row) (t : Z) : HState :=
  mkHState ∅ ∅ table ∅ ∅ ∅ [] ∅ t 0.

Inductive hreachable : HState -> Prop :=
| hreach_init table t : hreachable (hinitial table t)
| hreach_step s ev s' : hreachable s -> hstep s ev s' -> hreachable s'.

(** ** What it is on values *)
Definition stage_value (h : heap) (st : hstage) : stage :=
  match st with
  | HJoinable => Joinable
  | HCaptured g => Captured g
  | HHaveRead g r => HaveRead g (value h <$> r)
  | HFinished r => Finished (value h <$> r)
  end.

Definition flight_value (h : heap) (f : hflight) : flight :=
  mkFlight (stage_value h (hf_stage f)) (hf_dirty f).
Definition entry_value (h : heap) (e : component * Z) : cachedComponent := mkCached (value h e.1) e.2.

Definition abstract (s : HState) : PState :=
  mkPState (h_table s) (mkCache (entry_value (h_heap s) <$> h_entries s) (h_gen s))
    (flight_value (h_heap s) <$> h_flights s) (h_pending s) (h_now s) (h_evictions s).

(** ** Callers reach nothing that the cache holds *)
Definition stage_holds (st : hstage) : option component :=
  match st with HHaveRead _ r | HFinished r => r | _ => None end.

Inductive internal (s : HState) (c : component) : Prop :=
| in_entry n x : h_entries s !! n = Some (c, x) -> internal s c
| in_flight n f : h_flights s !! n = Some f -> stage_holds (hf_stage f) = Some c -> internal s c
| in_handed v : (c, v) ∈ h_handed s -> internal s c.

(** [c] is out of the callers' reach. *)
Definition shielded (s : HState) (c : component) : Prop :=
  reach c ⊆ dom (h_heap s) /\ reach c ## h_out s.

Record apart (s : HState) : Prop := {
  apart_shielded : forall c, internal s c -> shielded s c;
  apart_out : h_out s ⊆ dom (h_heap s);
  apart_handed : forall c v, (c, v) ∈ h_handed s -> value (h_heap s) c = v }.

Lemma apart_initial table t : apart (hinitial table t).
Proof. split; [|done|]; [intros c []|intros c v]; set_solver. Qed.

(** Holding less, or more that is shielded. *)
Lemma apart_holds s s' :
  apart s -> h_heap s' = h_heap s -> h_out s' = h_out s ->
  (forall c, internal s' c -> internal s c \/ shielded s c) ->
  (forall c v, (c, v) ∈ h_handed s' -> (c, v) ∈ h_handed s \/ value (h_heap s) c = v) -> apart s'.
Proof.
  intros [Hs Ho Hv] Hh Hout Hint Hhand.
  split; unfold shielded; rewrite ?Hh, ?Hout; [|done|].
  - intros c Hc. destruct (Hint c Hc); [by apply Hs|done].
  - intros c v Hc. destruct (Hhand c v Hc); [by apply Hv|done].
Qed.

(** What the cache holds keeps its value: then nothing has happened. *)
Lemma abstract_heap s h out :
  (forall c, internal s c -> value h c = value (h_heap s) c) ->
  abstract (with_out out (with_heap h s)) = abstract s.
Proof.
  intros Hv. unfold abstract. cbn. f_equal; [f_equal|].
  - apply map_fmap_ext. intros n [c x] Hc. unfold entry_value. cbn. by rewrite Hv by by eapply in_entry.
  - apply map_fmap_ext. intros n [st d] Hf. unfold flight_value. cbn. f_equal.
    destruct st as [| |g [c|]|[c|]]; cbn; try done; by rewrite Hv by by eapply in_flight.
Qed.

(** The heap grows. *)
Lemma grow s h :
  apart s -> h_heap s ⊆ h -> apart (with_heap h s) /\ abstract (with_heap h s) = abstract s.
Proof.
  intros [Hs Ho Hv] Hh. pose proof (subseteq_dom _ _ Hh) as Hd.
  assert (forall c, internal s c -> value h c = value (h_heap s) c) as Hval.
  { intros c Hc. apply value_weaken; [done|by apply Hs]. }
  split; [|by apply (abstract_heap s h (h_out s))]. split; cbn.
  - intros c Hc. destruct (Hs c) as [Hcd Hco]; [by destruct Hc; econstructor|]. split; cbn; [by etrans|done].
  - by etrans.
  - intros c v Hc. rewrite Hval by by eapply in_handed. by apply Hv.
Qed.

(** A caller is handed something new. *)
Lemma hand_out s c v h :
  apart s -> built v (h_heap s) c h ->
  apart (handed_out c h s) /\ abstract (handed_out c h s) = abstract s.
Proof.
  intros Ha [Hh Hval Hd Hn]. destruct (grow s h Ha Hh) as [[Hs Ho Hv] Habs]. destruct Ha as [Hs0 _ _].
  split; [|exact Habs]. split; cbn.
  - intros e He. assert (internal s e) as He' by by destruct He; econstructor.
    destruct (Hs e) as [Hed Heo]; [by destruct He'; econstructor|]. destruct (Hs0 e He') as [Hed0 _].
    split; cbn in *; [done|]. clear -Heo Hed0 Hn. set_solver.
  - cbn in *. clear -Ho Hd. set_solver.
  - exact Hv.
Qed.

(** Callers change what they reach. *)
Lemma meddle s h out :
  apart s -> meddles (h_heap s) (h_out s) h out ->
  apart (with_out out (with_heap h s)) /\ abstract (with_out out (with_heap h s)) = abstract s.
Proof.
  intros [Hs Ho Hv] [Hf Hd ->].
  assert (forall c, internal s c -> value h c = value (h_heap s) c) as Hval.
  { intros c Hc. destruct (Hs c Hc) as [Hcd Hco]. apply value_agree. intros a Ha. apply Hf; set_solver. }
  split; [|by apply abstract_heap]. split; cbn.
  - intros c Hc. destruct (Hs c) as [Hcd Hco]; [by destruct Hc; econstructor|].
    split; cbn; [by etrans|]. clear -Hcd Hco. set_solver.
  - clear -Ho Hd. set_solver.
  - intros c v Hc. rewrite Hval by by eapply in_handed. by apply Hv.
Qed.

(** ** The simulation *)
(** A flight goes on with what it has, or what is shielded. *)
Lemma apart_move n st f s :
  apart s -> h_flights s !! n = Some f ->
  (forall c, stage_holds st = Some c -> stage_holds (hf_stage f) = Some c \/ shielded s c) ->
  apart (hmove n st f s).
Proof.
  intros Ha Hf Hst. apply (apart_holds s); try done; [|by left].
  intros c [m x Hm|m f' Hm Hs|v Hv]; [left; by eapply in_entry| |left; by eapply in_handed].
  cbn in Hm. rewrite lookup_insert in Hm. case_decide; [|left; by eapply in_flight].
  injection Hm as <-. cbn in Hs. destruct (Hst c Hs); [left; by eapply in_flight|by right].
Qed.

Lemma abstract_flights fs s :
  abstract (with_hflights fs s) = with_flights (flight_value (h_heap s) <$> fs) (abstract s).
Proof. reflexivity. Qed.

Lemma abstract_move n st f s :
  abstract (hmove n st f s) =
    move n (stage_value (h_heap s) st) (flight_value (h_heap s) f) (abstract s).
Proof. unfold abstract, move, with_flights. cbn. by rewrite fmap_insert. Qed.

Lemma abstract_flight s n f :
  h_flights s !! n = Some f -> p_flights (abstract s) !! n = Some (flight_value (h_heap s) f).
Proof. intros Hf. cbn. by rewrite lookup_fmap, Hf. Qed.

Lemma abstract_dirty n h fs :
  flight_value h <$> hdirty_at n fs = dirty_at n (flight_value h <$> fs).
Proof.
  apply map_eq. intros m. unfold hdirty_at, dirty_at. rewrite lookup_fmap.
  destruct (decide (m = n)) as [->|Hm].
  - rewrite !lookup_alter_eq, lookup_fmap. by destruct (fs !! n).
  - rewrite !lookup_alter_ne, lookup_fmap by done. done.
Qed.

(** The step of the protocol on values that a step is. *)
Definition simulates (s : HState) (ev : hevent) (s' : HState) : Prop :=
  match ev with
  | HSilent => step ttl (abstract s) Silent (abstract s')
  | HHit n c => step ttl (abstract s) (Hit n (value (h_heap s') c)) (abstract s')
  | HJoin n => step ttl (abstract s) (Join n) (abstract s')
  | HDeliver n r => step ttl (abstract s) (Deliver n r) (abstract s')
  | HReceive v c => value (h_heap s') c = v /\ abstract s' = abstract s
  | HMeddle => abstract s' = abstract s
  end.

Lemma abstract_drop n x s :
  abstract (match h_entries s !! n with
            | Some (_, cur) => if (cur =? x)%Z then with_entries (delete n (h_entries s)) s else s
            | None => s
            end) = with_pcache (cache_drop_expired n x (p_cache (abstract s))) (abstract s).
Proof.
  unfold cache_drop_expired, still_expired. cbn. rewrite lookup_fmap.
  destruct (h_entries s !! n) as [[c cur]|]; [|done]. cbn. destruct (cur =? x)%Z; [|done].
  unfold abstract. cbn. by rewrite fmap_delete.
Qed.

(** An entry is stored: a copy of its own. *)
Lemma insert_apart n c x s e h :
  apart s -> internal s c -> cloneComponent c (h_heap s) = (e, h) ->
  let s' := with_entries (<[n := (e, x)]> (h_entries s)) (with_heap h s) in
  apart s' /\ abstract s' =
    with_pcache (mkCache (<[n := mkCached (value (h_heap s) c) x]> (cache_entries (p_cache (abstract s)))) (h_gen s))
      (abstract s).
Proof.
  intros Ha Hc Hcl. destruct (apart_shielded s Ha c Hc) as [Hd _].
  pose proof (cloneComponent_built c (h_heap s) Hd) as Hb. rewrite Hcl in Hb. destruct Hb as [Hh Hval Hed Hen].
  destruct (grow s h Ha Hh) as [Ha' Habs]. cbn [fst snd] in *. cbv zeta. split.
  - apply (apart_holds (with_heap h s)); try done; [|by left].
    intros e' [m y Hm|m f Hm Hs|v Hv]; [|left; by eapply in_flight|left; by eapply in_handed].
    cbn in Hm. rewrite lookup_insert in Hm. case_decide; [|left; by eapply in_entry].
    injection Hm as <- _. right. split; [done|]. cbn. pose proof (apart_out s Ha). set_solver.
  - transitivity (with_pcache (mkCache (<[n := mkCached (value h e) x]>
      (cache_entries (p_cache (abstract (with_heap h s))))) (h_gen s)) (abstract (with_heap h s))).
    + unfold abstract, with_pcache. cbn. by rewrite fmap_insert.
    + by rewrite Habs, Hval.
Qed.

(** A caller gets a copy. *)
Lemma copy_out s e c h :
  apart s -> internal s e -> cloneComponent e (h_heap s) = (c, h) ->
  apart (handed_out c h s) /\ abstract (handed_out c h s) = abstract s /\ value h c = value (h_heap s) e.
Proof.
  intros Ha He Hc. destruct (apart_shielded s Ha e He) as [Hd _].
  pose proof (cloneComponent_built e (h_heap s) Hd) as Hb. rewrite Hc in Hb.
  destruct (hand_out s c _ h Ha Hb) as [Ha' Habs]. split; [done|]. split; [done|]. apply Hb.
Qed.

Lemma read_simulates n f g row c h s :
  apart s -> h_flights s !! n = Some f -> hf_stage f = HCaptured g -> h_table s !! n = Some row ->
  build (scanComponent n row) (h_heap s) = (c, h) ->
  let s' := hmove n (HHaveRead g (Some c)) f (with_heap h s) in
  apart s' /\ step ttl (abstract s) Silent (abstract s').
Proof.
  intros Ha Hf Hst Hrow Hc. cbv zeta.
  pose proof (build_built (scanComponent n row) (h_heap s)) as Hb. rewrite Hc in Hb.
  destruct Hb as [Hh Hval Hd Hn]. cbn [fst snd] in *. destruct (grow s h Ha Hh) as [Ha' Habs]. split.
  - apply apart_move; [done..|]. cbn. intros e [= <-]. right. split; [done|]. cbn.
    pose proof (apart_out s Ha). set_solver.
  - rewrite abstract_move, Habs. cbn [h_heap with_heap stage_value].
    pose proof (abstract_flight (with_heap h s) n f Hf) as Hfl. rewrite Habs in Hfl.
    cbn [fmap option_fmap option_map]. rewrite Hval.
    replace (Some (scanComponent n row)) with (scanComponent n <$> p_table (abstract s) !! n)
      by (cbn; by rewrite Hrow).
    apply step_read; [done|]. cbn. by rewrite Hst.
Qed.

Lemma insert_simulates n f g c s :
  apart s -> h_flights s !! n = Some f -> hf_stage f = HHaveRead g (Some c) -> r_Visibility c = "public" ->
  let s' := hmove n (HFinished (Some c)) f
         (if (hgeneration n s =? g)%Z
          then let '(e, h) := cloneComponent c (h_heap s) in
               with_entries (<[n := (e, h_now s + ttl)%Z]> (h_entries s)) (with_heap h s)
          else s) in
  apart s' /\ step ttl (abstract s) Silent (abstract s').
Proof.
  intros Ha Hf Hst Hv. cbv zeta.
  assert (internal s c) as Hc by (eapply in_flight; [done|by rewrite Hst]).
  assert (step ttl (abstract s) Silent (move n (Finished (Some (value (h_heap s) c)))
    (flight_value (h_heap s) f) (with_pcache (cache_insert ttl (h_now s) n (value (h_heap s) c) g
       (p_cache (abstract s))) (abstract s)))) as Hstep.
  { apply (step_insert ttl (abstract s) n _ g); [by apply abstract_flight| |done]. cbn. by rewrite Hst. }
  unfold cache_insert in Hstep. change (generation n (p_cache (abstract s))) with (hgeneration n s) in Hstep.
  destruct (hgeneration n s =? g)%Z.
  - destruct (cloneComponent c (h_heap s)) as [e h] eqn:Hcl.
    destruct (insert_apart n c (h_now s + ttl) s e h Ha Hc Hcl) as [Ha' Habs].
    destruct (copy_out s c e h Ha Hc Hcl) as (_ & _ & Hval).
    assert (value h c = value (h_heap s) c) as Hold.
    { destruct (apart_shielded s Ha c Hc) as [Hd _].
      pose proof (cloneComponent_built c (h_heap s) Hd) as Hb. rewrite Hcl in Hb.
      apply value_weaken; [apply Hb|done]. }
    split; [|].
    + apply apart_move; [done|done|]. cbn. intros e' [= <-]. left. by rewrite Hst.
    + rewrite abstract_move, Habs. cbn [h_heap with_heap with_entries stage_value fmap option_fmap option_map].
      rewrite Hold. replace (flight_value h f) with (flight_value (h_heap s) f); [exact Hstep|].
      unfold flight_value. rewrite Hst. cbn. by rewrite Hold.
  - split; [|by rewrite abstract_move].
    apply apart_move; [done|done|]. cbn. intros e' [= <-]. left. by rewrite Hst.
Qed.

Lemma deliver_simulates n f r s :
  apart s -> h_flights s !! n = Some f -> hf_stage f = HFinished r ->
  let s' := with_handed (match r with Some c => (c, value (h_heap s) c) :: h_handed s | None => h_handed s end)
              (with_hflights (delete n (h_flights s)) s) in
  apart s' /\ step ttl (abstract s) (Deliver n (value (h_heap s) <$> r)) (abstract s').
Proof.
  intros Ha Hf Hst. cbv zeta. split.
  - assert (forall c, r = Some c -> internal s c) as Hr.
    { intros c ->. eapply in_flight; [done|by rewrite Hst]. }
    apply (apart_holds s); try done.
    + intros c [m x Hm|m f' Hm Hs|v Hv]; left; [by eapply in_entry| |].
      * cbn in Hm. apply lookup_delete_Some in Hm as [_ Hm]. by eapply in_flight.
      * cbn in Hv. destruct r as [c'|]; [|by eapply in_handed].
        apply elem_of_cons in Hv as [[= -> ->]|Hv]; [by apply Hr|by eapply in_handed].
    + cbn. intros c v Hv. destruct r as [c'|]; [|by left].
      apply elem_of_cons in Hv as [[= -> ->]|Hv]; [by right|by left].
  - change (abstract (with_handed _ ?s')) with (abstract s'). rewrite abstract_flights, fmap_delete.
    apply (step_deliver ttl (abstract s) n (flight_value (h_heap s) f)); [by apply abstract_flight|].
    cbn. by rewrite Hst.
Qed.

(** Marking the flights of a name. *)
Lemma apart_dirty n s s' :
  apart s -> h_heap s' = h_heap s -> h_out s' = h_out s -> h_entries s' = h_entries s ->
  h_flights s' = hdirty_at n (h_flights s) -> h_handed s' = h_handed s -> apart s'.
Proof.
  intros Ha Hh Ho He Hf Hd. apply (apart_holds s); [done..| |rewrite Hd; by left].
  intros c [m x Hm|m f Hm Hs|v Hv]; left.
  - rewrite He in Hm. by eapply in_entry.
  - rewrite Hf in Hm. unfold hdirty_at in Hm. destruct (decide (m = n)) as [->|Hne].
    + rewrite lookup_alter_eq in Hm. apply fmap_Some in Hm as (f0 & Hf0 & ->). by eapply in_flight.
    + rewrite lookup_alter_ne in Hm by done. by eapply in_flight.
  - rewrite Hd in Hv. by eapply in_handed.
Qed.

(** An entry is removed. *)
Lemma apart_delete n s s' :
  apart s -> h_heap s' = h_heap s -> h_out s' = h_out s -> h_entries s' = delete n (h_entries s) ->
  h_flights s' = h_flights s -> h_handed s' = h_handed s -> apart s'.
Proof.
  intros Ha Hh Ho He Hf Hd. apply (apart_holds s); [done..| |rewrite Hd; by left].
  intros c [m x Hm|m f Hm Hs|v Hv]; left.
  - rewrite He in Hm. apply lookup_delete_Some in Hm as [_ Hm]. by eapply in_entry.
  - rewrite Hf in Hm. by eapply in_flight.
  - rewrite Hd in Hv. by eapply in_handed.
Qed.

Lemma lead_simulates n s :
  apart s -> h_flights s !! n = None ->
  let s' := with_hflights (<[n := mkHFlight HJoinable false]> (h_flights s)) s in
  apart s' /\ step ttl (abstract s) (Join n) (abstract s').
Proof.
  intros Ha Hn. cbv zeta. split.
  - apply (apart_holds s); try done; [|by left].
    intros e [m y Hm|m f Hm Hs|v Hv]; left; [by eapply in_entry| |by eapply in_handed].
    cbn in Hm. rewrite lookup_insert in Hm. case_decide; [by injection Hm as <-|by eapply in_flight].
  - rewrite abstract_flights, fmap_insert. apply (step_lead ttl (abstract s)). cbn. by rewrite lookup_fmap, Hn.
Qed.

Lemma hstep_simulates s ev s' : apart s -> hstep s ev s' -> apart s' /\ simulates s ev s'.
Proof.
  intros Ha Hs. destruct Hs as [n e x c h He Hx Hc|n x Hx|n Hn|n f Hf|n f Hf Hst|n f g row c h Hf Hst Hrow Hc
    |n f g Hf Hst|n f g c Hf Hst Hv|n f g r Hf Hst Hv|n f r Hf Hst|r v c h Hr Hc|h out Hm|n row|n k Hk|n row Hn|t Ht];
    cbn [simulates].
  - destruct (copy_out s e c h Ha ltac:(by eapply in_entry) Hc) as (Ha' & -> & Hval). split; [done|].
    cbn [h_heap handed_out with_out with_heap]. rewrite Hval.
    apply (step_hit ttl (abstract s) n (entry_value (h_heap s) (e, x))); [|done]. cbn. by rewrite lookup_fmap, He.
  - rewrite abstract_drop. split; [|by apply step_drop].
    destruct (h_entries s !! n) as [[c cur]|]; [|done]. destruct (cur =? x)%Z; [|done].
    by apply (apart_delete n s).
  - by apply lead_simulates.
  - split; [done|]. by eapply step_join, abstract_flight.
  - split; [by apply apart_move|]. rewrite abstract_move.
    apply (step_capture ttl (abstract s) n (flight_value (h_heap s) f)); [by apply abstract_flight|]. cbn. by rewrite Hst.
  - by eapply read_simulates.
  - split; [by apply apart_move|]. rewrite abstract_move.
    eapply (step_read_fails ttl (abstract s) n _ g); [by apply abstract_flight|]. cbn. by rewrite Hst.
  - by apply insert_simulates.
  - split.
    + apply apart_move; [done..|]. intros c Hc. left. by rewrite Hst.
    + rewrite abstract_move. eapply (step_no_insert ttl (abstract s) n _ g); [by apply abstract_flight| |].
      * cbn. by rewrite Hst.
      * intros c Hc. destruct r as [r|]; [|done]. injection Hc as <-. by apply Hv.
  - by apply (deliver_simulates n f).
  - destruct (copy_out s r c h Ha ltac:(by eapply in_handed) Hc) as (Ha' & -> & Hval). split; [done|].
    split; [|done]. cbn [h_heap handed_out with_out with_heap]. rewrite Hval. by apply Ha.
  - by apply meddle.
  - split; [by apply (apart_dirty n s)|].
    unfold abstract. cbn. rewrite abstract_dirty. apply (step_commit ttl (abstract s) n row).
  - split.
    + by apply (apart_delete n s).
    + unfold abstract. cbn. rewrite fmap_delete. by apply (step_evict ttl (abstract s) n k).
  - split; [by apply (apart_dirty n s)|].
    unfold abstract. cbn. rewrite abstract_dirty. by apply (step_create ttl (abstract s) n row).
  - split; [|by apply (step_time ttl (abstract s))].
    apply (apart_holds s); try done; [|by left]. intros e He. left. by destruct He; econstructor.
Qed.

Lemma hreachable_apart s : hreachable s -> apart s /\ reachable ttl (abstract s).
Proof.
  induction 1 as [table t|s ev s' Hr [Ha Hab] Hs].
  - split; [apply apart_initial|]. unfold abstract, hinitial. cbn. rewrite !fmap_empty. constructor.
  - destruct (hstep_simulates s ev s' Ha Hs) as [Ha' Hsim]. split; [done|].
    destruct ev; cbn [simulates] in Hsim; try by eapply reach_step.
    + destruct Hsim as [_ ->]. exact Hab.
    + by rewrite Hsim.
Qed.

(** C27. The cache shares no memory with its callers.  On a heap, where a
    component has slices that alias arrays, and callers overwrite, extend and
    reslice what they were handed in whatever order with everything else: the
    cache still behaves as the cache on values does, step by step.  A hit
    hands out the value that the entry was stored with, and one who joined a
    lookup gets the value it was delivered with. *)
Theorem cache_heap_refines s :
  hreachable s ->
  reachable ttl (abstract s) /\ forall ev s', hstep s ev s' -> simulates s ev s'.
Proof.
  intros Hr. destruct (hreachable_apart s Hr) as [Ha Hab]. split; [done|].
  intros ev s' Hs. by apply hstep_simulates.
Qed.
End Steps.
End Heap.

(** ** A concrete run *)
(** A lookup reads the row, its result is cached and delivered; the caller who
    receives it overwrites its first series; then comes a hit. *)
Definition demo_row : component_row := mkComponentRow "public" (Some ["noble"; "jammy"]) (Some []) None 0.
Definition demo_spare (n : nat) : nat := 1.
Definition demo_flight : hflight := mkHFlight HJoinable false.

Definition demo_read : component * heap := build demo_spare (scanComponent "core" demo_row) ∅.
Definition demo_entry : component * heap := cloneComponent demo_spare demo_read.1 demo_read.2.
Definition demo_copy : component * heap := cloneComponent demo_spare demo_read.1 demo_entry.2.

Definition demo_delivered : HState :=
  mkHState demo_entry.2 ∅ {["core" := demo_row]} {["core" := (demo_entry.1, 30%Z)]} ∅ ∅
    [(demo_read.1, value demo_read.2 demo_read.1)] ∅ 0 0.

Definition demo_overwrite (c : component) (h : heap) : heap :=
  match r_RPMSeries c with
  | Some s => default h (assign s 0 "x" h)
  | None => h
  end.

Definition demo_overwritten : HState :=
  with_out (reach demo_copy.1) (with_heap (demo_overwrite demo_copy.1 demo_copy.2) demo_delivered).

Definition series_of (h : heap) (c : component) : strings_t := read h (r_RPMSeries c).

(** The caller sees its own change, the entry does not. *)
Example copies_apart :
  let h := h_heap demo_overwritten in
  (series_of h demo_copy.1, series_of h demo_entry.1, series_of h demo_read.1) =
    (Some ["x"; "jammy"], Some ["noble"; "jammy"], Some ["noble"; "jammy"]).
Proof. vm_compute. reflexivity. Qed.

(** Without the copy a caller would have changed what the next one gets. *)
Example shared_component_changes :
  let h := demo_overwrite demo_entry.1 demo_entry.2 in series_of h demo_entry.1 = Some ["x"; "jammy"].
Proof. vm_compute. reflexivity. Qed.

Lemma demo_delivered_reachable : hreachable demo_spare 30 demo_delivered.
Proof.
  pose (s0 := hinitial {["core" := demo_row]} 0).
  assert (hreachable demo_spare 30 s0) as H0 by constructor.
  eapply hreach_step in H0; [|by apply (h_lead _ _ s0 "core")].
  eapply hreach_step in H0; [|by eapply (h_capture _ _ _ "core")].
  eapply hreach_step in H0; [|by eapply (h_read _ _ _ "core" _ 0 demo_row demo_read.1 demo_read.2)].
  eapply hreach_step in H0; [|by eapply (h_insert _ _ _ "core")].
  eapply hreach_step in H0; [|by eapply (h_deliver _ _ _ "core")].
  exact H0.
Qed.

Lemma demo_overwritten_reachable : hreachable demo_spare 30 demo_overwritten.
Proof.
  pose proof demo_delivered_reachable as H0.
  eapply hreach_step in H0; [|by apply (h_receive _ _ _ demo_read.1 (value demo_read.2 demo_read.1)
    demo_copy.1 demo_copy.2); [left|]].
  assert (meddles demo_copy.2 (reach demo_copy.1) (demo_overwrite demo_copy.1 demo_copy.2) (reach demo_copy.1)) as Hm.
  { apply (assign_meddles (mkSlice 5 0 2 3) 0 "x"); [refine (bool_decide_eq_true_1 (arrays (Some (mkSlice 5 0 2 3)) ⊆ reach demo_copy.1) _)|]; vm_compute; reflexivity. }
  eapply hreach_step in H0; [|by apply (h_meddle _ _ _ (demo_overwrite demo_copy.1 demo_copy.2) (reach demo_copy.1))].
  exact H0.
Qed.

Definition demo_hit : component * heap := cloneComponent demo_spare demo_entry.1 (h_heap demo_overwritten).

Lemma cache_heap_refines_witness :
  reachable 30 (abstract demo_overwritten) /\
  simulates 30 demo_overwritten (HHit "core" demo_hit.1) (handed_out demo_hit.1 demo_hit.2 demo_overwritten) /\
  value demo_hit.2 demo_hit.1 = scanComponent "core" demo_row.
Proof.
  destruct (cache_heap_refines demo_spare 30 demo_overwritten demo_overwritten_reachable) as [Hr Hsim].
  split; [exact Hr|]. split; [|vm_compute; reflexivity].
  apply Hsim. apply (h_hit _ _ demo_overwritten "core" demo_entry.1 30); reflexivity.
Defined.
