(* ===== verification/Http.v ===== *)
(** * HTTP: requests, responses, Basic credentials

    A request carries what the handlers read of it.  [r_header] is
    [r.Header.Get], [r_query] is [r.URL.Query().Get] (both "" when absent; [r_values] is [r.URL.Query()]),
    [r_cookie] is [r.Cookie].  [r_param] is the router's URL parameter and
    [r_operator] the operator the session middleware put into the context. *)
From Stdlib Require Import ZArith Lia Ascii.
From stdpp Require Import base gmap strings list.
From S2P Require Import Prelude GoStrings Errors State Encoding Effects.
Open Scope packyard_scope.

(** Package auth, operator.go. *)
Definition RoleAdmin : string := "admin".
Definition RoleReadonly : string := "readonly".

Record AuthOperator := mkAuthOperator { ao_ID : string; ao_Email : string; ao_Role : string }.

Definition IsAdmin (o : AuthOperator) : bool := ao_Role o =s RoleAdmin.

Record Request := mkRequest {
  r_method : string;
  r_path : string;
  r_header : string -> string;
  r_values : gmap string (list string);
  r_cookie : string -> option string;
  r_param : string -> string;
  r_remote : string;
  r_operator : option AuthOperator }.

Definition r_query (r : Request) (key : string) : string :=
  match r_values r !! key with Some (v :: _) => v | _ => "" end.

(** [auth.WithOperator] and [auth.OperatorFromContext]. *)
Definition WithOperator (op : AuthOperator) (r : Request) : Request :=
  mkRequest (r_method r) (r_path r) (r_header r) (r_values r) (r_cookie r) (r_param r)
    (r_remote r) (Some op).
Definition OperatorFromContext (r : Request) : option AuthOperator := r_operator r.

Definition UserAgent (r : Request) : string := r_header r "User-Agent".

(** ** Base64, standard alphabet with padding *)
Definition base64_digit (c : ascii) : option Z :=
  let b := byte_of c in
  (if (65 <=? b) && (b <=? 90) then Some (b - 65)
   else if (97 <=? b) && (b <=? 122) then Some (b - 71)
   else if (48 <=? b) && (b <=? 57) then Some (b + 4)
   else if b =? 43 then Some 62
   else if b =? 47 then Some 63
   else None)%Z.

(** Four characters at a time; padding only in the last group. *)
Fixpoint base64_groups (s : string) : option string :=
  match s with
  | EmptyString => Some EmptyString
  | String c0 (String c1 (String c2 (String c3 rest))) =>
      match base64_digit c0, base64_digit c1 with
      | Some a, Some b =>
          let x0 := of_byte (a * 4 + b / 16)%Z in
          if Ascii.eqb c2 "=" then
            if Ascii.eqb c3 "=" && String.eqb rest "" then Some (String x0 EmptyString) else None
          else match base64_digit c2 with
          | None => None
          | Some c =>
              let x1 := of_byte ((b mod 16) * 16 + c / 4)%Z in
              if Ascii.eqb c3 "=" then
                if String.eqb rest "" then Some (String x0 (String x1 EmptyString)) else None
              else match base64_digit c3, base64_groups rest with
              | Some d, Some t =>
                  Some (String x0 (String x1 (String (of_byte ((c mod 4) * 64 + d)%Z) t)))
              | _, _ => None
              end
          end
      | _, _ => None
      end
  | _ => None
  end.

Definition base64_decode (s : string) : option string := base64_groups (strip_newlines s).

(** [r.BasicAuth()]. *)
Definition BasicAuth (r : Request) : option (string * string) :=
  let auth := r_header r "Authorization" in
  if negb (sql_lower (stake 6 auth) =s "basic ") then None
  else match base64_decode (sdrop 6 auth) with
  | None => None
  | Some cs => cut_byte cs ":"
  end.

(** ** Responses

    [rs_explicit] says that the handler called WriteHeader.  A body is the
    value the handler passes to the JSON encoder. *)
Inductive SameSite := SameSiteLax | SameSiteStrict.

(** Every cookie of the service is HttpOnly, Secure and has Path "/".
    [sc_max_age] below zero deletes the cookie. *)
Record SetCookie := mkCookie {
  sc_name : string; sc_value : string; sc_max_age : option Z; sc_expires : option Z;
  sc_same_site : SameSite }.

Inductive Body :=
| BEmpty
| BRedirect (location : string)
| BError (code message : string)
| BKey (k : Key) (visibility : string)
| BKeys (l : list (Key * string))
| BAccount (a : Account)
| BAccounts (l : list Account)
| BOperator (o : Operator)
| BOperators (l : list Operator)
| BComponent (c : Component)
| BComponents (l : list Component)
| BComponentUpdate (c : Component) (removed : list string)
| BDeleteImpact (code message : string) (keys_revoked : Z) (series : option strings_t)
| BDeleted (keys_revoked : Z)
| BAudit (l : list Entry)
| BText (s : string).

Record Response := mkResponse {
  rs_status : Z; rs_explicit : bool; rs_cookies : list SetCookie;
  rs_headers : list (string * string); rs_body : Body }.

Definition Handler := Request -> Eff Response.

(** [w.Header().Set("Content-Type", ...); w.WriteHeader(status); Encode(b)]. *)
Definition reply (status : Z) (b : Body) : Response :=
  mkResponse status true [] [("Content-Type", "application/json")] b.

Definition writeError (status : Z) (code message : string) : Response :=
  reply status (BError code message).

Definition no_content : Response := mkResponse 204 true [] [] BEmpty.

(** [http.Redirect] with status 302 to an absolute path or URL. *)
Definition redirect (location : string) : Response :=
  mkResponse 302 true [] [("Location", location)] (BRedirect location).

(** Cookies and headers set before the header was written. *)
Definition set_cookies (cs : list SetCookie) (r : Response) : Response :=
  mkResponse (rs_status r) (rs_explicit r) (cs ++ rs_cookies r) (rs_headers r) (rs_body r).
Definition set_headers (hs : list (string * string)) (r : Response) : Response :=
  mkResponse (rs_status r) (rs_explicit r) (rs_cookies r) (hs ++ rs_headers r) (rs_body r).

(** The error code of a response, "" when it carries none. *)
Definition rs_code (r : Response) : string :=
  match rs_body r with BError c _ | BDeleteImpact c _ _ _ => c | _ => "" end.

(** A request with the given method, headers and cookies, for concrete runs. *)
Definition demo_request (method path : string) (headers cookies : list (string * string)) : Request :=
  let find l k := snd <$> List.find (fun kv => kv.1 =s k) l in
  mkRequest method path (fun k => default "" (find headers k)) ∅ (find cookies) (fun _ => "")
    "192.0.2.7:4711" None.
