(* ===== verification/ForwardAuth.v ===== *)
(** * The forward-auth handler: handler/forward_auth.go

    Traefik asks this handler about every subscriber request.  The handler
    finds the component record through an interface, [ComponentSource], that
    the SQLite store and the caching decorator both implement. *)
From Stdlib Require Import ZArith Lia Ascii.
From stdpp Require Import base gmap strings list relations.
From S2P Require Import Prelude GoStrings Errors Metrics State Tables Effects AccountStore.
From S2P Require Import ComponentStore StoreInvariant StoreMethods ComponentCache Http.
Open Scope packyard_scope.
Open Scope eff_scope.

(** ** Paths *)
Definition isHex (s : string) : bool :=
  string_forallb (fun c =>
    let b := byte_of c in
    (((48 <=? b) && (b <=? 57)) || ((97 <=? b) && (b <=? 102)) ||
     ((65 <=? b) && (b <=? 70)))%Z) s.

Definition isRegistryPing (path : string) : bool :=
  let p := TrimSuffixByte path "/" in (p =s "/v2") || (p =s "/oci/v2").

Definition nonempty (s : string) : option string := if s =s "" then None else Some s.

Definition extractComponent (path : string) : option string :=
  match SplitN (TrimPrefix path "/") "/" 5 with
  | p0 :: p1 :: rest =>
      if p0 =s "" then None
      else if (p0 =s "rpm") || (p0 =s "deb") then nonempty p1
      else if p0 =s "oci" then
        match rest with
        | p2 :: _ => if p1 =s "v2" then nonempty p2 else None
        | [] => None
        end
      else None
  | _ => None
  end.

(** ** The handler *)
(** The label of the request counter that is incremented. *)
Inductive outcome := denied_method | denied | denied_path | allowed_public | allowed | error.

Definition outcome_status (o : outcome) : Z :=
  match o with
  | denied_method => 405
  | denied => 401
  | denied_path => 404
  | allowed_public | allowed => 200
  | error => 503
  end.

Definition outcome_label (o : outcome) : string :=
  match o with
  | denied_method => "denied-method"
  | denied => "denied"
  | denied_path => "denied-path"
  | allowed_public => "allowed-public"
  | allowed => "allowed"
  | error => "error"
  end.

Record AuthResponse := mkAuthResponse {
  ar_status : Z; ar_label : outcome; ar_allow : option string (* the Allow header *) }.

Definition respond (o : outcome) : AuthResponse :=
  mkAuthResponse (outcome_status o) o
    (match o with denied_method => Some "GET, HEAD" | _ => None end).

(** [RequestsTotal.WithLabelValues(label).Inc()], and the answer. *)
Definition answer (o : outcome) : Eff AuthResponse :=
  meter (count_request (outcome_label o)) ;;; ret (respond o).

(** What the handler needs of the component store behind it, in a world that
    satisfies the source's own invariant: answers are current, looking up
    does not change the database, and without driver failures a lookup does
    not fail. *)
Class ComponentSource := {
  cs_get : string -> Eff (res Component);
  cs_inv : World -> Prop;
  cs_inv_local : forall w w', w_db w' = w_db w -> w_cache w' = w_cache w -> cs_inv w -> cs_inv w';
  cs_get_current : forall n w, cs_inv w ->
    cs_inv (cs_get n w).2 /\ w_db (cs_get n w).2 = w_db w /\
    current_answer n w (cs_get n w).1;
  cs_get_live : forall n w, no_faults w ->
    no_faults (cs_get n w).2 /\
    match (cs_get n w).1 with Ok _ => True | Err e => errors_is e ErrComponentNotFound = true end
}.

Section ForwardAuth.
Context `{SqlDriver} `{ComponentSource}.

(** The account gate, and the answer when it passes. *)
Definition account_gate (key : Key) : Eff AuthResponse :=
  account <- GetAccount (Key_AccountID key) ;;
  match account with
  | Err e => if errors_is e ErrAccountNotFound then answer denied
             else answer error
  | Ok a =>
      if Acc_Status a <>s AccountStatusActive then answer denied
      else
        (* fire-and-forget: a failure is logged *)
        IncrementUsage (Key_ID key) ;;;
        answer allowed
  end.

Definition check_credentials (r : Request) (requested : string) : Eff AuthResponse :=
  match BasicAuth r with
  | None => answer denied
  | Some (_, password) =>
      if negb (String.length password =? 64)%nat || negb (isHex password)
      then answer denied
      else
        k <- GetByValue password ;;
        match k with
        | Err e => if errors_is e ErrNotFound || errors_is e ErrRevoked
                   then answer denied else answer error
        | Ok key =>
            if Key_Component key <>s requested then answer denied
            else account_gate key
        end
  end.

(** Everything after the clock has been read. *)
Definition authorize (r : Request) : Eff AuthResponse :=
  let forwarded := r_header r "X-Forwarded-Method" in
  let method := if forwarded =s "" then r_method r else forwarded in
  if (method <>s "GET") && (method <>s "HEAD") then answer denied_method
  else
    let uri := r_header r "X-Forwarded-Uri" in
    if isRegistryPing uri then answer denied
    else match extractComponent uri with
    | None => answer denied_path
    | Some requested =>
        c <- cs_get requested ;;
        match c with
        | Err e => if errors_is e ErrComponentNotFound then answer denied
                   else answer error
        | Ok comp =>
            if Visibility comp =s "public" then answer allowed_public
            else check_credentials r requested
        end
    end.

(** The deferred function observes how long the request took. *)
Definition ServeHTTP (r : Request) : Eff AuthResponse :=
  start <- now ;;
  resp <- authorize r ;;
  stop <- now ;;
  meter (observe_duration (time_sub stop start)) ;;;
  ret resp.
End ForwardAuth.

(** ** The two component sources *)
Section Sources.
Context `{SqlDriver}.

Lemma GetComponent_live n w :
  no_faults w ->
  no_faults (GetComponent n w).2 /\
  match (GetComponent n w).1 with
  | Ok _ => True | Err e => errors_is e ErrComponentNotFound = true end.
Proof.
  intros Hn. rewrite GetComponent_run. simpl. split; [by apply no_faults_tick|].
  rewrite Hn. by destruct (components (w_db w) !! n).
Qed.

#[refine] Definition store_source : ComponentSource := {|
  cs_get := GetComponent;
  cs_inv := fun _ => True |}.
Proof.
  - done.
  - intros n w _. pose proof (GetComponent_answer n w) as Ha.
    rewrite GetComponent_run in *. done.
  - apply GetComponent_live.
Defined.

#[refine] Definition cached_source (ttl : Z) : ComponentSource := {|
  cs_get := CachedGetComponent ttl;
  cs_inv := coherent |}.
Proof.
  - intros w w' Hdb Hcache Hc n e. rewrite Hdb, Hcache. apply Hc.
  - apply CachedGetComponent_coherent.
  - intros n w Hn. unfold CachedGetComponent. rewrite bind_run. cbn [meter fst snd].
    change (no_faults (with_metrics (count_lookup (w_metrics w)) w)) in Hn.
    generalize dependent (with_metrics (count_lookup (w_metrics w)) w). clear w. intros w Hn.
    destruct (enabled ttl); cbn [negb];
      [|by apply GetComponent_live].
    rewrite bind_run, lookup_entry_run.
    assert (forall w', no_faults w' -> no_faults (fill ttl n w').2 /\
      match (fill ttl n w').1 with
      | Ok _ => True | Err e => errors_is e ErrComponentNotFound = true end) as Hfill.
    { intros w' Hn'. pose proof (GetComponent_live n w' Hn') as [Hf Hr].
      unfold fill. rewrite bind_run, bindR_run. unfold get_cache. cbn [fst snd].
      destruct (GetComponent n w') as [[c|e] w2]; cbn [fst snd] in *; [|done].
      by destruct (_ =s _). }
    destruct (cache_entries (w_cache w) !! n) as [e|]; [|by apply Hfill].
    destruct (_ <? _)%Z; cbn [fst snd]; [done|]. by apply (Hfill (with_cache _ _)).
Defined.
End Sources.
