(* ===== verification/StoreSpec.v ===== *)
(** * What the store's transactions promise

    The cascades are atomic and final, and an allowlist that has an active
    admin keeps one under every sequence of calls the API can make. *)
From Stdlib Require Import ZArith Lia.
From stdpp Require Import base gmap strings list relations sorting.
From S2P Require Import Prelude GoStrings Errors State Tables Effects AccountStore.
From S2P Require Import ComponentStore SessionStore OperatorStore AuditStore StoreInvariant.
From S2P Require Import StoreMethods Http ComponentCache ForwardAuth ForwardAuthSpec Fixtures.
Open Scope packyard_scope.
Open Scope eff_scope.

(** ** Revocation *)
(** The key no longer opens anything, now or after any sequence of calls. *)
Definition shut (db : Database) (pw : string) : Prop :=
  forall db', history db db' -> forall c, key_verdict db' c pw <> allowed.

Lemma inactive_shut db pw k :
  subscription_key db !! pw = Some k -> k_active k <> 1%Z -> shut db pw.
Proof.
  intros Hk Ha db' [Hh _ _ _] c. destruct (Hh _ _ Hk) as (k' & Hk' & _ & _ & _ & _ & _ & Ha' & _).
  destruct (key_verdict_cases db' c pw) as [Hv|[Hv|(_ & k2 & a & Hk2 & _ & Ha2 & _)]]; [by rewrite Hv..|].
  simplify_eq. lia.
Qed.

(** Revoking the keys a WHERE clause selects shuts each active key it matches. *)
Lemma deactivate_shut sel db db' pw k :
  subscription_key db' = update_where sel deactivate (subscription_key db) ->
  subscription_key db !! pw = Some k -> (k_active k = 1%Z -> sel pw k = true) -> shut db' pw.
Proof.
  intros Hdb Hk Hsel. eapply (inactive_shut _ _ (if sel pw k then deactivate k else k)).
  - by rewrite Hdb, lookup_update_where, Hk.
  - destruct (sel pw k) eqn:E; [done|]. intros Ha. by specialize (Hsel Ha).
Qed.

Section Cascades.
Context `{SqlDriver} `{UnicodeTables}.

Definition closed (a : account_row) : account_row :=
  mkAccountRow (a_email a) (a_org_name a) "deleted" (a_created_at a) (a_created_by a).

(** The database with the account closed and its keys revoked. *)
Definition cascade (id : string) (a : account_row) (db : Database) : Database :=
  set_accounts (<[id := closed a]> (accounts db))
    (set_keys (update_where (owned_active id) deactivate (subscription_key db)) db).

Lemma DeleteAccountWithCascade_run id w :
  match DeleteAccountWithCascade id w with
  | (Ok n, w') => exists a, id <> legacyAccountID /\ accounts (w_db w) !! id = Some a /\
      a_status a <> "deleted" /\ w_db w' = cascade id a (w_db w) /\
      n = Z.of_nat (count_where (owned_active id) (subscription_key (w_db w)))
  | (Err e, w') => w_db w' = w_db w /\ (no_faults w ->
      (id = legacyAccountID /\ errors_is e ErrLegacyAccountProtected = true) \/
      ((forall a, accounts (w_db w) !! id = Some a -> a_status a = "deleted") /\
       errors_is e ErrAccountNotFound = true))
  end.
Proof.
  unfold DeleteAccountWithCascade. destruct (id =s legacyAccountID) eqn:El.
  { apply String.eqb_eq in El as ->. cbn. auto. }
  apply String.eqb_neq in El. unfold with_tx. next_fault; [split; [done|live_contra]|].
  do 2 run_step. next_fault; [split; [done|live_contra]|].
  cbn [w_db tick_fault]. destruct (accounts (w_db w) !! id) as [a|] eqn:Ea; cbn [fmap option_fmap option_map].
  2:{ split; [done|]. intros _. by right. }
  unfold AccountStatusDeleted. destruct (a_status a =s "deleted") eqn:Ed; string_reflect.
  { split; [done|]. intros _. right. split; [|done]. intros; by simplify_eq. }
  do 3 run_step. next_fault; [split; [done|live_contra]|].
  cbn [sql_deactivate fst snd]. do 3 run_step. next_fault; [cbn; split; [done|live_contra]|].
  unfold sql_mark_deleted. cbn. rewrite Ea. cbn.
  next_fault; [cbn; split; [done|live_contra]|]. by exists a.
Qed.

(** Deleting a component revokes the keys scoped to it, in one step. *)
Definition component_cascade (n : string) (db : Database) : Database :=
  set_components (delete n (components db))
    (set_keys (update_where (scoped_active n) deactivate (subscription_key db)) db).

Lemma DeleteComponentWithRevoke_run n w :
  match DeleteComponentWithRevoke n w with
  | (Ok i, w') => is_Some (components (w_db w) !! n) /\ w_db w' = component_cascade n (w_db w) /\
      i = Z.of_nat (count_where (scoped_active n) (subscription_key (w_db w)))
  | (Err e, w') => w_db w' = w_db w /\ (no_faults w ->
      components (w_db w) !! n = None /\ errors_is e ErrComponentNotFound = true)
  end.
Proof.
  unfold DeleteComponentWithRevoke, with_tx. next_fault; [split; [done|live_contra]|].
  do 3 run_step. next_fault; [cbn; split; [done|live_contra]|].
  cbn [sql_deactivate fst snd]. do 3 run_step. next_fault; [cbn; split; [done|live_contra]|].
  cbn. destruct (components (w_db w) !! n) as [c|] eqn:Ec; cbn; [|done].
  next_fault; [cbn; split; [done|live_contra]|]. cbn. by split; eauto.
Qed.

Lemma RevokeKey_run id w :
  match RevokeKey id w with
  | (Ok _, w') => is_Some (subscription_key (w_db w) !! id) /\
      w_db w' = set_keys (update_where (fun k _ => k =s id) deactivate
                            (subscription_key (w_db w))) (w_db w)
  | (Err e, w') => w_db w' = w_db w /\ (no_faults w ->
      subscription_key (w_db w) !! id = None /\ errors_is e ErrNotFound = true)
  end.
Proof.
  unfold RevokeKey. do 3 run_step. next_fault; [cbn; split; [done|live_contra]|].
  cbn [sql_deactivate fst snd]. rewrite count_where_id.
  destruct (subscription_key (w_db w) !! id) as [k|] eqn:Ek; cbn; [by split; eauto|].
  rewrite update_where_none; [by destruct w as [[]]|].
  intros k a Hk. apply String.eqb_neq. congruence.
Qed.

Lemma RevokeComponentKeys_run n w :
  match RevokeComponentKeys n w with
  | (Ok i, w') => w_db w' =
      set_keys (update_where (scoped_active n) deactivate (subscription_key (w_db w))) (w_db w)
  | (Err e, w') => w_db w' = w_db w
  end.
Proof. unfold RevokeComponentKeys. do 2 run_step. by next_fault. Qed.

(** The operations that revoke the key [pw], of row [k], going from [w] to
    [w']: by its own id, by closing its account, by its component. *)
Inductive revokes (pw : string) (k : key_row) (w w' : World) : Prop :=
| by_key : RevokeKey pw w = (Ok tt, w') -> revokes pw k w w'
| by_account n : DeleteAccountWithCascade (k_account_id k) w = (Ok n, w') -> revokes pw k w w'
| by_scope n : RevokeComponentKeys (k_component k) w = (Ok n, w') -> revokes pw k w w'
| by_component n : DeleteComponentWithRevoke (k_component k) w = (Ok n, w') ->
    revokes pw k w w'.

Lemma revokes_shut pw k w w' :
  subscription_key (w_db w) !! pw = Some k -> revokes pw k w w' -> shut (w_db w') pw.
Proof.
  intros Hk [Hr|n Hr|n Hr|n Hr].
  - pose proof (RevokeKey_run pw w) as Hs. rewrite Hr in Hs. destruct Hs as [_ ->].
    eapply deactivate_shut; [done..|]. intros _. apply String.eqb_refl.
  - pose proof (DeleteAccountWithCascade_run (k_account_id k) w) as Hs. rewrite Hr in Hs.
    destruct Hs as (a & _ & _ & _ & -> & _). eapply deactivate_shut; [done..|].
    intros Ha. unfold owned_active. by rewrite String.eqb_refl, Ha.
  - pose proof (RevokeComponentKeys_run (k_component k) w) as Hs. rewrite Hr in Hs. rewrite Hs.
    eapply deactivate_shut; [done..|]. intros Ha. unfold scoped_active.
    by rewrite String.eqb_refl, Ha.
  - pose proof (DeleteComponentWithRevoke_run (k_component k) w) as Hs. rewrite Hr in Hs.
    destruct Hs as (_ & -> & _). eapply deactivate_shut; [done..|]. intros Ha.
    unfold scoped_active. by rewrite String.eqb_refl, Ha.
Qed.
End Cascades.

Section CascadeTheorems.
Context `{SqlDriver} `{UnicodeTables} (mail_ParseAddress : string -> bool).

(** C19. Revocation is final.  Once a key was revoked, by its id, with its
    account, or with its component, no later sequence of store calls, on
    whatever inputs and under whatever failures, makes it open any
    component again; in particular not re-activating the account, and not
    creating the component anew. *)
Theorem revocation_final pw k w w' cs r user c :
  subscription_key (w_db w) !! pw = Some k -> revokes pw k w w' ->
  BasicAuth r = Some (user, pw) ->
  ~ holds_key (w_db (run_calls mail_ParseAddress cs w').2) r c.
Proof.
  intros Hk Hr Hb (u & pw' & k' & a & Hb' & _ & _ & Hk' & Hread & Ha & Hc & Hacc & Hs).
  simplify_eq. pose proof (revokes_shut _ _ _ _ Hk Hr) as Hshut.
  pose proof (key_verdict_allowed _ _ _ _ _ Hk' Hread Ha eq_refl Hacc Hs) as Hopen.
  revert Hopen. apply Hshut, run_calls_sound.
Qed.

(** C21. Closing an account is one atomic step.  On success the account was
    an open one and not the seeded legacy account, its status is "deleted",
    exactly its active keys are revoked, nothing else changed, and the
    result counts them; on any error the database is untouched, and without
    driver failures the error says which: protected, or not found. *)
Theorem delete_account_cascade id w :
  match DeleteAccountWithCascade id w with
  | (Ok n, w') => exists a, id <> legacyAccountID /\ accounts (w_db w) !! id = Some a /\
      a_status a <> "deleted" /\ w_db w' = cascade id a (w_db w) /\
      n = Z.of_nat (count_where (owned_active id) (subscription_key (w_db w)))
  | (Err e, w') => w_db w' = w_db w /\ (no_faults w ->
      (id = legacyAccountID /\ errors_is e ErrLegacyAccountProtected = true) \/
      ((forall a, accounts (w_db w) !! id = Some a -> a_status a = "deleted") /\
       errors_is e ErrAccountNotFound = true))
  end.
Proof. apply DeleteAccountWithCascade_run. Qed.

(** Deleting a component with its keys is one atomic step: on success
    the component is gone and exactly the active keys scoped to it are
    revoked and counted; on any error, also when the delete fails after the
    revocation, the database is untouched. *)
Theorem delete_component_cascade n w :
  match DeleteComponentWithRevoke n w with
  | (Ok i, w') => is_Some (components (w_db w) !! n) /\ w_db w' = component_cascade n (w_db w) /\
      i = Z.of_nat (count_where (scoped_active n) (subscription_key (w_db w)))
  | (Err e, w') => w_db w' = w_db w /\ (no_faults w ->
      components (w_db w) !! n = None /\ errors_is e ErrComponentNotFound = true)
  end.
Proof. apply DeleteComponentWithRevoke_run. Qed.

(** Revoking a key that is already revoked succeeds: the statement has
    no [active = 1], so the row still counts as affected. *)
Theorem revoke_twice_succeeds id k w :
  no_faults w -> subscription_key (w_db w) !! id = Some k -> k_active k = 0%Z ->
  is_ok (RevokeKey id w).1 = true.
Proof.
  intros Hn Hk _. pose proof (RevokeKey_run id w) as Hs.
  destruct (RevokeKey id w) as [[u|e] w']; [done|]. destruct Hs as [_ Hs].
  destruct (Hs Hn). congruence.
Qed.
End CascadeTheorems.

(** ** Concrete runs *)
Definition after_revoke : World := (@RevokeKey sqlite_driver demo_key (demo_world demo_db)).2.

(** The demo key is revoked, the account re-activated: the key stays shut. *)
Lemma revocation_final_witness :
  ~ holds_key (w_db (@run_calls sqlite_driver ascii_tables (fun _ => true)
      [CUpdateAccount "acct" (mkAccountUpdate None None (Some "active"))] after_revoke).2)
      demo_read "core".
Proof.
  apply (@revocation_final sqlite_driver ascii_tables (fun _ => true) demo_key demo_key_row
    (demo_world demo_db) after_revoke _ demo_read "u").
  - vm_compute. reflexivity.
  - apply (@by_key sqlite_driver). unfold after_revoke.
    rewrite (surjective_pairing (RevokeKey demo_key (demo_world demo_db))).
    f_equal.
  - vm_compute. reflexivity.
Defined.

Lemma revoke_twice_succeeds_witness :
  is_ok (@RevokeKey sqlite_driver demo_key after_revoke).1 = true.
Proof.
  apply (@revoke_twice_succeeds sqlite_driver _ (deactivate demo_key_row)).
  - intros i. vm_compute. reflexivity.
  - vm_compute. reflexivity.
  - reflexivity.
Defined.
