(* ===== verification/OperatorSpec.v ===== *)
(** * The operator allowlist: at least one active admin, first and last logins *)
From Stdlib Require Import ZArith Lia.
From stdpp Require Import base gmap strings list relations.
From S2P Require Import Prelude GoStrings Errors State Tables Effects AccountStore.
From S2P Require Import ComponentStore SessionStore OperatorStore AuditStore StoreInvariant.
From S2P Require Import StoreMethods Fixtures.
Open Scope packyard_scope.
Open Scope eff_scope.

Definition has_admin (db : Database) : Prop :=
  exists id r, operators db !! id = Some r /\ active_admin id r = true.

(** What the API can call: the three unconditional updates of the interface
    have no caller outside the store. *)
Definition api_call (c : store_call) : bool :=
  match c with
  | CDisableOperator _ | CEnableOperator _ | CChangeOperatorRole _ _ => false
  | _ => true
  end.

Section Update.
Context `{SqlDriver} `{UnicodeTables}.

(** The write and the read back of an update, from a world at the same
    database. *)
Ltac write_and_read Er :=
  do 3 run_step; next_fault; [cbn; split; [done|live_contra]|];
  unfold sql_update_operator; cbn; rewrite Er; cbn;
  match goal with |- context [operator_check ?r'] => destruct (operator_check r') eqn:Ec end;
  cbn; [|split; [done|intros _; right; right; eauto]];
  do 3 run_step; next_fault; [cbn; split; [done|live_contra]|];
  cbn; rewrite lookup_insert_eq; cbn; next_fault; [cbn; split; [done|live_contra]|]; cbn.

Lemma UpdateOperatorAtomically_run id role status w :
  match UpdateOperatorAtomically id role status w with
  | (Ok (before, after), w') => exists r,
      let r' := set_role_status role status r in
      operators (w_db w) !! id = Some r /\ before = scanOperator id r /\
      after = scanOperator id r' /\ operator_check r' = true /\
      w_db w' = set_operators (<[id := r']> (operators (w_db w))) (w_db w) /\
      (active_admin id r = true -> active_admin id r' = false ->
       2 <= count_where active_admin (operators (w_db w)))
  | (Err e, w') => w_db w' = w_db w /\ (no_faults w ->
      (role = None /\ status = None /\ errors_is e ErrOperatorInvalid = true) \/
      (operators (w_db w) !! id = None /\ errors_is e ErrOperatorNotFound = true) \/
      (exists r, operators (w_db w) !! id = Some r /\
        ((active_admin id r = true /\ active_admin id (set_role_status role status r) = false /\
          count_where active_admin (operators (w_db w)) <= 1 /\
          errors_is e ErrOperatorSelfLockout = true) \/
         operator_check (set_role_status role status r) = false)))
  end.
Proof.
  unfold UpdateOperatorAtomically.
  destruct (match role, status with None, None => true | _, _ => false end) eqn:En.
  { destruct role, status; try done. cbn. auto. }
  match goal with |- context [with_tx _ _ _ ?b] => set (body := b) end.
  replace (match role with Some _ => _ | None => _ end) with
    (with_tx "update operator begin tx" "update operator commit" (fun _ => true) body)
    by (by destruct role, status).
  unfold with_tx. next_fault; [split; [done|live_contra]|]. subst body.
  do 2 run_step. next_fault; [split; [done|live_contra]|].
  cbn [w_db tick_fault]. destruct (operators (w_db w) !! id) as [r|] eqn:Er.
  2:{ cbn. split; [done|]. intros _. auto. }
  change (_ && negb _) with
    (active_admin id r && negb (active_admin id (set_role_status role status r))).
  destruct (active_admin id r) eqn:Ewas, (active_admin id (set_role_status role status r)) eqn:Ewill;
    cbn [andb negb].
  2:{ rewrite bindR_run, bindR_run, wrapE_run, query_run. cbn [fst snd]. next_fault; [cbn; split; [done|live_contra]|]. cbn [fst snd].
      destruct (_ <=? 1)%Z eqn:En1; cbn [fst snd ret fail].
      all: cbn [w_db tick_fault] in En1.
      { apply Z.leb_le in En1. split; [done|]. intros _. right; right. exists r.
        split; [done|]. left. repeat split; auto; lia. }
      apply Z.leb_gt in En1. write_and_read Er. exists r. repeat split; auto; lia. }
  all: run_step; cbn [ret fst snd]; write_and_read Er; exists r; repeat split; auto; congruence.
Qed.

(** ** Keeping an admin *)
Lemma has_admin_same db db' :
  operators db' = operators db -> has_admin db -> has_admin db'.
Proof. unfold has_admin. by intros ->. Qed.

Lemma has_admin_insert db id r :
  (forall r0, operators db !! id = Some r0 -> active_admin id r0 = true ->
    active_admin id r = true \/ 2 <= count_where active_admin (operators db)) ->
  has_admin db -> has_admin (set_operators (<[id := r]> (operators db)) db).
Proof.
  intros Hr (i & x & Hi & Hx). unfold has_admin. simpl.
  destruct (decide (i = id)) as [->|Hne].
  - destruct (Hr _ Hi Hx) as [Ha|Hc].
    + exists id, r. by rewrite lookup_insert_eq.
    + destruct (count_where_two _ _ id Hc) as (j & y & Hj & Hy & ?).
      exists j, y. by rewrite lookup_insert_ne by congruence.
  - exists i, x. by rewrite lookup_insert_ne by congruence.
Qed.

Lemma insert_operator_admin id r db a db' :
  sql_insert_operator id r db = Done a db' -> keeps has_admin db db'.
Proof.
  unfold sql_insert_operator. intros Hs. inv_stmt Hs.
  apply bool_decide_eq_false, eq_None_not_Some in E0.
  intros Hd. apply has_admin_insert; [|done]. intros r0 Hr0. congruence.
Qed.

Lemma update_operator_admin id guard upd db n db' :
  sql_update_operator id guard upd db = Done n db' ->
  (forall r, active_admin id (upd r) = active_admin id r) -> keeps has_admin db db'.
Proof.
  unfold sql_update_operator. intros Hs Hu. inv_stmt Hs; try done.
  intros Hd. apply has_admin_insert; [|done]. intros r0 Hr0 Ha. simplify_eq. left. by rewrite Hu.
Qed.

(** The statements on other tables. *)
Ltac other_table :=
  apply moves_sql; let Hs := fresh "Hs" in intros ? ? ? Hs;
  unfold sql_insert_account, sql_update_account, sql_mark_deleted, sql_deactivate,
    sql_increment, sql_insert_key, sql_insert_component, sql_delete_component,
    sql_update_component, sql_insert_session, sql_touch_session, sql_delete_session,
    sql_delete_operator_sessions, sql_insert_audit in Hs;
  inv_stmt Hs; intros Hd; by eapply has_admin_same, Hd.

Lemma UpdateOperatorAtomically_admin id role status :
  moves (keeps has_admin) (UpdateOperatorAtomically id role status).
Proof.
  intros w. pose proof (UpdateOperatorAtomically_run id role status w) as Hrun.
  destruct (UpdateOperatorAtomically id role status w) as [[[b a]|e] w']; cbn [snd].
  - destruct Hrun as (r & Hr & _ & _ & _ & -> & Hc). intros Hd. apply has_admin_insert; [|done].
    intros r0 Hr0 Ha. rewrite Hr in Hr0. injection Hr0 as <-.
    destruct (active_admin id (set_role_status role status r)); auto.
  - destruct Hrun as [-> _]. by intros ?.
Qed.

Context (mail_ParseAddress : string -> bool).

Lemma api_call_admin c :
  api_call c = true -> moves (keeps has_admin) (run_call mail_ParseAddress c).
Proof.
  intros Hc. destruct c; try discriminate Hc; cbn [run_call]; unfold ignore;
    try apply moves_bind; try (intros ?; apply moves_ret); auto with packyard;
    try (unfold CreateAccount, generateAccountID, UpdateAccount, DeleteAccountWithCascade,
      CreateKey, CreateKeyForAccount, generateKeyValue, RevokeKey, IncrementUsage,
      CreateComponent, DeleteComponent, RevokeComponentKeys, DeleteComponentWithRevoke,
      UpdateComponent, no_rows, CreateSession, generateSessionID, TouchSession, DeleteSession,
      DeleteOperatorSessions, Write; solve_moves; other_table).
  - unfold AllowlistOperator, generateOperatorID. solve_moves. apply moves_sql.
    intros ? ? ?. apply insert_operator_admin.
  - apply UpdateOperatorAtomically_admin.
  - unfold UpdateLastLogin. solve_moves. apply moves_sql. intros ? ? ? Hs.
    by eapply update_operator_admin.
  - unfold UpdateLoginProvider. solve_moves. apply moves_sql. intros ? ? ? Hs.
    by eapply update_operator_admin.
  - unfold BootstrapOperatorFromEnv, generateOperatorID. solve_moves. apply moves_sql.
    intros ? ? ?. apply insert_operator_admin.
Qed.

Lemma api_calls_admin cs :
  forallb api_call cs = true -> moves (keeps has_admin) (run_calls mail_ParseAddress cs).
Proof.
  induction cs as [|c cs IH]; cbn [forallb run_calls]; intros Hc; [apply moves_ret|].
  string_reflect. apply moves_bind; [by apply api_call_admin|intros _; auto].
Qed.

(** Nobody can be locked out of administration: from a database with an
    active admin, every sequence of the store calls the API makes, on
    whatever inputs, in whatever order and under whatever failures, leaves
    at least one active admin. *)
Theorem admin_never_lost cs w :
  forallb api_call cs = true -> has_admin (w_db w) ->
  has_admin (w_db (run_calls mail_ParseAddress cs w).2).
Proof. intros Hc. by apply api_calls_admin. Qed.

(** Changing an operator's role or status reports the exact transition
    it made, in one atomic step; it never removes the last active admin, and
    on every error nothing changed.  Without driver failures the errors are:
    an empty change, an unknown operator, the lockout guard, and only
    otherwise a value the schema's CHECK refuses. *)
Theorem update_operator_transition id role status w :
  match UpdateOperatorAtomically id role status w with
  | (Ok (before, after), w') => exists r,
      let r' := set_role_status role status r in
      operators (w_db w) !! id = Some r /\ before = scanOperator id r /\
      after = scanOperator id r' /\ operator_check r' = true /\
      w_db w' = set_operators (<[id := r']> (operators (w_db w))) (w_db w) /\
      (active_admin id r = true -> active_admin id r' = false ->
       2 <= count_where active_admin (operators (w_db w)))
  | (Err e, w') => w_db w' = w_db w /\ (no_faults w ->
      (role = None /\ status = None /\ errors_is e ErrOperatorInvalid = true) \/
      (operators (w_db w) !! id = None /\ errors_is e ErrOperatorNotFound = true) \/
      (exists r, operators (w_db w) !! id = Some r /\
        ((active_admin id r = true /\ active_admin id (set_role_status role status r) = false /\
          count_where active_admin (operators (w_db w)) <= 1 /\
          errors_is e ErrOperatorSelfLockout = true) \/
         operator_check (set_role_status role status r) = false)))
  end.
Proof. apply UpdateOperatorAtomically_run. Qed.
End Update.

Lemma admin_never_lost_witness :
  has_admin (w_db (@run_calls sqlite_driver ascii_tables (fun _ => true)
    [CUpdateOperator "op" None (Some "disabled"); CUpdateOperator "op" (Some "readonly") None]
    (demo_world demo_db)).2).
Proof.
  apply (@admin_never_lost sqlite_driver ascii_tables).
  - reflexivity.
  - exists "op", demo_admin. split; vm_compute; reflexivity.
Defined.
