(* ===== verification/RequestMeta.v ===== *)
(** * What is recorded about a request

    The source address (three variants, in middleware/ratelimit.go,
    audit/log.go and handler/auth.go), the bounds on operator-controlled text,
    log-line sanitising (logsafe.go), and the audit entry built from a
    request (audit/log.go).  [ParseIP] and [SplitHostPort] are those of package
    net. *)
From Stdlib Require Import ZArith Lia Ascii.
From stdpp Require Import base gmap strings list.
From S2P Require Import Prelude GoStrings Errors State Effects AccountStore AuditStore Http.
Open Scope packyard_scope.
Open Scope eff_scope.

(** ** Package net *)
Definition is_hex_digit (c : ascii) : bool :=
  is_digit c || ((97 <=? byte_of c)%Z && (byte_of c <=? 102)%Z) ||
  ((65 <=? byte_of c)%Z && (byte_of c <=? 70)%Z).

Fixpoint decimal (acc : Z) (s : string) : Z :=
  match s with EmptyString => acc | String c s => decimal (acc * 10 + (byte_of c - 48))%Z s end.

(** One field of a dotted quad: digits, no leading zero, at most 255. *)
Definition octet (s : string) : bool :=
  string_forallb is_digit s && (s <>s "") && (decimal 0 s <=? 255)%Z &&
  ((s =s "0") || negb (HasPrefix s "0")).

Definition ipv4 (s : string) : bool :=
  let fs := split_byte s "." in (length fs =? 4)%nat && forallb octet fs.

(** The leading hexadecimal digits, and the rest. *)
Fixpoint span_hex (s : string) : string * string :=
  match s with
  | String c s' =>
      if is_hex_digit c then let '(a, b) := span_hex s' in (String c a, b) else (EmptyString, s)
  | EmptyString => (EmptyString, EmptyString)
  end.

(** The loop of [netip.parseIPv6]: [i] bytes are filled, [ell] tells whether a
    [::] was seen.  A turn fills two bytes or more and the loop stops at 16,
    so eight turns are enough. *)
Fixpoint ipv6_groups (fuel : nat) (i : Z) (ell : bool) (s : string) : bool :=
  let finish i ell rest :=
    (rest =s "") && (if (i <? 16)%Z then ell else negb ell) in
  match fuel with
  | O => finish i ell s
  | S fuel =>
      if (16 <=? i)%Z then finish i ell s
      else
        let '(h, rest) := span_hex s in
        if (h =s "") || (4 <? String.length h)%nat then false
        else match rest with
        | String "." _ =>
            if (negb ell && negb (i =? 12)%Z) || (16 <? i + 4)%Z then false
            else ipv4 s && finish (i + 4)%Z ell ""
        | EmptyString => finish (i + 2)%Z ell ""
        | String ":" EmptyString => false
        | String ":" (String ":" rest) =>
            if ell then false
            else if rest =s "" then finish (i + 2)%Z true ""
            else ipv6_groups fuel (i + 2)%Z true rest
        | String ":" rest => ipv6_groups fuel (i + 2)%Z ell rest
        | _ => false
        end
  end.

Definition ipv6 (s : string) : bool :=
  if HasPrefix s "::" then
    if s =s "::" then true else ipv6_groups 8 0 true (sdrop 2 s)
  else ipv6_groups 8 0 false s.

(** [net.ParseIP(s) != nil]: an address without a zone. *)
Definition ParseIP (s : string) : bool :=
  if (0 <=? IndexByte s "%")%Z then false
  else
    let dot := IndexByte s "." in let colon := IndexByte s ":" in
    if (0 <=? dot)%Z && ((colon <? 0)%Z || (dot <? colon)%Z) then ipv4 s
    else if (0 <=? colon)%Z then ipv6 s
    else false.

(** What precedes the last [c]. *)
Fixpoint cut_last (s : string) (c : ascii) : option (string * string) :=
  match s with
  | EmptyString => None
  | String d s =>
      match cut_last s c with
      | Some (a, b) => Some (String d a, b)
      | None => if Ascii.eqb d c then Some (EmptyString, s) else None
      end
  end.

(** The host of [net.SplitHostPort], [None] for an error. *)
Definition SplitHostPort (hostport : string) : option string :=
  match cut_last hostport ":" with
  | None => None
  | Some (before, port) =>
      if HasPrefix hostport "[" then
        match cut_byte hostport "]" with
        | None => None
        | Some (bracketed, after) =>
            (* the first ']' sits just before the last ':' *)
            if negb (before =s bracketed +:+ "]") then None
            else
              let host := sdrop 1 bracketed in
              if (0 <=? IndexByte (sdrop 1 hostport) "[")%Z || (0 <=? IndexByte after "]")%Z
              then None else Some host
        end
      else if (0 <=? IndexByte before ":")%Z then None
      else if (0 <=? IndexByte hostport "[")%Z || (0 <=? IndexByte hostport "]")%Z then None
      else Some before
  end.

(** ** The source address *)
(** The text before the first comma, or all of it. *)
Definition leftmost (xff : string) : string :=
  match cut_byte xff "," with Some (t, _) => t | None => xff end.

(** middleware/ratelimit.go *)
Definition ClientIP (r : Request) : string :=
  let xff := r_header r "X-Forwarded-For" in
  let remote := match SplitHostPort (r_remote r) with Some host => host | None => r_remote r end in
  if xff =s "" then remote
  else
    let token := TrimSpace (leftmost xff) in
    if (token <>s "") && ParseIP token then token else remote.

(** audit/log.go *)
Definition audit_clientIP (r : Request) : string :=
  let xff := r_header r "X-Forwarded-For" in
  if xff =s "" then r_remote r else TrimSpace (leftmost xff).

Definition is_blank (c : ascii) : bool := (byte_of c =? 32)%Z || (byte_of c =? 9)%Z.

Fixpoint trim_left_blank (s : string) : string :=
  match s with
  | String c s' => if is_blank c then trim_left_blank s' else s
  | EmptyString => EmptyString
  end.

(** handler/auth.go, [trimSpace]: spaces and tabs only. *)
Definition trimSpace (s : string) : string :=
  string_rev (trim_left_blank (string_rev (trim_left_blank s))).

(** handler/auth.go *)
Definition handler_clientIP (r : Request) : string :=
  let xff := r_header r "X-Forwarded-For" in
  if xff =s "" then r_remote r else trimSpace (leftmost xff).

(** ** Bounded text *)
Definition AuditFieldMaxLen : Z := 256.
Definition auditPathMaxLen : Z := 256.

Definition ellipsis : string := bytes [226; 128; 166]%Z.

Definition truncate (s : string) (maxLen : Z) : string :=
  if (maxLen <=? 0)%Z then s
  else if (Z.of_nat (length (runes s)) <=? maxLen)%Z then s
  else of_runes (take (Z.to_nat maxLen) (runes s)) +:+ ellipsis.

Definition TruncateAuditField (s : string) : string := truncate s AuditFieldMaxLen.

(** logsafe.go, [String]. *)
Definition logsafe_String (s : string) : string :=
  let s := ReplaceByte s (of_byte 13) (backquoted "r") in
  ReplaceByte s (of_byte 10) (backquoted "n").

(** ** Audit entries *)
(** An entry a caller builds: the id and the time are the database's. *)
Definition new_entry (operator_id action target_type target_id : string) (d : details) : Entry :=
  mkEntry 0 zero_time operator_id action target_type target_id d "" "".

Section WriteFromRequest.
Context `{SqlDriver}.

Definition WriteFromRequest (r : Request) (e : Entry) : Eff unit :=
  let ip := if E_IP e =s "" then audit_clientIP r else E_IP e in
  let ua := if E_UserAgent e =s "" then UserAgent r else E_UserAgent e in
  let given := TrimSpace (E_OperatorID e) in
  let operator_id :=
    if given =s "" then
      match OperatorFromContext r with
      | Some op => if ao_ID op <>s "" then ao_ID op else given
      | None => given
      end
    else given in
  Write (mkEntry (E_ID e) (E_Ts e) operator_id (E_Action e) (E_TargetType e) (E_TargetID e)
           (E_Details e) ip ua).
End WriteFromRequest.

(** ** Facts *)
Lemma ReplaceByte_lacks s c by_ d :
  lacks d by_ = true -> (d = c \/ lacks d s = true) -> lacks d (ReplaceByte s c by_) = true.
Proof.
  intros Hby. induction s as [|x s IH]; intros Hs; [done|]. cbn [ReplaceByte].
  assert (d = c \/ lacks d s = true) as Htl.
  { destruct Hs as [?|Hs]; [by left|right]. unfold lacks in *. simpl in Hs.
    by apply andb_true_iff in Hs as [_ Hs]. }
  destruct (Ascii.eqb x c) eqn:E.
  - rewrite lacks_app, Hby. by apply IH.
  - specialize (IH Htl). unfold lacks in *. simpl. rewrite IH, andb_true_r.
    destruct Hs as [->|Hs]; [by rewrite E|]. simpl in Hs. by apply andb_true_iff in Hs as [Hs _].
Qed.

(** A value that went through [logsafe.String] starts no new log line. *)
Lemma logsafe_lines s :
  lacks (of_byte 10) (logsafe_String s) = true /\ lacks (of_byte 13) (logsafe_String s) = true.
Proof.
  unfold logsafe_String. split; apply ReplaceByte_lacks; try done; [by left|right].
  apply ReplaceByte_lacks; [done|by left].
Qed.

(** The length bound in runes. *)
Lemma truncate_runes s n :
  (0 < n)%Z ->
  truncate s n = s /\ (Z.of_nat (length (runes s)) <= n)%Z \/
  exists l, truncate s n = of_runes l +:+ ellipsis /\ Z.of_nat (length l) = n /\ l `prefix_of` runes s.
Proof.
  intros Hn. unfold truncate. destruct (n <=? 0)%Z eqn:E0; [lia|].
  destruct (_ <=? n)%Z eqn:E; [left|right].
  - apply Z.leb_le in E. done.
  - apply Z.leb_gt in E. eexists. split; [done|]. split; [|apply prefix_take].
    rewrite length_take. lia.
Qed.
