(* ===== verification/Url.v ===== *)
(** * Package net/url: [url.Parse], and the host and port of a URL

    The parser of Go 1.26, as far as the service reads its result: the scheme,
    the host, the path, the query and the fragment.  The user information is
    checked and dropped. *)
From Stdlib Require Import ZArith Lia Ascii.
From stdpp Require Import base gmap strings list.
From S2P Require Import Prelude GoStrings State Encoding RequestMeta.
Open Scope packyard_scope.

Record URL := mkURL {
  u_Scheme : string; u_Host : string; u_Path : string; u_RawQuery : string; u_Fragment : string }.

(** ** Escapes *)
(** Decodes the escapes whose value [esc] allows; the other characters are
    those [chr] allows. *)
Fixpoint unescape (esc : Z -> bool) (chr : ascii -> bool) (s : string) : option string :=
  match s with
  | EmptyString => Some EmptyString
  | String c s1 =>
      if (byte_of c =? 37)%Z then
        match s1 with
        | String h (String l s2) =>
            match hex_value h, hex_value l with
            | Some h, Some l =>
                let v := (h * 16 + l)%Z in
                if esc v then String (of_byte v) <$> unescape esc chr s2 else None
            | _, _ => None
            end
        | _ => None
        end
      else if chr c then String c <$> unescape esc chr s1 else None
  end.

(** Characters a host has unescaped: letters, digits, the sub-delimiters, the
    brackets and the colon of an address, and what no escape could spell. *)
Definition host_char (c : ascii) : bool :=
  unreserved c ||
  existsb (Ascii.eqb c) ["!"; "$"; "&"; "'"; "("; ")"; "*"; "+"; ","; ";"; "="; ":"; "["; "]"; "<"; ">"; of_byte 34]%char.

Definition any_escape (_ : Z) : bool := true.
Definition any_char (_ : ascii) : bool := true.
Definition host_literal (c : ascii) : bool := negb (is_ascii_char c) || host_char c.
(** In a host, escapes are for bytes outside ASCII, and for the percent sign. *)
Definition host_escape (v : Z) : bool := (128 <=? v)%Z || (v =? 37)%Z.
Definition zone_escape (v : Z) : bool := (v =? 37)%Z || (v =? 32)%Z || host_char (of_byte v).

(** ** The parts of an authority *)
Definition validOptionalPort (p : string) : bool :=
  match p with
  | EmptyString => true
  | String c ds => Ascii.eqb c ":" && string_forallb is_digit ds
  end.

Definition userinfo_char (c : ascii) : bool :=
  unreserved c ||
  existsb (Ascii.eqb c) [":"; "!"; "$"; "&"; "'"; "("; ")"; "*"; "+"; ","; ";"; "="; "%"; "@"]%char.

(** Where the zone of an address begins: at the first [%25]. *)
Fixpoint cut_zone (s : string) : string * string :=
  match s with
  | EmptyString => (EmptyString, EmptyString)
  | String c s' =>
      if HasPrefix s "%25" then (EmptyString, s)
      else let '(a, b) := cut_zone s' in (String c a, b)
  end.

(** [netip.ParseAddr], not IPv4: an IPv6 address, with a zone of at least one
    character or without. *)
Definition ip_literal (s : string) : bool :=
  match cut_byte s "%" with
  | Some (addr, zone) => ipv6 addr && (zone <>s "")
  | None => ipv6 s
  end.

Definition unescape_host : string -> option string := unescape host_escape host_literal.

(** A bracketed address, then a port. *)
Definition parse_literal (s : string) : option string :=
  match cut_last s "]" with
  | None => None
  | Some (inside, colonPort) =>
      if negb (validOptionalPort colonPort) then None
      else
        let '(a, z) := cut_zone inside in
        match unescape_host a, unescape zone_escape host_literal z with
        | Some a, Some z =>
            if ip_literal (a +:+ z) then Some ("[" +:+ a +:+ z +:+ "]" +:+ colonPort) else None
        | _, _ => None
        end
  end.

(** A name, then a port.  For the schemes of PostgreSQL only the last colon
    counts. *)
Definition parse_name (scheme s : string) : option string :=
  let cut := if one_of ["postgresql"; "postgres"] scheme then cut_last s ":" else cut_byte s ":" in
  match cut with
  | Some (_, port) => if string_forallb is_digit port then unescape_host s else None
  | None => unescape_host s
  end.

Definition parseHost (scheme s : string) : option string :=
  match cut_last s "[" with
  | Some (EmptyString, literal) => parse_literal literal
  | Some _ => None
  | None => parse_name scheme s
  end.

(** Only whether it is well-formed. *)
Definition userinfo_ok (s : string) : bool :=
  let part p := match unescape any_escape any_char p with Some _ => true | None => false end in
  string_forallb userinfo_char s &&
  match cut_byte s ":" with Some (user, password) => part user && part password | None => part s end.

Definition parseAuthority (scheme s : string) : option string :=
  match cut_last s "@" with
  | None => parseHost scheme s
  | Some (userinfo, h) =>
      match parseHost scheme h with
      | Some host => if userinfo_ok userinfo then Some host else None
      | None => None
      end
  end.

(** ** Parse *)
Definition scheme_letter (c : ascii) : bool :=
  let b := byte_of c in ((97 <=? b) && (b <=? 122) || (65 <=? b) && (b <=? 90))%Z.
Definition scheme_tail (c : ascii) : bool :=
  is_digit c || existsb (Ascii.eqb c) ["+"; "-"; "."]%char.

(** The scheme and what follows its colon, if the text begins with one. *)
Fixpoint scan_scheme (s : string) : option (string * string) :=
  match s with
  | EmptyString => None
  | String c s' =>
      if Ascii.eqb c ":" then Some (EmptyString, s')
      else if scheme_letter c || scheme_tail c then
        match scan_scheme s' with Some (a, b) => Some (String c a, b) | None => None end
      else None
  end.

(** [None] is the error: a colon and nothing before it. *)
Definition getScheme (s : string) : option (string * string) :=
  match s with
  | String c _ =>
      if Ascii.eqb c ":" then None
      else if scheme_tail c then Some (EmptyString, s)
      else match scan_scheme s with Some r => Some r | None => Some (EmptyString, s) end
  | EmptyString => Some (EmptyString, EmptyString)
  end.

Definition cut_or (s : string) (c : ascii) : string * string :=
  match cut_byte s c with Some r => r | None => (s, EmptyString) end.

(** The authority ends before the first slash. *)
Fixpoint split_authority (s : string) : string * string :=
  match s with
  | EmptyString => (EmptyString, EmptyString)
  | String c s' =>
      if Ascii.eqb c "/" then (EmptyString, s)
      else let '(a, b) := split_authority s' in (String c a, b)
  end.

Definition no_control (c : ascii) : bool := (32 <=? byte_of c)%Z && negb (byte_of c =? 127)%Z.

Definition with_path (scheme host rest query : string) : option URL :=
  (fun path => mkURL scheme host path query "") <$> unescape any_escape any_char rest.

(** The text without its fragment. *)
Definition parse_plain (raw : string) : option URL :=
  if negb (string_forallb no_control raw) then None
  else if raw =s "*" then Some (mkURL "" "" "*" "" "")
  else match getScheme raw with
  | None => None
  | Some (sch, rest) =>
      let scheme := sql_lower sch in
      let '(rest, query) := cut_or rest "?" in
      if negb (HasPrefix rest "/") then
        if scheme <>s "" then Some (mkURL scheme "" "" query "")
        else if Contains (cut_or rest "/").1 ":" then None
        else with_path scheme "" rest query
      else if ((scheme <>s "") || negb (HasPrefix rest "///")) && HasPrefix rest "//" then
        let '(authority, rest) := split_authority (sdrop 2 rest) in
        match parseAuthority scheme authority with
        | Some host => with_path scheme host rest query
        | None => None
        end
      else with_path scheme "" rest query
  end.

Definition url_Parse (raw : string) : option URL :=
  let '(u, frag) := cut_or raw "#" in
  match parse_plain u with
  | None => None
  | Some url =>
      if frag =s "" then Some url
      else (fun f => mkURL (u_Scheme url) (u_Host url) (u_Path url) (u_RawQuery url) f) <$>
           unescape any_escape any_char frag
  end.

(** ** Host and port *)
Definition splitHostPort (hostPort : string) : string * string :=
  let '(host, port) :=
    match cut_last hostPort ":" with
    | Some (h, p) => if string_forallb is_digit p then (h, p) else (hostPort, "")
    | None => (hostPort, "")
    end in
  match cut_last host "]" with
  | Some (inside, EmptyString) => if HasPrefix host "[" then (sdrop 1 inside, port) else (host, port)
  | _ => (host, port)
  end.

Definition Hostname (u : URL) : string := (splitHostPort (u_Host u)).1.
Definition Port (u : URL) : string := (splitHostPort (u_Host u)).2.

Definition url_view (s : string) : option (string * string * string * string * string * string) :=
  (fun u => (u_Scheme u, Hostname u, Port u, u_Path u, u_RawQuery u, u_Fragment u)) <$> url_Parse s.

Example url_parts : url_view "HTTPS://user:pw@Admin.example.org:8443/a%20b?q=1#f%2F" =
  Some ("https", "Admin.example.org", "8443", "/a b", "q=1", "f/").
Proof. vm_compute. reflexivity. Qed.
Example url_literal : url_view "http://[fe80::1%25eth0]:80" = Some ("http", "fe80::1%eth0", "80", "", "", "").
Proof. vm_compute. reflexivity. Qed.
Example url_relative : url_view "//host/p" = Some ("", "host", "", "/p", "", "").
Proof. vm_compute. reflexivity. Qed.
Example url_opaque : url_view "mailto:a@b" = Some ("mailto", "", "", "", "", "").
Proof. vm_compute. reflexivity. Qed.
Example url_refused :
  map url_Parse ["http://a:80:80/"; "http://a:x/"; "http://[::1"; "http://a%41/"; ":foo"; "a:b:c"; "1:2";
                 "http://x y/"; "http://[1.2.3.4]/"; "http://u ser@h/"; "http://a[::1]/"] =
    map (fun b : bool => if b then Some (mkURL "a" "" "" "" "") else None)
      [false; false; false; false; false; true; false; false; false; false; false].
Proof. vm_compute. reflexivity. Qed.
