(* ===== verification/OAuthState.v ===== *)
(** * The OAuth state store: auth/state.go

    A map from opaque handles to per-flow secrets.  [Put], [Consume] and [reap]
    are the critical sections under the store's mutex, as functions of the map
    and the time [s.now()] returned; any interleaving of callers and reaper is
    a sequence of them. *)
From Stdlib Require Import ZArith Lia.
From stdpp Require Import base gmap strings list sorting.
From S2P Require Import Prelude GoStrings Errors State Tables Effects Fixtures.
Open Scope packyard_scope.
Open Scope eff_scope.

Definition StateTTL : Z := 15 * Minute.

(** [entry.Created.IsZero()]. *)
Definition stamp_entry (t : Z) (e : StateEntry) : StateEntry :=
  if (Created e =? zero_time)%Z
  then mkStateEntry (State_ e) (CodeVerifier e) (Provider e) t else e.

Definition Put (t : Z) (handle : string) (e : StateEntry) (s : gmap string StateEntry) :
    gmap string StateEntry :=
  <[handle := stamp_entry t e]> s.

Definition Consume (t : Z) (handle : string) (s : gmap string StateEntry) :
    res StateEntry * gmap string StateEntry :=
  match s !! handle with
  | None => (Err (Sentinel ErrStateNotFound), s)
  | Some e =>
      (if (StateTTL <? time_sub t (Created e))%Z then Err (Sentinel ErrStateNotFound) else Ok e,
       delete handle s)
  end.

Definition reap (t : Z) (s : gmap string StateEntry) : gmap string StateEntry :=
  filter (fun kv => (t - StateTTL <= Created kv.2)%Z) s.

(** ** In the handlers' world *)
Definition state_put (handle : string) (e : StateEntry) : Eff unit := fun w =>
  if (Created e =? zero_time)%Z
  then (tt, with_states (Put (w_clock w 0) handle e (w_states w)) (tick_clock w))
  else (tt, with_states (Put 0 handle e (w_states w)) w).

Definition state_consume (handle : string) : Eff (res StateEntry) := fun w =>
  match w_states w !! handle with
  | None => (Err (Sentinel ErrStateNotFound), w)
  | Some _ =>
      let '(r, s) := Consume (w_clock w 0) handle (w_states w) in
      (r, with_states s (tick_clock w))
  end.

(** [RandomHex], without the wrapping the store's generators add. *)
Definition RandomHex (n : nat) : Eff (res string) := rand_hex n.

Section StateMoves.
Context {R : relation Database} `{!PreOrder R}.

Lemma state_put_moves handle e : moves R (state_put handle e).
Proof. apply moves_local. intros w. unfold state_put. by destruct (_ =? _)%Z. Qed.

Lemma state_consume_moves handle : moves R (state_consume handle).
Proof.
  apply moves_local. intros w. unfold state_consume.
  destruct (_ !! _); [|done]. by destruct (Consume _ _ _).
Qed.
End StateMoves.

#[export] Hint Resolve state_put_moves state_consume_moves : packyard.

(** ** Histories *)
Inductive op := OPut (t : Z) (handle : string) (e : StateEntry)
| OConsume (t : Z) (handle : string)
| OReap (t : Z).

Definition op_time (o : op) : Z :=
  match o with OPut t _ _ | OConsume t _ | OReap t => t end.

Definition run_op (o : op) (s : gmap string StateEntry) : gmap string StateEntry :=
  match o with
  | OPut t h e => Put t h e s
  | OConsume t h => (Consume t h s).2
  | OReap t => reap t s
  end.

Definition run_ops (os : list op) (s : gmap string StateEntry) : gmap string StateEntry :=
  fold_left (fun s o => run_op o s) os s.

(** The abstract store has no reaper: it remembers what was put last under a
    handle and not consumed since. *)
Definition unspent (h : string) (os : list op) : option StateEntry :=
  fold_left (fun acc o =>
    match o with
    | OPut t h' e => if h' =s h then Some (stamp_entry t e) else acc
    | OConsume _ h' => if h' =s h then None else acc
    | OReap _ => acc
    end) os None.

Definition promised (t : Z) (h : string) (os : list op) : res StateEntry :=
  match unspent h os with
  | Some e => if (t - Created e <=? StateTTL)%Z then Ok e else Err (Sentinel ErrStateNotFound)
  | None => Err (Sentinel ErrStateNotFound)
  end.

(** The times of a history, none later than [now]. *)
Definition in_order (os : list op) (now : Z) : Prop :=
  StronglySorted Z.le (map op_time os) /\ Forall (fun t => t <= now)%Z (map op_time os).

Lemma in_order_snoc os o now :
  in_order (os ++ [o]) now -> in_order os (op_time o) /\ (op_time o <= now)%Z.
Proof.
  unfold in_order. rewrite map_app, Forall_app. intros [Hs [_ Hb]].
  inversion Hb; subst. split; [|done].
  apply StronglySorted_app in Hs as (Hall & Hs & _). split; [done|].
  apply Forall_forall. intros t Ht. apply Hall; [done|]. by apply list_elem_of_singleton.
Qed.

(** An absent entry was spent, or reaped when it was already too old. *)
Definition simulates (now : Z) (os : list op) (s : gmap string StateEntry) : Prop :=
  forall h, match s !! h with
  | Some e => unspent h os = Some e
  | None => forall e, unspent h os = Some e -> (Created e < now - StateTTL)%Z
  end.

Lemma unspent_snoc h os o :
  unspent h (os ++ [o]) =
    match o with
    | OPut t h' e => if h' =s h then Some (stamp_entry t e) else unspent h os
    | OConsume _ h' => if h' =s h then None else unspent h os
    | OReap _ => unspent h os
    end.
Proof. unfold unspent. by rewrite fold_left_app. Qed.

Lemma simulates_later now now' os s :
  (now <= now')%Z -> simulates now os s -> simulates now' os s.
Proof.
  intros Hle Hs h. specialize (Hs h). destruct (s !! h); [done|].
  intros e He. specialize (Hs e He). lia.
Qed.

Lemma run_op_simulates os o s :
  simulates (op_time o) os s -> simulates (op_time o) (os ++ [o]) (run_op o s).
Proof.
  intros Hs h. rewrite unspent_snoc. specialize (Hs h). destruct o as [t h' e|t h'|t]; cbn [run_op].
  - unfold Put. rewrite lookup_insert.
    destruct (String.eqb_spec h' h); case_decide; try congruence; exact Hs.
  - unfold Consume. destruct (s !! h') as [e|] eqn:E; cbn [snd];
      destruct (String.eqb_spec h' h) as [->|Hne].
    + by rewrite lookup_delete_eq.
    + by rewrite lookup_delete_ne.
    + by rewrite E.
    + exact Hs.
  - unfold reap. destruct (filter _ s !! h) as [e|] eqn:E.
    + apply map_lookup_filter_Some in E as [E _]. by rewrite E in Hs.
    + intros e He. apply map_lookup_filter_None in E as [E|E]; [rewrite E in Hs; by apply Hs|].
      destruct (s !! h) as [e'|] eqn:E'; [|by apply Hs]. simplify_eq.
      specialize (E _ eq_refl). simpl in *. lia.
Qed.

Lemma run_ops_simulates os now : in_order os now -> simulates now os (run_ops os ∅).
Proof.
  revert now. induction os as [|o os IH] using rev_ind; intros now Ho.
  { intros h. simpl. by rewrite lookup_empty. }
  apply in_order_snoc in Ho as [Ho Hle]. unfold run_ops. rewrite fold_left_app. simpl.
  eapply simulates_later; [done|]. apply run_op_simulates, IH, Ho.
Qed.

(** Saturation does not matter at the scale of the TTL. *)
Lemma expired_sub t c : (StateTTL <? time_sub t c)%Z = (StateTTL <? t - c)%Z.
Proof.
  unfold time_sub, max_int64, min_int64, StateTTL, Minute, Second.
  destruct (_ <? t - c)%Z eqn:E; [apply Z.ltb_lt in E; apply Z.ltb_lt|
    apply Z.ltb_ge in E; apply Z.ltb_ge]; lia.
Qed.

(** C28. The state store hands out each flow's secrets at most once and never
    late: whatever the interleaving of Put, Consume and the reaper, in time
    order, [Consume h] at time [t] succeeds exactly if an entry was put under
    [h], was not consumed since, and is no older than the TTL, and then
    returns that entry; the reaper changes no outcome. *)
Theorem consume_once os t h :
  in_order os t -> (Consume t h (run_ops os ∅)).1 = promised t h os.
Proof.
  intros Ho. pose proof (run_ops_simulates os t Ho h) as Hs. unfold Consume, promised.
  destruct (run_ops os ∅ !! h) as [e|]; cbn [fst].
  - rewrite Hs, expired_sub. by rewrite Z.leb_antisym; destruct (_ <? _)%Z.
  - destruct (unspent h os) as [e|]; [|done]. specialize (Hs e eq_refl).
    destruct (_ <=? _)%Z eqn:E; [|done]. apply Z.leb_le in E. lia.
Qed.

Definition demo_flow : StateEntry := mkStateEntry "state" "verifier" "github" 0.

Lemma consume_once_witness :
  (Consume (10 * Minute) "h" (run_ops [OPut 0 "h" demo_flow; OReap (5 * Minute)] ∅)).1 =
    promised (10 * Minute) "h" [OPut 0 "h" demo_flow; OReap (5 * Minute)].
Proof.
  apply consume_once. split; repeat constructor; vm_compute; discriminate.
Defined.
