(* ===== verification/RateLimiter.v ===== *)
(** * The OAuth rate limiter: middleware/ratelimit.go

    A token bucket per source address.  Tokens are float64 (Float64.v), every
    product rounded before it is added.  [check] and [reap] are the
    critical sections under the limiter's mutex. *)
From Stdlib Require Import ZArith Lia SpecFloat.
From stdpp Require Import base gmap strings list sorting.
From S2P Require Import Prelude GoStrings Float64 Errors State Tables Effects AccountStore AuditStore.
From S2P Require Import Http RequestMeta Fixtures.
Open Scope packyard_scope.
Open Scope eff_scope.

(** [d.Seconds()]. *)
Definition Seconds (d : Z) : float64 :=
  fadd (float_of_int (Z.quot d Second))
    (fdiv (float_of_int (Z.rem d Second)) (float_of_int 1000000000)).

Definition DefaultRateLimitCapacity : Z := 10.
Definition DefaultRateLimitRefillPerS : float64 := fdiv (float_of_int 1) (float_of_int 6).
Definition auditCoalesceWindow : Z := Minute.

(** [NewRateLimiter]'s knobs: a capacity or rate that is not positive takes
    the default. *)
Record RateLimiterConfig := mkRateLimiterConfig { Capacity : Z; RefillPerSecond : float64 }.

Definition capacity (cfg : RateLimiterConfig) : float64 :=
  let c := float_of_int (Capacity cfg) in
  if SFleb c (float_of_int 0) then float_of_int DefaultRateLimitCapacity else c.
Definition refillPerSecond (cfg : RateLimiterConfig) : float64 :=
  if SFleb (RefillPerSecond cfg) (float_of_int 0) then DefaultRateLimitRefillPerS
  else RefillPerSecond cfg.

Definition defaults : RateLimiterConfig := mkRateLimiterConfig 0 (float_of_int 0).

Section Limiter.
Context (cfg : RateLimiterConfig).

(** The tokens after a refill, kept between zero and the capacity. *)
Definition refilled (now : Z) (b : bucket) : float64 :=
  let elapsed := Seconds (time_sub now (lastUpdate b)) in
  let t := fadd (tokens b) (fmul elapsed (refillPerSecond cfg)) in
  let t := if SFltb (capacity cfg) t then capacity cfg else t in
  if SFltb t (float_of_int 0) then float_of_int 0 else t.

(** [(allowed, shouldAudit)] and the buckets afterwards. *)
Definition check (now : Z) (ip : string) (bs : gmap string bucket) :
    (bool * bool) * gmap string bucket :=
  match bs !! ip with
  | None =>
      ((true, false),
       <[ip := mkBucket (fsub (capacity cfg) (float_of_int 1)) now zero_time]> bs)
  | Some b =>
      let t := refilled now b in
      if SFltb t (float_of_int 1) then
        if (auditCoalesceWindow <=? time_sub now (lastAuditAt b))%Z
        then ((false, true), <[ip := mkBucket t now now]> bs)
        else ((false, false), <[ip := mkBucket t now (lastAuditAt b)]> bs)
      else ((true, false), <[ip := mkBucket (fsub t (float_of_int 1)) now (lastAuditAt b)]> bs)
  end.

(** Full buckets go. *)
Definition bucket_full (now : Z) (b : bucket) : bool :=
  let elapsed := Seconds (time_sub now (lastUpdate b)) in
  SFleb (capacity cfg) (fadd (tokens b) (fmul elapsed (refillPerSecond cfg))).

Definition reap_buckets (now : Z) (bs : gmap string bucket) : gmap string bucket :=
  filter (fun kv => bucket_full now kv.2 = false) bs.

Context `{SqlDriver}.

Definition check_eff (ip : string) : Eff (bool * bool) :=
  t <- now ;;
  fun w => let '(r, bs) := check t ip (w_buckets w) in (r, with_buckets bs w).

Definition RateLimit (next : Handler) : Handler := fun r =>
  let ip := ClientIP r in
  d <- check_eff ip ;;
  if d.1 then next r
  else
    (if d.2 then
       let provider := r_param r "provider" in
       WriteFromRequest r (new_entry "" "auth.rate_limited" "ip" ip
         ([("ip", DStr ip); ("path", DStr (truncate (r_path r) auditPathMaxLen))]
          ++ if provider <>s "" then [("provider", DStr provider)] else []))
     else ret tt) ;;;
    ret (writeError 429 "RATE_LIMITED" "too many requests from this source; slow down").

Lemma check_eff_moves {R : relation Database} `{!PreOrder R} ip : moves R (check_eff ip).
Proof.
  unfold check_eff. apply moves_bind; [solve_moves|]. intros t.
  apply moves_local. intros w. by destruct (check _ _ _).
Qed.
End Limiter.

#[export] Hint Resolve check_eff_moves : packyard.

(** ** Bursts *)
(** [n] checks of one address at one instant; the number allowed. *)
Fixpoint burst (cfg : RateLimiterConfig) (n : nat) (t : Z) (ip : string)
    (bs : gmap string bucket) : nat * gmap string bucket :=
  match n with
  | O => (0, bs)
  | S n =>
      let '((ok, _), bs) := check cfg t ip bs in
      let '(k, bs) := burst cfg n t ip bs in
      (if ok then S k else k, bs)
  end.

(** The requests that may pass at once. *)
Definition burst_size (cfg : RateLimiterConfig) : nat :=
  if (Capacity cfg <=? 0)%Z then 10 else Z.to_nat (Capacity cfg).

(** A capacity that a float64 represents, and a rate that is a number. *)
Definition in_range (cfg : RateLimiterConfig) : Prop :=
  (-2 ^ 53 < Capacity cfg < 2 ^ 53)%Z /\ float_finite (RefillPerSecond cfg) = true.

(** A bucket holding [k] whole tokens. *)
Definition holds (k : nat) (t : Z) (ip : string) (bs : gmap string bucket) : Prop :=
  exists a, bs !! ip = Some (mkBucket (float_of_int (Z.of_nat k)) t a).

Section Burst.
Context (cfg : RateLimiterConfig) (fits : in_range cfg).

Lemma burst_size_range : 1 <= burst_size cfg /\ (Z.of_nat (burst_size cfg) < 2 ^ 53)%Z.
Proof. destruct fits as [Hc _]. unfold burst_size. destruct (Z.leb_spec (Capacity cfg) 0); lia. Qed.

Lemma capacity_value : capacity cfg = float_of_int (Z.of_nat (burst_size cfg)).
Proof.
  destruct fits as [Hc _]. unfold capacity, burst_size. cbv zeta.
  destruct (Capacity cfg) as [|c|c]; [done| |]; cbn [Z.leb Z.compare].
  - rewrite Z2Nat.id by done. rewrite float_of_pos by (apply bit_length_le; exact (proj2 Hc)). done.
  - destruct (float_of_neg c) as (m & e & ->); [apply bit_length_le; lia|]. done.
Qed.

Lemma refill_finite : float_finite (refillPerSecond cfg) = true.
Proof. destruct fits as [_ Hr]. unfold refillPerSecond. by destruct (SFleb _ _). Qed.

(** Every bucket that counts whole tokens counts some that are representable. *)
Lemma tokens_cases k :
  k <= burst_size cfg ->
  (k = 0 /\ float_of_int (Z.of_nat k) = S754_zero false) \/
  (exists p, Z.of_nat k = Zpos p /\ bit_length p <= 53 /\ float_of_int (Z.of_nat k) = whole p).
Proof.
  destruct burst_size_range as [_ Hb]. destruct k as [|k]; intros Hk; [by left|right].
  exists (Pos.of_succ_nat k). assert (bit_length (Pos.of_succ_nat k) <= 53) as Hl by (apply bit_length_le; lia).
  split; [done|]. split; [done|]. by apply float_of_pos.
Qed.

(** No time, no tokens. *)
Lemma refilled_frozen k t a :
  k <= burst_size cfg ->
  refilled cfg t (mkBucket (float_of_int (Z.of_nat k)) t a) = float_of_int (Z.of_nat k).
Proof.
  intros Hk. unfold refilled, time_sub. cbn [lastUpdate tokens]. rewrite Z.sub_diag. cbv zeta.
  change (Seconds _) with (S754_zero false). rewrite fadd_fmul_zero; [|apply refill_finite|].
  - rewrite capacity_value. destruct burst_size_range as [Hb _].
    destruct (tokens_cases (burst_size cfg)) as [[? _]|(c & Hc & _ & ->)]; [lia|lia|].
    destruct (tokens_cases k Hk) as [[_ ->]|(p & Hp & _ & ->)]; [done|].
    rewrite whole_not_less by lia. done.
  - destruct (tokens_cases k Hk) as [[_ ->]|(p & _ & _ & ->)]; [by left|right]. by do 2 eexists.
Qed.

Lemma check_holds_0 t ip bs :
  holds 0 t ip bs ->
  (check cfg t ip bs).1.1 = false /\ holds 0 t ip (check cfg t ip bs).2.
Proof.
  intros [a Ha]. unfold check. rewrite Ha, refilled_frozen by lia.
  change (SFltb _ _) with true. cbn [lastAuditAt].
  destruct (_ <=? _)%Z; (split; [done|]); eexists; apply lookup_insert_eq.
Qed.

(** A token is taken. *)
Lemma take_token k : S k <= burst_size cfg ->
  fsub (float_of_int (Z.of_nat (S k))) (float_of_int 1) = float_of_int (Z.of_nat k).
Proof.
  intros Hk. destruct (tokens_cases (S k) Hk) as [[? _]|(p & Hp & Hb & ->)]; [done|].
  change (float_of_int 1) with (whole 1). rewrite fsub_one by done. f_equal. lia.
Qed.

Lemma check_holds_S k t ip bs :
  S k <= burst_size cfg -> holds (S k) t ip bs ->
  (check cfg t ip bs).1.1 = true /\ holds k t ip (check cfg t ip bs).2.
Proof.
  intros Hk [a Ha]. unfold check. rewrite Ha, refilled_frozen by done.
  assert (SFltb (float_of_int (Z.of_nat (S k))) (float_of_int 1) = false) as ->.
  { destruct (tokens_cases (S k) Hk) as [[? _]|(p & _ & _ & ->)]; [done|].
    change (float_of_int 1) with (whole 1). apply whole_not_less. lia. }
  split; [done|]. exists a. cbn [snd lastAuditAt]. by rewrite lookup_insert_eq, take_token.
Qed.

Lemma burst_holds n k t ip bs :
  k <= burst_size cfg -> holds k t ip bs -> (burst cfg n t ip bs).1 = Nat.min n k.
Proof.
  revert k bs. induction n as [|n IH]; intros k bs Hk Hb; [done|]. cbn [burst].
  destruct k as [|k].
  - destruct (check_holds_0 t ip bs Hb) as [Hok Hnext].
    destruct (check cfg t ip bs) as [[ok au] bs']. simpl in *. subst ok.
    specialize (IH 0 bs' ltac:(lia) Hnext). destruct (burst cfg n t ip bs') as [j bs''].
    simpl in *. lia.
  - destruct (check_holds_S k t ip bs Hk Hb) as [Hok Hnext].
    destruct (check cfg t ip bs) as [[ok au] bs']. simpl in *. subst ok.
    specialize (IH k bs' ltac:(lia) Hnext). destruct (burst cfg n t ip bs') as [j bs''].
    simpl in *. lia.
Qed.
End Burst.

(** C30. A burst is bounded by the capacity, exactly: of [n] requests that an
    address without a bucket makes at one instant, min(n, capacity) pass, in
    the float64 arithmetic of the code.  This holds for every configured
    capacity of less than 2^53 in size, of which one that is not positive means
    the default of 10, and every refill rate that is a finite number. *)
Theorem burst_capacity cfg n t ip bs :
  in_range cfg -> bs !! ip = None ->
  (burst cfg n t ip bs).1 = Nat.min n (burst_size cfg).
Proof.
  intros Hr Hb. destruct n as [|n]; [done|]. cbn [burst]. unfold check. rewrite Hb.
  destruct (burst_size cfg) as [|k] eqn:Hs; [destruct (burst_size_range cfg Hr); lia|].
  assert (holds k t ip
    (<[ip := mkBucket (fsub (capacity cfg) (float_of_int 1)) t zero_time]> bs)) as Hh.
  { exists zero_time. rewrite lookup_insert_eq, (capacity_value cfg Hr), Hs, (take_token cfg Hr) by lia. done. }
  pose proof (burst_holds cfg Hr n k t ip _ ltac:(lia) Hh) as Hn.
  destruct (burst _ n t ip _) as [j bs']. simpl in *. lia.
Qed.

(** ** Audit rows *)
(** The times at which denials of [ip] were audited, in a run of checks. *)
Fixpoint audited (cfg : RateLimiterConfig) (ip : string) (cs : list (Z * string))
    (bs : gmap string bucket) : list Z :=
  match cs with
  | [] => []
  | (t, i) :: cs =>
      let '((_, au), bs) := check cfg t i bs in
      (if au && (i =s ip) then [t] else []) ++ audited cfg ip cs bs
  end.

(** The last audited denial, the zero time if there was none. *)
Definition last_audit (ip : string) (bs : gmap string bucket) : Z :=
  match bs !! ip with Some b => lastAuditAt b | None => zero_time end.

Lemma check_audit cfg t i ip bs :
  let '((_, au), bs') := check cfg t i bs in
  if au && (i =s ip)
  then last_audit ip bs' = t /\ (auditCoalesceWindow <= time_sub t (last_audit ip bs))%Z
  else last_audit ip bs' = last_audit ip bs.
Proof.
  unfold check, last_audit. destruct (String.eqb_spec i ip) as [->|Hne].
  - destruct (bs !! ip) as [b|] eqn:Eb; [|by rewrite lookup_insert_eq].
    destruct (SFltb _ _); [|by rewrite lookup_insert_eq].
    destruct (_ <=? _)%Z eqn:Ew; cbn [andb]; rewrite lookup_insert_eq; [|done].
    apply Z.leb_le in Ew. done.
  - destruct (bs !! i) as [b|] eqn:Eb; [|by rewrite lookup_insert_ne].
    destruct (SFltb _ _); [|by rewrite lookup_insert_ne].
    by destruct (_ <=? _)%Z; cbn [andb]; rewrite lookup_insert_ne.
Qed.

Lemma time_sub_window t a : (auditCoalesceWindow <= time_sub t a)%Z -> (a + auditCoalesceWindow <= t)%Z.
Proof. unfold time_sub, auditCoalesceWindow, Minute, Second, max_int64, min_int64. lia. Qed.

Lemma audited_after cfg ip cs bs :
  StronglySorted Z.le (map fst cs) ->
  StronglySorted (fun a b => a + auditCoalesceWindow <= b)%Z (audited cfg ip cs bs) /\
  Forall (fun t => last_audit ip bs + auditCoalesceWindow <= t)%Z (audited cfg ip cs bs).
Proof.
  revert bs. induction cs as [|[t i] cs IH]; intros bs Hs; [by split; constructor|].
  cbn [map fst audited] in *. inversion Hs as [|? ? Hs' Hf]; subst.
  pose proof (check_audit cfg t i ip bs) as Hc.
  destruct (check cfg t i bs) as [[ok au] bs']. destruct (IH bs' Hs') as [IHs IHf].
  destruct (au && (i =s ip)); cbn [app].
  - destruct Hc as [Hl Hw]. apply time_sub_window in Hw. rewrite Hl in IHf.
    split; constructor; auto. assert (0 <= auditCoalesceWindow)%Z by done.
    eapply Forall_impl; [done|]. simpl. lia.
  - rewrite Hc in IHf. auto.
Qed.

(** While the bucket exists, a throttled address costs at most one audit
    row per minute: in any run of checks in time order, on any addresses, the
    audited denials of one address are at least a minute apart. *)
Theorem audit_coalesced cfg ip cs bs :
  StronglySorted Z.le (map fst cs) ->
  StronglySorted (fun a b => a + auditCoalesceWindow <= b)%Z (audited cfg ip cs bs).
Proof. intros Hs. by apply audited_after. Qed.

(** ** The reaper forgets the last audit *)
(** Ten requests at second 0, one denied at 5.9 s, the reaper at second 60,
    eleven requests right after it. *)
Definition attack : list Z := [0; 0; 0; 0; 0; 0; 0; 0; 0; 0; 5900000000]%Z.
Definition after_reap : list Z := repeat (60 * Second)%Z 11.

Definition run_checks (ip : string) (ts : list Z) (bs : gmap string bucket) :
    list Z * gmap string bucket :=
  fold_left (fun acc t =>
    let '((_, au), bs) := check defaults t ip acc.2 in
    (acc.1 ++ (if au then [t] else []), bs)) ts ([], bs).

(** Across a pass of the reaper two audit rows of one address can be less
    than a minute apart: the bucket of a denied address can be full again, and
    is removed with its last-audit time, 54.1 seconds after the denial. *)
Theorem audit_window_lost_by_reaper :
  let '(first, bs) := run_checks "203.0.113.9" attack ∅ in
  let '(second, _) := run_checks "203.0.113.9" after_reap (reap_buckets defaults (60 * Second) bs) in
  first = [5900000000]%Z /\ second = [60000000000]%Z /\
  (60000000000 - 5900000000 < auditCoalesceWindow)%Z.
Proof. vm_compute. auto. Qed.

(** The default settings, and a larger burst at three tokens a second. *)
Lemma burst_capacity_witness :
  let large := mkRateLimiterConfig 1000000 (float_of_int 3) in
  (burst defaults 12 0 "203.0.113.9" ∅).1 = 10 /\
  (burst large 12 0 "203.0.113.9" ∅).1 = 12 /\ burst_size large = Z.to_nat 1000000.
Proof.
  split; [|split; [|reflexivity]].
  - apply (burst_capacity defaults 12 0 "203.0.113.9" ∅); [|reflexivity]. vm_compute. auto.
  - rewrite (burst_capacity _ 12 0 "203.0.113.9" ∅); [|vm_compute; auto|reflexivity].
    apply Nat.min_l. unfold burst_size. cbn [Capacity Z.leb Z.compare]. lia.
Defined.

Lemma audit_coalesced_witness :
  StronglySorted (fun a b => a + auditCoalesceWindow <= b)%Z
    (audited defaults "203.0.113.9" (map (fun t => (t, "203.0.113.9"))
       (attack ++ [70000000000; 70000000001]%Z)) ∅).
Proof.
  apply audit_coalesced. repeat constructor; vm_compute; discriminate.
Defined.
