(* ===== verification/AdminGuards.v ===== *)
(** * The guards of the admin API: session.go, role.go, csrf.go of middleware/

    A middleware turns a handler into a handler.  main.go stacks the three
    around every admin route: CSRF, then session, then role. *)
From Stdlib Require Import ZArith Lia Ascii.
From stdpp Require Import base gmap strings list relations.
From S2P Require Import Prelude GoStrings Errors State Tables Effects AccountStore.
From S2P Require Import SessionStore OperatorStore AuditStore StoreInvariant StoreMethods Http.
From S2P Require Import RequestMeta Url.
Open Scope packyard_scope.
Open Scope eff_scope.

(** ** Cookies *)
Definition SessionCookieName : string := "packyard_session".

Definition clearSessionCookie : SetCookie :=
  mkCookie SessionCookieName "" (Some (-1)%Z) None SameSiteStrict.

Definition IssueSessionCookie (sessionID : string) (expires : Z) : SetCookie :=
  mkCookie SessionCookieName sessionID None (Some expires) SameSiteStrict.

(** The session id the request carries; an empty value counts as none. *)
Definition session_cookie (r : Request) : option string :=
  match r_cookie r SessionCookieName with
  | Some v => if v =s "" then None else Some v
  | None => None
  end.

(** ** touchTrackingWriter *)
(** What a handler does to its ResponseWriter, as far as the status goes. *)
Inductive write_op := WriteHeader (code : Z) | WriteBody.

Record touchTrackingWriter := mkTracker {
  tw_status : Z; tw_wroteHeader : bool; tw_explicitlySet : bool }.

Definition track (t : touchTrackingWriter) (o : write_op) : touchTrackingWriter :=
  if tw_wroteHeader t then t
  else match o with
       | WriteHeader code => mkTracker code true true
       | WriteBody => mkTracker 200 true (tw_explicitlySet t)
       end.

Definition tracker_of (os : list write_op) : touchTrackingWriter :=
  fold_left track os (mkTracker 0 false false).

(** [tw.explicitlySet && tw.status >= 200 && tw.status < 400]. *)
Definition accepted (explicit : bool) (status : Z) : bool :=
  explicit && (200 <=? status)%Z && (status <? 400)%Z.

(** ** RequireSession *)
Section Session.
Context `{SqlDriver}.

Definition unauthorized (code message : string) : Response :=
  set_cookies [clearSessionCookie] (writeError 401 code message).

(** Everything before [next.ServeHTTP]: a response, or the session, the
    operator for the context, and the time of the request. *)
Definition session_gate (r : Request) : Eff (Response + Session * AuthOperator * Z) :=
  match session_cookie r with
  | None => ret (inl (unauthorized "UNAUTHORIZED" "no session cookie; sign in to obtain one"))
  | Some id =>
      s <- GetSession id ;;
      match s with
      | Err e =>
          if errors_is e ErrSessionNotFound
          then ret (inl (unauthorized "UNAUTHORIZED" "session not found or has been revoked"))
          else ret (inl (writeError 500 "SESSION_LOOKUP_FAILED"
                           "failed to resolve session; try again"))
      | Ok sess =>
          nowTime <- now ;;
          if (Sess_ExpiresAt sess <? nowTime)%Z ||
             (SessionIdleLifetime <? time_sub nowTime (Sess_LastSeenAt sess))%Z
          then
            DeleteSession (Sess_ID sess) ;;;
            ret (inl (unauthorized "SESSION_EXPIRED" "session has expired; sign in again"))
          else
            o <- GetOperator (Sess_OperatorID sess) ;;
            match o with
            | Err e =>
                if errors_is e ErrOperatorNotFound then
                  DeleteSession (Sess_ID sess) ;;;
                  ret (inl (unauthorized "SESSION_EXPIRED" "operator account is not available"))
                else ret (inl (writeError 500 "OPERATOR_LOOKUP_FAILED"
                                 "failed to resolve operator; try again"))
            | Ok op =>
                if Op_Status op <>s OperatorStatusActive then
                  DeleteSession (Sess_ID sess) ;;;
                  ret (inl (unauthorized "SESSION_EXPIRED" "the operator account is disabled"))
                else
                  ret (inr (sess, mkAuthOperator (Op_ID op) (Op_Email op) (Op_Role op), nowTime))
            end
      end
  end.

Definition RequireSession (next : Handler) : Handler := fun r =>
  g <- session_gate r ;;
  match g with
  | inl resp => ret resp
  | inr (sess, op, nowTime) =>
      resp <- next (WithOperator op r) ;;
      (if accepted (rs_explicit resp) (rs_status resp)
       then TouchSession (Sess_ID sess) nowTime ;;; ret tt
       else ret tt) ;;;
      ret resp
  end.

(** ** RequireRole *)
Definition safe_method (m : string) : bool := one_of ["GET"; "HEAD"; "OPTIONS"] m.

Definition nonGETAllowListForReadonly (path : string) : bool := path =s "/api/v1/auth/logout".

Definition RequireRole (next : Handler) : Handler := fun r =>
  if safe_method (r_method r) then next r
  else
    let trimmed := TrimRightByte (r_path r) "/" in
    let path := if trimmed =s "" then "/" else trimmed in
    if nonGETAllowListForReadonly path then next r
    else match OperatorFromContext r with
    | None => ret (writeError 401 "UNAUTHORIZED" "no authenticated operator on the request")
    | Some op =>
        if ao_Role op =s RoleReadonly then
          WriteFromRequest r (new_entry (ao_ID op) "auth.role_denied" "endpoint"
            (TruncateAuditField (r_path r))
            [("method", DStr (r_method r)); ("role", DStr (ao_Role op))]) ;;;
          ret (writeError 403 "ROLE_DENIED" "this endpoint requires the admin role")
        else next r
    end.

(** ** CSRFGuard *)
Context `{UnicodeTables}.

Record originParts := mkOrigin { scheme : string; host : string; port : string }.

Definition origin_eqb (a b : originParts) : bool :=
  (scheme a =s scheme b) && (host a =s host b) && (port a =s port b).

Definition parseOrigin (s : string) : option originParts :=
  if (s =s "") || (s =s "null") then None
  else match url_Parse s with
  | None => None
  | Some u =>
      if (u_Scheme u =s "") || (u_Host u =s "") then None
      else
        let scheme := ToLower (u_Scheme u) in
        let port := Port u in
        let port := if ((scheme =s "https") && (port =s "443")) ||
                       ((scheme =s "http") && (port =s "80")) then "" else port in
        Some (mkOrigin scheme (ToLower (Hostname u)) port)
  end.

Definition parseAdminHostStrict (s : string) : option originParts :=
  match parseOrigin s with
  | None => None
  | Some parts =>
      match url_Parse s with
      | Some u =>
          if ((u_Path u <>s "") && (u_Path u <>s "/")) || (u_RawQuery u <>s "") ||
             (u_Fragment u <>s "")
          then None else Some parts
      | None => Some parts
      end
  end.

(** The guard for a configured host that parsed to [expected]; for any other
    the service does not start. *)
Definition CSRFGuard (expected : originParts) (next : Handler) : Handler := fun r =>
  if safe_method (r_method r) then next r
  else
    let origin := r_header r "Origin" in
    let raw := if origin =s "" then r_header r "Referer" else origin in
    match parseOrigin raw with
    | Some got =>
        if origin_eqb got expected then next r
        else ret (writeError 403 "CSRF_DENIED"
                    "request Origin/Referer does not match the configured admin host")
    | None => ret (writeError 403 "CSRF_DENIED"
                     "request Origin/Referer does not match the configured admin host")
    end.

(** main.go, validAdminHost *)
Definition validAdminHost (s : string) : bool :=
  match url_Parse s with
  | None => false
  | Some u =>
      one_of ["http"; "https"] (u_Scheme u) && (u_Host u <>s "") &&
      ((u_Path u =s "") || (u_Path u =s "/")) && (u_RawQuery u =s "") && (u_Fragment u =s "") &&
      negb (Contains (u_Host u) ":/" || Contains (u_Host u) "/")
  end.

(** The stack of main.go around an admin route. *)
Definition admin_route (expected : originParts) (h : Handler) : Handler :=
  CSRFGuard expected (RequireSession (RequireRole h)).
End Session.
