(* ===== verification/GuardsSpec.v ===== *)
(** * What the guards of the admin API promise *)
From Stdlib Require Import ZArith Lia Ascii.
From stdpp Require Import base gmap strings list relations.
From S2P Require Import Prelude GoStrings Errors State Tables Effects AccountStore.
From S2P Require Import SessionStore OperatorStore AuditStore StoreInvariant StoreMethods Http.
From S2P Require Import RequestMeta AdminGuards Fixtures.
Open Scope packyard_scope.
Open Scope eff_scope.

(** ** Sessions *)
(** Session [id], of row [s], is in force at time [t] for the operator row [o]. *)
Definition in_force (db : Database) (t : Z) (id : string) (s : session_row) (o : operator_row) : Prop :=
  sessions db !! id = Some s /\ operators db !! s_operator_id s = Some o /\
  o_status o = "active" /\ (t <= parse_stamp (s_expires_at s))%Z /\
  (t - parse_stamp (s_last_seen_at s) <= SessionIdleLifetime)%Z.

Definition signed_in (db : Database) (t : Z) (r : Request) : Prop :=
  exists id s o, session_cookie r = Some id /\ in_force db t id s o.

Lemma idle_sub t l : (SessionIdleLifetime <? time_sub t l)%Z = (SessionIdleLifetime <? t - l)%Z.
Proof.
  unfold time_sub, max_int64, min_int64, SessionIdleLifetime, Hour, Minute, Second.
  destruct (_ <? t - l)%Z eqn:E; [apply Z.ltb_lt in E; apply Z.ltb_lt|
    apply Z.ltb_ge in E; apply Z.ltb_ge]; lia.
Qed.

Section Gate.
Context `{SqlDriver}.

Lemma GetSession_run id w :
  GetSession id w =
    (match w_fault w 0 with
     | Some m => Err (Wrap "get session" (ErrText m))
     | None =>
         match sessions (w_db w) !! id with
         | Some s => match operators (w_db w) !! s_operator_id s with
                     | Some _ => Ok (scanSession id s)
                     | None => Err (Wrap "get session" (Sentinel ErrSessionNotFound))
                     end
         | None => Err (Wrap "get session" (Sentinel ErrSessionNotFound))
         end
     end, tick_fault w).
Proof.
  unfold GetSession. rewrite bind_run, query_row_run. simpl. destruct (w_fault w 0); [done|].
  destruct (sessions (w_db w) !! id) as [s|]; [|done].
  by destruct (operators (w_db w) !! s_operator_id s).
Qed.

Lemma GetOperator_run id w :
  GetOperator id w =
    (match w_fault w 0 with
     | Some m => Err (Wrap "get operator" (ErrText m))
     | None => match operators (w_db w) !! id with
               | Some o => Ok (scanOperator id o)
               | None => Err (Wrap "get operator" (Sentinel ErrOperatorNotFound))
               end
     end, tick_fault w).
Proof.
  unfold GetOperator. rewrite bind_run, query_row_run. simpl. destruct (w_fault w 0); [done|].
  by destruct (operators (w_db w) !! id).
Qed.

Definition drop_session (id : string) (db : Database) : Database :=
  set_sessions (delete id (sessions db)) db.

Lemma DeleteSession_db id w :
  w_db (DeleteSession id w).2 = w_db w \/ w_db (DeleteSession id w).2 = drop_session id (w_db w).
Proof. unfold DeleteSession. rewrite wrapE_run, sql_run. destruct (w_fault w 0); auto. Qed.

(** Splits on the effect of the clean-up after a refusal. *)
Ltac after_delete :=
  rewrite bind_run; cbn [ret];
  match goal with
  | |- context [DeleteSession ?i ?w'] =>
      let Hd := fresh "Hd" in
      destruct (DeleteSession_db i w') as [Hd|Hd]; revert Hd;
      generalize (DeleteSession i w').2; cbn [w_db tick_clock tick_fault now fst snd];
      intros ? Hd; cbn [w_db tick_clock tick_fault]
  end.

(** The two answers of a closed gate. *)
Definition turned_away (resp : Response) : Prop :=
  rs_status resp = 401%Z /\ rs_cookies resp = [clearSessionCookie].
Definition backend_error (resp : Response) : Prop :=
  rs_status resp = 500%Z /\ rs_cookies resp = [].

Lemma session_gate_run r w :
  match session_gate r w with
  | (inr (sess, op, t), w') => t = w_clock w 0 /\ w_db w' = w_db w /\
      exists id s o, session_cookie r = Some id /\ in_force (w_db w) t id s o /\
        sess = scanSession id s /\ op = mkAuthOperator (s_operator_id s) (o_email o) (o_role o)
  | (inl resp, w') =>
      (w_db w' = w_db w \/
       exists id, session_cookie r = Some id /\ w_db w' = drop_session id (w_db w)) /\
      (turned_away resp \/ (backend_error resp /\ ~ no_faults w)) /\
      (no_faults w -> ~ signed_in (w_db w) (w_clock w 0) r)
  end.
Proof.
  unfold session_gate, signed_in. destruct (session_cookie r) as [id|] eqn:Ec.
  2:{ cbn. split; [by left|]. split; [by left|]. by intros _ (? & ? & ? & ? & _). }
  run_step. rewrite GetSession_run. cbn [fst snd].
  next_fault; [cbn; split; [by left|]; split; [right; split; [done|live_contra]|live_contra]|].
  destruct (sessions (w_db w) !! id) as [s|] eqn:Es.
  2:{ cbn. split; [by left|]. split; [by left|]. intros _ (? & s & o & [= <-] & Hs & _). congruence. }
  destruct (operators (w_db w) !! s_operator_id s) as [o|] eqn:Eo.
  2:{ cbn. split; [by left|]. split; [by left|].
      intros _ (? & s' & o' & [= <-] & Hs & Ho & _). congruence. }
  run_step. cbn [scanSession Sess_ExpiresAt Sess_LastSeenAt Sess_ID Sess_OperatorID].
  rewrite idle_sub.
  assert (
    (w_clock w 0 <= parse_stamp (s_expires_at s) ->
     w_clock w 0 - parse_stamp (s_last_seen_at s) <= SessionIdleLifetime ->
     o_status o = "active" -> False)%Z ->
    ~ (exists id0 s0 o0, Some id = Some id0 /\ in_force (w_db w) (w_clock w 0) id0 s0 o0)) as Hlive.
  { intros HP (i & s' & o' & [= <-] & Hs & Ho & Ha & He & Hi). simplify_eq. eauto. }
  destruct (_ || _) eqn:Eexp.
  { after_delete;
      (split; [eauto|]); (split; [by left|]); intros _; apply Hlive; intros;
      apply orb_true_iff in Eexp as [Eexp|Eexp]; apply Z.ltb_lt in Eexp; cbn [now fst snd w_clock tick_fault tick_clock] in Eexp; lia. }
  apply orb_false_iff in Eexp as [Ee Ei]. apply Z.ltb_ge in Ee, Ei. cbn [now fst snd w_clock tick_fault tick_clock] in Ee, Ei.
  run_step. rewrite GetOperator_run. cbn [fst snd now].
  next_fault; [cbn; split; [by left|]; split; [right; split; [done|live_contra]|live_contra]|].
  cbn [w_db tick_clock tick_fault]. rewrite Eo. cbn [scanOperator Op_Status Op_ID Op_Email Op_Role].
  unfold OperatorStatusActive. destruct (o_status o =s "active") eqn:Eact; cbn [negb].
  - string_reflect. cbn [ret]. split; [done|]. split; [done|]. exists id, s, o.
    repeat split; auto.
  - apply String.eqb_neq in Eact. after_delete; (split; [eauto|]); (split; [by left|]); intros _; by apply Hlive.
Qed.

(** C31. The session gate opens exactly for a session in force: its row and
    its operator's row exist, the operator is active, neither the absolute
    nor the idle lifetime is over; the handler then sees the operator's id,
    email and role as they are in the database.  Otherwise the answer is 401
    and the cookie is cleared, or, only when the backend failed, 500 with
    the cookie kept; at most that session's row is removed. *)
Theorem session_gate_spec r w :
  match session_gate r w with
  | (inr (sess, op, t), w') => t = w_clock w 0 /\ w_db w' = w_db w /\
      exists id s o, session_cookie r = Some id /\ in_force (w_db w) t id s o /\
        sess = scanSession id s /\ op = mkAuthOperator (s_operator_id s) (o_email o) (o_role o)
  | (inl resp, w') =>
      (w_db w' = w_db w \/
       exists id, session_cookie r = Some id /\ w_db w' = drop_session id (w_db w)) /\
      (turned_away resp \/ (backend_error resp /\ ~ no_faults w)) /\
      (no_faults w -> ~ signed_in (w_db w) (w_clock w 0) r)
  end.
Proof. apply session_gate_run. Qed.

(** Two handlers behind a gate that stays closed are the same. *)
Lemma RequireSession_differ next next' r w :
  RequireSession next r w <> RequireSession next' r w ->
  exists id s o w', session_cookie r = Some id /\ in_force (w_db w) (w_clock w 0) id s o /\
    let r' := WithOperator (mkAuthOperator (s_operator_id s) (o_email o) (o_role o)) r in
    next r' w' <> next' r' w'.
Proof.
  unfold RequireSession. rewrite !bind_run. pose proof (session_gate_run r w) as Hg.
  destruct (session_gate r w) as [[resp|[[sess op] t]] w']; cbn [fst snd]; [done|].
  destruct Hg as (-> & _ & id & s & o & Hc & Hf & _ & ->). intros Hne.
  exists id, s, o, w'. split; [done|]. split; [done|]. intros Heq. apply Hne.
  by rewrite !bind_run, Heq.
Qed.

Lemma RequireRole_differ next next' r w :
  RequireRole next r w <> RequireRole next' r w ->
  safe_method (r_method r) = true \/ TrimRightByte (r_path r) "/" = "/api/v1/auth/logout" \/
  exists op, r_operator r = Some op /\ ao_Role op <> RoleReadonly.
Proof.
  unfold RequireRole, nonGETAllowListForReadonly, OperatorFromContext.
  destruct (safe_method (r_method r)); [by left|]. cbv zeta.
  destruct (TrimRightByte (r_path r) "/" =s "") eqn:Et.
  - change ("/" =s "/api/v1/auth/logout") with false. cbn iota.
    destruct (r_operator r) as [op|]; [|done].
    destruct (ao_Role op =s RoleReadonly) eqn:Er; [done|]. string_reflect. eauto.
  - destruct (_ =s "/api/v1/auth/logout") eqn:El; [string_reflect; auto|].
    destruct (r_operator r) as [op|]; [|done].
    destruct (ao_Role op =s RoleReadonly) eqn:Er; [done|]. string_reflect. eauto.
Qed.

Context `{UnicodeTables}.

Definition origin_of (r : Request) : string :=
  if r_header r "Origin" =s "" then r_header r "Referer" else r_header r "Origin".

Lemma origin_eqb_eq a b : origin_eqb a b = true <-> a = b.
Proof.
  unfold origin_eqb. destruct a, b. simpl. rewrite !andb_true_iff, !String.eqb_eq.
  split; [intros [[-> ->] ->]; done|by intros [= -> -> ->]].
Qed.

Lemma CSRFGuard_differ expected next next' r w :
  CSRFGuard expected next r w <> CSRFGuard expected next' r w ->
  (safe_method (r_method r) = true \/ parseOrigin (origin_of r) = Some expected) /\
  next r w <> next' r w.
Proof.
  unfold CSRFGuard. destruct (safe_method (r_method r)); [auto|]. cbv zeta.
  change (if _ =s "" then _ else _) with (origin_of r).
  destruct (parseOrigin (origin_of r)) as [got|]; [|done].
  destruct (origin_eqb got expected) eqn:E; [|done]. apply origin_eqb_eq in E as ->. auto.
Qed.

(** C32. Nothing behind the admin API runs unguarded.  If the outcome of a
    request depends on which handler is mounted, that is, if the handler is
    reached at all, then the request carries a session in force, and, unless
    its method is GET, HEAD or OPTIONS, its Origin (or Referer) parses to
    the configured admin host and the operator is not readonly or is
    logging out. *)
Theorem admin_route_guarded expected h h' r w :
  admin_route expected h r w <> admin_route expected h' r w ->
  exists id s o, session_cookie r = Some id /\ in_force (w_db w) (w_clock w 0) id s o /\
    (safe_method (r_method r) = true \/
     (parseOrigin (origin_of r) = Some expected /\
      (o_role o <> "readonly" \/ TrimRightByte (r_path r) "/" = "/api/v1/auth/logout"))).
Proof.
  intros [Ho Hne]%CSRFGuard_differ. apply RequireSession_differ in Hne
    as (id & s & o & w' & Hc & Hf & Hne).
  exists id, s, o. split; [done|]. split; [done|].
  apply RequireRole_differ in Hne as [Hs|[Hl|(op & [= <-] & Hr)]]; [by left|..];
    (destruct Ho as [?|Ho]; [by left|right; split; [done|]]); [by right|by left].
Qed.
End Gate.

Section Lifetime.
Context `{SqlDriver} `{UnicodeTables} (mail_ParseAddress : string -> bool).

(** The absolute lifetime cannot be stretched: whatever store calls ran
    before, touches included, no session is in force later than 24 hours
    after it was created. *)
Theorem absolute_lifetime cs w t id s o :
  db_ok (w_db w) -> in_force (w_db (run_calls mail_ParseAddress cs w).2) t id s o ->
  (t <= parse_stamp (s_created_at s) + SessionAbsoluteLifetime)%Z.
Proof.
  intros Hok (Hs & _ & _ & Ht & _). apply (run_calls_sound mail_ParseAddress cs) in Hok.
  destruct (ok_sessions _ Hok _ _ Hs) as [_ [_ He]]. rewrite He in Ht.
  unfold parse_stamp, SessionAbsoluteLifetime, Hour, Minute, Second in *. lia.
Qed.
End Lifetime.

(** ** Which responses slide the idle window *)
(** Only a response that begins with an explicit 2xx or 3xx WriteHeader
    counts as accepted; a body written first (an implicit 200) never does,
    whatever the handler calls afterwards. *)
Theorem tracker_accepts os :
  accepted (tw_explicitlySet (tracker_of os)) (tw_status (tracker_of os)) = true <->
  exists code rest, os = WriteHeader code :: rest /\ (200 <= code < 400)%Z.
Proof.
  assert (forall t os, tw_wroteHeader t = true -> fold_left track os t = t) as Hstop.
  { intros t os'. induction os' as [|o os' IH]; intros Ht; [done|]. cbn [fold_left].
    unfold track at 2. rewrite Ht. auto. }
  unfold tracker_of, accepted. destruct os as [|[code|] os]; cbn [fold_left].
  - split; [done|]. by intros (? & ? & ? & _).
  - rewrite Hstop by done. cbn. rewrite andb_true_iff, Z.leb_le, Z.ltb_lt.
    split; [intros; eauto|]. by intros (? & ? & [= <- <-] & ?).
  - rewrite Hstop by done. split; [done|]. by intros (? & ? & ? & _).
Qed.

(** ** Concrete runs *)
Definition demo_page : Request :=
  demo_request "GET" "/api/v1/keys" [] [(SessionCookieName, "sess")].

Lemma demo_in_force : in_force demo_db demo_now "sess" demo_session demo_admin.
Proof. repeat split; try (vm_compute; reflexivity); vm_compute; discriminate. Qed.

Lemma admin_route_guarded_witness :
  exists id s o, session_cookie demo_page = Some id /\ in_force demo_db demo_now id s o /\
    (safe_method "GET" = true \/
     (@parseOrigin ascii_tables (origin_of demo_page) =
        Some (mkOrigin "https" "admin.example.org" "") /\
      (o_role o <> "readonly" \/ TrimRightByte "/api/v1/keys" "/" = "/api/v1/auth/logout"))).
Proof.
  apply (@admin_route_guarded sqlite_driver ascii_tables
    (mkOrigin "https" "admin.example.org" "")
    (fun _ => ret no_content) (fun _ => ret (reply 200 BEmpty)) demo_page (demo_world demo_db)).
  intros He. apply (f_equal (fun p => rs_status p.1)) in He. vm_compute in He. discriminate He.
Defined.

Lemma absolute_lifetime_witness :
  (demo_now <= parse_stamp (s_created_at demo_session) + SessionAbsoluteLifetime)%Z.
Proof.
  exact (@absolute_lifetime sqlite_driver ascii_tables (fun _ => true) [] (demo_world demo_db)
    demo_now "sess" demo_session demo_admin demo_ok demo_in_force).
Defined.
