(* ===== verification/UrlSpec.v ===== *)
(** * What the guard reads of an Origin header

    [parseOrigin] against the shape of the text: the scheme, the host and the
    port it compares are those of the authority, whatever else surrounds it. *)
From Stdlib Require Import ZArith Lia Ascii.
From stdpp Require Import base gmap strings list.
From S2P Require Import Prelude GoStrings Errors State Encoding Effects Http RequestMeta Url AdminGuards GuardsSpec Fixtures.
Open Scope packyard_scope.

(** ** Cutting *)
Lemma cut_last_Some s c a b :
  cut_last s c = Some (a, b) <-> s = a +:+ String c b /\ lacks c b = true.
Proof.
  revert a b. induction s as [|d s IH]; intros a b; cbn [cut_last].
  { split; [done|]. intros [He _]. by destruct a. }
  destruct (cut_last s c) as [[a' b']|] eqn:E.
  - destruct (proj1 (IH a' b') eq_refl) as [-> Hl]. split.
    + intros [= <- <-]. by split.
    + intros [He Hb]. destruct a as [|d' a].
      * injection He as -> He. rewrite <- He, lacks_app in Hb.
        apply andb_true_iff in Hb as [_ Hb]. cbn in Hb. by rewrite Ascii.eqb_refl in Hb.
      * injection He as -> He. pose proof (proj2 (IH a b) (conj He Hb)) as [= -> ->]. done.
  - assert (lacks c s = true) as Hs.
    { clear IH. revert E. induction s as [|e s IHs]; [done|]. cbn [cut_last lacks string_forallb].
      destruct (cut_last s c) as [[? ?]|]; [done|]. destruct (Ascii.eqb e c); [done|]. intros _. by apply IHs. }
    destruct (Ascii.eqb_spec d c) as [->|Hd].
    + split; [intros [= <- <-]; by split|]. intros [He Hb]. destruct a as [|d' a].
      * by injection He as ->.
      * injection He as _ ->. rewrite lacks_app in Hs. apply andb_true_iff in Hs as [_ Hs].
        cbn in Hs. by rewrite Ascii.eqb_refl in Hs.
    + split; [done|]. intros [He Hb]. destruct a as [|d' a]; [by injection He as ->|].
      injection He as _ ->. rewrite lacks_app in Hs. apply andb_true_iff in Hs as [_ Hs].
      cbn in Hs. by rewrite Ascii.eqb_refl in Hs.
Qed.

Lemma cut_last_None s c : cut_last s c = None <-> lacks c s = true.
Proof.
  induction s as [|e s IHs]; [done|]. cbn [cut_last]. unfold lacks in *. cbn [string_forallb].
  destruct (cut_last s c) as [[a b]|]; [|destruct (Ascii.eqb e c); [done|]; by rewrite <- IHs].
  split; [done|]. intros [_ Hl]%andb_true_iff. by apply IHs in Hl.
Qed.

Lemma cut_zone_app s a z : cut_zone s = (a, z) -> s = a +:+ z.
Proof.
  revert a z. induction s as [|c s IH]; intros a z; [by intros [= <- <-]|]. cbn [cut_zone].
  destruct (HasPrefix _ _); [by intros [= <- <-]|].
  destruct (cut_zone s) as [a' z']. intros [= <- <-]. rewrite (IH a' z') by done. by rewrite string_app_cons.
Qed.

Lemma split_authority_app s a b :
  split_authority s = (a, b) -> s = a +:+ b /\ lacks "/" a = true /\ (b = "" \/ exists t, b = String "/" t).
Proof.
  revert a b. induction s as [|c s IH]; intros a b; cbn [split_authority].
  { intros [= <- <-]. split; [done|]. split; [done|by left]. }
  destruct (Ascii.eqb_spec c "/") as [->|Hc].
  { intros [= <- <-]. split; [done|]. split; [done|right; by eexists]. }
  destruct (split_authority s) as [a' b']. intros [= <- <-].
  destruct (IH a' b' eq_refl) as (-> & Hl & Hb). rewrite string_app_cons. split; [done|]. split; [|done].
  unfold lacks in *. cbn [string_forallb]. by rewrite (proj2 (Ascii.eqb_neq _ _) Hc), Hl.
Qed.

Lemma scan_scheme_app s a b : scan_scheme s = Some (a, b) -> s = a +:+ String ":" b.
Proof.
  revert a b. induction s as [|c s IH]; intros a b; [done|]. cbn [scan_scheme].
  destruct (Ascii.eqb_spec c ":") as [->|_]; [by intros [= <- <-]|].
  destruct (_ || _); [|done]. destruct (scan_scheme s) as [[a' b']|]; [|done].
  intros [= <- <-]. by rewrite (IH a' b').
Qed.

Lemma cut_or_app s c a b :
  cut_or s c = (a, b) -> exists t, s = a +:+ t /\ (t = "" \/ t = String c b).
Proof.
  unfold cut_or. destruct (cut_byte s c) as [[a' b']|] eqn:E; intros [= <- <-].
  - apply cut_byte_Some in E as [-> _]. eauto.
  - exists "". rewrite string_app_nil. auto.
Qed.

(** ** Unescaping piece by piece *)
Lemma unescape_app esc chr a c b :
  hex_value c = None ->
  unescape esc chr (a +:+ String c b) =
    match unescape esc chr a, unescape esc chr (String c b) with
    | Some x, Some y => Some (x +:+ y)
    | _, _ => None
    end.
Proof.
  intros Hc. remember (String c b) as t eqn:Ht.
  induction a as [a IH] using (induction_ltof1 _ String.length). unfold ltof in IH.
  destruct a as [|d a]; [rewrite string_app_empty; cbn; by destruct (unescape esc chr t)|].
  rewrite string_app_cons. cbn [unescape]. destruct (byte_of d =? 37)%Z.
  - destruct a as [|h a]; [subst t; rewrite string_app_empty; destruct b; by rewrite ?Hc|].
    rewrite string_app_cons. destruct a as [|l a].
    { subst t. rewrite string_app_empty, Hc. by destruct (hex_value h). }
    rewrite string_app_cons. destruct (hex_value h), (hex_value l); try done.
    cbv zeta. destruct (esc _); [|done]. rewrite IH by (cbn; lia).
    destruct (unescape esc chr a); [|done]. by destruct (unescape esc chr t).
  - destruct (chr d); [|done]. rewrite IH by (cbn; lia).
    destruct (unescape esc chr a); [|done]. by destruct (unescape esc chr t).
Qed.

Lemma unescape_id esc chr s :
  string_forallb (fun c => chr c && negb (byte_of c =? 37)%Z) s = true -> unescape esc chr s = Some s.
Proof.
  induction s as [|c s IH]; [done|]. cbn [string_forallb unescape].
  intros [[Hc Hp]%andb_true_iff Hs]%andb_true_iff. apply negb_true_iff in Hp. by rewrite Hp, Hc, IH.
Qed.

Lemma byte_of_byte v : (0 <= v < 256)%Z -> byte_of (of_byte v) = v.
Proof. intros Hv. unfold byte_of, of_byte. rewrite N_ascii_embedding by lia. lia. Qed.

Lemma hex_value_range c x : hex_value c = Some x -> (0 <= x < 16)%Z.
Proof.
  unfold hex_value. cbv zeta. intros Hx.
  repeat match type of Hx with (if ?b then _ else _) = _ => destruct b eqn:? end; try done; injection Hx as <-;
    repeat match goal with Hb : _ && _ = true |- _ => apply andb_true_iff in Hb as [?%Z.leb_le ?%Z.leb_le] end; lia.
Qed.

(** A character outside the escapes' values that the text lacks, its decoding
    lacks. *)
Lemma unescape_lacks esc chr c s t :
  esc (byte_of c) = false -> unescape esc chr s = Some t -> lacks c s = true -> lacks c t = true.
Proof.
  intros Hc. revert t. induction s as [s IH] using (induction_ltof1 _ String.length). unfold ltof in IH.
  intros t. destruct s as [|d s]; [by intros [= <-]|]. cbn [unescape].
  unfold lacks in *. cbn [string_forallb]. destruct (byte_of d =? 37)%Z.
  - destruct s as [|h [|l s]]; [done|done|]. destruct (hex_value h) as [x|] eqn:Hh; [|done].
    destruct (hex_value l) as [y|] eqn:Hl; [|done]. cbv zeta.
    destruct (esc (x * 16 + y)%Z) eqn:He; [|intros [=]]. destruct (unescape esc chr s) eqn:Es; [|intros [=]].
    intros [= <-]. cbn [string_forallb]. intros [_ [_ [_ Hs]%andb_true_iff]%andb_true_iff]%andb_true_iff.
    rewrite (IH s) by (cbn; done || lia). rewrite andb_true_r. apply negb_true_iff, Ascii.eqb_neq.
    apply hex_value_range in Hh, Hl. intros <-. rewrite byte_of_byte in Hc by lia. congruence.
  - destruct (chr d); [|done]. destruct (unescape esc chr s) eqn:Es; [|done].
    intros [= <-] [Hd Hs]%andb_true_iff. cbn [string_forallb]. rewrite Hd. by rewrite (IH s) by (cbn; done || lia).
Qed.

(** ** The shape of an origin *)
(** The text of a host, and the name the URL has for it. *)
Inductive authority_host : string -> string -> Prop :=
| named t name :
    lacks "[" t = true -> unescape_host t = Some name -> authority_host t name
| literal a z a' z' :
    unescape_host a = Some a' -> unescape zone_escape host_literal z = Some z' ->
    ip_literal (a' +:+ z') = true -> authority_host ("[" +:+ a +:+ z +:+ "]") (a' +:+ z').

(** Where a path, a query or a fragment begins. *)
Definition after_authority (t : string) : Prop :=
  t = "" \/ exists c t', t = String c t' /\ (c = "/" \/ c = "?" \/ c = "#")%char.

(** The port as compared: none if it is the scheme's own. *)
Definition collapse (scheme p : string) : string :=
  if ((scheme =s "https") && (p =s "443")) || ((scheme =s "http") && (p =s "80")) then "" else p.

Record origin_shape `{UnicodeTables} (s : string) (o : originParts) : Prop := {
  os_text : exists sch user h name p tail,
    s = sch +:+ "://" +:+ user +:+ h +:+ p +:+ tail /\
    (user = "" \/ exists u, user = u +:+ "@" /\ userinfo_ok u = true) /\ authority_host h name /\
    validOptionalPort p = true /\ after_authority tail /\
    scheme o = ToLower (sql_lower sch) /\ host o = ToLower name /\
    port o = collapse (scheme o) (sdrop 1 p) }.

(** *** The host of the URL, and its parts *)
Lemma digits_lack c s : is_digit c = false -> string_forallb is_digit s = true -> lacks c s = true.
Proof.
  intros Hc. unfold lacks. induction s as [|d s IH]; [done|]. cbn [string_forallb].
  intros [Hd Hs]%andb_true_iff. rewrite IH by done. rewrite andb_true_r.
  apply negb_true_iff, Ascii.eqb_neq. intros ->. congruence.
Qed.

Lemma unescape_digits s : string_forallb is_digit s = true -> unescape_host s = Some s.
Proof.
  intros Hs. apply unescape_id. revert Hs. induction s as [|c s IH]; [done|]. cbn [string_forallb].
  intros [Hc Hs]%andb_true_iff. rewrite IH by done. rewrite andb_true_r.
  unfold is_digit in Hc. apply andb_true_iff in Hc as [?%Z.leb_le ?%Z.leb_le].
  assert (unreserved c = true) as Hu.
  { unfold unreserved. cbv zeta. rewrite (proj2 (Z.leb_le 48 _)), (proj2 (Z.leb_le _ 57)) by lia.
    cbn [andb]. by rewrite !orb_true_r. }
  unfold host_literal, host_char. rewrite Hu, orb_true_r. cbn [andb orb]. apply negb_true_iff, Z.eqb_neq. lia.
Qed.

Lemma prefix_bracket s : lacks "[" s = true -> HasPrefix s "[" = false.
Proof.
  destruct s as [|c s]; [done|]. unfold lacks. cbn [string_forallb]. intros [Hc _]%andb_true_iff.
  apply negb_true_iff, Ascii.eqb_neq in Hc. unfold HasPrefix. cbn [String.prefix].
  destruct (Ascii.ascii_dec "[" c) as [<-|]; done.
Qed.

Lemma split_named name p :
  lacks "[" name = true -> validOptionalPort p = true -> (p = "" -> lacks ":" name = true) ->
  splitHostPort (name +:+ p) = (name, sdrop 1 p).
Proof.
  intros Hb Hp Hn. unfold splitHostPort. destruct p as [|c d].
  - rewrite string_app_nil, (proj2 (cut_last_None _ _)) by auto. cbv beta iota zeta.
    destruct (cut_last name "]") as [[i [|x y]]|]; try done. by rewrite prefix_bracket.
  - cbn [validOptionalPort] in Hp. apply andb_true_iff in Hp as [->%Ascii.eqb_eq Hd].
    rewrite (proj2 (cut_last_Some _ _ name d)) by (split; [done|by apply digits_lack]).
    rewrite Hd. cbv beta iota zeta. cbn [sdrop].
    destruct (cut_last name "]") as [[i [|x y]]|]; try done. by rewrite prefix_bracket.
Qed.

Lemma split_literal i p :
  validOptionalPort p = true ->
  splitHostPort ("[" +:+ i +:+ "]" +:+ p) = (i, sdrop 1 p).
Proof.
  intros Hp. set (t := String "[" i +:+ "]").
  replace ("[" +:+ i +:+ "]" +:+ p) with (t +:+ p)
    by (unfold t; by rewrite !string_app_cons, !string_app_empty, string_app_assoc).
  assert (cut_last t "]" = Some (String "[" i, "")) as Ht by (by apply cut_last_Some).
  assert (HasPrefix t "[" = true) as Hpre by (unfold t; by destruct i).
  unfold splitHostPort. destruct p as [|c d].
  - rewrite string_app_nil. destruct (cut_last t ":") as [[h q]|] eqn:E.
    2:{ cbv beta iota zeta. by rewrite Ht, Hpre. }
    replace (string_forallb is_digit q) with false; [by rewrite Ht, Hpre|]. symmetry.
    apply cut_last_Some in E as [He _]. apply not_true_is_false. intros Hd.
    pose proof (digits_lack "]" q eq_refl Hd) as Hq.
    assert (cut_last (h +:+ String ":" q) "]" = Some (String "[" i, "")) as Hc by by rewrite <- He.
    assert (lacks "]" (String ":" q) = true) as Hq' by exact Hq.
    destruct (cut_last h "]") as [[a b]|] eqn:Eh.
    + apply cut_last_Some in Eh as [-> Hb].
      rewrite (proj2 (cut_last_Some _ _ a (b +:+ String ":" q))) in Hc.
      * injection Hc as _ Hc. by destruct b.
      * rewrite lacks_app, Hb. split; [by rewrite string_app_assoc, string_app_cons|done].
    + apply cut_last_None in Eh. rewrite (proj2 (cut_last_None _ _)) in Hc; [done|].
      by rewrite lacks_app, Eh.
  - cbn [validOptionalPort] in Hp. apply andb_true_iff in Hp as [->%Ascii.eqb_eq Hd].
    rewrite (proj2 (cut_last_Some _ _ t d)) by (split; [done|by apply digits_lack]).
    rewrite Hd. cbv beta iota zeta. cbn [sdrop]. by rewrite Ht, Hpre.
Qed.

(** *** What the parser accepts *)
Lemma port_digits c d : hex_value c = None -> string_forallb is_digit d = true ->
  forall a, unescape_host (a +:+ String c d) =
    match unescape_host a, unescape_host (String c d) with
    | Some x, Some y => Some (x +:+ y) | _, _ => None end.
Proof. intros Hc _ a. by apply unescape_app. Qed.

Lemma unescape_port d : string_forallb is_digit d = true -> unescape_host (String ":" d) = Some (String ":" d).
Proof. intros Hd%unescape_digits. unfold unescape_host in *. cbn [unescape]. by rewrite Hd. Qed.

Lemma parse_name_shape sch s x :
  parse_name sch s = Some x -> lacks "[" s = true ->
  exists h p name, s = h +:+ p /\ authority_host h name /\ validOptionalPort p = true /\
    splitHostPort x = (name, sdrop 1 p).
Proof.
  intros Hx Hb.
  assert (match cut_byte s ":" with Some _ => False | None => True end \/
          exists a d, s = a +:+ String ":" d /\ string_forallb is_digit d = true) as Hs.
  { unfold parse_name in Hx. destruct (one_of _ _).
    - destruct (cut_last s ":") as [[a d]|] eqn:E.
      + apply cut_last_Some in E as [-> _]. right. exists a, d. by destruct (string_forallb is_digit d).
      + left. apply cut_last_None, cut_byte_None in E. by rewrite E.
    - destruct (cut_byte s ":") as [[a d]|] eqn:E; [|by left].
      apply cut_byte_Some in E as [-> _]. right. exists a, d. by destruct (string_forallb is_digit d). }
  assert (unescape_host s = Some x) as Hu.
  { unfold parse_name in Hx. by repeat case_match. }
  destruct Hs as [Hn|(a & d & -> & Hd)].
  - destruct (cut_byte s ":") eqn:E; [done|]. apply cut_byte_None in E.
    exists s, "", x. rewrite string_app_nil. split; [done|]. split; [by apply named|]. split; [done|].
    rewrite <- (string_app_nil x) at 1. apply split_named; [|done|].
    + by eapply unescape_lacks; [|exact Hu|exact Hb].
    + intros _. by eapply unescape_lacks; [|exact Hu|exact E].
  - unfold unescape_host in Hu. rewrite unescape_app in Hu by done. fold unescape_host in Hu.
    rewrite unescape_port in Hu by done. destruct (unescape_host a) as [name|] eqn:Ha; [|done].
    injection Hu as <-. rewrite lacks_app in Hb. apply andb_true_iff in Hb as [Hb _].
    exists a, (String ":" d), name. split; [done|]. split; [by apply named|]. split; [done|].
    apply split_named; [by eapply unescape_lacks; [|exact Ha|exact Hb]|done|done].
Qed.

Lemma parse_literal_shape s x :
  parse_literal s = Some x ->
  exists h p name, String "[" s = h +:+ p /\ authority_host h name /\ validOptionalPort p = true /\
    splitHostPort x = (name, sdrop 1 p).
Proof.
  unfold parse_literal. destruct (cut_last s "]") as [[i p]|] eqn:E; [|done].
  apply cut_last_Some in E as [-> _]. destruct (validOptionalPort p) eqn:Hp; [|done]. cbn [negb].
  destruct (cut_zone i) as [a z] eqn:Ez. apply cut_zone_app in Ez as ->.
  destruct (unescape_host a) as [a'|] eqn:Ha; [|done].
  destruct (unescape zone_escape host_literal z) as [z'|] eqn:Hz; [|done].
  destruct (ip_literal _) eqn:Hip; [|done]. intros [= <-].
  exists ("[" +:+ a +:+ z +:+ "]"), p, (a' +:+ z'). split.
  { by rewrite !string_app_cons, !string_app_empty, !string_app_assoc, string_app_cons, string_app_empty. }
  split; [by apply literal|]. split; [done|].
  pose proof (split_literal (a' +:+ z') p Hp) as Hs. by rewrite string_app_assoc in Hs.
Qed.

Lemma parseHost_shape sch s x :
  parseHost sch s = Some x ->
  exists h p name, s = h +:+ p /\ authority_host h name /\ validOptionalPort p = true /\
    splitHostPort x = (name, sdrop 1 p).
Proof.
  unfold parseHost. destruct (cut_last s "[") as [[[|c a] l]|] eqn:E; [|done|].
  - apply cut_last_Some in E as [-> _]. apply parse_literal_shape.
  - intros Hx. eapply parse_name_shape; [exact Hx|]. by apply cut_last_None.
Qed.

Lemma parseAuthority_shape sch s x :
  parseAuthority sch s = Some x ->
  exists user h p name, s = user +:+ h +:+ p /\
    (user = "" \/ exists u, user = u +:+ "@" /\ userinfo_ok u = true) /\
    authority_host h name /\ validOptionalPort p = true /\ splitHostPort x = (name, sdrop 1 p).
Proof.
  unfold parseAuthority. destruct (cut_last s "@") as [[u r]|] eqn:E.
  - apply cut_last_Some in E as [-> _]. destruct (parseHost sch r) as [y|] eqn:Eh; [|done].
    destruct (userinfo_ok u) eqn:Eu; [|done]. intros [= <-].
    destruct (parseHost_shape _ _ _ Eh) as (h & p & name & -> & Hn & Hp & Hs).
    exists (u +:+ "@"), h, p, name. rewrite string_app_assoc, string_app_cons, string_app_empty.
    split; [done|]. split; [right; by exists u|done].
  - intros Hx. destruct (parseHost_shape _ _ _ Hx) as (h & p & name & -> & Hn & Hp & Hs).
    exists "", h, p, name. rewrite string_app_empty. split; [done|]. split; [by left|done].
Qed.

Lemma after_authority_app a b : after_authority a -> after_authority b -> after_authority (a +:+ b).
Proof.
  intros [->|(c & t & -> & Hc)] Hb; [by rewrite string_app_empty|].
  right. exists c, (t +:+ b). by rewrite string_app_cons.
Qed.

Lemma after_authority_cons c t : (c = "/" \/ c = "?" \/ c = "#")%char -> after_authority (String c t).
Proof. intros Hc. right. by exists c, t. Qed.

Lemma getScheme_shape s sch rest :
  getScheme s = Some (sch, rest) -> sch <> "" -> s = sch +:+ String ":" rest.
Proof.
  unfold getScheme. destruct s as [|c s]; [by intros [= <- <-]|].
  destruct (Ascii.eqb c ":"); [done|]. destruct (scheme_tail c); [by intros [= <- <-]|].
  destruct (scan_scheme (String c s)) as [[a b]|] eqn:E; [|by intros [= <- <-]].
  intros [= <- <-] _. by apply scan_scheme_app.
Qed.

Lemma with_path_parts sch h rest q u :
  with_path sch h rest q = Some u -> u_Scheme u = sch /\ u_Host u = h.
Proof. unfold with_path. destruct (unescape _ _ _); [|done]. by intros [= <-]. Qed.

Lemma parse_plain_shape raw u :
  parse_plain raw = Some u -> u_Scheme u <> "" -> u_Host u <> "" ->
  exists sch authority tail,
    raw = sch +:+ "://" +:+ authority +:+ tail /\ after_authority tail /\
    u_Scheme u = sql_lower sch /\ parseAuthority (sql_lower sch) authority = Some (u_Host u).
Proof.
  unfold parse_plain. destruct (negb _); [done|]. destruct (raw =s "*"); [by intros [= <-]|].
  destruct (getScheme raw) as [[sch rest]|] eqn:Eg; [|done]. cbv zeta.
  destruct (cut_or rest "?") as [path query] eqn:Eq.
  destruct (negb (HasPrefix path "/")).
  { destruct (sql_lower sch <>s ""); [by intros [= <-]|]. destruct (Contains _ _); [done|].
    by intros (-> & ->)%with_path_parts. }
  destruct (_ && HasPrefix path "//") eqn:Ea; [|by intros (-> & ->)%with_path_parts].
  apply andb_true_iff in Ea as [_ Ea]. apply HasPrefix_split in Ea. cbn [String.length] in Ea.
  destruct (split_authority (sdrop 2 path)) as [authority tail] eqn:Es.
  destruct (parseAuthority _ authority) as [h|] eqn:Eh; [|done].
  intros (Hs & Hh)%with_path_parts Hne _. rewrite Hs in *. rewrite Hh.
  apply split_authority_app in Es as (Es & _ & Ht).
  assert (sch <> "") as Hsch by (intros ->; by destruct Hne).
  pose proof (getScheme_shape _ _ _ Eg Hsch) as ->.
  destruct (cut_or_app _ _ _ _ Eq) as (t & -> & Hq).
  exists sch, authority, (tail +:+ t). split; [|split; [|done]].
  - rewrite Ea, Es. by rewrite !string_app_cons, !string_app_empty, !string_app_assoc.
  - apply after_authority_app.
    + destruct Ht as [->|[x ->]]; [by left|apply after_authority_cons; auto].
    + destruct Hq as [->| ->]; [by left|apply after_authority_cons; auto].
Qed.

Section Origin.
Context `{UnicodeTables}.

Lemma parseOrigin_shape s o : parseOrigin s = Some o -> origin_shape s o.
Proof.
  unfold parseOrigin. destruct (_ || _); [done|]. unfold url_Parse.
  destruct (cut_or s "#") as [plain frag] eqn:Ef. destruct (parse_plain plain) as [u|] eqn:Ep; [|done].
  destruct (cut_or_app _ _ _ _ Ef) as (t & -> & Ht).
  assert (forall v, u_Scheme v = u_Scheme u -> u_Host v = u_Host u ->
    (if (u_Scheme v =s "") || (u_Host v =s "") then None else
     let scheme := ToLower (u_Scheme v) in
     let port := Port v in
     let port := if ((scheme =s "https") && (port =s "443")) || ((scheme =s "http") && (port =s "80")) then "" else port in
     Some (mkOrigin scheme (ToLower (Hostname v)) port)) = Some o -> origin_shape (plain +:+ t) o) as Hcore.
  { intros v Hs Hh. destruct (_ || _) eqn:Eb; [done|]. apply orb_false_iff in Eb as [Es Eh].
    string_reflect. rewrite Hs in Es. rewrite Hh in Eh. cbv zeta. intros [= <-].
    destruct (parse_plain_shape _ _ Ep Es Eh) as (sch & auth & tail & -> & Htail & Hsch & Hauth).
    destruct (parseAuthority_shape _ _ _ Hauth) as (user & h & p & name & -> & Hu & Hn & Hp & Hsplit).
    constructor. exists sch, user, h, name, p, (tail +:+ t).
    rewrite !string_app_assoc. split; [done|]. split; [done|]. split; [done|]. split; [done|]. split.
    { apply after_authority_app; [done|]. destruct Ht as [->| ->]; [by left|apply after_authority_cons; auto]. }
    unfold Hostname, Port. rewrite Hh, Hsplit, Hs, Hsch. done. }
  destruct (frag =s ""); [by apply Hcore|]. destruct (unescape any_escape any_char frag); [|done].
  by apply Hcore.
Qed.

(** *** The origins that browsers send *)
Definition scheme_char (c : ascii) : bool := scheme_letter c || scheme_tail c.
Definition name_char (c : ascii) : bool :=
  host_char c && negb (existsb (Ascii.eqb c) [":"; "["; "]"; "%"]%char).

Record canonical (sch name p tail : string) : Prop := {
  ca_scheme : exists c t, sch = String c t /\ scheme_letter c = true /\ string_forallb scheme_char t = true;
  ca_name : name <> "" /\ string_forallb name_char name = true;
  ca_port : validOptionalPort p = true;
  ca_tail : tail = "" \/ tail = "/" }.

Definition origin_char (c : ascii) : bool := scheme_char c || name_char c || Ascii.eqb c ":" || Ascii.eqb c "/".

Lemma forallb_lacks (f : ascii -> bool) c s : f c = false -> string_forallb f s = true -> lacks c s = true.
Proof.
  intros Hc. unfold lacks. induction s as [|d s IH]; [done|]. cbn [string_forallb].
  intros [Hd Hs]%andb_true_iff. rewrite IH by done. rewrite andb_true_r.
  apply negb_true_iff, Ascii.eqb_neq. intros ->. congruence.
Qed.

Lemma forallb_weaken (f g : ascii -> bool) s :
  (forall c, f c = true -> g c = true) -> string_forallb f s = true -> string_forallb g s = true.
Proof.
  intros Hfg. induction s as [|c s IH]; [done|]. cbn [string_forallb].
  intros [Hc Hs]%andb_true_iff. by rewrite (Hfg c Hc), IH.
Qed.

Lemma every_char (P : ascii -> bool) :
  forallb (fun n => P (ascii_of_nat n)) (seq 0 256) = true -> forall c, P c = true.
Proof.
  intros Hall c. rewrite forallb_forall in Hall. rewrite <- (ascii_nat_embedding c). apply Hall.
  apply in_seq. split; [lia|]. cbn [Nat.add]. apply nat_ascii_bounded.
Qed.

Lemma char_implies (f g : ascii -> bool) :
  forallb (fun n => implb (f (ascii_of_nat n)) (g (ascii_of_nat n))) (seq 0 256) = true ->
  forall c, f c = true -> g c = true.
Proof.
  intros Hall c Hf. pose proof (every_char (fun c => implb (f c) (g c)) Hall c) as Hi. cbv beta in Hi.
  by rewrite Hf in Hi.
Qed.

Lemma canonical_chars sch name p tail :
  canonical sch name p tail -> string_forallb origin_char (sch +:+ "://" +:+ name +:+ p +:+ tail) = true.
Proof.
  intros [(c & t & -> & Hc & Ht) (_ & Hn) Hp Htail]. rewrite !string_forallb_app, !andb_true_iff. split; [|split; [|split; [|split]]].
  - cbn [string_forallb]. rewrite (forallb_weaken _ _ _ (char_implies scheme_char origin_char eq_refl) Ht).
    by rewrite (char_implies scheme_letter origin_char eq_refl _ Hc).
  - reflexivity.
  - by apply (forallb_weaken _ _ _ (char_implies name_char origin_char eq_refl)).
  - destruct p as [|d p]; [done|]. cbn [validOptionalPort] in Hp. apply andb_true_iff in Hp as [->%Ascii.eqb_eq Hd].
    cbn [string_forallb]. by rewrite (forallb_weaken _ _ _ (char_implies is_digit origin_char eq_refl) Hd).
  - by destruct Htail as [->| ->].
Qed.

Lemma getScheme_canonical sch name p tail rest :
  canonical sch name p tail -> getScheme (sch +:+ String ":" rest) = Some (sch, rest).
Proof.
  intros [(c & t & -> & Hc & Ht) _ _ _]. rewrite string_app_cons. unfold getScheme.
  assert (Ascii.eqb c ":" = false) as Hcolon.
  { pose proof (char_implies scheme_letter (fun c => negb (Ascii.eqb c ":")) eq_refl _ Hc) as Hx. by apply negb_true_iff. }
  assert (scheme_tail c = false) as Htl.
  { pose proof (char_implies scheme_letter (fun c => negb (scheme_tail c)) eq_refl _ Hc) as Hx. by apply negb_true_iff. }
  rewrite Hcolon, Htl. cbn [scan_scheme]. rewrite Hcolon, Hc. cbn [orb].
  assert (scan_scheme (t +:+ String ":" rest) = Some (t, rest)) as ->; [|done].
  clear - Ht. induction t as [|d t IH]; [reflexivity|]. rewrite string_app_cons. cbn [scan_scheme string_forallb] in *.
  apply andb_true_iff in Ht as [Hd Ht].
  pose proof (char_implies scheme_char (fun c => negb (Ascii.eqb c ":")) eq_refl _ Hd) as Hx. apply negb_true_iff in Hx.
  rewrite Hx. unfold scheme_char in Hd. by rewrite Hd, IH.
Qed.

Lemma authority_canonical sch0 sch name p tail :
  canonical sch name p tail -> parseAuthority sch0 (name +:+ p) = Some (name +:+ p) /\
  splitHostPort (name +:+ p) = (name, sdrop 1 p).
Proof.
  intros Hca. pose proof (canonical_chars _ _ _ _ Hca) as Hch. destruct Hca as [_ (Hne & Hn) Hp _].
  rewrite !string_forallb_app in Hch. repeat apply andb_true_iff in Hch as [? Hch].
  assert (forall c, name_char c = false -> lacks c name = true) as Hl by (intros c Hc; by eapply forallb_lacks).
  assert (forall c, is_digit c = false -> Ascii.eqb c ":" = false -> lacks c p = true) as Hlp.
  { intros c Hc Hcc. destruct p as [|d p]; [done|]. cbn [validOptionalPort] in Hp.
    apply andb_true_iff in Hp as [->%Ascii.eqb_eq Hd]. unfold lacks. cbn [string_forallb].
    rewrite Ascii.eqb_sym, Hcc. cbn [negb andb]. by apply (digits_lack c). }
  split; [|apply split_named; auto].
  unfold parseAuthority. rewrite (proj2 (cut_last_None _ _)) by (by rewrite lacks_app, Hl, Hlp).
  unfold parseHost. rewrite (proj2 (cut_last_None _ _)) by (by rewrite lacks_app, Hl, Hlp).
  assert (unescape_host name = Some name) as Hun.
  { apply unescape_id, (forallb_weaken name_char); [|done].
    apply (char_implies name_char (fun c => host_literal c && negb (byte_of c =? 37)%Z)). vm_compute. reflexivity. }
  unfold parse_name. destruct p as [|d p].
  - rewrite string_app_nil. rewrite (proj2 (cut_byte_None _ _)), (proj2 (cut_last_None _ _)) by auto.
    by destruct (one_of _ _).
  - cbn [validOptionalPort] in Hp. apply andb_true_iff in Hp as [->%Ascii.eqb_eq Hd].
    rewrite (proj2 (cut_byte_Some _ _ name p)), (proj2 (cut_last_Some _ _ name p)) by auto using digits_lack.
    destruct (one_of _ _); rewrite Hd; unfold unescape_host; rewrite unescape_app by done;
      fold unescape_host; by rewrite Hun, unescape_port.
Qed.

Lemma split_authority_at a tail :
  lacks "/" a = true -> tail = "" \/ tail = "/" -> split_authority (a +:+ tail) = (a, tail).
Proof.
  intros Ha Ht. induction a as [|c a IH].
  - rewrite string_app_empty. by destruct Ht as [->| ->].
  - unfold lacks in *. cbn [string_forallb] in Ha. apply andb_true_iff in Ha as [Hc Ha].
    apply negb_true_iff in Hc. rewrite string_app_cons. cbn [split_authority]. by rewrite Hc, IH.
Qed.

Lemma canonical_url sch name p tail :
  canonical sch name p tail ->
  url_Parse (sch +:+ "://" +:+ name +:+ p +:+ tail) = Some (mkURL (sql_lower sch) (name +:+ p) tail "" "").
Proof.
  intros Hca. pose proof (canonical_chars _ _ _ _ Hca) as Hch.
  set (s := sch +:+ "://" +:+ name +:+ p +:+ tail) in *. set (rest := "//" +:+ name +:+ p +:+ tail).
  assert (getScheme s = Some (sch, rest)) as Hsch.
  { unfold s. rewrite (string_app_cons ":"), !string_app_cons, string_app_empty. by eapply getScheme_canonical. }
  assert (forall c, origin_char c = false -> cut_or s c = (s, "")) as Hcut.
  { intros c Hc. unfold cut_or. by rewrite (proj2 (cut_byte_None s c)) by by eapply forallb_lacks. }
  unfold url_Parse. rewrite Hcut by done. unfold parse_plain.
  rewrite (forallb_weaken origin_char no_control) by (done || by apply (char_implies origin_char no_control)).
  cbn [negb]. destruct (String.eqb_spec s "*") as [He|_]; [rewrite He in Hsch; by injection Hsch as <-; destruct (ca_scheme _ _ _ _ Hca) as (? & ? & ? & _)|].
  rewrite Hsch. cbv zeta.
  assert (cut_or rest "?" = (rest, "")) as ->.
  { unfold cut_or. rewrite (proj2 (cut_byte_None rest "?")); [done|].
    apply (forallb_lacks origin_char); [done|]. revert Hch. unfold s, rest.
    rewrite !string_forallb_app, !andb_true_iff. by intros (_ & _ & ?). }
  assert ((sql_lower sch <>s "") = true) as Hne.
  { destruct (ca_scheme _ _ _ _ Hca) as (c & t & -> & _). reflexivity. }
  assert (HasPrefix rest "/" = true /\ HasPrefix rest "//" = true /\ sdrop 2 rest = name +:+ p +:+ tail) as (-> & -> & ->).
  { unfold rest. rewrite !string_app_cons, string_app_empty. by destruct (name +:+ p +:+ tail). }
  rewrite Hne. cbn [negb orb andb]. rewrite <- (string_app_assoc name p tail).
  rewrite split_authority_at; [|rewrite lacks_app|by destruct Hca].
  - destruct (authority_canonical (sql_lower sch) _ _ _ _ Hca) as [-> _]. unfold with_path.
    by destruct (ca_tail _ _ _ _ Hca) as [->| ->].
  - destruct Hca as [_ (_ & Hn) Hp _]. rewrite (forallb_lacks name_char) by done.
    destruct p as [|d p]; [done|]. cbn [validOptionalPort] in Hp. apply andb_true_iff in Hp as [->%Ascii.eqb_eq Hd].
    by apply (digits_lack "/") in Hd.
Qed.

Lemma parseOrigin_canonical sch name p tail :
  canonical sch name p tail ->
  let scheme := ToLower (sql_lower sch) in
  parseOrigin (sch +:+ "://" +:+ name +:+ p +:+ tail) =
    Some (mkOrigin scheme (ToLower name) (collapse scheme (sdrop 1 p))).
Proof.
  intros Hca. cbv zeta. unfold parseOrigin. pose proof (canonical_url _ _ _ _ Hca) as Hu.
  destruct (ca_scheme _ _ _ _ Hca) as (c & t & -> & _).
  set (s := String c t +:+ "://" +:+ name +:+ p +:+ tail) in *.
  destruct (String.eqb_spec s "") as [He|_]; [rewrite He in Hu; discriminate Hu|].
  destruct (String.eqb_spec s "null") as [He|_]; [rewrite He in Hu; discriminate Hu|].
  cbn [orb]. rewrite Hu. cbn [u_Scheme u_Host].
  destruct (ca_name _ _ _ _ Hca) as [Hne _]. destruct name as [|d name]; [done|].
  change (sql_lower (String c t) =s "") with false.
  change (String d name +:+ p =s "") with false. cbn [orb]. cbv zeta.
  unfold Hostname, Port. cbn [u_Host].
  by destruct (authority_canonical "" _ _ _ _ Hca) as [_ ->].
Qed.

(** C33. The CSRF guard on the text of the header.  A request with a mutating
    method reaches the handler only if its Origin (or Referer) reads
    scheme, "://", possibly a userinfo and "@", a host, a port, and then nothing
    or a path, query or fragment, where scheme, host (with its percent-escapes
    read) and port are those of the admin host up to case and the scheme's
    default port; the userinfo holds only the characters allowed there, no
    slash, question mark or hash, so the host is the one the URL addresses.
    Conversely an origin of that scheme, host and port in the spelling that
    browsers send is let through: a scheme, a name without colon, bracket or
    percent sign, a port or none, and at most a slash behind it.  Other
    spellings, with a userinfo, an escape or an IPv6 literal, may be refused. *)
Theorem csrf_origin_text `{SqlDriver} expected next next' r w :
  (CSRFGuard expected next r w <> CSRFGuard expected next' r w ->
   safe_method (r_method r) = true \/ origin_shape (origin_of r) expected) /\
  forall sch name p tail, canonical sch name p tail ->
    origin_of r = sch +:+ "://" +:+ name +:+ p +:+ tail ->
    scheme expected = ToLower (sql_lower sch) -> host expected = ToLower name ->
    port expected = collapse (scheme expected) (sdrop 1 p) ->
    CSRFGuard expected next r w = next r w.
Proof.
  split.
  - intros [[?|Ho] _]%CSRFGuard_differ; [by left|right]. by apply parseOrigin_shape.
  - intros sch name p tail Hca Ho Hs Hh Hp. unfold CSRFGuard. cbv zeta.
    destruct (safe_method _); [done|]. change (if _ =s "" then _ else _) with (origin_of r).
    rewrite Ho, parseOrigin_canonical by done. rewrite <- Hs, <- Hh, <- Hp.
    by rewrite (proj2 (origin_eqb_eq _ expected)) by by destruct expected.
Qed.
End Origin.

(** Texts that only resemble the admin host. *)
Example lookalikes :
  forallb (fun s => match @parseOrigin ascii_tables s with
                    | Some o => negb (origin_eqb o (mkOrigin "https" "admin.example.org" ""))
                    | None => true end)
    ["https://admin.example.org.evil.com"; "https://evil.com/https://admin.example.org";
     "https://admin.example.org@evil.com"; "https://evil.com#@admin.example.org"; "https://admin.example.org:444";
     "http://admin.example.org"; "https://admin%2Eexample.org"; "https:admin.example.org"; "//admin.example.org";
     "https://evil.com?admin.example.org"; "https:///admin.example.org"; "null"; ""] = true.
Proof. vm_compute. reflexivity. Qed.
Example same_origin :
  map (@parseOrigin ascii_tables) ["https://Admin.Example.org"; "HTTPS://admin.example.org:443/page?q#f"; "https://u@admin.example.org:"] =
    repeat (Some (mkOrigin "https" "admin.example.org" "")) 3.
Proof. vm_compute. reflexivity. Qed.

Lemma csrf_origin_text_witness :
  let expected := mkOrigin "https" "admin.example.org" "8443" in
  let r := demo_request "POST" "/api/v1/keys" [("Origin", "https://Admin.example.org:8443")] [] in
  let w := demo_world demo_db in
  @CSRFGuard ascii_tables expected (fun _ => ret no_content) r w = (no_content, w).
Proof.
  intros expected r w.
  apply (proj2 (@csrf_origin_text ascii_tables sqlite_driver expected (fun _ => ret no_content)
    (fun _ => ret no_content) r w) "https" "Admin.example.org" ":8443" "").
  - constructor; [exists "h"%char, "ttps"; by split|by split|reflexivity|by left].
  - reflexivity.
  - vm_compute. reflexivity.
  - vm_compute. reflexivity.
  - vm_compute. reflexivity.
Defined.
