(* ===== verification/Pagination.v ===== *)
(** * Pagination and the role gate: what the list handlers share

    accounts.go of package handler, up to its first handler. *)
From Stdlib Require Import ZArith Lia Ascii DecimalZ.
From stdpp Require Import base gmap strings list sorting.
From S2P Require Import Prelude GoStrings Errors State Tables Encoding Effects AuditStore Http.
From S2P Require Import Fixtures.
Open Scope packyard_scope.
Open Scope eff_scope.

(** ** strconv.Atoi *)
Fixpoint digits_from (acc : Z) (s : string) : option Z :=
  match s with
  | EmptyString => Some acc
  | String c s =>
      if (48 <=? byte_of c)%Z && (byte_of c <=? 57)%Z
      then digits_from (acc * 10 + (byte_of c - 48))%Z s else None
  end.

Definition digits_value (s : string) : option Z := digits_from 0 s.

Definition Atoi (s : string) : option Z :=
  let '(neg, d) := match s with
                   | String "-" d => (true, d)
                   | String "+" d => (false, d)
                   | _ => (false, s)
                   end in
  if d =s "" then None
  else match digits_value d with
  | Some n =>
      let n := if neg : bool then (- n)%Z else n in
      if (min_int64 <=? n)%Z && (n <=? max_int64)%Z then Some n else None
  | None => None
  end.

Definition defaultPageLimit : Z := 50.
Definition maxPageLimit : Z := 500.

(** The offset and limit of a request, or the 400 it gets. *)
Definition parsePagination (r : Request) : Response + Z * Z :=
  let bad := writeError 400 in
  let v := r_query r "offset" in
  let offset := if v =s "" then Some 0%Z
                else match Atoi v with
                     | Some n => if (n <? 0)%Z then None else Some n
                     | None => None
                     end in
  match offset with
  | None => inl (bad "INVALID_REQUEST" "offset must be a non-negative integer")
  | Some offset =>
      let v := r_query r "limit" in
      if v =s "" then inr (offset, defaultPageLimit)
      else
        let limit := match Atoi v with
                     | Some n => if (n <=? 0)%Z then None else Some n
                     | None => None
                     end in
        match limit with
        | None => inl (bad "INVALID_REQUEST" "limit must be a positive integer")
        | Some n =>
            if (maxPageLimit <? n)%Z
            then inl (bad "LIMIT_TOO_LARGE"
                        ("limit " +:+ itoa n +:+ " exceeds maximum " +:+ itoa maxPageLimit))
            else inr (offset, n)
        end
  end.

(** ** Links *)
Definition preserveQueryExceptPaging (vs : gmap string (list string)) : gmap string (list string) :=
  delete "offset" (delete "limit" vs).

Definition page_values (r : Request) (limit off : Z) : gmap string (list string) :=
  <["limit" := [itoa limit]]> (<["offset" := [itoa off]]>
    (preserveQueryExceptPaging (r_values r))).

Definition page_query (r : Request) (limit off : Z) : string := encode_values (page_values r limit off).

Definition page_link (r : Request) (limit off : Z) (rel : string) : string :=
  "<" +:+ r_path r +:+ "?" +:+ page_query r limit off +:+ ">; rel=" +:+ String (of_byte 34) (rel +:+ String (of_byte 34) "").

(** The offsets linked to: the next page if there is more, the previous one
    unless this is the first. *)
Definition link_offsets (hasMore : bool) (offset limit : Z) : list (string * Z) :=
  (if hasMore then [("next", (offset + limit)%Z)] else []) ++
  (if (0 <? offset)%Z then [("prev", Z.max 0 (offset - limit))] else []).

Definition joinLinks (links : list string) : string := String.concat ", " links.

Definition writePaginationLinks (r : Request) (hasMore : bool) (offset limit : Z) :
    list (string * string) :=
  match link_offsets hasMore offset limit with
  | [] => []
  | ls => [("Link", String.concat ", " (map (fun l => page_link r limit l.2 l.1) ls))]
  end.

(** The rows of a page out of the [limit + 1] that were fetched, and whether
    there are more. *)
Definition trim_page {A} (limit : Z) (rows : list A) : list A * bool :=
  let hasMore := (limit <? Z.of_nat (length rows))%Z in
  (if hasMore then take (Z.to_nat limit) rows else rows, hasMore).

(** The body of every list handler after the query. *)
Definition reply_page {A} (r : Request) (offset limit : Z) (rows : list A)
    (body : list A -> Body) : Response :=
  let '(rows, hasMore) := trim_page limit rows in
  set_headers (writePaginationLinks r hasMore offset limit) (reply 200 (body rows)).

(** ** requireAdmin *)
Definition requireAdmin (r : Request) : Response + AuthOperator :=
  match OperatorFromContext r with
  | None => inl (writeError 401 "UNAUTHORIZED" "no authenticated operator on the request")
  | Some op =>
      if negb (IsAdmin op)
      then inl (writeError 403 "ROLE_DENIED" "this endpoint requires the admin role")
      else inr op
  end.

(** ** Paging through a list *)
Definition in_range (offset limit : Z) : Prop :=
  (0 <= offset <= max_int64)%Z /\ (1 <= limit <= maxPageLimit)%Z.

Lemma Atoi_range s n : Atoi s = Some n -> (min_int64 <= n <= max_int64)%Z.
Proof.
  unfold Atoi. match goal with |- context [let '(_, _) := ?x in _] => destruct x as [neg d] end.
  destruct (d =s ""); [done|]. destruct (digits_value d); [|done].
  destruct (_ && _) eqn:E; [|done]. intros [= <-].
  apply andb_true_iff in E as [?%Z.leb_le ?%Z.leb_le]. done.
Qed.

(** Whatever the query string says, the handlers query the store with an
    offset between 0 and the largest int and a limit between 1 and 500. *)
Lemma pagination_bounds r offset limit :
  parsePagination r = inr (offset, limit) -> in_range offset limit.
Proof.
  unfold parsePagination, in_range. cbv zeta.
  destruct (if r_query r "offset" =s "" then _ else _) as [o|] eqn:Eo; [|done].
  assert (0 <= o <= max_int64)%Z as Ho.
  { destruct (_ =s ""); [by injection Eo as <-|].
    destruct (Atoi _) as [n|] eqn:Ea; [|done]. apply Atoi_range in Ea.
    destruct (n <? 0)%Z eqn:En; [done|]. injection Eo as <-. apply Z.ltb_ge in En. lia. }
  clear Eo. destruct (r_query r "limit" =s ""); [intros [= <- <-]; by split|].
  destruct (Atoi _) as [n|]; [|done]. destruct (n <=? 0)%Z eqn:En; [done|].
  destruct (maxPageLimit <? n)%Z eqn:Em; [done|]. intros [= <- <-].
  apply Z.leb_gt in En. apply Z.ltb_ge in Em. split; [done|lia].
Qed.

(** *** Numbers in links *)
Lemma digits_from_acc d p :
  digits_from (Z.pos p) (DecimalString.NilEmpty.string_of_uint d) = Some (Z.pos (Pos.of_uint_acc d p)).
Proof.
  revert p. induction d as [|d IH|d IH|d IH|d IH|d IH|d IH|d IH|d IH|d IH|d IH]; intros p; [done|..].
  all: cbn [DecimalString.NilEmpty.string_of_uint digits_from Pos.of_uint_acc].
  all: match goal with |- context [digits_from ?n _] =>
    let b := constr:(n) in
    match goal with |- _ = Some (Z.pos (Pos.of_uint_acc _ ?q)) =>
      replace b with (Z.pos q) by (vm_compute byte_of; lia) end end.
  all: apply IH.
Qed.

Lemma digits_value_uint d :
  digits_value (DecimalString.NilEmpty.string_of_uint d) = Some (Z.of_uint d).
Proof.
  unfold digits_value. induction d as [|d IH|d|d|d|d|d|d|d|d|d]; [done|exact IH|..].
  all: exact (digits_from_acc d _).
Qed.

Lemma itoa_uint n :
  (0 <= n)%Z -> exists d, itoa n = DecimalString.NilEmpty.string_of_uint d /\ d <> Decimal.Nil /\ Z.of_uint d = n.
Proof.
  intros Hn. assert (exists d, Z.to_int n = Decimal.Pos d /\ d <> Decimal.Nil) as (d & Hd & Hnil).
  { destruct n as [|p|p]; [by eexists|eexists; split; [reflexivity|]|lia].
    apply DecimalPos.Unsigned.to_uint_nonnil. }
  exists d. unfold itoa. rewrite Hd. split; [done|]. split; [done|].
  pose proof (DecimalZ.of_to n) as Ho. by rewrite Hd in Ho.
Qed.

Lemma digits_value_itoa n : (0 <= n)%Z -> digits_value (itoa n) = Some n.
Proof. intros (d & -> & _ & <-)%itoa_uint. apply digits_value_uint. Qed.

(** [Atoi] reads what [Itoa] writes. *)
Lemma Atoi_itoa n : (0 <= n <= max_int64)%Z -> Atoi (itoa n) = Some n.
Proof.
  intros Hn. pose proof (digits_value_itoa n (proj1 Hn)) as Hval.
  destruct (itoa_uint n (proj1 Hn)) as (d & Hd & Hnil & _). revert Hval. rewrite Hd. unfold Atoi.
  destruct d; [done|..]; cbn [DecimalString.NilEmpty.string_of_uint] in *; cbv beta iota zeta;
    change (String ?c ?s =s "") with false; cbv iota; intros ->;
    (rewrite (proj2 (Z.leb_le _ _)) by (unfold min_int64; lia));
    by rewrite (proj2 (Z.leb_le _ _)) by lia.
Qed.

Lemma itoa_nonempty n : (0 <= n <= max_int64)%Z -> (itoa n =s "") = false.
Proof. intros Hn%Atoi_itoa. apply String.eqb_neq. intros He. by rewrite He in Hn. Qed.

(** C34. A page link asks for the page it names: a request that carries the
    link's query string, parsed, is read back to exactly that offset and
    limit, both in range, and to the filters of the request the link was made
    for.  Conversely whatever offset and limit any request is read to are in
    range. *)
Theorem page_link_roundtrip r r' limit off :
  (forall k l, r_values r !! k = Some l -> l <> []) ->
  r_values r' = ParseQuery (page_query r limit off) ->
  (in_range off limit <-> parsePagination r' = inr (off, limit)) /\
  forall k, k <> "offset" -> k <> "limit" -> r_values r' !! k = r_values r !! k.
Proof.
  intros Hne Hr'. unfold page_query in Hr'. rewrite ParseQuery_encode in Hr'.
  2:{ intros k l. unfold page_values, preserveQueryExceptPaging.
      intros [[_ <-]|[_ [[_ <-]|[_ [_ [_ Hk]%lookup_delete_Some]%lookup_delete_Some]]%lookup_insert_Some]]
        %lookup_insert_Some; [done|done|eauto]. }
  unfold page_values, preserveQueryExceptPaging in Hr'. split.
  - split; [|apply pagination_bounds]. intros [Ho [Hl1 Hl2]].
    assert (r_query r' "offset" = itoa off /\ r_query r' "limit" = itoa limit) as [Hqo Hql].
    { unfold r_query. rewrite Hr'. rewrite lookup_insert_eq.
      rewrite lookup_insert_ne by done. by rewrite lookup_insert_eq. }
    unfold parsePagination. rewrite Hqo, Hql, !itoa_nonempty, !Atoi_itoa by (unfold max_int64, maxPageLimit in *; lia).
    cbv zeta iota. rewrite (proj2 (Z.ltb_ge off 0)) by lia. cbv iota.
    rewrite (proj2 (Z.leb_gt limit 0)), (proj2 (Z.ltb_ge maxPageLimit limit)) by lia. done.
  - intros k Hko Hkl. rewrite Hr'. by rewrite !lookup_insert_ne, !lookup_delete_ne by done.
Qed.







Lemma page_link_roundtrip_witness :
  let r := mkRequest "GET" "/api/v1/keys" (fun _ => "")
             {["component" := ["core & more"]; "offset" := ["3"]]} (fun _ => None) (fun _ => "") "" None in
  let r' := mkRequest "GET" "/api/v1/keys" (fun _ => "") (ParseQuery (page_query r 50 100))
             (fun _ => None) (fun _ => "") "" None in
  parsePagination r' = inr (100%Z, 50%Z) /\ r_values r' !! "component" = Some ["core & more"].
Proof.
  intros r r'. destruct (page_link_roundtrip r r' 50 100) as [Hp Hk].
  - intros k l Hk. change (r_values r) with
      (<["component" := ["core & more"]]> {["offset" := ["3"]]} : gmap string (list string)) in Hk.
    apply lookup_insert_Some in Hk as [[_ <-]|[_ [_ <-]%lookup_singleton_Some]]; discriminate.
  - reflexivity.
  - split; [|apply Hk; discriminate].
    apply Hp. unfold in_range, max_int64, maxPageLimit. lia.
Defined.

