(* ===== verification/Durations.v ===== *)
(** * Durations in the environment: cmd/server/config.go

    [time.ParseDuration] as package time writes it, on uint64 arithmetic with
    its overflow checks and its float64 fractions, and [envDuration] on top. *)
From Stdlib Require Import ZArith Lia Ascii.
From stdpp Require Import base gmap strings list.
From S2P Require Import Prelude GoStrings Float64 Errors State AuditStore Pagination.
Open Scope packyard_scope.

Definition two63 : Z := 2 ^ 63.

(** ** time.ParseDuration *)
(** [None]: the number overflows. *)
Fixpoint leadingInt (x : Z) (s : string) : option (Z * string) :=
  match s with
  | String c s' =>
      if negb (is_digit c) then Some (x, s)
      else if (two63 / 10 <? x)%Z then None
      else
        let x := (x * 10 + digit c)%Z in
        if (two63 <? x)%Z then None else leadingInt x s'
  | EmptyString => Some (x, s)
  end.

(** Digits beyond the precision are skipped. *)
Fixpoint leadingFraction (x : Z) (scale : float64) (overflow : bool) (s : string) :
    Z * float64 * string :=
  match s with
  | String c s' =>
      if negb (is_digit c) then (x, scale, s)
      else if overflow then leadingFraction x scale true s'
      else if ((two63 - 1) / 10 <? x)%Z then leadingFraction x scale true s'
      else
        let y := (x * 10 + digit c)%Z in
        if (two63 <? y)%Z then leadingFraction x scale true s'
        else leadingFraction y (fmul scale (float_of_int 10)) false s'
  | EmptyString => (x, scale, s)
  end.

Fixpoint cut_unit (s : string) : string * string :=
  match s with
  | String c s' =>
      if (c =? "."%char)%char || is_digit c then ("", s)
      else let '(u, rest) := cut_unit s' in (String c u, rest)
  | EmptyString => ("", "")
  end.

Definition units : list (string * Z) :=
  [("ns", 1); ("us", 1000); (bytes [194; 181; 115], 1000) (* U+00B5 *);
   (bytes [206; 188; 115], 1000) (* U+03BC *); ("ms", 1000000); ("s", 1000000000);
   ("m", 60000000000); ("h", 3600000000000)]%Z.

Definition unitMap (u : string) : option Z :=
  snd <$> find (fun e => u =s fst e) units.

(** The digits after a period, if there is one, and whether there are any. *)
Definition duration_fraction (s : string) : Z * float64 * string * bool :=
  match s with
  | String "." s1 =>
      let '(f, scale, s2) := leadingFraction 0 (float_of_int 1) false s1 in
      (f, scale, s2, negb (String.length s2 =? String.length s1)%nat)
  | _ => (0%Z, float_of_int 1, s, false)
  end.

(** One number with its unit, and what follows. *)
Definition duration_term (s : string) : option (Z * string) :=
  match s with
  | EmptyString => None
  | String c _ =>
      if negb ((c =? "."%char)%char || is_digit c) then None
      else match leadingInt 0 s with
      | None => None
      | Some (v, s1) =>
          let pre := negb (String.length s1 =? String.length s)%nat in
          let '(f, scale, s2, post) := duration_fraction s1 in
          if negb pre && negb post then None
          else
            let '(u, rest) := cut_unit s2 in
            if u =s "" then None
            else match unitMap u with
            | None => None
            | Some unit =>
                if (two63 / unit <? v)%Z then None
                else
                  let v := (v * unit)%Z in
                  if (0 <? f)%Z then
                    let v := (v + uint64_of_float
                                (fmul (float_of_int f) (fdiv (float_of_int unit) scale)))%Z in
                    if (two63 <? v)%Z then None else Some (v, rest)
                  else Some (v, rest)
            end
      end
  end.

(** The sum is a uint64 and wraps. *)
Fixpoint duration_terms (fuel : nat) (d : Z) (s : string) : option Z :=
  match s, fuel with
  | EmptyString, _ => Some d
  | _, O => None
  | _, S fuel =>
      match duration_term s with
      | None => None
      | Some (v, s') =>
          let d := ((d + v) mod 2 ^ 64)%Z in
          if (two63 <? d)%Z then None else duration_terms fuel d s'
      end
  end.

Definition ParseDuration (s : string) : option Z :=
  let '(neg, s) := match s with
                   | String "-" s => (true, s)
                   | String "+" s => (false, s)
                   | _ => (false, s)
                   end in
  if s =s "0" then Some 0%Z
  else if s =s "" then None
  else match duration_terms (String.length s) 0 s with
  | None => None
  | Some d =>
      if neg : bool then Some (- d)%Z
      else if (two63 - 1 <? d)%Z then None else Some d
  end.

(** ** Duration.String *)
(** The fraction of [v / 10^prec] without trailing zeros, and the integer. *)
Fixpoint fmtFrac (prec : nat) (v : Z) (print : bool) (acc : string) : string * Z :=
  match prec with
  | O => (if print then "." +:+ acc else acc, v)
  | S prec =>
      let print := print || negb (v mod 10 =? 0)%Z in
      fmtFrac prec (v / 10) print (if print then itoa (v mod 10) +:+ acc else acc)
  end.

Definition with_unit (prec : nat) (v : Z) (unit : string) : string :=
  let '(frac, v) := fmtFrac prec v false "" in itoa v +:+ frac +:+ unit.

Definition Duration_String (d : Z) : string :=
  let u := Z.abs d in
  (if (d <? 0)%Z then "-" else "") +:+
  (if (u =? 0)%Z then "0s"
   else if (u <? 1000)%Z then with_unit 0 u "ns"
   else if (u <? 1000000)%Z then with_unit 3 u (bytes [194; 181; 115]%Z)
   else if (u <? 1000000000)%Z then with_unit 6 u "ms"
   else
     let '(frac, v) := fmtFrac 9 u false "" in
     let seconds := itoa (v mod 60) +:+ frac +:+ "s" in
     let minutes := (v / 60)%Z in
     let hours := (minutes / 60)%Z in
     if (minutes =? 0)%Z then seconds
     else (if (hours =? 0)%Z then "" else itoa hours +:+ "h") +:+ itoa (minutes mod 60) +:+ "m" +:+ seconds).

(** ** envDuration *)
(** The environment: [os.LookupEnv]. *)
Definition Env := string -> option string.
Definition Getenv (env : Env) (key : string) : string := default "" (env key).

Section Config.
Context `{UnicodeTables}.

Definition envDuration (env : Env) (key : string) (def max : Z) : res Z :=
  match env key with
  | None => Ok def
  | Some raw =>
      if raw =s "" then Ok def
      else match ParseDuration raw with
      | None => Err (ErrText (key +:+ "=" +:+ Quote raw +:+
          " is not a valid duration; use Go duration syntax such as " +:+ Quote "30s" +:+ " or " +:+ Quote "1m"))
      | Some d =>
          if (d <? 0)%Z then Err (ErrText (key +:+ "=" +:+ Quote raw +:+ " must not be negative"))
          else if (max <? d)%Z then
            Err (ErrText (key +:+ "=" +:+ Quote raw +:+ " exceeds the maximum of " +:+ Duration_String max))
          else Ok d
      end
  end.
End Config.

Example durations :
  map ParseDuration ["30s"; "1m"; "1.5h"; "-2ms"; "0"; "30"; ""; "1h30m"; "1.s"; ".s"; "0.000000001s"]
  = [Some 30000000000; Some 60000000000; Some 5400000000000; Some (-2000000); Some 0; None; None;
     Some 5400000000000; Some 1000000000; None; Some 1]%Z.
Proof. vm_compute. reflexivity. Qed.
(** The sum of two terms can wrap to zero. *)
Example duration_wraps : ParseDuration "9223372036854775808ns9223372036854775808ns" = Some 0%Z.
Proof. vm_compute. reflexivity. Qed.
Example duration_strings :
  map Duration_String [3600000000000; 30000000000; 1500000000; -2000; 0; 90061000000000]%Z
  = ["1h0m0s"; "30s"; "1.5s"; "-2" +:+ bytes [194; 181; 115]%Z; "0s"; "25h1m1s"].
Proof. vm_compute. reflexivity. Qed.

(** ** Numbers *)
Lemma digits_from_all x s v : digits_from x s = Some v -> string_forallb is_digit s = true.
Proof.
  revert x. induction s as [|c s IH]; intros x; [done|]. cbn [digits_from string_forallb].
  unfold is_digit at 1. destruct (_ && _); [|done]. apply IH.
Qed.

Lemma digits_from_mono x s v : (0 <= x)%Z -> digits_from x s = Some v -> (x <= v)%Z.
Proof.
  revert x. induction s as [|c s IH]; intros x Hx; cbn [digits_from]; [by intros [= <-]|].
  destruct (_ && _) eqn:E; [|done]. apply andb_true_iff in E as [E _]. apply Z.leb_le in E.
  intros Hv%IH; lia.
Qed.

Definition ends_number (s : string) : bool :=
  match s with String c _ => negb (is_digit c) | EmptyString => true end.

(** [leadingInt] reads the number, unless it passes 2^63. *)
Lemma leadingInt_digits x ds rest v :
  (0 <= x <= two63)%Z -> digits_from x ds = Some v -> ends_number rest = true ->
  leadingInt x (ds +:+ rest) = if (v <=? two63)%Z then Some (v, rest) else None.
Proof.
  intros Hx Hv Hrest. revert x Hx Hv. induction ds as [|c ds IH]; intros x Hx; cbn [digits_from].
  - intros [= <-]. rewrite (proj2 (Z.leb_le _ _)) by lia.
    change (EmptyString +:+ rest) with rest. destruct rest as [|c rest]; [done|].
    cbn [ends_number] in Hrest. cbn [leadingInt]. by rewrite Hrest.
  - change ((48 <=? byte_of c)%Z && (byte_of c <=? 57)%Z) with (is_digit c).
    destruct (is_digit c) eqn:Ec; [|done]. intros Hv.
    unfold is_digit in Ec. apply andb_true_iff in Ec as [E1 E2]. apply Z.leb_le in E1, E2.
    assert (x * 10 + (byte_of c - 48) <= v)%Z as Hmono by (apply (digits_from_mono _ ds); [lia|done]).
    change (String c ds +:+ rest) with (String c (ds +:+ rest)). cbn [leadingInt].
    replace (is_digit c) with true by (symmetry; apply andb_true_iff; split; by apply Z.leb_le).
    cbn [negb]. unfold digit. set (y := (x * 10 + (byte_of c - 48))%Z) in *.
    assert (two63 = 9223372036854775808)%Z as Htwo by done.
    assert (two63 / 10 = 922337203685477580)%Z as Hten by done.
    destruct (Z.ltb_spec (two63 / 10) x).
    { rewrite (proj2 (Z.leb_gt _ _)); [done|]. lia. }
    destruct (Z.ltb_spec two63 y); [rewrite (proj2 (Z.leb_gt _ _)); [done|lia]|].
    apply IH; [lia|done].
Qed.

Lemma string_length_app a b : String.length (a +:+ b) = String.length a + String.length b.
Proof.
  induction a as [|c a IH]; [done|]. change (String c a +:+ b) with (String c (a +:+ b)).
  cbn [String.length]. rewrite IH. done.
Qed.

Lemma digits_nonempty_length x ds v rest :
  digits_from x ds = Some v -> ds <> "" ->
  exists c t, ds +:+ rest = String c t /\ is_digit c = true /\
    (String.length rest =? String.length (ds +:+ rest))%nat = false.
Proof.
  intros Hv Hne. destruct ds as [|c ds]; [done|]. exists c, (ds +:+ rest). split; [done|].
  split; [apply digits_from_all in Hv; cbn in Hv; by apply andb_true_iff in Hv as [? _]|].
  apply Nat.eqb_neq. change (String c ds +:+ rest) with (String c (ds +:+ rest)).
  cbn [String.length]. rewrite string_length_app. lia.
Qed.

(** ** Terms *)
Lemma unitMap_facts u k :
  unitMap u = Some k ->
  (1 <= k)%Z /\ ends_number u = true /\ HasPrefix u "." = false /\ cut_unit u = (u, "") /\ u <> "".
Proof.
  unfold unitMap. intros (e & Hf & ->)%fmap_Some. apply find_some in Hf as [Hin He].
  apply String.eqb_eq in He as ->. unfold units in Hin.
  repeat (destruct Hin as [<-|Hin]; [vm_compute; by split_and!|]). done.
Qed.

(** A whole number with its unit. *)
Lemma duration_term_whole ds n u k :
  digits_from 0 ds = Some n -> ds <> "" -> unitMap u = Some k ->
  duration_term (ds +:+ u) = if (n * k <=? two63)%Z then Some ((n * k)%Z, "") else None.
Proof.
  intros Hn Hne Hu. destruct (unitMap_facts _ _ Hu) as (Hk & Hend & Hdot & Hcut & Hune).
  destruct (digits_nonempty_length _ _ _ u Hn Hne) as (c & t & Ht & Hc & Hlen).
  pose proof (leadingInt_digits 0 ds u n ltac:(by vm_compute) Hn Hend) as Hlead.
  pose proof (digits_from_mono 0 _ _ ltac:(lia) Hn) as Hpos.
  revert Hlead Hlen. rewrite Ht. intros Hlead Hlen. unfold duration_term at 1. rewrite Hc, orb_true_r. cbn [negb].
  rewrite Hlead. destruct (Z.leb_spec n two63) as [Hle|Hgt].
  2:{ rewrite (proj2 (Z.leb_gt _ _)); [done|]. unfold two63 in *. nia. }
  rewrite Hlen. cbn [negb].
  assert (duration_fraction u = (0%Z, float_of_int 1, u, false)) as ->.
  { by destruct u as [|[[] [] [] [] [] [] [] []] u]. }
  cbn [andb]. rewrite Hcut, Hu. rewrite (proj2 (String.eqb_neq _ _)) by done.
  destruct (Z.ltb_spec (two63 / k) n) as [Hlt|Hge].
  - rewrite (proj2 (Z.leb_gt _ _)); [done|].
    apply Z.div_lt_upper_bound in Hlt || idtac.
    pose proof (Z.mul_succ_div_gt two63 k ltac:(lia)). nia.
  - rewrite (proj2 (Z.leb_le _ _)); [done|].
    pose proof (Z.mul_div_le two63 k ltac:(lia)). nia.
Qed.

Lemma sign_free ds n t :
  digits_from 0 ds = Some n -> ds <> "" ->
  match ds +:+ t with
  | String "-" s => (true, s) | String "+" s => (false, s) | _ => (false, ds +:+ t)
  end = (false, ds +:+ t).
Proof.
  intros Hn Hne. destruct (digits_nonempty_length _ _ _ t Hn Hne) as (c & t' & -> & Hc & _).
  destruct c as [[] [] [] [] [] [] [] []]; done.
Qed.

Lemma ParseDuration_whole ds n u k :
  digits_from 0 ds = Some n -> ds <> "" -> unitMap u = Some k ->
  ParseDuration (ds +:+ u) = if (n * k <? two63)%Z then Some (n * k)%Z else None.
Proof.
  intros Hn Hne Hu. pose proof (duration_term_whole _ _ _ _ Hn Hne Hu) as Ht.
  pose proof (digits_from_mono 0 _ _ ltac:(lia) Hn) as Hpos.
  destruct (unitMap_facts _ _ Hu) as (Hk & _ & _ & _ & Hune).
  assert ((ds +:+ u =s "0") = false) as H0.
  { apply String.eqb_neq. intros He. destruct ds as [|c [|c' ds]]; [done| |done].
    destruct u; [done|]. done. }
  unfold ParseDuration. rewrite (sign_free _ _ _ Hn Hne), H0.
  destruct (ds +:+ u) as [|c t] eqn:E; [by destruct ds|]. change (String c t =s "") with false. cbv iota.
  cbn [String.length duration_terms]. rewrite Ht.
  destruct (Z.leb_spec (n * k) two63).
  - rewrite Z.add_0_l, Z.mod_small by (unfold two63 in *; nia).
    rewrite (proj2 (Z.ltb_ge _ _)) by lia.
    replace (duration_terms (String.length t) (n * k) "") with (Some (n * k)%Z) by by destruct (String.length t).
    destruct (Z.ltb_spec (n * k) two63); [rewrite (proj2 (Z.ltb_ge _ _)) by lia; done|].
    rewrite (proj2 (Z.ltb_lt _ _)) by lia. done.
  - rewrite (proj2 (Z.ltb_ge _ _)) by lia. done.
Qed.

(** A bare number is refused; the one exception is a single zero. *)
Lemma ParseDuration_bare ds n :
  digits_from 0 ds = Some n -> ds <> "0" -> ParseDuration ds = None.
Proof.
  intros Hn H0. destruct (String.eqb_spec ds "") as [->|Hne]; [done|].
  pose proof (sign_free _ _ "" Hn Hne) as Hs. rewrite string_app_nil in Hs.
  unfold ParseDuration. rewrite Hs, !(proj2 (String.eqb_neq _ _)) by done.
  destruct (digits_nonempty_length _ _ _ "" Hn Hne) as (c & t & Ht & Hc & Hlen).
  pose proof (leadingInt_digits 0 ds "" n ltac:(by vm_compute) Hn eq_refl) as Hlead.
  rewrite string_app_nil in *. subst ds. cbn [String.length duration_terms].
  unfold duration_term. rewrite Hc, orb_true_r. cbn [negb]. rewrite Hlead.
  destruct (n <=? two63)%Z; [|done]. cbn [String.length]. by destruct t.
Qed.

(** ** The loop ends *)
Lemma leadingInt_shorter x s v s' :
  leadingInt x s = Some (v, s') -> String.length s' <= String.length s.
Proof.
  revert x. induction s as [|c s IH]; intros x; cbn [leadingInt]; [by intros [= _ <-]|].
  destruct (negb _); [by intros [= _ <-]|]. destruct (_ <? x)%Z; [done|]. cbv zeta.
  destruct (_ <? _)%Z; [done|]. intros ?%IH. cbn [String.length]. lia.
Qed.

Lemma leadingFraction_shorter x scale o s :
  String.length (leadingFraction x scale o s).2 <= String.length s.
Proof.
  revert x scale o. induction s as [|c s IH]; intros x scale o; cbn [leadingFraction]; [done|].
  destruct (negb _); [done|]. cbv zeta. cbn [String.length].
  destruct o; [specialize (IH x scale true); lia|].
  destruct (_ <? x)%Z; [specialize (IH x scale true); lia|].
  destruct (_ <? _)%Z; [specialize (IH x scale true); lia|].
  specialize (IH (x * 10 + digit c)%Z (fmul scale (float_of_int 10)) false). lia.
Qed.

Lemma cut_unit_shorter s u rest :
  cut_unit s = (u, rest) -> u <> "" -> String.length rest < String.length s.
Proof.
  revert u. induction s as [|c s IH]; intros u; cbn [cut_unit]; [by intros [= <- <-]|].
  destruct (_ || _); [by intros [= <- <-]|]. destruct (cut_unit s) as [u' r] eqn:E.
  intros [= <- <-] _. cbn [String.length]. destruct (String.eqb_spec u' "") as [->|Hne].
  - destruct s as [|c' s]; cbn [cut_unit] in E; [injection E as <-; cbn; lia|].
    destruct (_ || _); [injection E as <-; cbn; lia|]. by destruct (cut_unit s).
  - specialize (IH u' eq_refl Hne). lia.
Qed.

Lemma duration_fraction_shorter s f scale s2 post :
  duration_fraction s = (f, scale, s2, post) -> String.length s2 <= String.length s.
Proof.
  unfold duration_fraction. destruct s as [|c s]; [by intros [= _ _ <- _]|].
  pose proof (leadingFraction_shorter 0 (float_of_int 1) false s) as Hl.
  destruct (leadingFraction _ _ _ s) as [[f' sc] s2']. cbn [snd] in Hl.
  destruct c as [[] [] [] [] [] [] [] []]; intros [= _ _ <- _]; cbn [String.length]; lia.
Qed.

Lemma duration_term_shorter s v s' :
  duration_term s = Some (v, s') -> String.length s' < String.length s.
Proof.
  unfold duration_term. destruct s as [|c s0]; [done|]. set (s := String c s0).
  destruct (negb (_ || _)); [done|].
  destruct (leadingInt 0 s) as [[n s1]|] eqn:E1; [|done]. apply leadingInt_shorter in E1.
  destruct (duration_fraction s1) as [[[f scale] s2] post] eqn:E2.
  apply duration_fraction_shorter in E2. cbv zeta. destruct (negb _ && _); [done|].
  destruct (cut_unit s2) as [u rest] eqn:E3. destruct (String.eqb_spec u "") as [|Hne]; [done|].
  pose proof (cut_unit_shorter _ _ _ E3 Hne) as Hr.
  destruct (unitMap u); [|done]. destruct (_ <? _)%Z; [done|]. destruct (0 <? f)%Z.
  - destruct (_ <? _)%Z; [done|]. intros [= _ <-]. lia.
  - intros [= _ <-]. lia.
Qed.

(** The length of the string is fuel enough: more changes nothing. *)
Lemma duration_terms_fuel n d s :
  String.length s <= n -> duration_terms n d s = duration_terms (String.length s) d s.
Proof.
  remember (String.length s) as m eqn:Hm. revert n d s Hm.
  induction (lt_wf m) as [m _ IH]. intros n d s -> Hn.
  destruct s as [|c s]; [by destruct n|]. cbn [String.length] in *.
  destruct n as [|n]; [lia|]. cbn [duration_terms].
  destruct (duration_term (String c s)) as [[v s']|] eqn:E; [|done].
  apply duration_term_shorter in E. cbn [String.length] in E. cbv zeta.
  destruct (_ <? _)%Z; [done|].
  rewrite (IH (String.length s')) by lia. symmetry. apply (IH (String.length s')); lia.
Qed.

Lemma duration_terms_range n d s v :
  (0 <= d <= two63)%Z -> duration_terms n d s = Some v -> (0 <= v <= two63)%Z.
Proof.
  revert d s. induction n as [|n IH]; intros d [|c s] Hd; cbn [duration_terms];
    try (by intros [= <-]).
  destruct (duration_term _) as [[x s']|]; [|done]. cbv zeta.
  destruct (Z.ltb_spec two63 ((d + x) mod 2 ^ 64)); [done|]. apply IH. split; [|done].
  apply Z.mod_pos_bound. done.
Qed.

(** A duration is an int64. *)
Lemma ParseDuration_range s d : ParseDuration s = Some d -> (min_int64 <= d <= max_int64)%Z.
Proof.
  unfold ParseDuration. destruct (match s with EmptyString => _ | _ => _ end) as [neg t].
  destruct (t =s "0"); [intros [= <-]; by vm_compute|]. destruct (t =s ""); [done|].
  destruct (duration_terms _ 0 t) as [v|] eqn:E; [|done].
  apply duration_terms_range in E; [|by vm_compute].
  assert (two63 = - min_int64 /\ two63 - 1 = max_int64 /\ 0 < two63)%Z as (? & ? & ?) by done.
  destruct neg; [intros [= <-]; lia|]. destruct (Z.ltb_spec (two63 - 1) v); [done|]. intros [= <-]. lia.
Qed.

(** ** What the configuration accepts *)
Section ConfigSpec.
Context `{UnicodeTables}.

Lemma envDuration_in_range env key def max d :
  (0 <= def <= max)%Z -> envDuration env key def max = Ok d -> (0 <= d <= max)%Z.
Proof.
  unfold envDuration. intros Hdef. destruct (env key) as [raw|]; [|by intros [= <-]].
  destruct (raw =s ""); [by intros [= <-]|]. destruct (ParseDuration raw) as [x|]; [|done].
  destruct (Z.ltb_spec x 0); [done|]. destruct (Z.ltb_spec max x); [done|]. intros [= <-]. lia.
Qed.

(** C38. A duration from the environment: nothing set is the default; a whole
    number with a unit is taken for exactly that many nanoseconds if they are
    within the maximum, and refused otherwise, however large the number; a
    bare number, zero aside, is refused; and whatever is accepted lies
    between zero and the maximum. *)
Theorem envDuration_spec env key def max :
  (0 <= def <= max)%Z -> (max <= max_int64)%Z ->
  (Getenv env key = "" -> envDuration env key def max = Ok def) /\
  (forall n u k, (0 <= n)%Z -> unitMap u = Some k -> env key = Some (itoa n +:+ u) ->
     match envDuration env key def max with
     | Ok d => d = (n * k)%Z /\ (n * k <= max)%Z
     | Err _ => (max < n * k)%Z
     end) /\
  (forall ds n, digits_value ds = Some n -> ds <> "0" -> ds <> "" -> env key = Some ds ->
     exists e, envDuration env key def max = Err e) /\
  (forall d, envDuration env key def max = Ok d -> (0 <= d <= max)%Z).
Proof.
  intros Hdef Hmax. split_and!.
  - unfold Getenv, envDuration. destruct (env key) as [raw|]; [|done]. cbn [default]. intros Hr.
    change (raw = "") in Hr. by rewrite Hr.
  - intros n u k Hn Hu Hraw. unfold envDuration. rewrite Hraw.
    pose proof (digits_value_itoa n Hn) as Hd. destruct (unitMap_facts _ _ Hu) as [Hk _].
    assert (itoa n <> "") as Hne by (intros He; destruct (itoa_uint n Hn) as (d & Hi & Hnil & _); rewrite He in Hi; by destruct d).
    destruct (digits_nonempty_length _ _ _ u Hd Hne) as (c & t & Ht & _).
    rewrite (ParseDuration_whole _ _ _ _ Hd Hne Hu), Ht. change (String c t =s "") with false. cbv iota.
    assert (two63 - 1 = max_int64)%Z as Htwo by done.
    destruct (Z.ltb_spec (n * k) two63); [|lia].
    rewrite (proj2 (Z.ltb_ge _ 0)) by nia. by destruct (Z.ltb_spec max (n * k)).
  - intros ds n Hd H0 Hne Hraw. unfold envDuration. rewrite Hraw, (proj2 (String.eqb_neq _ _)) by done.
    rewrite (ParseDuration_bare _ _ Hd H0). by eexists.
  - intros d. by apply envDuration_in_range.
Qed.
End ConfigSpec.

Definition env_of (l : list (string * string)) : Env := fun key =>
  snd <$> find (fun e => key =s fst e) l.

Lemma envDuration_spec_witness :
  is_ok (@envDuration ascii_tables (env_of [("TTL", "61m")]) "TTL" (30 * Second) (60 * Minute)) = false /\
  match @envDuration ascii_tables (env_of [("TTL", "60m")]) "TTL" (30 * Second) (60 * Minute) with
  | Ok d => d = (60 * 60000000000)%Z /\ (60 * 60000000000 <= 60 * Minute)%Z
  | Err _ => (60 * Minute < 60 * 60000000000)%Z
  end.
Proof.
  split; [vm_compute; reflexivity|].
  pose proof (@envDuration_spec ascii_tables (env_of [("TTL", "60m")]) "TTL" (30 * Second) (60 * Minute)
    ltac:(by vm_compute) ltac:(by vm_compute)) as (_ & Hu & _).
  by apply (Hu 60%Z "m" 60000000000%Z); vm_compute.
Defined.
