(* ===== verification/TimesSpec.v ===== *)
(** * Timestamps: texts and instants

    The calendar is a bijection, parsing undoes formatting, and the texts of
    a column sort as the instants do. *)
From Stdlib Require Import ZArith Lia Ascii.
From stdpp Require Import base gmap strings list.
From S2P Require Import Prelude GoStrings Errors State Times AccountStore Pagination Durations.
Open Scope packyard_scope.

(** ** The calendar *)
Lemma div_step y n :
  (0 < n -> y / n - (y - 1) / n = if y mod n =? 0 then 1 else 0)%Z.
Proof.
  intros Hn. pose proof (Z.div_mod y n ltac:(lia)). pose proof (Z.mod_pos_bound y n Hn).
  pose proof (Z.div_mod (y - 1) n ltac:(lia)). pose proof (Z.mod_pos_bound (y - 1) n Hn).
  destruct (y mod n =? 0)%Z eqn:E; [apply Z.eqb_eq in E|apply Z.eqb_neq in E]; nia.
Qed.

Lemma march_leap y : (march y - march (y - 1) = if is_leap y then 366 else 365)%Z.
Proof.
  unfold march, is_leap.
  pose proof (div_step y 4 ltac:(lia)). pose proof (div_step y 100 ltac:(lia)). pose proof (div_step y 400 ltac:(lia)).
  pose proof (Z.div_mod y 4 ltac:(lia)). pose proof (Z.mod_pos_bound y 4 ltac:(lia)).
  pose proof (Z.div_mod y 100 ltac:(lia)). pose proof (Z.mod_pos_bound y 100 ltac:(lia)).
  pose proof (Z.div_mod y 400 ltac:(lia)). pose proof (Z.mod_pos_bound y 400 ltac:(lia)).
  destruct (y mod 4 =? 0)%Z eqn:E4, (y mod 100 =? 0)%Z eqn:E100, (y mod 400 =? 0)%Z eqn:E400; cbn [andb orb negb];
    rewrite ?Z.eqb_eq, ?Z.eqb_neq in *; lia.
Qed.

Lemma march_mono a b : (a <= b -> march a <= march b)%Z.
Proof.
  intros Hab. unfold march. pose proof (Z.div_le_mono a b 4 ltac:(lia) Hab).
  pose proof (Z.div_le_mono a b 400 ltac:(lia) Hab).
  pose proof (Z.div_mod a 100 ltac:(lia)). pose proof (Z.mod_pos_bound a 100 ltac:(lia)).
  pose proof (Z.div_mod b 100 ltac:(lia)). pose proof (Z.mod_pos_bound b 100 ltac:(lia)). lia.
Qed.

(** The 400-year average is off by less than two days. *)
Lemma march_average y : (146097 * y - 700 <= 400 * march y <= 146097 * y + 396)%Z.
Proof.
  unfold march. pose proof (Z.div_mod y 4 ltac:(lia)). pose proof (Z.mod_pos_bound y 4 ltac:(lia)).
  pose proof (Z.div_mod y 100 ltac:(lia)). pose proof (Z.mod_pos_bound y 100 ltac:(lia)).
  pose proof (Z.div_mod y 400 ltac:(lia)). pose proof (Z.mod_pos_bound y 400 ltac:(lia)). lia.
Qed.

Lemma year_of_day_spec n : (march (year_of_day n) <= n < march (year_of_day n + 1))%Z.
Proof.
  unfold year_of_day. set (g := (n * 400 / 146097)%Z).
  assert (146097 * g <= n * 400 < 146097 * (g + 1))%Z as Hg.
  { subst g. pose proof (Z.div_mod (n * 400) 146097 ltac:(lia)).
    pose proof (Z.mod_pos_bound (n * 400) 146097 ltac:(lia)). lia. }
  pose proof (march_average (g - 1)). pose proof (march_average (g + 2)).
  destruct (march (g + 1) <=? n)%Z eqn:E1; [apply Z.leb_le in E1|apply Z.leb_gt in E1].
  - replace (g + 1 + 1)%Z with (g + 2)%Z by lia. lia.
  - destruct (n <? march g)%Z eqn:E2; [apply Z.ltb_lt in E2|apply Z.ltb_ge in E2]; [|lia].
    replace (g - 1 + 1)%Z with g by lia. lia.
Qed.

Definition valid_date (year month day : Z) : Prop :=
  (1 <= month <= 12 /\ 1 <= day <= daysIn month year)%Z.

(** The twelve months, one by one. *)
Ltac each_month m :=
  assert (m = 1 \/ m = 2 \/ m = 3 \/ m = 4 \/ m = 5 \/ m = 6 \/ m = 7 \/ m = 8 \/ m = 9 \/ m = 10 \/ m = 11 \/ m = 12)%Z
    as Hmonth by lia;
  destruct Hmonth as [->|[->|[->|[->|[->|[->|[->|[->|[->|[->|[->| ->]]]]]]]]]]].

Ltac plit p := lazymatch p with xH => idtac | xO ?p => plit p | xI ?p => plit p end.
Ltac zlit a := lazymatch a with Z0 => idtac | Zpos ?p => plit p | Zneg ?p => plit p end.

(** Evaluates comparisons and sums of constants. *)
Ltac const_arith :=
  repeat (match goal with
  | |- context [(?a <=? ?b)%Z] => zlit a; zlit b; let v := eval vm_compute in (a <=? b)%Z in change (a <=? b)%Z with v
  | |- context [(?a <? ?b)%Z] => zlit a; zlit b; let v := eval vm_compute in (a <? b)%Z in change (a <? b)%Z with v
  | |- context [(?a =? ?b)%Z] => zlit a; zlit b; let v := eval vm_compute in (a =? b)%Z in change (a =? b)%Z with v
  | |- context [(?a / ?b)%Z] => zlit a; zlit b; let v := eval vm_compute in (a / b)%Z in change (a / b)%Z with v
  | |- context [(?a + ?b)%Z] => zlit a; zlit b; let v := eval vm_compute in (a + b)%Z in change (a + b)%Z with v
  | |- context [(?a - ?b)%Z] => zlit a; zlit b; let v := eval vm_compute in (a - b)%Z in change (a - b)%Z with v
  | |- context [(?a * ?b)%Z] => zlit a; zlit b; let v := eval vm_compute in (a * b)%Z in change (a * b)%Z with v
  end; cbn iota); cbn [orb andb].

Lemma date_of_days_spec z :
  let '(year, month, day) := date_of_days z in
  valid_date year month day /\ days_of_date year month day = z.
Proof.
  unfold date_of_days. pose proof (year_of_day_spec (z + epoch_day)) as Ha.
  set (a := year_of_day (z + epoch_day)) in *. set (doy := (z + epoch_day - march a)%Z).
  pose proof (march_leap (a + 1)) as Hleap. replace (a + 1 - 1)%Z with a in Hleap by lia.
  assert (0 <= doy <= if is_leap (a + 1) then 365 else 364)%Z as Hdoy by (subst doy; destruct (is_leap (a + 1)); lia).
  set (mp := ((5 * doy + 2) / 153)%Z).
  assert (153 * mp <= 5 * doy + 2 < 153 * (mp + 1))%Z as Hmp.
  { subst mp. pose proof (Z.div_mod (5 * doy + 2) 153 ltac:(lia)).
    pose proof (Z.mod_pos_bound (5 * doy + 2) 153 ltac:(lia)). lia. }
  assert (0 <= mp <= 11)%Z as Hmpr by (destruct (is_leap (a + 1)); lia).
  assert (z = march a + doy - epoch_day)%Z as Hz by (subst doy; lia). rewrite Hz. clear Hz.
  clearbody mp. clearbody doy. clearbody a.
  assert (mp = 0 \/ mp = 1 \/ mp = 2 \/ mp = 3 \/ mp = 4 \/ mp = 5 \/ mp = 6 \/ mp = 7 \/ mp = 8 \/ mp = 9 \/ mp = 10 \/ mp = 11)%Z
    as Hc by lia.
  destruct Hc as [->|[->|[->|[->|[->|[->|[->|[->|[->|[->|[->| ->]]]]]]]]]]].
  all: unfold valid_date, days_of_date, march_year, march_month, daysIn; const_arith; rewrite ?Z.add_simpl_r;
    destruct (is_leap (a + 1)); repeat split; const_arith; lia.
Qed.

(** ** Digits *)
Lemma byte_of_digit x : (0 <= x < 10 -> byte_of (of_byte (48 + x)) = 48 + x)%Z.
Proof.
  intros Hx. assert (x = 0 \/ x = 1 \/ x = 2 \/ x = 3 \/ x = 4 \/ x = 5 \/ x = 6 \/ x = 7 \/ x = 8 \/ x = 9)%Z as Hc by lia.
  by destruct Hc as [->|[->|[->|[->|[->|[->|[->|[->|[->| ->]]]]]]]]].
Qed.

Lemma digit_of x : (0 <= x < 10)%Z -> is_digit (of_byte (48 + x)) = true /\ digit (of_byte (48 + x)) = x.
Proof.
  intros Hx. unfold is_digit, digit. rewrite byte_of_digit by done.
  split; [|lia]. apply andb_true_iff. rewrite !Z.leb_le. lia.
Qed.

Lemma pow10_pos n : (0 < 10 ^ Z.of_nat n)%Z.
Proof. apply Z.pow_pos_nonneg; lia. Qed.

Lemma pow10_S n : (10 ^ Z.of_nat (S n) = 10 * 10 ^ Z.of_nat n)%Z.
Proof. rewrite Nat2Z.inj_succ, Z.pow_succ_r; lia. Qed.

(** The leading digit and the rest. *)
Lemma dec_parts n x :
  (0 <= x < 10 ^ Z.of_nat (S n) ->
   0 <= x / 10 ^ Z.of_nat n < 10 /\ 0 <= x mod 10 ^ Z.of_nat n < 10 ^ Z.of_nat n /\
   x = (x / 10 ^ Z.of_nat n) * 10 ^ Z.of_nat n + x mod 10 ^ Z.of_nat n)%Z.
Proof.
  intros Hx. rewrite pow10_S in Hx. pose proof (pow10_pos n).
  pose proof (Z.mod_pos_bound x (10 ^ Z.of_nat n) ltac:(lia)).
  pose proof (Z.div_mod x (10 ^ Z.of_nat n) ltac:(lia)).
  split; [|lia]. split; [apply Z.div_pos; lia|]. apply Z.div_lt_upper_bound; lia.
Qed.

Lemma getnum_dec n x acc s :
  (0 <= x < 10 ^ Z.of_nat n)%Z -> getnum n acc (dec n x +:+ s) = Some ((acc * 10 ^ Z.of_nat n + x)%Z, s).
Proof.
  revert x acc. induction n as [|n IH]; intros x acc Hx.
  - cbn in *. do 2 f_equal. lia.
  - destruct (dec_parts n x Hx) as (Hd & Hr & He). cbn [dec]. rewrite string_app_cons, pow10_S. cbn [getnum].
    destruct (digit_of _ Hd) as [Hdig Hval]. rewrite Hdig, Hval, IH by done.
    do 2 f_equal. lia.
Qed.

Lemma dec_length n x : String.length (dec n x) = n.
Proof. revert x. induction n; intros x; cbn; congruence. Qed.

Lemma append_int_dec n x : (0 <= x < 10 ^ Z.of_nat n)%Z -> appendInt n x = dec n x.
Proof.
  intros Hx. unfold appendInt. rewrite (proj2 (Z.ltb_ge _ _)) by lia. rewrite Z.abs_eq by lia.
  by rewrite (proj2 (Z.ltb_lt _ _)) by lia.
Qed.

(** ** Comparing texts as SQLite does, byte by byte *)
Definition lex (c d : comparison) : comparison := match c with Eq => d | _ => c end.

Lemma lex_assoc a b c : lex (lex a b) c = lex a (lex b c).
Proof. by destruct a. Qed.

Lemma compare_digit x y :
  (0 <= x < 10 -> 0 <= y < 10 ->
   Ascii.compare (of_byte (48 + x)) (of_byte (48 + y)) = (x ?= y))%Z.
Proof.
  intros Hx Hy. unfold Ascii.compare, of_byte. rewrite !N_ascii_embedding by lia.
  rewrite Z2N.inj_compare by lia. apply Z.add_compare_mono_l.
Qed.

Lemma lex_div_mod k x y :
  (0 < k -> lex (x / k ?= y / k) (x mod k ?= y mod k) = (x ?= y))%Z.
Proof.
  intros Hk. pose proof (Z.div_mod x k ltac:(lia)). pose proof (Z.div_mod y k ltac:(lia)).
  pose proof (Z.mod_pos_bound x k Hk). pose proof (Z.mod_pos_bound y k Hk).
  destruct (Z.compare_spec (x / k) (y / k)) as [Hq|Hq|Hq]; cbn [lex].
  - destruct (Z.compare_spec (x mod k) (y mod k)); symmetry;
      [apply Z.compare_eq_iff|apply Z.compare_lt_iff|apply Z.compare_gt_iff]; nia.
  - symmetry. apply Z.compare_lt_iff. nia.
  - symmetry. apply Z.compare_gt_iff. nia.
Qed.

Lemma compare_dec n x y s t :
  (0 <= x < 10 ^ Z.of_nat n)%Z -> (0 <= y < 10 ^ Z.of_nat n)%Z ->
  String.compare (dec n x +:+ s) (dec n y +:+ t) = lex (x ?= y)%Z (String.compare s t).
Proof.
  revert x y. induction n as [|n IH]; intros x y Hx Hy.
  - cbn in *. assert (x = 0 /\ y = 0)%Z as [-> ->] by lia. done.
  - destruct (dec_parts n x Hx) as (Hd & Hr & _), (dec_parts n y Hy) as (Hd' & Hr' & _).
    cbn [dec]. rewrite !string_app_cons. cbn [String.compare]. rewrite compare_digit by done.
    rewrite <- (lex_div_mod (10 ^ Z.of_nat n) x y) by apply pow10_pos.
    destruct (_ / _ ?= _)%Z; cbn [lex]; [by apply IH|done|done].
Qed.

Lemma compare_char c s t : String.compare (String c s) (String c t) = String.compare s t.
Proof. cbn. unfold Ascii.compare. by rewrite N.compare_refl. Qed.

(** ** Dates in order *)
Lemma date_in_year y m d : valid_date y m d ->
  (days_of_date y 1 1 <= days_of_date y m d < days_of_date (y + 1) 1 1)%Z.
Proof.
  intros [Hm Hd]. pose proof (march_leap y) as Hl. revert Hd.
  each_month m; unfold days_of_date, march_year, march_month, daysIn; const_arith; rewrite Z.add_simpl_r;
    destruct (is_leap y); lia.
Qed.

Lemma year_start_mono y y' : (y <= y' -> days_of_date y 1 1 <= days_of_date y' 1 1)%Z.
Proof.
  intros Hy. unfold days_of_date, march_year, march_month. const_arith.
  pose proof (march_mono (y - 1) (y' - 1) ltac:(lia)). lia.
Qed.

Lemma month_lt y m d m' d' : valid_date y m d -> valid_date y m' d' ->
  (m < m' -> days_of_date y m d < days_of_date y m' d')%Z.
Proof.
  intros [Hm Hd] [Hm' Hd'] Hlt. pose proof (march_leap y) as Hl. revert Hd Hd' Hlt. clear -Hm Hm' Hl.
  each_month m; each_month m'; intros Hd Hd' Hlt; try (exfalso; clear -Hlt; lia);
    revert Hd Hd'; unfold days_of_date, march_year, march_month, daysIn; const_arith;
    destruct (is_leap y); lia.
Qed.

Lemma compare_lt a b : (a < b -> (a ?= b) = Lt)%Z.
Proof. apply Z.compare_lt_iff. Qed.
Lemma compare_gt a b : (b < a -> (a ?= b) = Gt)%Z.
Proof. apply Z.compare_gt_iff. Qed.

Lemma compare_dates y m d y' m' d' : valid_date y m d -> valid_date y' m' d' ->
  lex (y ?= y')%Z (lex (m ?= m')%Z (d ?= d')%Z) = (days_of_date y m d ?= days_of_date y' m' d')%Z.
Proof.
  intros Hv Hv'. pose proof (date_in_year y m d Hv) as Hy. pose proof (date_in_year y' m' d' Hv') as Hy'.
  destruct (Z.compare_spec y y') as [->|Hlt|Hgt]; cbn [lex].
  - destruct (Z.compare_spec m m') as [->|Hlt|Hgt]; cbn [lex].
    + unfold days_of_date. destruct (Z.compare_spec d d'); symmetry;
        [apply Z.compare_eq_iff|apply compare_lt|apply compare_gt]; lia.
    + symmetry. by apply compare_lt, month_lt.
    + symmetry. by apply compare_gt, month_lt.
  - symmetry. apply compare_lt. pose proof (year_start_mono (y + 1) y' ltac:(lia)). lia.
  - symmetry. apply compare_gt. pose proof (year_start_mono (y' + 1) y ltac:(lia)). lia.
Qed.

(** ** Texts in order *)
(** The seconds of the years 0 to 9999. *)
Definition in_years (sec : Z) : bool := ((-62167219200 <=? sec) && (sec <? 253402300800))%Z.

Lemma year_bounds sec : let '(year, _, _) := date_of_days (sec / 86400) in
  in_years sec = true <-> (0 <= year <= 9999)%Z.
Proof.
  pose proof (date_of_days_spec (sec / 86400)) as Hd. destruct (date_of_days _) as [[y m] d].
  destruct Hd as [Hv He]. pose proof (date_in_year y m d Hv) as Hy.
  pose proof (Z.div_mod sec 86400 ltac:(lia)). pose proof (Z.mod_pos_bound sec 86400 ltac:(lia)).
  assert (days_of_date 0 1 1 = -719528 /\ days_of_date 10000 1 1 = 2932897)%Z as [Hy0 Hy1] by (split; reflexivity).
  unfold in_years. rewrite andb_true_iff, Z.leb_le, Z.ltb_lt. split; intros Hs.
  - split.
    + destruct (decide (0 <= y)%Z); [done|]. pose proof (year_start_mono (y + 1) 0 ltac:(lia)). lia.
    + destruct (decide (y <= 9999)%Z); [done|]. pose proof (year_start_mono 10000 y ltac:(lia)). lia.
  - pose proof (year_start_mono 0 y ltac:(lia)). pose proof (year_start_mono (y + 1) 10000 ltac:(lia)). lia.
Qed.

(** The fields of a stamp, each within its width. *)
Lemma stamp_fields sec : in_years sec = true -> exists year month day,
  date_of_days (sec / 86400) = (year, month, day) /\ valid_date year month day /\
  days_of_date year month day = (sec / 86400)%Z /\
  (0 <= year < 10 ^ Z.of_nat 4 /\ 0 <= month < 10 ^ Z.of_nat 2 /\ 0 <= day < 10 ^ Z.of_nat 2 /\
   0 <= sec mod 86400 / 3600 <= 23 /\ 0 <= sec mod 86400 mod 3600 / 60 <= 59 /\ 0 <= sec mod 86400 mod 60 <= 59)%Z.
Proof.
  intros Hin. pose proof (year_bounds sec) as Hy. pose proof (date_of_days_spec (sec / 86400)) as Hd.
  destruct (date_of_days _) as [[y m] d]. apply Hy in Hin. destruct Hd as [Hv He]. exists y, m, d.
  split; [done|]. split; [done|]. split; [done|]. destruct Hv as [Hm Hd].
  assert (daysIn m y <= 31)%Z by (unfold daysIn; repeat case_match; lia).
  pose proof (Z.mod_pos_bound sec 86400 ltac:(lia)). set (r := (sec mod 86400)%Z) in *.
  pose proof (Z.mod_pos_bound r 3600 ltac:(lia)). pose proof (Z.mod_pos_bound r 60 ltac:(lia)).
  pose proof (Z.div_mod r 3600 ltac:(lia)). pose proof (Z.div_mod (r mod 3600) 60 ltac:(lia)).
  pose proof (Z.mod_pos_bound (r mod 3600) 60 ltac:(lia)). cbn [Z.of_nat Pos.of_succ_nat Pos.succ]. lia.
Qed.

(** The row of a key with another expiry. *)
Definition with_expiry (e : option Z) (r : key_row) : key_row :=
  mkKeyRow (k_component r) (k_label r) (k_active r) (k_created_at r) e (k_usage_count r) (k_account_id r).

(** C36. The texts of a timestamp column sort, byte by byte as SQLite compares
    them, exactly as the instants they denote, for the years 0 to 9999. *)
Theorem stamp_text_order a b :
  in_years (a / Second) = true -> in_years (b / Second) = true ->
  String.compare (format_RFC3339 a) (format_RFC3339 b) = (a / Second ?= b / Second)%Z.
Proof.
  unfold format_RFC3339. generalize (a / Second)%Z (b / Second)%Z. clear a b. intros a b Ha Hb.
  destruct (stamp_fields a Ha) as (y & m & d & Ed & Hv & He & Hy & Hm & Hd & Hh & Hmi & Hs).
  destruct (stamp_fields b Hb) as (y' & m' & d' & Ed' & Hv' & He' & Hy' & Hm' & Hd' & Hh' & Hmi' & Hs').
  unfold stamp_text. rewrite Ed, Ed'. cbv zeta.
  set (r := (a mod 86400)%Z) in *. set (r' := (b mod 86400)%Z) in *.
  rewrite !append_int_dec by (cbn; lia). rewrite !string_app_assoc.
  repeat (rewrite compare_dec by (cbn; lia); rewrite ?string_app_cons, ?string_app_empty, compare_char).
  rewrite <- (lex_div_mod 86400 a b) by lia. fold r r'. rewrite <- He, <- He', <- compare_dates by done.
  rewrite !lex_assoc, <- (lex_div_mod 3600 r r'), <- (lex_div_mod 60 (r mod 3600) (r' mod 3600)) by lia.
  rewrite !Z.mod_mod_divide by (by exists 60%Z). do 5 f_equal. by destruct (_ ?= _)%Z.
Qed.

Lemma stamp_text_order_witness :
  String.compare (format_RFC3339 (951782399 * Second)) (format_RFC3339 (951782400 * Second)) = Lt.
Proof. exact (stamp_text_order (951782399 * Second) (951782400 * Second) eq_refl eq_refl). Defined.

(** ** Parsing what was formatted *)
Lemma field_literal n x s sep t :
  n = Some (x, s) -> s = String sep t -> field n sep = Some (x, t).
Proof. intros -> ->. unfold field, literal. by rewrite Ascii.eqb_refl. Qed.

Lemma number_in_ok lo hi x s : (lo <= x <= hi)%Z -> number_in lo hi (Some (x, s)) = Some (x, s).
Proof.
  intros [Hl Hh]. unfold number_in.
  by rewrite (proj2 (Z.leb_le _ _) Hl), (proj2 (Z.leb_le _ _) Hh).
Qed.

Lemma getnum_dec_0 n x s : (0 <= x < 10 ^ Z.of_nat n)%Z -> getnum n 0 (dec n x +:+ s) = Some (x, s).
Proof. intros Hx. by rewrite getnum_dec. Qed.

(** A stamp is read back, whatever fraction and zone follow. *)
Lemma parse_stamp_text sec tail nsec rest off :
  in_years sec = true -> fraction tail = (nsec, rest) -> zone rest = Some (off, "") ->
  time_Parse (stamp_text sec +:+ tail) = Some ((sec - off) * Second + nsec)%Z.
Proof.
  intros Hin Hfrac Hzone.
  destruct (stamp_fields sec Hin) as (y & m & d & Ed & Hv & He & Hy & Hm & Hd & Hh & Hmi & Hs).
  unfold stamp_text. rewrite Ed. set (r := (sec mod 86400)%Z) in *.
  rewrite !append_int_dec by (cbn; lia). rewrite !string_app_assoc, !string_app_cons, !string_app_empty.
  unfold time_Parse. destruct Hv as [Hmr Hdr].
  erewrite (field_literal (getnum 4 0 _)) by first [apply getnum_dec_0; lia|reflexivity]. cbn [mbind option_bind fst snd].
  rewrite getnum_dec_0, number_in_ok by lia. erewrite field_literal by reflexivity. cbn [mbind option_bind fst snd].
  rewrite getnum_dec_0 by lia. erewrite field_literal by reflexivity. cbn [mbind option_bind fst snd].
  unfold getnum_loose. rewrite getnum_dec_0, number_in_ok by (cbn; lia).
  erewrite field_literal by reflexivity. cbn [mbind option_bind fst snd].
  rewrite getnum_dec_0, number_in_ok by (cbn; lia). erewrite field_literal by reflexivity. cbn [mbind option_bind fst snd].
  rewrite getnum_dec_0, number_in_ok by (cbn; lia). cbn [mbind option_bind fst snd]. rewrite Hfrac, Hzone.
  cbn [mbind option_bind fst snd negb String.eqb]. rewrite (proj2 (Z.ltb_ge _ _)), (proj2 (Z.ltb_ge _ _)) by lia.
  cbn [orb]. do 2 f_equal. f_equal. unfold seconds_of. rewrite He.
  pose proof (Z.div_mod sec 86400 ltac:(lia)). fold r in H. clearbody r.
  pose proof (Z.div_mod r 3600 ltac:(lia)). pose proof (Z.div_mod (r mod 3600) 60 ltac:(lia)) as Hr.
  rewrite Z.mod_mod_divide in Hr by (by exists 60%Z). lia.
Qed.

(** Trailing zeros of a fraction do not count. *)
Lemma trim_zeros_dec n x acc : (0 <= x < 10 ^ Z.of_nat n)%Z ->
  let f := trim_zeros (dec n x) in let k := String.length f in
  string_forallb is_digit f = true /\ k <= n /\
  exists a, getnum k acc f = Some (a, "") /\ (a * 10 ^ Z.of_nat (n - k) = acc * 10 ^ Z.of_nat n + x)%Z.
Proof.
  cbv zeta. revert x acc. induction n as [|n IH]; intros x acc Hx.
  - cbn in *. split; [done|]. split; [done|]. exists acc. split; [done|]. lia.
  - destruct (dec_parts n x Hx) as (Hd & Hr & He). cbn [dec trim_zeros].
    destruct (digit_of _ Hd) as [Hdig Hval]. set (c := of_byte _) in *.
    destruct (IH _ (acc * 10 + x / 10 ^ Z.of_nat n)%Z Hr) as (Hall & Hk & a & Ha & Hav).
    destruct (Ascii.eqb c "0" && (trim_zeros (dec n (x mod 10 ^ Z.of_nat n)) =s "")) eqn:Ez.
    + apply andb_true_iff in Ez as [Ec Et]. apply Ascii.eqb_eq in Ec. apply String.eqb_eq in Et.
      rewrite Et in Ha, Hav. cbn in Ha. injection Ha as <-. cbn [String.length] in Hav. rewrite Nat.sub_0_r in Hav.
      rewrite Ec in Hval. change (digit "0") with 0%Z in Hval. split; [done|]. split; [cbn; lia|].
      exists acc. split; [done|]. cbn [String.length]. rewrite Nat.sub_0_r, pow10_S. lia.
    + clear Ez. cbn [String.length string_forallb]. rewrite Hdig, Hall. split; [done|]. split; [lia|].
      exists a. cbn [getnum]. rewrite Hdig, Hval. split; [done|].
      replace (S n - S _)%nat with (n - String.length (trim_zeros (dec n (x mod 10 ^ Z.of_nat n))))%nat by lia.
      rewrite Hav, pow10_S. lia.
Qed.

Lemma digit_run_all f t : string_forallb is_digit f = true -> digit_run (f +:+ String "Z" t) = (f, String "Z" t).
Proof.
  induction f as [|c f IH]; intros Hf; [done|]. cbn [string_forallb] in Hf. apply andb_true_iff in Hf as [Hc Hf].
  rewrite string_app_cons. cbn [digit_run]. by rewrite Hc, IH.
Qed.

Lemma stake_all n s : (String.length s <= n)%nat -> stake n s = s.
Proof.
  revert n. induction s as [|c s IH]; intros [|n] Hn; cbn in *; try done; [lia|]. f_equal. apply IH. lia.
Qed.

Lemma fraction_nano x :
  (0 <= x < Second)%Z -> let f := trim_zeros (dec 9 x) in
  fraction ((if f =s "" then "" else "." +:+ f) +:+ "Z") = (x, "Z").
Proof.
  intros Hx f. destruct (trim_zeros_dec 9 x 0 Hx) as (Hall & Hk & a & Ha & Hv). fold f in Hall, Hk, Ha, Hv.
  destruct (String.eqb_spec f "") as [He|Hne].
  - rewrite He in Ha, Hv. cbn in Ha, Hv. injection Ha as <-. assert (x = 0)%Z as -> by lia. done.
  - rewrite string_app_assoc, string_app_cons, string_app_empty. unfold fraction. cbn [Ascii.eqb orb].
    rewrite digit_run_all by done. rewrite (proj2 (String.eqb_neq f "") Hne). f_equal.
    unfold nanoseconds. rewrite stake_all by done. rewrite Ha.
    replace (9 - Z.of_nat (String.length f))%Z with (Z.of_nat (9 - String.length f)) by lia. rewrite Hv. lia.
Qed.

(** ** Years that do not fit *)
Lemma digits_bound acc s v :
  (0 <= acc)%Z -> digits_from acc s = Some v -> (v < (acc + 1) * 10 ^ Z.of_nat (String.length s))%Z.
Proof.
  revert acc. induction s as [|c s IH]; intros acc Ha; cbn [digits_from].
  - intros [= <-]. cbn. lia.
  - destruct ((48 <=? byte_of c)%Z && (byte_of c <=? 57)%Z) eqn:E; [|done].
    apply andb_true_iff in E as [E1%Z.leb_le E2%Z.leb_le]. intros Hs%IH; [|lia].
    cbn [String.length]. rewrite pow10_S. pose proof (pow10_pos (String.length s)). nia.
Qed.

Lemma getnum_digits n acc s t :
  string_forallb is_digit s = true -> (n < String.length s)%nat ->
  exists a c s', getnum n acc (s +:+ t) = Some (a, String c s') /\ is_digit c = true.
Proof.
  revert acc s. induction n as [|n IH]; intros acc [|c s] Hs Hl; cbn [String.length] in Hl; try lia;
    cbn [string_forallb] in Hs; apply andb_true_iff in Hs as [Hc Hs]; rewrite string_app_cons; cbn [getnum].
  - eauto.
  - rewrite Hc. apply IH; [done|lia].
Qed.

Lemma year_unreadable y t : ~ (0 <= y <= 9999)%Z -> field (getnum 4 0 (appendInt 4 y +:+ t)) "-" = None.
Proof.
  intros Hy. unfold appendInt. destruct (y <? 0)%Z eqn:En; [done|]. apply Z.ltb_ge in En.
  rewrite Z.abs_eq by lia. rewrite (proj2 (Z.ltb_ge _ _)) by (cbn; lia). rewrite string_app_empty.
  pose proof (digits_value_itoa y En) as Hd. unfold digits_value in Hd.
  destruct (getnum_digits 4 0 (itoa y) t) as (a & c & s' & -> & Hc).
  - by eapply digits_from_all.
  - apply digits_bound in Hd; [|done]. destruct (le_lt_dec (String.length (itoa y)) 4) as [Hle|]; [|done].
    pose proof (Z.pow_le_mono_r 10 (Z.of_nat (String.length (itoa y))) 4). lia.
  - cbn [field]. unfold literal. destruct (Ascii.eqb_spec c "-") as [->|]; [done|done].
Qed.

Lemma stamp_unreadable sec s : in_years sec = false -> time_Parse (stamp_text sec +:+ s) = None.
Proof.
  intros Hin. pose proof (year_bounds sec) as Hy. unfold stamp_text. destruct (date_of_days _) as [[y m] d].
  rewrite string_app_assoc. unfold time_Parse. rewrite year_unreadable; [done|].
  intros Hr. apply Hy in Hr. congruence.
Qed.

(** ** The characters of a timestamp *)
(** Printable ASCII that no quoting touches. *)
Definition plain (c : ascii) : bool :=
  (32 <=? byte_of c)%Z && (byte_of c <? 128)%Z && negb (byte_of c =? 34)%Z && negb (byte_of c =? 92)%Z.

Lemma digit_plain c : is_digit c = true -> plain c = true.
Proof.
  unfold is_digit, plain. rewrite !andb_true_iff, !Z.leb_le, Z.ltb_lt, !negb_true_iff, !Z.eqb_neq. lia.
Qed.

Lemma digits_plain s : string_forallb is_digit s = true -> string_forallb plain s = true.
Proof.
  induction s as [|c s IH]; [done|]. cbn [string_forallb]. intros [Hc Hs]%andb_true_iff.
  by rewrite digit_plain, IH.
Qed.

Lemma dec_plain n x : (0 <= x < 10 ^ Z.of_nat n)%Z -> string_forallb plain (dec n x) = true.
Proof.
  revert x. induction n as [|n IH]; intros x Hx; [done|].
  destruct (dec_parts n x Hx) as (Hd & Hr & _). cbn [dec string_forallb].
  by rewrite IH, (digit_plain _ (proj1 (digit_of _ Hd))) by done.
Qed.

Lemma format_plain t : in_years (t / Second) = true -> string_forallb plain (format_RFC3339Nano t) = true.
Proof.
  intros Hin. destruct (stamp_fields _ Hin) as (y & m & d & Ed & _ & _ & Hy & Hm & Hd & Hh & Hmi & Hs).
  unfold format_RFC3339Nano, stamp_text. rewrite Ed. cbv zeta. rewrite !append_int_dec by (cbn; lia).
  rewrite !string_forallb_app, !dec_plain by (cbn; lia). cbn [string_forallb andb].
  destruct (trim_zeros_dec 9 (t mod Second) 0) as (Hf & _); [by apply Z.mod_pos_bound|].
  destruct (_ =s ""); [done|]. rewrite string_forallb_app, (digits_plain _ Hf). reflexivity.
Qed.

Lemma time_text_back t :
  time_Parse (format_RFC3339Nano t) = (if in_years (t / Second) then Some t else None) /\
  time_Parse (format_RFC3339 t) =
    (if in_years (t / Second) then Some (parse_stamp (format_stamp t)) else None).
Proof.
  unfold format_RFC3339Nano, format_RFC3339, parse_stamp, format_stamp. cbv zeta.
  destruct (in_years (t / Second)) eqn:Hin; [|by rewrite !stamp_unreadable].
  pose proof (Z.div_mod t Second ltac:(done)). pose proof (Z.mod_pos_bound t Second ltac:(done)).
  rewrite (parse_stamp_text _ _ _ _ 0 Hin (fraction_nano _ H0) eq_refl).
  rewrite (parse_stamp_text (t / Second) "Z" 0 "Z" 0 Hin eq_refl eq_refl).
  split; f_equal; lia.
Qed.

Lemma scan_time_back s :
  scan_time s = if in_years s then Some (parse_stamp s) else None.
Proof.
  pose proof (proj2 (time_text_back (s * Second))) as Hb. unfold format_RFC3339, format_stamp in Hb.
  rewrite Z.div_mul in Hb by done. exact Hb.
Qed.

(** C37. Times survive their texts.  A time in UTC, written with nanoseconds
    into a JSON body, is read back to the same instant, and an expiry that a
    key is created with comes back from its column as that instant cut to
    the second, both exactly if the year is between 0 and 9999; with
    any other year the text is not read, and the row of the key does not
    scan. *)
Theorem time_roundtrip t id r :
  time_Parse (format_RFC3339Nano t) = (if in_years (t / Second) then Some t else None) /\
  match scanKey id (with_expiry (formatNullTime (Some t)) r) with
  | Ok k => in_years (t / Second) = true /\ Key_ExpiresAt k = Some (t / Second * Second)%Z
  | Err _ => in_years (t / Second) = false
  end.
Proof.
  split; [apply time_text_back|]. unfold scanKey. cbn [formatNullTime fmap option_fmap option_map with_expiry k_expires_at].
  unfold format_stamp. rewrite scan_time_back. by destruct (in_years _).
Qed.
