(* ===== verification/Json.v ===== *)
(** * JSON texts: the scanner of package encoding/json

    A text is parsed to a tree whose strings keep their source between the
    quotes; [unquote] decodes such a source.  The decoder of a request reads
    one value and ignores what follows. *)
From Stdlib Require Import ZArith Lia Ascii.
From stdpp Require Import base gmap strings list.
From S2P Require Import Prelude GoStrings Errors State AuditStore Durations.
Open Scope packyard_scope.

(** ** Trees *)
#[local] Set Warnings "-register-all".
Inductive json :=
| JNull
| JBool (b : bool)
| JNum (text : string)
| JStr (raw : string)
| JArr (l : list json)
| JObj (l : list (string * json)).

(** ** White space *)
Definition json_space (c : ascii) : bool :=
  let b := byte_of c in (b =? 32)%Z || (b =? 9)%Z || (b =? 13)%Z || (b =? 10)%Z.

Fixpoint skip_space (s : string) : string :=
  match s with
  | String c s' => if json_space c then skip_space s' else s
  | EmptyString => EmptyString
  end.

(** ** Strings *)
Definition hex_char (c : ascii) : option Z :=
  let b := byte_of c in
  if (48 <=? b)%Z && (b <=? 57)%Z then Some (b - 48)%Z
  else if (97 <=? b)%Z && (b <=? 102)%Z then Some (b - 87)%Z
  else if (65 <=? b)%Z && (b <=? 70)%Z then Some (b - 55)%Z
  else None.
Definition is_hex (c : ascii) : bool := bool_decide (is_Some (hex_char c)).

(** What may follow a backslash, other than [u]. *)
Definition simple_escape (c : ascii) : bool :=
  existsb (Ascii.eqb c) [quote; backslash; "/"%char; "b"%char; "f"%char; "n"%char; "r"%char; "t"%char].

Definition prepend (p : string) (o : option (string * string)) : option (string * string) :=
  match o with Some (raw, rest) => Some (p +:+ raw, rest) | None => None end.

(** The source up to the closing quote, and what follows it. *)
Fixpoint scan_string (s : string) : option (string * string) :=
  match s with
  | EmptyString => None
  | String c s1 =>
      if (c =? quote)%char then Some (EmptyString, s1)
      else if (c =? backslash)%char then
        match s1 with
        | EmptyString => None
        | String e s2 =>
            if simple_escape e then prepend (String c (String e EmptyString)) (scan_string s2)
            else if (e =? "u"%char)%char then
              match s2 with
              | String h1 (String h2 (String h3 (String h4 s3))) =>
                  if is_hex h1 && is_hex h2 && is_hex h3 && is_hex h4
                  then prepend (String c (String e (String h1 (String h2 (String h3 (String h4 EmptyString))))))
                         (scan_string s3)
                  else None
              | _ => None
              end
            else None
        end
      else if (byte_of c <? 32)%Z then None
      else prepend (String c EmptyString) (scan_string s1)
  end.

Definition hex_or_0 (c : ascii) : Z := default 0%Z (hex_char c).
Definition hex4 (h1 h2 h3 h4 : ascii) : Z :=
  (((hex_or_0 h1 * 16 + hex_or_0 h2) * 16 + hex_or_0 h3) * 16 + hex_or_0 h4)%Z.

(** An escape [\uXXXX] at the start of the source. *)
Definition getu4 (s : string) : option (Z * string) :=
  match s with
  | String b (String u s2) =>
      if (b =? backslash)%char && (u =? "u"%char)%char then
        match s2 with
        | String h1 (String h2 (String h3 (String h4 rest))) =>
            if is_hex h1 && is_hex h2 && is_hex h3 && is_hex h4
            then Some (hex4 h1 h2 h3 h4, rest) else None
        | _ => None
        end
      else None
  | _ => None
  end.

Definition IsSurrogate (r : Z) : bool := (55296 <=? r)%Z && (r <? 57344)%Z.

(** [utf16.DecodeRune]. *)
Definition surrogate_pair (r1 r2 : Z) : option Z :=
  if (55296 <=? r1)%Z && (r1 <? 56320)%Z && (56320 <=? r2)%Z && (r2 <? 57344)%Z
  then Some ((r1 - 55296) * 1024 + (r2 - 56320) + 65536)%Z else None.

Definition unescape_char (c : ascii) : string :=
  if (c =? "b"%char)%char then bytes [8]%Z
  else if (c =? "f"%char)%char then bytes [12]%Z
  else if (c =? "n"%char)%char then bytes [10]%Z
  else if (c =? "r"%char)%char then bytes [13]%Z
  else if (c =? "t"%char)%char then bytes [9]%Z
  else String c EmptyString.

(** The value of a scanned source: bytes that are not UTF-8 and surrogates
    without their partner become U+FFFD.  The fuel is the length. *)
Fixpoint unquote_fuel (fuel : nat) (s : string) : string :=
  match fuel, s with
  | O, _ | _, EmptyString => EmptyString
  | S fuel, String c s1 =>
      if (c =? backslash)%char then
        match getu4 s with
        | Some (r, rest) =>
            if IsSurrogate r then
              match getu4 rest with
              | Some (r2, rest2) =>
                  match surrogate_pair r r2 with
                  | Some dec => encode_rune dec +:+ unquote_fuel fuel rest2
                  | None => encode_rune rune_error +:+ unquote_fuel fuel rest
                  end
              | None => encode_rune rune_error +:+ unquote_fuel fuel rest
              end
            else encode_rune r +:+ unquote_fuel fuel rest
        | None =>
            match s1 with
            | String e s2 => unescape_char e +:+ unquote_fuel fuel s2
            | EmptyString => EmptyString
            end
        end
      else if is_ascii_char c then String c (unquote_fuel fuel s1)
      else let '(r, w) := decode_rune s in encode_rune r +:+ unquote_fuel fuel (sdrop w s)
  end.
Definition unquote (s : string) : string := unquote_fuel (String.length s) s.

(** ** Numbers *)
Fixpoint span_digits (s : string) : string * string :=
  match s with
  | String c s' => if is_digit c then let '(d, r) := span_digits s' in (String c d, r) else (EmptyString, s)
  | EmptyString => (EmptyString, EmptyString)
  end.

(** An optional sign and an integer without leading zeros. *)
Definition scan_int (s : string) : option (string * string) :=
  let '(sign, s) := match s with String "-" s' => ("-", s') | _ => ("", s) end in
  match s with
  | String "0" s' => Some (sign +:+ "0", s')
  | String c _ => if is_digit c then let '(d, r) := span_digits s in Some (sign +:+ d, r) else None
  | EmptyString => None
  end.

Definition scan_digits1 (s : string) : option (string * string) :=
  let '(d, r) := span_digits s in if d =s "" then None else Some (d, r).

Definition scan_frac (s : string) : option (string * string) :=
  match s with
  | String "." s' => prepend "." (scan_digits1 s')
  | _ => Some (EmptyString, s)
  end.

Definition scan_exp (s : string) : option (string * string) :=
  match s with
  | String c s' =>
      if (c =? "e"%char)%char || (c =? "E"%char)%char then
        match s' with
        | String sg s2 =>
            if (sg =? "+"%char)%char || (sg =? "-"%char)%char
            then prepend (String c (String sg EmptyString)) (scan_digits1 s2)
            else prepend (String c EmptyString) (scan_digits1 s')
        | EmptyString => None
        end
      else Some (EmptyString, s)
  | EmptyString => Some (EmptyString, s)
  end.

Definition scan_number (s : string) : option (string * string) :=
  match scan_int s with
  | None => None
  | Some (i, s1) =>
      match scan_frac s1 with
      | None => None
      | Some (f, s2) => prepend (i +:+ f) (scan_exp s2)
      end
  end.

(** ** Values *)
Definition maxNestingDepth : nat := 100 * 100.

(** A match on the first character. *)
Definition after_char {A} (c : ascii) (s : string) (yes : string -> A) (no : A) : A :=
  match s with String x s' => if (x =? c)%char then yes s' else no | EmptyString => no end.

Definition found {A B} (f : A -> B) (o : option (A * string)) : option (B * string) :=
  match o with Some (a, r) => Some (f a, r) | None => None end.

(** A value that is neither an array, an object nor a string. *)
Definition scan_literal (s : string) : option (json * string) :=
  if HasPrefix s "null" then Some (JNull, sdrop 4 s)
  else if HasPrefix s "true" then Some (JBool true, sdrop 4 s)
  else if HasPrefix s "false" then Some (JBool false, sdrop 5 s)
  else found JNum (scan_number s).

(** [depth] is the number of open arrays and objects. *)
Fixpoint value (fuel : nat) (depth : nat) (s : string) : option (json * string) :=
  match fuel with
  | O => None
  | S fuel =>
      let s := skip_space s in
      after_char "{" s (fun s1 =>
        if (maxNestingDepth <=? depth)%nat then None
        else after_char "}" (skip_space s1) (fun s2 => Some (JObj [], s2))
               (found JObj (members fuel (S depth) s1)))
      (after_char "[" s (fun s1 =>
        if (maxNestingDepth <=? depth)%nat then None
        else after_char "]" (skip_space s1) (fun s2 => Some (JArr [], s2))
               (found JArr (elements fuel (S depth) s1)))
      (after_char quote s (fun s1 => found JStr (scan_string s1))
      (scan_literal s)))
  end
with elements (fuel : nat) (depth : nat) (s : string) : option (list json * string) :=
  match fuel with
  | O => None
  | S fuel =>
      match value fuel depth s with
      | None => None
      | Some (v, r) =>
          let r := skip_space r in
          after_char "," r (fun r => found (cons v) (elements fuel depth r))
            (after_char "]" r (fun r => Some ([v], r)) None)
      end
  end
with members (fuel : nat) (depth : nat) (s : string) : option (list (string * json) * string) :=
  match fuel with
  | O => None
  | S fuel =>
      after_char quote (skip_space s) (fun s1 =>
        match scan_string s1 with
        | None => None
        | Some (k, s2) =>
            after_char ":" (skip_space s2) (fun s3 =>
              match value fuel depth s3 with
              | None => None
              | Some (v, r) =>
                  let r := skip_space r in
                  after_char "," r (fun r => found (cons (k, v)) (members fuel depth r))
                    (after_char "}" r (fun r => Some ([(k, v)], r)) None)
              end) None
        end) None
  end.

Definition parse_fuel (s : string) : nat := 2 * String.length s + 2.
Definition parse (s : string) : option (json * string) := value (parse_fuel s) 0 s.

(** ** Printing *)
Fixpoint print (j : json) : string :=
  match j with
  | JNull => "null"
  | JBool true => "true"
  | JBool false => "false"
  | JNum t => t
  | JStr raw => String quote (raw +:+ String quote EmptyString)
  | JArr l => "[" +:+ String.concat "," (map print l) +:+ "]"
  | JObj l => "{" +:+ String.concat ","
      (map (fun kv => String quote (kv.1 +:+ String quote EmptyString) +:+ ":" +:+ print kv.2) l) +:+ "}"
  end.

(** [json.Marshal] of a string. *)
Definition marshal_string (s : string) : json := JStr (json_chars (String.length s) s).

Definition q : string := String quote EmptyString.
Example json_parses :
  parse (" {" +:+ q +:+ "a" +:+ q +:+ ": [1.5e3, true , null], " +:+ q +:+ "b" +:+ q +:+ ":" +:+ q +:+ "x" +:+
         String backslash ("u00e9" +:+ q) +:+ "} tail")
  = Some (JObj [("a", JArr [JNum "1.5e3"; JBool true; JNull]); ("b", JStr ("x" +:+ String backslash "u00e9"))],
          " tail").
Proof. vm_compute. reflexivity. Qed.
Example unquotes :
  unquote ("x" +:+ String backslash "u00e9" +:+ String backslash "ud83d" +:+ String backslash "ude00" +:+
           String backslash "ud83d!" +:+ String backslash "n") =
  "x" +:+ bytes [195; 169; 240; 159; 152; 128; 239; 191; 189; 33; 10]%Z.
Proof. vm_compute. reflexivity. Qed.
Example refuses :
  map parse ["{"; "[1,]"; "01"; "tru"; "-"; "1."; "[1 2]"; String quote (bytes [10]%Z +:+ q)] =
  [None; None; Some (JNum "0", "1"); None; None; None; None; None].
Proof. vm_compute. reflexivity. Qed.
