(* ===== verification/JsonSpec.v ===== *)
(** * The JSON scanner ends, and reads back what the encoder writes *)
From Stdlib Require Import ZArith Lia Ascii.
From stdpp Require Import base gmap strings list.
From S2P Require Import Prelude GoStrings Errors State Times TimesSpec AuditStore Durations Json.
Open Scope packyard_scope.

(** ** Every step consumes *)
#[local] Set Warnings "-register-all".
#[local] Abbreviation len := String.length.

Lemma skip_space_len s : len (skip_space s) <= len s.
Proof. induction s as [|c s IH]; cbn [skip_space]; [done|]. destruct (json_space c); cbn [String.length]; lia. Qed.

Lemma skip_space_cons s c s1 : skip_space s = String c s1 -> len s1 < len s.
Proof. intros He. pose proof (skip_space_len s) as Hl. rewrite He in Hl. cbn [String.length] in Hl. lia. Qed.

Lemma sdrop_len n s : len (sdrop n s) <= len s.
Proof. revert s. induction n as [|n IH]; intros [|c s]; cbn [sdrop String.length]; try lia. specialize (IH s). lia. Qed.

Lemma prepend_Some p o raw rest :
  prepend p o = Some (raw, rest) -> exists raw', o = Some (raw', rest) /\ raw = p +:+ raw'.
Proof. destruct o as [[raw' r]|]; [|done]. intros [= <- <-]. by exists raw'. Qed.

Lemma scan_string_len s raw rest : scan_string s = Some (raw, rest) -> len rest < len s.
Proof.
  remember (len s) as n eqn:Hn. revert s raw rest Hn. induction (lt_wf n) as [n _ IH].
  intros s raw rest ->. destruct s as [|c s1]; [done|]. cbn [scan_string].
  destruct (c =? quote)%char; [intros [= _ <-]; cbn; lia|].
  destruct (c =? backslash)%char.
  - destruct s1 as [|e s2]; [done|]. destruct (simple_escape e).
    { intros (raw' & Hs & _)%prepend_Some. apply (IH (len s2)) in Hs; cbn [String.length] in *; lia. }
    destruct (e =? "u"%char)%char; [|done]. destruct s2 as [|h1 [|h2 [|h3 [|h4 s3]]]]; try done.
    destruct (_ && is_hex h4); [|done].
    intros (raw' & Hs & _)%prepend_Some. apply (IH (len s3)) in Hs; cbn [String.length] in *; lia.
  - destruct (_ <? 32)%Z; [done|].
    intros (raw' & Hs & _)%prepend_Some. apply (IH (len s1)) in Hs; cbn [String.length] in *; lia.
Qed.

Lemma span_digits_len s d r : span_digits s = (d, r) -> len d + len r = len s.
Proof.
  revert d. induction s as [|c s IH]; intros d; cbn [span_digits]; [by intros [= <- <-]|].
  destruct (is_digit c); [|intros [= <- <-]; done].
  destruct (span_digits s) as [d' r'] eqn:E. intros [= <- <-]. specialize (IH d' eq_refl).
  cbn [String.length]. lia.
Qed.

Lemma scan_digits1_len s d r : scan_digits1 s = Some (d, r) -> len r < len s.
Proof.
  unfold scan_digits1. destruct (span_digits s) as [d' r'] eqn:E. apply span_digits_len in E.
  destruct (String.eqb_spec d' "") as [|Hne]; [done|]. intros [= <- <-]. destruct d'; [done|]. cbn [String.length] in E. lia.
Qed.

Lemma scan_int_len s d r : scan_int s = Some (d, r) -> len r < len s.
Proof.
  unfold scan_int. set (p := match s with EmptyString => _ | _ => _ end).
  assert (len p.2 <= len s) as Hp.
  { subst p. destruct s as [|[[] [] [] [] [] [] [] []] s]; cbn [snd String.length]; lia. }
  destruct p as [sign s0]. cbn [snd] in Hp. destruct s0 as [|c s0]; [done|].
  assert (forall d r, (if is_digit c then let '(d, r) := span_digits (String c s0) in Some (sign +:+ d, r)
    else None) = Some (d, r) -> len r < len s) as Hgen.
  { intros d' r'. destruct (is_digit c) eqn:Ec; [|done]. cbn [span_digits]. rewrite Ec.
    destruct (span_digits s0) as [d0 r0] eqn:E. apply span_digits_len in E. intros [= _ <-].
    cbn [String.length] in Hp. lia. }
  cbn [String.length] in Hp.
  destruct c as [[] [] [] [] [] [] [] []]; intros Hd; try (by apply Hgen in Hd). injection Hd as _ <-. lia.
Qed.

Lemma scan_frac_len s d r : scan_frac s = Some (d, r) -> len r <= len s.
Proof.
  unfold scan_frac. destruct s as [|c s]; [by intros [= _ <-]|].
  destruct c as [[] [] [] [] [] [] [] []]; try (by intros [= _ <-]).
  intros (d' & Hd & _)%prepend_Some. apply scan_digits1_len in Hd. cbn [String.length]. lia.
Qed.

Lemma scan_exp_len s d r : scan_exp s = Some (d, r) -> len r <= len s.
Proof.
  unfold scan_exp. destruct s as [|c s]; [by intros [= _ <-]|].
  destruct (_ || _); [|by intros [= _ <-]]. destruct s as [|sg s2]; [done|].
  destruct (_ || _); intros (d' & Hd & _)%prepend_Some; apply scan_digits1_len in Hd;
    cbn [String.length] in *; lia.
Qed.

Lemma scan_number_len s d r : scan_number s = Some (d, r) -> len r < len s.
Proof.
  unfold scan_number. destruct (scan_int s) as [[i s1]|] eqn:E1; [|done].
  destruct (scan_frac s1) as [[f s2]|] eqn:E2; [|done]. intros (d' & E3 & _)%prepend_Some.
  apply scan_int_len in E1. apply scan_frac_len in E2. apply scan_exp_len in E3. lia.
Qed.

Lemma scan_literal_len s j r : scan_literal s = Some (j, r) -> len r < len s.
Proof.
  assert (forall n p, HasPrefix s p = true -> len p = n -> 0 < n -> len (sdrop n s) < len s) as Hp.
  { intros n p Hp%HasPrefix_split Hn Hpos. rewrite Hn in Hp.
    apply (f_equal len) in Hp. rewrite string_length_app in Hp. lia. }
  unfold scan_literal, found.
  destruct (HasPrefix s "null") eqn:E1; [intros [= _ Hr]; rewrite <-Hr; apply (Hp 4 "null"); [done|done|lia]|].
  destruct (HasPrefix s "true") eqn:E2; [intros [= _ Hr]; rewrite <-Hr; apply (Hp 4 "true"); [done|done|lia]|].
  destruct (HasPrefix s "false") eqn:E3; [intros [= _ Hr]; rewrite <-Hr; apply (Hp 5 "false"); [done|done|lia]|].
  destruct (scan_number s) as [[t r']|] eqn:E; [|done]. intros [= _ <-]. by apply scan_number_len in E.
Qed.

Lemma after_char_Some {A} c s (f : string -> option A) g x :
  after_char c s f g = Some x -> (exists s', s = String c s' /\ f s' = Some x) \/ g = Some x.
Proof.
  unfold after_char. destruct s as [|y s']; [by right|]. destruct (Ascii.eqb_spec y c) as [->|]; [|by right].
  left. by exists s'.
Qed.

Lemma found_Some {A B} (f : A -> B) o y r :
  found f o = Some (y, r) -> exists a, o = Some (a, r) /\ y = f a.
Proof. destruct o as [[a r']|]; [|done]. intros [= <- <-]. by exists a. Qed.

Ltac consumed :=
  repeat match goal with
  | H : skip_space ?s = String _ ?r |- _ => apply skip_space_cons in H
  | H : scan_string _ = Some _ |- _ => apply scan_string_len in H
  end; lia.

Lemma values_len n :
  (forall d s j r, value n d s = Some (j, r) -> len r < len s) /\
  (forall d s l r, elements n d s = Some (l, r) -> len r < len s) /\
  (forall d s l r, members n d s = Some (l, r) -> len r < len s).
Proof.
  induction n as [|n (IHv & IHe & IHm)]; [done|]. split_and!; intros d s j r; cbn [value elements members].
  - cbv zeta. intros [(s1 & Hs & Hx)|Hx]%after_char_Some.
    { destruct (_ <=? d)%nat; [done|]. apply after_char_Some in Hx as [(s2 & Hs2 & [= _ <-])|Hx]; [consumed|].
      apply found_Some in Hx as (l & Hl & _). apply IHm in Hl. consumed. }
    apply after_char_Some in Hx as [(s1 & Hs & Hx)|Hx].
    { destruct (_ <=? d)%nat; [done|]. apply after_char_Some in Hx as [(s2 & Hs2 & [= _ <-])|Hx]; [consumed|].
      apply found_Some in Hx as (l & Hl & _). apply IHe in Hl. consumed. }
    apply after_char_Some in Hx as [(s1 & Hs & Hx)|Hx].
    { apply found_Some in Hx as (l & Hl & _). consumed. }
    apply scan_literal_len in Hx. pose proof (skip_space_len s). lia.
  - destruct (value n d s) as [[v r0]|] eqn:E; [|done]. apply IHv in E. cbv zeta.
    intros [(s1 & Hs & Hx)|Hx]%after_char_Some.
    { apply found_Some in Hx as (l & Hl & _). apply IHe in Hl. consumed. }
    apply after_char_Some in Hx as [(s1 & Hs & [= _ <-])|Hx]; [consumed|done].
  - intros [(s1 & Hs & Hx)|Hx]%after_char_Some; [|done].
    destruct (scan_string s1) as [[k s2]|] eqn:Ek; [|done].
    apply after_char_Some in Hx as [(s3 & Hs3 & Hx)|Hx]; [|done].
    destruct (value n d s3) as [[v r0]|] eqn:E; [|done]. apply IHv in E. cbv zeta in Hx.
    apply after_char_Some in Hx as [(s4 & Hs4 & Hx)|Hx].
    { apply found_Some in Hx as (l & Hl & _). apply IHm in Hl. consumed. }
    apply after_char_Some in Hx as [(s4 & Hs4 & [= _ <-])|Hx]; [consumed|done].
Qed.

(** ** The fuel is enough *)
Lemma after_char_ext {A} c s (f f' : string -> A) g g' :
  (forall s', s = String c s' -> f s' = f' s') -> g = g' ->
  after_char c s f g = after_char c s f' g'.
Proof.
  intros Hf ->. unfold after_char. destruct s as [|y s']; [done|].
  destruct (Ascii.eqb_spec y c) as [->|]; [by apply Hf|done].
Qed.

Lemma values_fuel m :
  (forall n n' d s, len s <= m -> 2 * len s + 2 <= n -> 2 * len s + 2 <= n' -> value n d s = value n' d s) /\
  (forall n n' d s, len s <= m -> 2 * len s + 3 <= n -> 2 * len s + 3 <= n' -> elements n d s = elements n' d s) /\
  (forall n n' d s, len s <= m -> 2 * len s + 3 <= n -> 2 * len s + 3 <= n' -> members n d s = members n' d s).
Proof.
  induction m as [m IH] using lt_wf_ind.
  assert (forall n n' d s, len s <= m -> 2 * len s + 2 <= n -> 2 * len s + 2 <= n' -> value n d s = value n' d s) as Hv.
  { intros n n' d s Hm Hn Hn'. destruct n as [|n]; [lia|]. destruct n' as [|n']; [lia|]. cbn [value]. cbv zeta.
    apply after_char_ext; [intros s1 Hs1; apply skip_space_cons in Hs1|].
    { destruct (_ <=? d)%nat; [done|]. apply after_char_ext; [done|]. f_equal.
      apply (IH (len s1)); lia. }
    apply after_char_ext; [intros s1 Hs1; apply skip_space_cons in Hs1|done].
    destruct (_ <=? d)%nat; [done|]. apply after_char_ext; [done|]. f_equal.
    apply (IH (len s1)); lia. }
  split; [exact Hv|]. split.
  - intros n n' d s Hm Hn Hn'. destruct n as [|n]; [lia|]. destruct n' as [|n']; [lia|]. cbn [elements].
    rewrite (Hv n n' d s) by lia. destruct (value n' d s) as [[v r]|] eqn:E; [|done]. apply values_len in E.
    cbv zeta. apply after_char_ext; [intros s1 Hs1; apply skip_space_cons in Hs1|done]. f_equal.
    apply (IH (len s1)); lia.
  - intros n n' d s Hm Hn Hn'. destruct n as [|n]; [lia|]. destruct n' as [|n']; [lia|]. cbn [members].
    apply after_char_ext; [intros s1 Hs1; apply skip_space_cons in Hs1|done].
    destruct (scan_string s1) as [[k s2]|] eqn:Ek; [|done]. apply scan_string_len in Ek.
    apply after_char_ext; [intros s3 Hs3; apply skip_space_cons in Hs3|done].
    rewrite (Hv n n' d s3) by lia. destruct (value n' d s3) as [[v r]|] eqn:E; [|done]. apply values_len in E.
    cbv zeta. apply after_char_ext; [intros s4 Hs4; apply skip_space_cons in Hs4|done]. f_equal.
    apply (IH (len s4)); lia.
Qed.

(** More fuel changes no result: the scanner ends by itself. *)
Lemma parse_enough n s : parse_fuel s <= n -> value n 0 s = parse s.
Proof. intros Hn. by apply (values_fuel (len s)). Qed.

(** ** Strings: what the encoder writes is read back *)
Definition high (c : ascii) : bool := negb (is_ascii_char c).

(** The runes of the text, invalid bytes replaced. *)
Definition to_valid (s : string) : string := of_runes (runes s).

Lemma prepend_app p t o : prepend (p +:+ t) o = prepend p (prepend t o).
Proof. destruct o as [[raw r]|]; [|done]. cbn. by rewrite string_app_assoc. Qed.

Lemma scan_plain p t :
  string_forallb high p = true -> scan_string (p +:+ t) = prepend p (scan_string t).
Proof.
  induction p as [|c p IH].
  - intros _. change ("" +:+ t) with t. by destruct (scan_string t) as [[raw r]|].
  - cbn [string_forallb]. intros [Hc Hp]%andb_true_iff.
    change (String c p +:+ t) with (String c (p +:+ t)). cbn [scan_string].
    assert ((c =? quote)%char = false /\ (c =? backslash)%char = false /\ (byte_of c <? 32)%Z = false) as (-> & -> & ->).
    { revert Hc. clear. destruct c as [[] [] [] [] [] [] [] []]; by vm_compute. }
    rewrite (IH Hp). change (String c p) with (String c "" +:+ p). by rewrite prepend_app.
Qed.

Lemma scan_json_ascii c t :
  is_ascii_char c = true -> scan_string (json_ascii c +:+ t) = prepend (json_ascii c) (scan_string t).
Proof. destruct c as [[] [] [] [] [] [] [] []]; try discriminate; reflexivity. Qed.

Lemma high_byte c : high c = true <-> (128 <= byte_of c)%Z.
Proof. unfold high, is_ascii_char. rewrite negb_true_iff, Z.ltb_ge. done. Qed.

(** A rune that is not ASCII: an invalid byte, or a sequence of bytes that
    decodes alike whatever follows. *)
Lemma decode_rune_cases c s1 r w :
  high c = true -> decode_rune (String c s1) = (r, w) ->
  (r = rune_error /\ w = 1) \/
  (1 < w /\ exists p t, String c s1 = p +:+ t /\ len p = w /\ string_forallb high p = true /\
   forall t', decode_rune (p +:+ t') = (r, w)).
Proof.
  intros Hc. assert ((byte_of c <? 128)%Z = false) as H0 by by apply Z.ltb_ge, high_byte.
  cbn [decode_rune]. rewrite H0. cbv zeta.
  destruct s1 as [|c1 s2]; [intros [= <- <-]; by left|].
  destruct ((194 <=? byte_of c)%Z && (byte_of c <=? 223)%Z) eqn:E1.
  { destruct ((128 <=? byte_of c1)%Z && (byte_of c1 <=? 191)%Z) eqn:Ec1; [|intros [= <- <-]; by left].
    intros [= <- <-]. right. split; [lia|]. exists (String c (String c1 "")), s2.
    split; [done|]. split; [done|]. split.
    - cbn [string_forallb]. rewrite Hc. apply andb_true_iff in Ec1 as [Hc1%Z.leb_le _].
      by rewrite (proj2 (high_byte c1)).
    - intros t'. change (String c (String c1 "") +:+ t') with (String c (String c1 t')).
      cbn [decode_rune]. rewrite H0. cbv zeta. by rewrite E1, Ec1. }
  destruct s2 as [|c2 s3]; [intros [= <- <-]; by left|].
  destruct ((224 <=? byte_of c)%Z && (byte_of c <=? 239)%Z) eqn:E2.
  { destruct (_ && _ && _) eqn:Ec; [|intros [= <- <-]; by left].
    intros [= <- <-]. right. split; [lia|]. exists (String c (String c1 (String c2 ""))), s3.
    split; [done|]. split; [done|]. split.
    - cbn [string_forallb]. rewrite Hc. rewrite !andb_true_iff, !Z.leb_le in Ec.
      destruct Ec as [[Hlo _] [Hc2 _]]. rewrite (proj2 (high_byte c1)), (proj2 (high_byte c2)); [done|lia|].
      by destruct (byte_of c =? 224)%Z; lia.
    - intros t'. change (String c (String c1 (String c2 "")) +:+ t') with (String c (String c1 (String c2 t'))).
      cbn [decode_rune]. rewrite H0. cbv zeta. by rewrite E1, E2, Ec. }
  destruct s3 as [|c3 s4]; [intros [= <- <-]; by left|].
  destruct ((240 <=? byte_of c)%Z && (byte_of c <=? 244)%Z) eqn:E3; [|intros [= <- <-]; by left].
  destruct (_ && _ && _ && _) eqn:Ec; [|intros [= <- <-]; by left].
  intros [= <- <-]. right. split; [lia|]. exists (String c (String c1 (String c2 (String c3 "")))), s4.
  split; [done|]. split; [done|]. split.
  - cbn [string_forallb]. rewrite Hc. rewrite !andb_true_iff, !Z.leb_le in Ec.
    destruct Ec as [[[Hlo _] [Hc2 _]] [Hc3 _]].
    rewrite (proj2 (high_byte c1)), (proj2 (high_byte c2)), (proj2 (high_byte c3)); [done|lia|lia|].
    by destruct (byte_of c =? 240)%Z; lia.
  - intros t'. change (String c (String c1 (String c2 (String c3 ""))) +:+ t')
      with (String c (String c1 (String c2 (String c3 t')))).
    cbn [decode_rune]. rewrite H0. cbv zeta. by rewrite E1, E2, E3, Ec.
Qed.

Lemma take_drop_app p t : stake (len p) (p +:+ t) = p /\ sdrop (len p) (p +:+ t) = t.
Proof.
  induction p as [|c p [IH1 IH2]]; [by destruct t|].
  split; [exact (f_equal (String c) IH1)|exact IH2].
Qed.

Lemma decode_ascii c s : is_ascii_char c = true -> decode_rune (String c s) = (byte_of c, 1).
Proof. unfold is_ascii_char. cbn [decode_rune]. by intros ->. Qed.

(** What one piece of a string's source means: it is scanned as it is and
    decodes to the rune [r]. *)
Definition encodes (piece : string) (r : Z) : Prop :=
  (forall t, scan_string (piece +:+ t) = prepend piece (scan_string t)) /\
  forall m t, unquote_fuel (S m) (piece +:+ t) = encode_rune r +:+ unquote_fuel m t.

Lemma encodes_ascii c : is_ascii_char c = true -> encodes (json_ascii c) (byte_of c).
Proof.
  intros Hc. split; [intros t; by apply scan_json_ascii|].
  destruct c as [[] [] [] [] [] [] [] []]; try discriminate Hc; reflexivity.
Qed.

Lemma encodes_escape h1 h2 h3 h4 :
  is_hex h1 && is_hex h2 && is_hex h3 && is_hex h4 = true -> IsSurrogate (hex4 h1 h2 h3 h4) = false ->
  encodes (escape (String "u" (String h1 (String h2 (String h3 (String h4 "")))))) (hex4 h1 h2 h3 h4).
Proof.
  intros Hh Hs. split; [intros t|intros m t].
  - change (escape (String "u" (String h1 (String h2 (String h3 (String h4 ""))))) +:+ t)
      with (String backslash (String "u" (String h1 (String h2 (String h3 (String h4 t)))))).
    cbn [scan_string]. change (simple_escape "u") with false. by rewrite Hh.
  - change (escape (String "u" (String h1 (String h2 (String h3 (String h4 ""))))) +:+ t)
      with (String backslash (String "u" (String h1 (String h2 (String h3 (String h4 t)))))).
    cbn [unquote_fuel getu4]. change ((backslash =? backslash)%char) with true.
    change (("u" =? "u")%char) with true. cbn [andb]. by rewrite Hh, Hs.
Qed.

Lemma encodes_high p r w :
  string_forallb high p = true -> len p = w -> 0 < w -> (forall t, decode_rune (p +:+ t) = (r, w)) ->
  encodes p r.
Proof.
  intros Hp Hw Hpos Hd. split; [intros t; by apply scan_plain|]. intros m t.
  destruct p as [|c p]; [cbn in Hw; lia|]. specialize (Hd t). pose proof (take_drop_app (String c p) t) as [_ Hdrop].
  rewrite Hw in Hdrop. change (String c p +:+ t) with (String c (p +:+ t)) in *. cbn [unquote_fuel].
  cbn [string_forallb] in Hp. apply andb_true_iff in Hp as [Hc _].
  assert ((c =? backslash)%char = false /\ is_ascii_char c = false) as [-> ->].
  { revert Hc. clear. destruct c as [[] [] [] [] [] [] [] []]; by vm_compute. }
  by rewrite Hd, Hdrop.
Qed.

(** The first rune of a text: its piece of the source. *)
Lemma json_chars_step n c s :
  exists piece, json_chars (S n) (String c s) =
      piece +:+ json_chars n (sdrop (decode_rune (String c s)).2 (String c s)) /\
    0 < (decode_rune (String c s)).2 /\ piece <> "" /\ encodes piece (decode_rune (String c s)).1.
Proof.
  cbn [json_chars]. destruct (is_ascii_char c) eqn:Ec.
  { rewrite (decode_ascii c s Ec). exists (json_ascii c). split; [done|]. split; [cbn; lia|].
    split; [|by apply encodes_ascii]. destruct c as [[] [] [] [] [] [] [] []]; done. }
  destruct (decode_rune (String c s)) as [r w] eqn:Ed. cbn [fst snd].
  assert (high c = true) as Hc by (unfold high; by rewrite Ec).
  destruct (decode_rune_cases _ _ _ _ Hc Ed) as [[-> ->]|(Hw & p & t & Hs & Hp & Hhigh & Hdec)].
  { exists (escape "ufffd"). split; [done|]. split; [lia|]. split; [done|]. by apply encodes_escape. }
  replace ((r =? rune_error)%Z && (w =? 1)%nat) with false
    by (symmetry; apply andb_false_iff; right; apply Nat.eqb_neq; lia).
  rewrite Hs. pose proof (take_drop_app p t) as [Htake _]. rewrite Hp in Htake. rewrite Htake.
  eexists. split; [reflexivity|]. split; [lia|].
  destruct (Z.eqb_spec r 8232) as [->|]; [split; [done|by apply (encodes_escape "2" "0" "2" "8")]|].
  destruct (Z.eqb_spec r 8233) as [->|]; [split; [done|by apply (encodes_escape "2" "0" "2" "9")]|].
  split; [intros ->; cbn in Hp; lia|]. apply (encodes_high p r w); auto with lia.
Qed.

Lemma json_chars_spec n s :
  len s <= n ->
  (forall t, scan_string (json_chars n s +:+ String quote t) = Some (json_chars n s, t)) /\
  forall m, len (json_chars n s) <= m -> unquote_fuel m (json_chars n s) = of_runes (runes_fuel n s).
Proof.
  revert s. induction n as [|n IH]; intros s Hn.
  { destruct s; [|cbn [String.length] in Hn; lia]. split; [done|]. by intros []. }
  destruct s as [|c s1]; [split; [done|by intros []]|].
  destruct (json_chars_step n c s1) as (piece & Heq & Hw & Hne & Hscan & Hunq).
  cbn [runes_fuel]. destruct (decode_rune (String c s1)) as [r w]. cbn [fst snd] in *.
  assert (len (sdrop w (String c s1)) <= n) as Hlen.
  { destruct w as [|w]; [lia|]. cbn [sdrop]. pose proof (sdrop_len w s1). cbn [String.length] in Hn. lia. }
  destruct (IH _ Hlen) as [IHs IHu]. rewrite Heq. split.
  - intros t. rewrite string_app_assoc, Hscan, IHs. done.
  - intros m Hm. rewrite string_length_app in Hm. destruct piece as [|x piece]; [done|].
    destruct m as [|m]; [cbn [String.length] in Hm; lia|]. rewrite Hunq.
    cbn [of_runes fold_right]. rewrite IHu; [done|]. cbn [String.length] in Hm. lia.
Qed.

(** The source of a marshalled string is scanned whole, and decodes to the
    string with its invalid bytes replaced. *)
Lemma marshal_scan s t :
  scan_string (json_chars (len s) s +:+ String quote t) = Some (json_chars (len s) s, t).
Proof. by apply json_chars_spec. Qed.

Lemma unquote_marshal s : unquote (json_chars (len s) s) = to_valid s.
Proof. by apply json_chars_spec. Qed.

Lemma to_valid_ascii s : string_forallb is_ascii_char s = true -> to_valid s = s.
Proof.
  unfold to_valid, runes. induction s as [|c s IH]; [done|]. cbn [string_forallb String.length runes_fuel].
  intros [Hc Hs]%andb_true_iff. rewrite (decode_ascii c s Hc). cbn [sdrop of_runes fold_right].
  change (fold_right _ _ ?l) with (of_runes l). rewrite IH by done.
  assert (encode_rune (byte_of c) = String c "") as ->; [|done].
  destruct c as [[] [] [] [] [] [] [] []]; try discriminate Hc; reflexivity.
Qed.

(** ** Trees: what is printed is parsed *)
Section JsonInd.
Context (P : json -> Prop).
Context (Hnull : P JNull) (Hbool : forall b, P (JBool b)) (Hnum : forall t, P (JNum t))
  (Hstr : forall r, P (JStr r)) (Harr : forall l, Forall P l -> P (JArr l))
  (Hobj : forall l, Forall (fun kv => P kv.2) l -> P (JObj l)).

Fixpoint json_tree_ind (j : json) : P j :=
  match j with
  | JNull => Hnull
  | JBool b => Hbool b
  | JNum t => Hnum t
  | JStr r => Hstr r
  | JArr l => Harr l ((fix go l : Forall P l :=
      match l with [] => List.Forall_nil _ | x :: l => List.Forall_cons _ _ _ (json_tree_ind x) (go l) end) l)
  | JObj l => Hobj l ((fix go l : Forall (fun kv => P kv.2) l :=
      match l with [] => List.Forall_nil _ | x :: l => List.Forall_cons _ _ _ (json_tree_ind x.2) (go l) end) l)
  end.
End JsonInd.

Definition scanned (raw : string) : Prop :=
  forall t, scan_string (raw +:+ String quote t) = Some (raw, t).

Definition number_stop (rest : string) : bool :=
  match rest with
  | EmptyString => true
  | String c _ => negb (is_digit c || (c =? "."%char)%char || (c =? "e"%char)%char || (c =? "E"%char)%char)
  end.

Definition numeral (t : string) : Prop :=
  match t with String c _ => is_digit c = true \/ c = "-"%char | EmptyString => False end /\
  forall rest, number_stop rest = true -> scan_number (t +:+ rest) = Some (t, rest).

Lemma scanned_plain s : string_forallb plain s = true -> scanned s.
Proof.
  intros Hs t. induction s as [|c s IH]; [done|]. cbn [string_forallb] in Hs. apply andb_true_iff in Hs as [Hc Hs].
  rewrite string_app_cons. cbn [scan_string]. unfold plain in Hc.
  assert ((c =? quote)%char = false /\ (c =? backslash)%char = false /\ (byte_of c <? 32)%Z = false) as (-> & -> & ->).
  { rewrite !andb_true_iff, Z.leb_le, Z.ltb_lt, !negb_true_iff, !Z.eqb_neq in Hc. destruct_and! Hc.
    split; [|split]; [apply Ascii.eqb_neq; by intros -> ..|by apply Z.ltb_ge]. }
  by rewrite IH.
Qed.

(** A tree the encoder can write below [d] open containers. *)
Inductive writable : nat -> json -> Prop :=
| w_null d : writable d JNull
| w_bool d b : writable d (JBool b)
| w_num d t : numeral t -> writable d (JNum t)
| w_str d raw : scanned raw -> writable d (JStr raw)
| w_arr d l : d < maxNestingDepth -> Forall (writable (S d)) l -> writable d (JArr l)
| w_obj d l : d < maxNestingDepth -> Forall (fun kv => scanned kv.1 /\ writable (S d) kv.2) l ->
    writable d (JObj l).

Lemma writable_string d s : writable d (marshal_string s).
Proof. constructor. intros t. apply marshal_scan. Qed.

(** Enough fuel reads the tree back. *)
Definition reads {A} (f : nat -> string -> option (A * string)) (text : string) (a : A) : Prop :=
  forall rest, number_stop rest = true -> exists N, forall n, N <= n -> f n (text +:+ rest) = Some (a, rest).

Lemma skip_char c s : json_space c = false -> skip_space (String c s) = String c s.
Proof. cbn [skip_space]. by intros ->. Qed.

Lemma after_yes {A} c s (f : string -> A) g : after_char c (String c s) f g = f s.
Proof. cbn [after_char]. by rewrite Ascii.eqb_refl. Qed.
Lemma after_no {A} x c s (f : string -> A) g : (x =? c)%char = false -> after_char c (String x s) f g = g.
Proof. cbn [after_char]. by intros ->. Qed.

Lemma reads_elements d l :
  l <> [] -> Forall (fun j => reads (fun n => value n d) (print j) j) l ->
  reads (fun n => elements n d) (String.concat "," (map print l) +:+ "]") l.
Proof.
  intros Hne Hall rest Hrest. revert Hne Hall. induction l as [|j l IH]; [done|].
  intros _ [Hj Hl]%Forall_cons. destruct l as [|j' l].
  - destruct (Hj ("]" +:+ rest) eq_refl) as [N HN]. exists (S N). intros [|n] Hn; [lia|].
    cbn [map String.concat elements]. rewrite string_app_assoc, HN by lia. reflexivity.
  - destruct (IH ltac:(done) Hl) as [N2 HN2].
    change (String.concat "," (map print (j :: j' :: l)))
      with (print j +:+ "," +:+ String.concat "," (map print (j' :: l))).
    destruct (Hj (("," +:+ String.concat "," (map print (j' :: l)) +:+ "]") +:+ rest) eq_refl) as [N HN].
    exists (S (N + N2)). intros [|n] Hn; [lia|]. cbn [elements].
    rewrite !string_app_assoc in *. rewrite HN by lia. cbv zeta.
    change ("," +:+ ?x) with (String "," x). rewrite skip_char by done.
    rewrite after_yes, HN2 by lia. done.
Qed.

Definition print_member (kv : string * json) : string :=
  String quote (kv.1 +:+ String quote EmptyString) +:+ ":" +:+ print kv.2.

Lemma members_one n d k v t :
  scanned k -> members (S n) d (print_member (k, v) +:+ t) =
  match value n d (print v +:+ t) with
  | None => None
  | Some (v, r) =>
      let r := skip_space r in
      after_char "," r (fun r => found (cons (k, v)) (members n d r))
        (after_char "}" r (fun r => Some ([(k, v)], r)) None)
  end.
Proof.
  intros Hk. unfold print_member. cbn [fst snd]. rewrite !string_app_assoc.
  change (String quote (k +:+ ?x) +:+ ?y) with (String quote ((k +:+ x) +:+ y)).
  rewrite string_app_assoc. change (String quote "" +:+ ?x) with (String quote x).
  cbn [members]. rewrite skip_char, after_yes, Hk by done.
  change (":" +:+ ?x) with (String ":" x). rewrite skip_char, after_yes by done. done.
Qed.

Lemma reads_members d l :
  l <> [] -> Forall (fun kv => scanned kv.1 /\ reads (fun n => value n d) (print kv.2) kv.2) l ->
  reads (fun n => members n d) (String.concat "," (map print_member l) +:+ "}") l.
Proof.
  intros Hne Hall rest Hrest. revert Hne Hall. induction l as [|[k v] l IH]; [done|].
  intros _ [[Hk Hv] Hl]%Forall_cons. cbn [fst snd] in *. destruct l as [|kv l].
  - destruct (Hv ("}" +:+ rest) eq_refl) as [N HN]. exists (S N). intros [|n] Hn; [lia|].
    cbn [map String.concat]. rewrite string_app_assoc, members_one, HN by (lia || done). reflexivity.
  - destruct (IH ltac:(done) Hl) as [N2 HN2].
    change (String.concat "," (map print_member ((k, v) :: kv :: l)))
      with (print_member (k, v) +:+ "," +:+ String.concat "," (map print_member (kv :: l))).
    destruct (Hv (("," +:+ String.concat "," (map print_member (kv :: l)) +:+ "}") +:+ rest) eq_refl) as [N HN].
    exists (S (N + N2)). intros [|n] Hn; [lia|].
    rewrite !string_app_assoc in *. rewrite members_one, HN by (lia || done). cbv zeta.
    change ("," +:+ ?x) with (String "," x). rewrite skip_char by done.
    rewrite after_yes, HN2 by lia. done.
Qed.

Lemma reads_num d t : numeral t -> reads (fun n => value n d) t (JNum t).
Proof.
  intros [Hc Ht] rest Hrest. exists 1. intros [|n] Hn; [lia|]. cbn [value]. cbv zeta.
  destruct t as [|c t]; [done|]. change (String c t +:+ rest) with (String c (t +:+ rest)) in *.
  rewrite skip_char by (destruct Hc as [Hc| ->]; [|done]; revert Hc; clear;
    destruct c as [[] [] [] [] [] [] [] []]; by vm_compute).
  specialize (Ht rest Hrest). change (String c t +:+ rest) with (String c (t +:+ rest)) in Ht.
  assert ((c =? "{")%char = false /\ (c =? "[")%char = false /\ (c =? quote)%char = false /\
    HasPrefix (String c (t +:+ rest)) "null" = false /\ HasPrefix (String c (t +:+ rest)) "true" = false /\
    HasPrefix (String c (t +:+ rest)) "false" = false) as (H1 & H2 & H3 & H4 & H5 & H6).
  { destruct Hc as [Hc| ->]; [|done]. revert Hc. clear. generalize (t +:+ rest). intros s.
    destruct c as [[] [] [] [] [] [] [] []]; intros Hc; try discriminate Hc; done. }
  unfold after_char. rewrite H1, H2, H3. unfold scan_literal. by rewrite H4, H5, H6, Ht.
Qed.

Lemma elements_open {A} n d s x (f : string -> A) g :
  elements n d s = Some x -> after_char "]" (skip_space s) f g = g.
Proof.
  intros He. unfold after_char. destruct (skip_space s) as [|c s1] eqn:Es; [done|].
  destruct (Ascii.eqb_spec c "]") as [->|]; [exfalso|done].
  destruct n as [|[|n]]; [done..|]. cbn [elements value] in He. cbv zeta in He. by rewrite Es in He.
Qed.

Lemma members_open {A} n d s x (f : string -> A) g :
  members n d s = Some x -> after_char "}" (skip_space s) f g = g.
Proof.
  intros He. unfold after_char. destruct (skip_space s) as [|c s1] eqn:Es; [done|].
  destruct (Ascii.eqb_spec c "}") as [->|]; [exfalso|done].
  destruct n as [|n]; [done|]. cbn [members] in He. by rewrite Es in He.
Qed.

Lemma reads_tree j : forall d, writable d j -> reads (fun n => value n d) (print j) j.
Proof.
  induction j as [|b|t|raw|l IH|l IH] using json_tree_ind; intros d Hw; inversion Hw; subst.
  - intros rest Hr. exists 1. intros [|n] Hn; [lia|]. by destruct rest.
  - intros rest Hr. exists 1. intros [|n] Hn; [lia|]. by destruct b, rest.
  - by apply reads_num.
  - intros rest _. exists 1. intros [|n] Hn; [lia|]. cbn [print value]. cbv zeta.
    change (String quote (raw +:+ ?x) +:+ ?y) with (String quote ((raw +:+ x) +:+ y)).
    rewrite string_app_assoc, skip_char by done. unfold after_char.
    change ((quote =? "{")%char) with false. change ((quote =? "[")%char) with false.
    change ((quote =? quote)%char) with true. cbv iota.
    change (String quote "" +:+ rest) with (String quote rest).
    match goal with Hs : scanned raw |- _ => by rewrite Hs end.
  - intros rest Hr. destruct l as [|j l].
    { exists 1. intros [|n] Hn; [lia|]. cbn [print map String.concat value].
      change (("[" +:+ "" +:+ "]") +:+ rest) with (String "[" (String "]" rest)). cbv zeta.
      rewrite skip_char by done. cbn [after_char]. change (("[" =? "{")%char) with false.
      change (("[" =? "[")%char) with true. cbv iota. rewrite (proj2 (Nat.leb_gt _ _)) by done. done. }
    assert (reads (fun n => elements n (S d)) (String.concat "," (map print (j :: l)) +:+ "]") (j :: l)) as Hel.
    { apply reads_elements; [done|]. rewrite Forall_forall in *. intros x Hx. apply (IH x Hx). auto. }
    destruct (Hel rest Hr) as [N HN]. exists (S N). intros [|n] Hn; [lia|].
    change (print (JArr (j :: l)) +:+ rest) with (String "[" ((String.concat "," (map print (j :: l)) +:+ "]") +:+ rest)).
    cbn [value]. cbv zeta. rewrite skip_char by done. rewrite after_no, after_yes by done. rewrite (proj2 (Nat.leb_gt _ _)) by done.
    specialize (HN n ltac:(lia)). by rewrite (elements_open _ _ _ _ _ _ HN), HN.
  - intros rest Hr. destruct l as [|j l].
    { exists 1. intros [|n] Hn; [lia|]. cbn [print map String.concat value].
      change (("{" +:+ "" +:+ "}") +:+ rest) with (String "{" (String "}" rest)). cbv zeta.
      rewrite skip_char by done. cbn [after_char]. change (("{" =? "{")%char) with true.
      cbv iota. rewrite (proj2 (Nat.leb_gt _ _)) by done. done. }
    assert (reads (fun n => members n (S d)) (String.concat "," (map print_member (j :: l)) +:+ "}") (j :: l)) as Hel.
    { apply reads_members; [done|]. rewrite Forall_forall in *. intros x Hx.
      match goal with Ha : forall x, _ -> scanned _ /\ _ |- _ => destruct (Ha x Hx) as [Hk Hv] end.
      split; [done|]. by apply (IH x Hx). }
    destruct (Hel rest Hr) as [N HN]. exists (S N). intros [|n] Hn; [lia|].
    change (print (JObj (j :: l)) +:+ rest) with (String "{" ((String.concat "," (map print_member (j :: l)) +:+ "}") +:+ rest)).
    cbn [value]. cbv zeta. rewrite skip_char by done. rewrite after_yes, (proj2 (Nat.leb_gt _ _)) by done.
    specialize (HN n ltac:(lia)). by rewrite (members_open _ _ _ _ _ _ HN), HN.
Qed.

(** Every tree within the nesting limit survives printing and parsing. *)
Lemma parse_print j : writable 0 j -> parse (print j) = Some (j, "").
Proof.
  intros Hw. destruct (reads_tree j 0 Hw "" eq_refl) as [N HN]. rewrite string_app_nil in HN.
  rewrite <-(parse_enough (Nat.max N (parse_fuel (print j)))) by lia. apply HN. lia.
Qed.
