(* ===== verification/JsonDecode.v ===== *)
(** * Decoding JSON into Go values: encoding/json by reflection

    A [setter] says what decoding a value into a place of some type leaves
    there, given what the place held.  Structs go member by member. *)
From Stdlib Require Import ZArith Lia Ascii.
From stdpp Require Import base gmap strings list.
From S2P Require Import Prelude GoStrings Errors State Times AuditStore Pagination Json.
Open Scope packyard_scope.

(** ** Decoding by type *)
(** What decoding a value into a place that holds one leaves there; [None]
    is a type error. *)
Definition setter (A : Type) := json -> A -> option A.

Definition set_string : setter string := fun j old =>
  match j with JNull => Some old | JStr raw => Some (unquote raw) | _ => None end.

(** A pointer: null makes it nil. *)
Definition set_pointer {A} (zero : A) (set : setter A) : setter (option A) := fun j old =>
  match j with
  | JNull => Some None
  | _ => Some <$> set j (default zero old)
  end.

(** A slice of strings: nil, or a length and the array behind it.  An element
    that is null keeps what the array holds at its place. *)
Definition slice := option (nat * list string).

Fixpoint set_elements (old : list string) (l : list json) : option (list string) :=
  match l with
  | [] => Some old
  | j :: l =>
      match set_string j (default "" (head old)) with
      | None => None
      | Some v => cons v <$> set_elements (tail old) l
      end
  end.

Definition set_slice : setter slice := fun j old =>
  match j with
  | JNull => Some None
  | JArr [] => Some (Some (0, []))
  | JArr l => (fun b => Some (length l, b)) <$> set_elements (default [] (snd <$> old)) l
  | _ => None
  end.

Definition visible (s : slice) : strings_t := (fun nb => take nb.1 nb.2) <$> s.

(** A number with a fraction or an exponent, or beyond the width, is no
    int64. *)
Definition set_int64 : setter Z := fun j old =>
  match j with
  | JNull => Some old
  | JNum t => Atoi t
  | _ => None
  end.

Definition set_bool : setter bool := fun j old =>
  match j with JNull => Some old | JBool b => Some b | _ => None end.

(** [time.Time] decodes itself from the source between the quotes. *)
Definition set_time : setter Z := fun j old =>
  match j with JNull => Some old | JStr raw => time_Parse raw | _ => None end.

Section Struct.
Context `{UnicodeTables} {A : Type} (fields : list (string * setter A)).

Definition fold_name (s : string) : list Z := map unicode_fold (runes s).

(** The field of a key: by its exact name, else by its name regardless of case. *)
Definition field_of (key : string) : option (setter A) :=
  match find (fun f => f.1 =s key) fields with
  | Some f => Some f.2
  | None => snd <$> find (fun f => bool_decide (fold_name f.1 = fold_name key)) fields
  end.

Fixpoint set_members (l : list (string * json)) (a : A) : option A :=
  match l with
  | [] => Some a
  | (raw, j) :: l =>
      match field_of (unquote raw) with
      | None => set_members l a
      | Some set => match set j a with None => None | Some a => set_members l a end
      end
  end.

(** Decoding into a zero struct; null leaves it as it is. *)
Definition decode_struct (zero : A) (j : json) : option A :=
  match j with JNull => Some zero | JObj l => set_members l zero | _ => None end.
End Struct.

(** A setter of a component of [A]. *)
Definition via {A B} (get : A -> B) (put : B -> A -> A) (set : setter B) : setter A :=
  fun j a => (fun b => put b a) <$> set j (get a).
