(* ===== verification/Responses.v ===== *)
(** * Response bodies: the JSON the handlers encode

    [json.NewEncoder(w).Encode(v)] on the structs of package store and of the
    handlers, by their field tags.  The text of a time depends on the zone its
    value carries, which [time_json] stands for; the encoder refuses a time
    with no four-digit year, and then nothing is written. *)
From Stdlib Require Import ZArith Lia Ascii.
From stdpp Require Import base gmap strings list.
From S2P Require Import Prelude GoStrings Errors State Times TimesSpec AuditStore Json Http.
From S2P Require Import Pagination Durations.
Open Scope packyard_scope.

Definition member := (string * json)%type.

Definition string_member (name s : string) : member := (name, marshal_string s).
Definition number_member (name : string) (n : Z) : member := (name, JNum (itoa n)).
Definition list_json (l : list string) : json := JArr (map marshal_string l).
(** A nil slice is null. *)
Definition slice_json (l : strings_t) : json := match l with Some l => list_json l | None => JNull end.
(** The tag [omitempty] on a string. *)
Definition omit_empty (name s : string) : list member := if s =s "" then [] else [string_member name s].

Definition dval_json (v : dval) : json :=
  match v with DStr s => marshal_string s | DInt n => JNum (itoa n) | DBool b => JBool b end.
Definition details_json (d : details) : json := JObj (map (fun kv => (kv.1, dval_json kv.2))
  (map (fun kv => (json_chars (String.length kv.1) kv.1, kv.2)) (sort_details d))).

Section Encode.
Context (time_json : Z -> option string).

Definition time_member (name : string) (t : Z) : option member := (fun s => (name, JStr s)) <$> time_json t.
(** A pointer: nil is null, or left out under [omitempty]. *)
Definition pointer_member (name : string) (t : option Z) : option member :=
  match t with None => Some (name, JNull) | Some t => time_member name t end.
Definition omitted_member (name : string) (t : option Z) : option (list member) :=
  match t with None => Some [] | Some t => (fun m => [m]) <$> time_member name t end.

Definition key_members (k : Key) : option (list member) :=
  created ← time_member "created_at" (Key_CreatedAt k);
  expires ← pointer_member "expires_at" (Key_ExpiresAt k);
  Some [string_member "id" (Key_ID k); string_member "component" (Key_Component k);
        ("active", JBool (Key_Active k)); string_member "label" (Key_Label k); created; expires;
        number_member "usage_count" (Key_UsageCount k); string_member "account_id" (Key_AccountID k)].

(** [keyResponse]: the embedded key, and the visibility. *)
Definition key_json (kv : Key * string) : option json :=
  ms ← key_members kv.1; Some (JObj (ms ++ [string_member "component_visibility" kv.2])).

Definition account_json (a : Account) : option json :=
  created ← time_member "created_at" (Acc_CreatedAt a);
  Some (JObj [string_member "id" (Acc_ID a); string_member "email" (Acc_Email a);
              string_member "org_name" (Acc_OrgName a); string_member "status" (Acc_Status a); created;
              string_member "created_by_operator_id" (Acc_CreatedByOperatorID a)]).

Definition operator_json (o : Operator) : option json :=
  listed ← time_member "allowlisted_at" (Op_AllowlistedAt o);
  login ← omitted_member "last_login_at" (Op_LastLoginAt o);
  Some (JObj ([string_member "id" (Op_ID o); string_member "email" (Op_Email o);
               string_member "role" (Op_Role o); string_member "status" (Op_Status o); listed;
               string_member "allowlisted_by" (Op_AllowlistedBy o)] ++ login ++
              omit_empty "github_username" (Op_GithubUsername o) ++
              omit_empty "microsoft_upn" (Op_MicrosoftUPN o) ++
              omit_empty "first_seen_provider" (Op_FirstSeenProvider o))).

Definition component_members (c : Component) : option (list member) :=
  created ← time_member "created_at" (Comp_CreatedAt c);
  Some [string_member "name" (Name c); string_member "visibility" (Visibility c);
        ("rpm_series", slice_json (RPMSeries c)); ("rpm_os_families", slice_json (RPMOSFamilies c));
        ("rpm_architectures", slice_json (RPMArchitectures c)); created].

Definition component_json (c : Component) : option json := JObj <$> component_members c.

Definition entry_json (e : Entry) : option json :=
  ts ← time_member "ts" (E_Ts e);
  Some (JObj ([number_member "id" (E_ID e); ts] ++ omit_empty "operator_id" (E_OperatorID e) ++
              [string_member "action" (E_Action e)] ++ omit_empty "target_type" (E_TargetType e) ++
              omit_empty "target_id" (E_TargetID e) ++
              (if decide (E_Details e = []) then [] else [("details", details_json (E_Details e))]) ++
              omit_empty "ip" (E_IP e) ++ omit_empty "user_agent" (E_UserAgent e))).

Definition error_json (code message : string) : list member :=
  [string_member "code" code; string_member "message" message].

(** [deleteImpact] of components.go; accounts.go has no series. *)
Definition impact_json (code message : string) (n : Z) (series : option strings_t) : json :=
  JObj (error_json code message ++ [("impact", JObj (number_member "keys_revoked" n ::
    match series with Some l => [("rpm_series_removed", slice_json l)] | None => [] end))]).
Definition deleted_json (n : Z) : json := JObj [number_member "keys_revoked" n].

(** [updateComponentResponse]: the embedded component, and the targets. *)
Definition component_update_json (c : Component) (removed : list string) : option json :=
  ms ← component_members c; Some (JObj (ms ++ [("rpm_targets_removed", list_json removed)])).

(** What a response carries as JSON; [None] when there is none. *)
Definition body_json (b : Body) : option json :=
  match b with
  | BError code message => Some (JObj (error_json code message))
  | BKey k v => key_json (k, v)
  | BKeys l => JArr <$> mapM key_json l
  | BAccount a => account_json a
  | BAccounts l => JArr <$> mapM account_json l
  | BOperator o => operator_json o
  | BOperators l => JArr <$> mapM operator_json l
  | BComponent c => component_json c
  | BComponents l => JArr <$> mapM component_json l
  | BComponentUpdate c removed => component_update_json c removed
  | BDeleteImpact code message n series => Some (impact_json code message n series)
  | BDeleted n => Some (deleted_json n)
  | BAudit l => JArr <$> mapM entry_json l
  | BEmpty | BRedirect _ | BText _ => None
  end.

Definition body_text (b : Body) : string :=
  match body_json b with Some j => print j +:+ String (of_byte 10) "" | None => "" end.
End Encode.

(** Times read from the database are in UTC. *)
Definition utc_json (t : Z) : option string :=
  if in_years (t / Second) then Some (format_RFC3339Nano t) else None.
