(* ===== verification/BodyTypes.v ===== *)
(** * The types of the response bodies

    What admin-ui/src/api declares of each answer, as types of JSON trees, and
    the encoders' outputs in them. *)
From Stdlib Require Import ZArith Lia Ascii.
From stdpp Require Import base gmap strings list.
From S2P Require Import Prelude GoStrings Errors State Times TimesSpec AuditStore Json JsonSpec Http.
From S2P Require Import Tables Pagination Durations Responses.
Open Scope packyard_scope.

#[local] Set Warnings "-register-all".
Inductive ty :=
| TString
| TOneOf (values : list string)
| TTime
| TNumber
| TBool
| TObject
| TNullable (t : ty)
| TArray (t : ty)
| TRecord (fields : list (string * bool * ty)).

(** A name that occurs twice has its last value. *)
Definition get (name : string) (ms : list member) : option json :=
  snd <$> List.find (fun m => m.1 =s name) (rev ms).

(** RFC 3339, with no character that needs an escape. *)
Definition time_text (s : string) : bool :=
  string_forallb plain s && bool_decide (is_Some (time_Parse s)).

(** A field is required or optional. *)
Fixpoint has_type (t : ty) (j : json) : bool :=
  match t, j with
  | TString, JStr _ | TNumber, JNum _ | TBool, JBool _ | TObject, JObj _ => true
  | TOneOf vs, JStr raw => one_of vs (unquote raw)
  | TTime, JStr raw => time_text raw
  | TNullable _, JNull => true
  | TNullable t, j => has_type t j
  | TArray t, JArr l => forallb (has_type t) l
  | TRecord fs, JObj ms =>
      forallb (fun f => match get f.1.1 ms with
                        | Some j => has_type f.2 j
                        | None => negb f.1.2
                        end) fs
  | _, _ => false
  end.

Definition required (name : string) (t : ty) : string * bool * ty := (name, true, t).
Definition optional (name : string) (t : ty) : string * bool * ty := (name, false, t).

(** ** accounts.ts, components.ts, componentDelete.ts, operators.ts, audit.ts, session.ts, client.ts *)
Definition account_interface : list (string * bool * ty) := [
  required "id" TString; required "email" TString; required "org_name" TString;
  required "status" (TOneOf ["active"; "suspended"; "deleted"]); required "created_at" TTime;
  required "created_by_operator_id" TString].
Definition key_interface : list (string * bool * ty) := [
  required "id" TString; required "component" TString; required "active" TBool;
  required "label" TString; required "created_at" TTime; required "expires_at" (TNullable TTime);
  required "usage_count" TNumber; required "account_id" TString].
Definition component_interface : list (string * bool * ty) := [
  required "name" TString; required "visibility" (TOneOf ["public"; "private"]);
  required "rpm_series" (TArray TString); required "rpm_os_families" (TArray TString);
  required "rpm_architectures" (TArray TString); required "created_at" TTime].
Definition operator_interface : list (string * bool * ty) := [
  required "id" TString; required "email" TString; required "role" (TOneOf ["admin"; "readonly"]);
  required "status" (TOneOf ["active"; "disabled"]); required "allowlisted_at" TTime;
  required "allowlisted_by" TString; optional "last_login_at" TTime;
  optional "github_username" TString; optional "microsoft_upn" TString;
  optional "first_seen_provider" TString].
Definition entry_interface : list (string * bool * ty) := [
  required "id" TNumber; required "ts" TTime; optional "operator_id" TString;
  required "action" TString; optional "target_type" TString; optional "target_id" TString;
  optional "details" TObject; optional "ip" TString; optional "user_agent" TString].

Definition TAccount := TRecord account_interface.
(** Every key is answered as an [IssuedKey], which is a [Key] with one more field. *)
Definition TIssuedKey :=
  TRecord (key_interface ++ [optional "component_visibility" (TOneOf ["public"; "private"])]).
Definition TComponent := TRecord component_interface.
Definition TComponentUpdate :=
  TRecord (component_interface ++ [required "rpm_targets_removed" (TArray TString)]).
Definition TOperator := TRecord operator_interface.
Definition TAuditEntry := TRecord entry_interface.
Definition TRevoked := TRecord [required "keys_revoked" TNumber].
(** No body at all. *)
Definition TNothing := TOneOf [].
Definition error_interface : list (string * bool * ty) := [
  required "code" TString; required "message" TString].
Definition TError := TRecord error_interface.
(** The error that asks for a confirmation, with the [DeleteImpact] of
    componentDelete.ts; that of an account has the number alone. *)
Definition TDeleteImpact (fields : list (string * bool * ty)) :=
  TRecord (error_interface ++ [required "impact" (TRecord (required "keys_revoked" TNumber :: fields))]).
Definition TComponentImpact := TDeleteImpact [required "rpm_series_removed" (TArray TString)].
Definition TAccountImpact := TDeleteImpact [].
Definition impact_type (series : option strings_t) : ty :=
  match series with Some _ => TComponentImpact | None => TAccountImpact end.

(** ** Values of these types *)
Definition account_good (a : Account) : bool :=
  one_of ["active"; "suspended"; "deleted"] (Acc_Status a).
Definition operator_good (o : Operator) : bool :=
  one_of ["admin"; "readonly"] (Op_Role o) && one_of ["active"; "disabled"] (Op_Status o).
Definition component_good (c : Component) : bool :=
  one_of ["public"; "private"] (Visibility c) && bool_decide (is_Some (RPMSeries c)) &&
  bool_decide (is_Some (RPMOSFamilies c)) && bool_decide (is_Some (RPMArchitectures c)).

Definition visibility_good (v : string) : bool := one_of ["public"; "private"] v.

Definition body_good (b : Body) : Prop :=
  match b with
  | BKey _ v => visibility_good v = true
  | BKeys l => Forall (fun kv => visibility_good kv.2 = true) l
  | BDeleteImpact _ _ _ series => forall l, series = Some l -> is_Some l
  | BAccount a => account_good a = true
  | BAccounts l => Forall (fun a => account_good a = true) l
  | BOperator o => operator_good o = true
  | BOperators l => Forall (fun o => operator_good o = true) l
  | BComponent c | BComponentUpdate c _ => component_good c = true
  | BComponents l => Forall (fun c => component_good c = true) l
  | _ => True
  end.

(** Bodies of the type, by constructor. *)
Definition body_type (b : Body) : option ty :=
  match b with
  | BError _ _ => Some TError
  | BDeleteImpact _ _ _ series => Some (impact_type series)
  | BKey _ _ => Some TIssuedKey
  | BKeys _ => Some (TArray TIssuedKey)
  | BAccount _ => Some TAccount
  | BAccounts _ => Some (TArray TAccount)
  | BOperator _ => Some TOperator
  | BOperators _ => Some (TArray TOperator)
  | BComponent _ => Some TComponent
  | BComponents _ => Some (TArray TComponent)
  | BComponentUpdate _ _ => Some TComponentUpdate
  | BDeleted _ => Some TRevoked
  | BAudit _ => Some (TArray TAuditEntry)
  | BEmpty | BRedirect _ | BText _ => None
  end.

(** The times a body shows. *)
Definition key_times (k : Key) : list Z := Key_CreatedAt k :: option_list (Key_ExpiresAt k).
Definition operator_times (o : Operator) : list Z := Op_AllowlistedAt o :: option_list (Op_LastLoginAt o).
Definition body_times (b : Body) : list Z :=
  match b with
  | BKey k _ => key_times k
  | BKeys l => flat_map (fun kv => key_times kv.1) l
  | BAccount a => [Acc_CreatedAt a]
  | BAccounts l => map Acc_CreatedAt l
  | BOperator o => operator_times o
  | BOperators l => flat_map operator_times l
  | BComponent c | BComponentUpdate c _ => [Comp_CreatedAt c]
  | BComponents l => map Comp_CreatedAt l
  | BAudit l => map E_Ts l
  | _ => []
  end.

(** ** The encoders' outputs *)
Lemma one_of_elem vs s : one_of vs s = true -> s ∈ vs.
Proof.
  unfold one_of. intros (v & Hv & He)%existsb_exists. apply String.eqb_eq in He as <-.
  by apply list_elem_of_In.
Qed.

Lemma marshal_one_of vs s :
  forallb (string_forallb is_ascii_char) vs = true -> one_of vs s = true ->
  has_type (TOneOf vs) (marshal_string s) = true.
Proof.
  intros Hvs Hs. cbn [has_type marshal_string].
  assert (string_forallb is_ascii_char s = true) as Ha.
  { rewrite forallb_forall in Hvs. by apply Hvs, list_elem_of_In, one_of_elem. }
  unfold marshal_string. cbn [has_type]. by rewrite unquote_marshal, to_valid_ascii.
Qed.

Lemma list_json_type l : has_type (TArray TString) (list_json l) = true.
Proof. unfold list_json. cbn [has_type]. induction l as [|s l IH]; [done|]. exact IH. Qed.

Section Types.
Context (time_json : Z -> option string).

(** The encoder of a time, where it does not refuse, writes RFC 3339. *)
Context (time_json_text : forall t s, time_json t = Some s -> time_text s = true).

Ltac fields :=
  cbn [account_interface key_interface component_interface operator_interface entry_interface app forallb
       required optional fst snd get rev List.find String.eqb Ascii.eqb Bool.eqb fmap option_fmap
       option_map string_member number_member negb].

(** Opens the times an encoder writes. *)
Ltac times H :=
  repeat (unfold time_member, pointer_member, omitted_member in H;
    match type of H with
    | context [time_json ?t] =>
        let E := fresh "E" in destruct (time_json t) eqn:E; [apply time_json_text in E|discriminate H]
    | context [match ?o with Some _ => _ | None => _ end] => destruct o
    end; cbn in H);
  injection H as <-.

(** Each declared field has its type. *)
Ltac typed :=
  cbn [has_type]; fields; rewrite ?andb_true_r;
  repeat match goal with
  | |- _ && _ = true => apply andb_true_intro; split
  | |- _ => first [reflexivity | assumption | apply list_json_type
                  | apply marshal_one_of; [reflexivity|assumption]]
  end.

Lemma account_typed a j :
  account_good a = true -> account_json time_json a = Some j -> has_type TAccount j = true.
Proof. intros Hg Hj. unfold account_json in Hj. times Hj. unfold TAccount. typed. Qed.

Lemma key_typed kv j :
  visibility_good kv.2 = true -> key_json time_json kv = Some j -> has_type TIssuedKey j = true.
Proof.
  intros Hg Hj. unfold key_json, key_members in Hj. times Hj; unfold TIssuedKey; typed.
Qed.

Lemma impact_typed code message n series :
  (forall l, series = Some l -> is_Some l) ->
  has_type (impact_type series) (impact_json code message n series) = true.
Proof.
  intros Hs. destruct series as [l|]; [|reflexivity]. destruct (Hs l eq_refl) as [l' ->].
  unfold impact_type, TComponentImpact, TDeleteImpact, impact_json, error_json, error_interface.
  cbn [slice_json]. do 2 typed.
Qed.

Lemma operator_typed o j :
  operator_good o = true -> operator_json time_json o = Some j -> has_type TOperator j = true.
Proof.
  unfold operator_good. intros [Hr Hs]%andb_true_iff Hj. unfold operator_json in Hj.
  times Hj; unfold omit_empty; repeat case_match; unfold TOperator; typed.
Qed.

Lemma component_typed c ms :
  component_good c = true -> component_members time_json c = Some ms ->
  has_type TComponent (JObj ms) = true /\
  forall removed,
    has_type TComponentUpdate (JObj (ms ++ [("rpm_targets_removed", list_json removed)])) = true.
Proof.
  unfold component_good. intros [[[Hv Hs]%andb_true_iff Hf]%andb_true_iff Ha]%andb_true_iff Hj.
  apply bool_decide_eq_true in Hs as [s1 Hs], Hf as [s2 Hf], Ha as [s3 Ha].
  unfold component_members in Hj. rewrite Hs, Hf, Ha in Hj. times Hj. cbn [slice_json].
  unfold TComponent, TComponentUpdate. split; [|intros removed]; typed.
Qed.

Lemma entry_typed e j : entry_json time_json e = Some j -> has_type TAuditEntry j = true.
Proof.
  intros Hj. unfold entry_json in Hj. times Hj. unfold omit_empty, TAuditEntry. repeat case_match; typed.
Qed.
(** A list of good values. *)
Lemma list_typed {A} (enc : A -> option json) (good : A -> Prop) t l js :
  (forall a j, good a -> enc a = Some j -> has_type t j = true) ->
  Forall good l -> mapM enc l = Some js -> has_type (TArray t) (JArr js) = true.
Proof.
  intros Henc Hl Hm%mapM_Some. cbn [has_type]. induction Hm as [|a j l js Ha Hm IH]; [done|].
  apply Forall_cons in Hl as [Hg Hl]. cbn [forallb]. by rewrite (Henc _ _ Hg Ha), IH.
Qed.

(** A good body has the type of its constructor. *)
Lemma body_typed b j :
  body_good b -> body_json time_json b = Some j ->
  exists t, body_type b = Some t /\ has_type t j = true.
Proof.
  destruct b; cbn [body_good body_json body_type]; intros Hg Hj; try discriminate Hj;
    try (destruct (mapM _ _) as [js|] eqn:Hm; [cbn in Hj; injection Hj as <-|discriminate Hj]);
    eexists; (split; [reflexivity|]).
  - injection Hj as <-. reflexivity.
  - by apply (key_typed (k, visibility)).
  - eapply list_typed; [|exact Hg|exact Hm]. intros kv. apply key_typed.
  - by eapply account_typed.
  - eapply list_typed; [|exact Hg|exact Hm]. apply account_typed.
  - by eapply operator_typed.
  - eapply list_typed; [|exact Hg|exact Hm]. apply operator_typed.
  - unfold component_json in Hj. destruct (component_members _ _) eqn:Hc; [|discriminate Hj].
    injection Hj as <-. apply (component_typed _ _ Hg Hc).
  - eapply list_typed; [|exact Hg|exact Hm]. intros c j Hc Hj. unfold component_json in Hj.
    destruct (component_members _ _) eqn:Hms; [|discriminate Hj]. injection Hj as <-.
    apply (component_typed _ _ Hc Hms).
  - unfold component_update_json in Hj. destruct (component_members _ _) eqn:Hc; [|discriminate Hj].
    injection Hj as <-. apply (component_typed _ _ Hg Hc).
  - injection Hj as <-. apply impact_typed, Hg.
  - injection Hj as <-. reflexivity.
  - eapply (list_typed _ (fun _ => True)); [|by apply Forall_true|exact Hm].
    intros e j _ He. by eapply entry_typed.
Qed.

(** A body that is not written has a time the encoder refuses. *)
Definition refused_time (ts : list Z) : Prop := exists t, t ∈ ts /\ time_json t = None.

Ltac refused :=
  let H := fresh "H" in intros H;
  unfold key_json, key_members, account_json, operator_json, component_json, component_members,
    entry_json in H;
  repeat (unfold time_member, pointer_member, omitted_member in H;
    match type of H with
    | context [time_json ?t] => let E := fresh "E" in destruct (time_json t) eqn:E
    | context [match ?o with Some _ => _ | None => _ end] => destruct o eqn:?
    end; cbn in H; try discriminate H);
  match goal with E : time_json ?t = None |- _ => exists t; split; [|exact E] end;
  unfold key_times, operator_times;
  repeat match goal with E : _ = Some _ |- _ => rewrite E end; cbn; set_solver.

Lemma key_refused kv : key_json time_json kv = None -> refused_time (key_times kv.1).
Proof. refused. Qed.
Lemma account_refused a : account_json time_json a = None -> refused_time [Acc_CreatedAt a].
Proof. refused. Qed.
Lemma operator_refused o : operator_json time_json o = None -> refused_time (operator_times o).
Proof. refused. Qed.
Lemma component_refused c : component_members time_json c = None -> refused_time [Comp_CreatedAt c].
Proof. refused. Qed.
Lemma entry_refused e : entry_json time_json e = None -> refused_time [E_Ts e].
Proof. refused. Qed.

Lemma list_refused {A} (enc : A -> option json) (times : A -> list Z) l :
  (forall a, enc a = None -> refused_time (times a)) ->
  mapM enc l = None -> refused_time (flat_map times l).
Proof.
  intros Henc (a & Ha & He)%mapM_None%Exists_exists. destruct (Henc a He) as (t & Ht & Hn).
  exists t. split; [|done]. apply list_elem_of_In, in_flat_map. exists a. by rewrite <- !list_elem_of_In.
Qed.

Lemma flat_map_one {A} (f : A -> Z) l : flat_map (fun a => [f a]) l = map f l.
Proof. induction l as [|a l IH]; [done|]. cbn. by rewrite IH. Qed.

(** A body with a type is written, unless it has such a time. *)
Lemma body_written b :
  is_Some (body_type b) -> body_json time_json b = None -> refused_time (body_times b).
Proof.
  intros [t Ht] Hj. destruct b; try discriminate Ht; try discriminate Hj; cbn [body_json body_times] in *;
    rewrite <- ?flat_map_one;
    try (apply fmap_None in Hj; revert Hj; apply list_refused; intros ?);
    auto using key_refused, account_refused, operator_refused, entry_refused.
  - exact (key_refused (k, visibility) Hj).
  - apply component_refused. by apply fmap_None in Hj.
  - intros Hc%fmap_None. by apply component_refused.
  - unfold component_update_json in Hj. destruct (component_members _ _) eqn:Hc; [discriminate Hj|]. by apply component_refused.
Qed.
End Types.

(** The times read from the database. *)
Lemma utc_json_text t s : utc_json t = Some s -> time_text s = true.
Proof.
  unfold utc_json. destruct (in_years _) eqn:Hin; [|done]. intros [= <-]. unfold time_text.
  rewrite format_plain by done. rewrite (proj1 (time_text_back t)), Hin. by apply bool_decide_eq_true_2.
Qed.
