(* ===== verification/KeysHandler.v ===== *)
(** * Subscription keys over HTTP: handler/keys.go

    A handler's request body arrives decoded: [None] when it is not valid JSON
    or exceeds the size limit. *)
From Stdlib Require Import ZArith Lia.
From stdpp Require Import base gmap strings list relations.
From S2P Require Import Prelude GoStrings Errors State Tables Effects AccountStore.
From S2P Require Import ComponentStore AuditStore StoreInvariant StoreMethods Http RequestMeta.
From S2P Require Import Pagination.
Open Scope packyard_scope.
Open Scope eff_scope.

(** The handler's view of the components, built once when the service starts. *)
Record KeysHandler := mkKeysHandler {
  ValidComponents : gset string;
  ValidComponentList : string;
  ComponentVisibility : gmap string string }.

(** main.go: the handler's maps, from [LoadComponentSets]. *)
Definition startup_visibility (valid public : gset string) : gmap string string :=
  set_to_map (fun n => (n, if bool_decide (n ∈ public) then "public" else "private")) valid.

Definition startup_keys_handler (valid public : gset string) : KeysHandler :=
  mkKeysHandler valid
    (String.concat ", " (map fst (order_by_key (map (fun n => (n, tt)) (elements valid)))))
    (startup_visibility valid public).

(** [wrapKey], of keys.go and of accounts.go. *)
Definition wrapKey (visibility : gmap string string) (k : Key) : string :=
  let vis := default "" (visibility !! Key_Component k) in
  if vis =s "" then "private" else vis.

Record createKeyRequest := mkCreateKey {
  ck_AccountID : string; ck_Component : string; ck_Label : string; ck_ExpiresAt : option Z }.

Section Keys.
Context `{SqlDriver} `{UnicodeTables} (h : KeysHandler).

Definition key_not_found (id : string) : Response :=
  writeError 404 "KEY_NOT_FOUND" ("key " +:+ Quote id +:+ " not found").

Definition Keys_Get : Handler := fun r =>
  let id := r_param r "id" in
  k <- GetByID id ;;
  match k with
  | Err e => if errors_is e ErrNotFound then ret (key_not_found id)
             else ret (writeError 500 "KEY_GET_FAILED" "failed to get key")
  | Ok key => ret (reply 200 (BKey key (wrapKey (ComponentVisibility h) key)))
  end.

Definition Keys_Delete : Handler := fun r =>
  let id := r_param r "id" in
  d <- RevokeKey id ;;
  match d with
  | Ok _ =>
      WriteFromRequest r (new_entry "" "key.revoke" "key" id []) ;;;
      ret no_content
  | Err e =>
      if errors_is e ErrNotFound then
        k <- GetByID id ;;
        match k with
        | Ok _ => ret no_content
        | Err e' =>
            if errors_is e' ErrNotFound then ret (key_not_found id)
            else ret (writeError 500 "KEY_DELETE_FAILED" "failed to get key after revoke")
        end
      else ret (writeError 500 "KEY_DELETE_FAILED" "failed to revoke key")
  end.

Definition Keys_List : Handler := fun r =>
  let component := r_query r "component" in
  if (component <>s "") && negb (bool_decide (component ∈ ValidComponents h))
  then ret (writeError 400 "INVALID_COMPONENT"
              ("component " +:+ Quote component +:+ " is not valid; must be one of: " +:+
               ValidComponentList h))
  else
    let account := r_query r "account" in
    match parsePagination r with
    | inl resp => ret resp
    | inr (offset, limit) =>
        l <- ListKeys component account offset (limit + 1) ;;
        match l with
        | Err _ => ret (writeError 500 "KEY_LIST_FAILED" "failed to list keys")
        | Ok keys =>
            ret (reply_page r offset limit keys (fun ks =>
                   BKeys (map (fun k => (k, wrapKey (ComponentVisibility h) k)) ks)))
        end
    end.

Definition account_not_found (id : string) : Response :=
  writeError 404 "ACCOUNT_NOT_FOUND" ("account " +:+ Quote id +:+ " not found").

Definition account_suspended (id status : string) : Response :=
  writeError 409 "ACCOUNT_SUSPENDED"
    ("account " +:+ Quote id +:+ " is " +:+ status +:+ "; reactivate before issuing keys").

Definition invalid_component (name : string) : Response :=
  writeError 400 "INVALID_COMPONENT" ("component " +:+ Quote name +:+ " not found").

Definition invalid_json : Response :=
  writeError 400 "INVALID_REQUEST" "request body must be valid JSON".

Definition key_issue_entry (operator_id id account_id component label : string) : Entry :=
  new_entry operator_id "key.issue" "key" id
    [("account_id", DStr account_id); ("component", DStr component);
     ("label", DStr (TruncateAuditField label))].

Definition Keys_Create (body : option createKeyRequest) : Handler := fun r =>
  match body with
  | None => ret invalid_json
  | Some req =>
      if ck_AccountID req =s "" then
        ret (writeError 400 "MISSING_ACCOUNT_ID"
               "the account_id field is required when issuing a key")
      else if ck_AccountID req =s legacyAccountID then
        ret (writeError 400 "ACCOUNT_RESERVED"
               "the legacy account is reserved for migration and cannot be used to issue new keys")
      else
        a <- GetAccount (ck_AccountID req) ;;
        match a with
        | Err e =>
            if errors_is e ErrAccountNotFound then ret (account_not_found (ck_AccountID req))
            else ret (writeError 500 "KEY_CREATE_FAILED" "failed to resolve account")
        | Ok account =>
            if Acc_Status account <>s AccountStatusActive
            then ret (account_suspended (ck_AccountID req) (Acc_Status account))
            else
              c <- GetComponent (ck_Component req) ;;
              match c with
              | Err e =>
                  if errors_is e ErrComponentNotFound
                  then ret (invalid_component (ck_Component req))
                  else ret (writeError 500 "KEY_CREATE_FAILED" "failed to validate component")
              | Ok _ =>
                  k <- CreateKey (ck_AccountID req) (ck_Component req) (ck_Label req)
                         (ck_ExpiresAt req) ;;
                  match k with
                  | Err e =>
                      if errors_is e ErrAccountNotFound
                      then ret (account_not_found (ck_AccountID req))
                      else ret (writeError 500 "KEY_CREATE_FAILED" "failed to create key")
                  | Ok key =>
                      WriteFromRequest r (key_issue_entry "" (Key_ID key) (Key_AccountID key)
                        (Key_Component key) (Key_Label key)) ;;;
                      ret (reply 201 (BKey key (wrapKey (ComponentVisibility h) key)))
                  end
              end
        end
  end.
End Keys.
