(* ===== verification/AccountsHandler.v ===== *)
(** * Accounts over HTTP: handler/accounts.go *)
From Stdlib Require Import ZArith Lia.
From stdpp Require Import base gmap strings list relations.
From S2P Require Import Prelude GoStrings Errors State Tables Effects AccountStore.
From S2P Require Import ComponentStore AuditStore StoreInvariant StoreMethods Http RequestMeta.
From S2P Require Import Pagination KeysHandler.
Open Scope packyard_scope.
Open Scope eff_scope.

Record createAccountRequest := mkCreateAccount { ca_Email : string; ca_OrgName : string }.
Record updateAccountRequest := mkUpdateAccount {
  ua_Email : option string; ua_OrgName : option string; ua_Status : option string }.

Section Accounts.
Context `{SqlDriver} `{UnicodeTables} (visibility : gmap string string).

Definition invalid_email : Response :=
  writeError 400 "INVALID_REQUEST" "account email is required and must be a valid canonical address".

Definition Accounts_Create (body : option createAccountRequest) : Handler := fun r =>
  match requireAdmin r with
  | inl resp => ret resp
  | inr op =>
      match body with
      | None => ret invalid_json
      | Some req =>
          a <- CreateAccount (mkAccountInput (ca_Email req) (ca_OrgName req)) (ao_ID op) ;;
          match a with
          | Err e =>
              if errors_is e ErrAccountEmailExists then
                ret (writeError 409 "ACCOUNT_EMAIL_EXISTS"
                       ("an account with email " +:+ Quote (ca_Email req) +:+ " already exists"))
              else if errors_is e ErrAccountInvalid then ret invalid_email
              else ret (writeError 500 "ACCOUNT_CREATE_FAILED" "failed to create account")
          | Ok account =>
              WriteFromRequest r (new_entry (ao_ID op) "account.create" "account" (Acc_ID account)
                [("email", DStr (Acc_Email account));
                 ("org_name", DStr (TruncateAuditField (Acc_OrgName account)))]) ;;;
              ret (reply 201 (BAccount account))
          end
      end
  end.

Definition Accounts_List : Handler := fun r =>
  let statusFilter := r_query r "status" in
  if negb (one_of [""; AccountStatusActive; AccountStatusSuspended; AccountStatusDeleted] statusFilter)
  then ret (writeError 400 "INVALID_REQUEST"
              ("status filter " +:+ Quote statusFilter +:+
               " is not one of active, suspended, deleted"))
  else match parsePagination r with
  | inl resp => ret resp
  | inr (offset, limit) =>
      l <- ListAccounts statusFilter offset (limit + 1) ;;
      match l with
      | Err _ => ret (writeError 500 "ACCOUNT_LIST_FAILED" "failed to list accounts")
      | Ok accounts => ret (reply_page r offset limit accounts BAccounts)
      end
  end.

(** The lookup every handler on one account starts with. *)
Definition with_account (id : string) (k : Account -> Eff Response) : Eff Response :=
  a <- GetAccount id ;;
  match a with
  | Err e => if errors_is e ErrAccountNotFound then ret (account_not_found id)
             else ret (writeError 500 "ACCOUNT_GET_FAILED" "failed to get account")
  | Ok account => k account
  end.

Definition Accounts_Get : Handler := fun r =>
  with_account (r_param r "id") (fun account => ret (reply 200 (BAccount account))).

Definition invalid_transition : Response :=
  writeError 400 "INVALID_STATUS_TRANSITION"
    "the deleted status is only set via DELETE /api/v1/accounts/{id}?confirm={id}".

(** The status change of a PATCH: refused, or the target with the action of
    the audit row. *)
Definition status_change (existing : string) (status : option string) :
    Response + option string * string :=
  match status with
  | None => inr (None, "account.update")
  | Some target =>
      if (target =s AccountStatusDeleted) || (existing =s AccountStatusDeleted)
      then inl invalid_transition
      else if (target <>s AccountStatusActive) && (target <>s AccountStatusSuspended)
      then inl (writeError 400 "INVALID_STATUS_TRANSITION"
                  ("status " +:+ Quote target +:+ " is not a valid transition target"))
      else inr (Some target,
        if (existing =s AccountStatusActive) && (target =s AccountStatusSuspended)
        then "account.suspend"
        else if (existing =s AccountStatusSuspended) && (target =s AccountStatusActive)
        then "account.reactivate" else "account.update")
  end.

Definition Accounts_Update (body : option updateAccountRequest) : Handler := fun r =>
  match requireAdmin r with
  | inl resp => ret resp
  | inr op =>
      let id := r_param r "id" in
      with_account id (fun existing =>
        match body with
        | None => ret invalid_json
        | Some req =>
            match status_change (Acc_Status existing) (ua_Status req) with
            | inl resp => ret resp
            | inr (status, action) =>
                u <- UpdateAccount id (mkAccountUpdate (ua_Email req) (ua_OrgName req) status) ;;
                match u with
                | Err e =>
                    if errors_is e ErrAccountNotFound then ret (account_not_found id)
                    else if errors_is e ErrAccountEmailExists then
                      ret (writeError 409 "ACCOUNT_EMAIL_EXISTS"
                             "the requested email is already used by another account")
                    else if errors_is e ErrAccountInvalid then ret invalid_email
                    else if errors_is e ErrInvalidStatusTransition then ret invalid_transition
                    else if errors_is e ErrLegacyAccountProtected then
                      ret (writeError 403 "ACCOUNT_RESERVED"
                             "the legacy account cannot be suspended or deleted")
                    else ret (writeError 500 "ACCOUNT_UPDATE_FAILED" "failed to update account")
                | Ok updated =>
                    WriteFromRequest r (new_entry (ao_ID op) action "account" (Acc_ID updated) []) ;;;
                    ret (reply 200 (BAccount updated))
                end
            end
        end)
  end.

Definition Accounts_Delete : Handler := fun r =>
  match requireAdmin r with
  | inl resp => ret resp
  | inr op =>
      let id := r_param r "id" in
      with_account id (fun _ =>
        if r_query r "confirm" <>s id then
          n <- CountActiveAccountKeys id ;;
          match n with
          | Err _ => ret (writeError 500 "ACCOUNT_DELETE_FAILED"
                            "failed to compute delete impact preview")
          | Ok n => ret (reply 409 (BDeleteImpact "CONFIRM_REQUIRED"
                           ("repeat the request with ?confirm=" +:+ id +:+ " to proceed") n None))
          end
        else
          d <- DeleteAccountWithCascade id ;;
          match d with
          | Err e =>
              if errors_is e ErrAccountNotFound then ret (account_not_found id)
              else if errors_is e ErrLegacyAccountProtected then
                ret (writeError 403 "ACCOUNT_RESERVED" "the legacy account cannot be deleted")
              else ret (writeError 500 "ACCOUNT_DELETE_FAILED" "failed to delete account")
          | Ok revoked =>
              WriteFromRequest r (new_entry (ao_ID op) "account.delete" "account" id
                [("keys_revoked", DInt revoked)]) ;;;
              ret (reply 200 (BDeleted revoked))
          end)
  end.

Definition Accounts_ListKeys : Handler := fun r =>
  let id := r_param r "id" in
  with_account id (fun _ =>
    match parsePagination r with
    | inl resp => ret resp
    | inr (offset, limit) =>
        l <- ListAccountKeys id offset (limit + 1) ;;
        match l with
        | Err _ => ret (writeError 500 "ACCOUNT_KEYS_LIST_FAILED" "failed to list account keys")
        | Ok keys =>
            ret (reply_page r offset limit keys (fun ks =>
                   BKeys (map (fun k => (k, wrapKey visibility k)) ks)))
        end
    end).

Definition Accounts_IssueKey (body : option createKeyRequest) : Handler := fun r =>
  match requireAdmin r with
  | inl resp => ret resp
  | inr op =>
      let id := r_param r "id" in
      with_account id (fun account =>
        if Acc_Status account <>s AccountStatusActive
        then ret (account_suspended id (Acc_Status account))
        else match body with
        | None => ret invalid_json
        | Some req =>
            if (ck_AccountID req <>s "") && (ck_AccountID req <>s id) then
              ret (writeError 400 "INVALID_REQUEST"
                     "body account_id must match the URL account id (or be omitted)")
            else
              c <- GetComponent (ck_Component req) ;;
              match c with
              | Err e =>
                  if errors_is e ErrComponentNotFound
                  then ret (invalid_component (ck_Component req))
                  else ret (writeError 500 "KEY_CREATE_FAILED" "failed to validate component")
              | Ok _ =>
                  k <- CreateKeyForAccount id (ck_Component req) (ck_Label req) (ck_ExpiresAt req) ;;
                  match k with
                  | Err e =>
                      if errors_is e ErrAccountNotFound then ret (account_not_found id)
                      else ret (writeError 500 "KEY_CREATE_FAILED" "failed to create key")
                  | Ok key =>
                      WriteFromRequest r (key_issue_entry (ao_ID op) (Key_ID key) id
                        (ck_Component req) (ck_Label req)) ;;;
                      ret (reply 201 (BKey key (wrapKey visibility key)))
                  end
              end
        end)
  end.
End Accounts.
