(* ===== verification/OperatorsHandler.v ===== *)
(** * Operators and the audit log over HTTP: handler/operators.go, handler/audit.go *)
From Stdlib Require Import ZArith Lia.
From stdpp Require Import base gmap strings list relations.
From S2P Require Import Prelude GoStrings Errors State Times Tables Effects AccountStore.
From S2P Require Import SessionStore OperatorStore AuditStore StoreInvariant StoreMethods Http.
From S2P Require Import RequestMeta Pagination KeysHandler.
Open Scope packyard_scope.
Open Scope eff_scope.

Record createOperatorRequest := mkCreateOperator { co_Email : string; co_Role : string }.
Record updateOperatorRequest := mkUpdateOperator {
  uo_Role : option string; uo_Status : option string }.

Section Operators.
Context `{SqlDriver} `{UnicodeTables}.

Definition Operators_List : Handler := fun r =>
  match requireAdmin r with
  | inl resp => ret resp
  | inr _ =>
      match parsePagination r with
      | inl resp => ret resp
      | inr (offset, limit) =>
          l <- ListOperators offset (limit + 1) ;;
          match l with
          | Err _ => ret (writeError 500 "OPERATOR_LIST_FAILED" "failed to list operators")
          | Ok ops => ret (reply_page r offset limit ops BOperators)
          end
      end
  end.

Definition not_one_of (what value allowed : string) : Response :=
  writeError 400 "INVALID_REQUEST" (what +:+ " " +:+ Quote value +:+ " is not one of " +:+ allowed).

Definition valid_role (s : string) : bool := one_of [OperatorRoleAdmin; OperatorRoleReadonly] s.
Definition valid_status (s : string) : bool :=
  one_of [OperatorStatusActive; OperatorStatusDisabled] s.

Definition Operators_Create (body : option createOperatorRequest) : Handler := fun r =>
  match requireAdmin r with
  | inl resp => ret resp
  | inr op =>
      match body with
      | None => ret invalid_json
      | Some req =>
          if (co_Role req <>s "") && negb (valid_role (co_Role req))
          then ret (not_one_of "role" (co_Role req) "admin, readonly")
          else
            let role := if co_Role req =s "" then OperatorRoleAdmin else co_Role req in
            c <- AllowlistOperator (co_Email req) role (ao_ID op) ;;
            match c with
            | Err e =>
                if errors_is e ErrOperatorExists then
                  ret (writeError 409 "OPERATOR_EMAIL_EXISTS"
                         ("operator with email " +:+ Quote (co_Email req) +:+ " already exists"))
                else if errors_is e ErrOperatorInvalid then
                  ret (writeError 400 "INVALID_REQUEST"
                         "operator email is required and must be a valid canonical address")
                else ret (writeError 500 "OPERATOR_CREATE_FAILED" "failed to create operator")
            | Ok created =>
                WriteFromRequest r (new_entry (ao_ID op) "operator.add" "operator" (Op_ID created)
                  [("email", DStr (Op_Email created)); ("role", DStr (Op_Role created))]) ;;;
                ret (reply 201 (BOperator created))
            end
      end
  end.

Definition transition_entry (actor action id from to : string) : Entry :=
  new_entry actor action "operator" id [("from", DStr from); ("to", DStr to)].

Definition is_some {A} (o : option A) : bool := match o with Some _ => true | None => false end.

(** What follows a successful update: the audit rows, and the target's
    sessions removed if it lost rights. *)
Definition after_update (r : Request) (actor id : string) (newRole newStatus : option string)
    (before after : Operator) : Eff unit :=
  (if is_some newRole && (Op_Role before <>s Op_Role after) then
     WriteFromRequest r (transition_entry actor "operator.role_change" id
       (Op_Role before) (Op_Role after))
   else ret tt) ;;;
  (if is_some newStatus && (Op_Status before <>s Op_Status after) then
     WriteFromRequest r (transition_entry actor
       (if Op_Status after =s OperatorStatusActive then "operator.enable" else "operator.disable")
       id (Op_Status before) (Op_Status after))
   else ret tt) ;;;
  let demoted := (Op_Role before =s OperatorRoleAdmin) && (Op_Role after =s OperatorRoleReadonly) in
  let disabled := (Op_Status before =s OperatorStatusActive) &&
                  (Op_Status after =s OperatorStatusDisabled) in
  if demoted || disabled then DeleteOperatorSessions id ;;; ret tt else ret tt.

Definition Operators_Update (body : option updateOperatorRequest) : Handler := fun r =>
  match requireAdmin r with
  | inl resp => ret resp
  | inr actor =>
      let id := r_param r "id" in
      match body with
      | None => ret invalid_json
      | Some req =>
          let bad valid o := match o with Some v => negb (valid v) | None => false end in
          if bad valid_role (uo_Role req)
          then ret (not_one_of "role" (default "" (uo_Role req)) "admin, readonly")
          else if bad valid_status (uo_Status req)
          then ret (not_one_of "status" (default "" (uo_Status req)) "active, disabled")
          else if negb (is_some (uo_Role req)) && negb (is_some (uo_Status req))
          then ret (writeError 400 "INVALID_REQUEST" "at least one of role, status is required")
          else
            u <- UpdateOperatorAtomically id (uo_Role req) (uo_Status req) ;;
            match u with
            | Err e =>
                if errors_is e ErrOperatorNotFound then
                  ret (writeError 404 "OPERATOR_NOT_FOUND" ("operator " +:+ Quote id +:+ " not found"))
                else if errors_is e ErrOperatorSelfLockout then
                  ret (writeError 403 "OPERATOR_SELF_LOCKOUT"
                         "refusing to leave zero active admins; ask another admin to make this change")
                else ret (writeError 500 "OPERATOR_UPDATE_FAILED" "failed to update operator")
            | Ok (before, after) =>
                after_update r (ao_ID actor) id (uo_Role req) (uo_Status req) before after ;;;
                ret (reply 200 (BOperator after))
            end
      end
  end.

(** ** The audit log *)
(** [t.Truncate(time.Second)]. *)
Definition truncate_second (t : Z) : Z := (t / Second * Second)%Z.

(** An absent bound, a parsed one, or none that parses. *)
Definition time_bound (s : string) : option (option Z) :=
  if s =s "" then Some None
  else match time_Parse s with
       | Some t => Some (Some (truncate_second t))
       | None => None
       end.

Definition Audit_List : Handler := fun r =>
  match OperatorFromContext r with
  | None => ret (writeError 401 "UNAUTHORIZED" "no authenticated operator on the request")
  | Some _ =>
      match time_bound (r_query r "since") with
      | None => ret (writeError 400 "INVALID_REQUEST" "since must be RFC3339 timestamp")
      | Some since =>
          match time_bound (r_query r "until") with
          | None => ret (writeError 400 "INVALID_REQUEST" "until must be RFC3339 timestamp")
          | Some until =>
              let empty_window := match since, until with
                                  | Some s, Some u => negb (s <? u)%Z
                                  | _, _ => false
                                  end in
              if empty_window then
                ret (writeError 400 "INVALID_REQUEST"
                       "since must be < until (window must contain at least one second)")
              else match parsePagination r with
              | inl resp => ret resp
              | inr (offset, limit) =>
                  l <- ListAuditEntries (mkAuditFilter (r_query r "operator") (r_query r "action")
                         (r_query r "target_type") (r_query r "target_id") since until)
                         offset (limit + 1) ;;
                  match l with
                  | Err _ => ret (writeError 500 "AUDIT_LIST_FAILED" "failed to list audit entries")
                  | Ok entries => ret (reply_page r offset limit entries BAudit)
                  end
              end
          end
      end
  end.
End Operators.
