(* ===== verification/ComponentsHandler.v ===== *)
(** * Components over HTTP: handler/components.go

    The handler works on the caching store.  [os.MkdirAll] is a function from
    the directory to the text of its error. *)
From Stdlib Require Import ZArith Lia Ascii.
From stdpp Require Import base gmap strings list relations.
From S2P Require Import Prelude GoStrings Errors State Tables Effects AccountStore.
From S2P Require Import ComponentStore AuditStore StoreInvariant StoreMethods ComponentCache.
From S2P Require Import Http RequestMeta Pagination KeysHandler Paths.
Open Scope packyard_scope.
Open Scope eff_scope.

Record createComponentRequest := mkCreateComponent {
  cc_Name : string; cc_Visibility : string;
  cc_RPMSeries : strings_t; cc_RPMOSFamilies : strings_t; cc_RPMArchitectures : strings_t }.

(** ** Path segments *)
Definition is_letter (c : ascii) : bool :=
  ((97 <=? byte_of c) && (byte_of c <=? 122) || (65 <=? byte_of c) && (byte_of c <=? 90))%Z.
Definition alnum (c : ascii) : bool := is_letter c || is_digit c.

(** [pathSegmentRe]: [^[A-Za-z0-9][A-Za-z0-9._-]{0,63}$]. *)
Definition pathSegment (s : string) : bool :=
  match s with
  | EmptyString => false
  | String c rest =>
      alnum c && string_forallb (fun d => alnum d || Ascii.eqb d "." || Ascii.eqb d "_" || Ascii.eqb d "-") rest &&
      (String.length rest <=? 63)%nat
  end.

(** ** RPM targets *)
(** Every series x family x architecture combination, in the loops' order. *)
Definition rpm_combinations (c : Component) : list (string * string * string) :=
  flat_map (fun series =>
    flat_map (fun family =>
      map (fun arch => (series, family, arch)) (elems (RPMArchitectures c)))
      (elems (RPMOSFamilies c)))
    (elems (RPMSeries c)).

Definition target_name (t : string * string * string) : string :=
  let '(series, family, arch) := t in series +:+ "/" +:+ family +:+ "-" +:+ arch.

Definition rpmTargets (c : Component) : list string := map target_name (rpm_combinations c).

Definition removedRPMTargets (before : list string) (after : Component) : list string :=
  let keep : gset string := list_to_set (rpmTargets after) in
  List.filter (fun t => negb (bool_decide (t ∈ keep))) before.

Section Components.
Context `{SqlDriver} `{UnicodeTables} (ttl : Z) (RPMDataRoot : string).
Context (MkdirAll : string -> option string).

(** The directory of one combination, relative to the data root. *)
Definition rpm_rel (name : string) (t : string * string * string) : string :=
  let '(series, family, arch) := t in Join ["rpm"; name; series; family +:+ "-" +:+ arch].

(** The directories made before the loop ended, and how it ended. *)
Fixpoint make_dirs (name : string) (ts : list (string * string * string)) :
    list string * res unit :=
  match ts with
  | [] => ([], Ok tt)
  | t :: ts =>
      let rel := rpm_rel name t in
      if negb (IsLocal rel)
      then ([], Err (ErrText ("refusing to create RPM tree outside data root: " +:+ Quote rel)))
      else
        let dir := Join [RPMDataRoot; rel] in
        match MkdirAll dir with
        | Some m => ([], Err (Wrap ("mkdir " +:+ dir) (ErrText m)))
        | None => let '(made, r) := make_dirs name ts in (dir :: made, r)
        end
  end.

Definition initRPMTree (c : Component) : list string * res unit :=
  make_dirs (Name c) (rpm_combinations c).

(** ** Handlers *)
(** The first value of the labelled lists that is not a path segment. *)
Definition invalid_segment (fields : list (string * strings_t)) : option (string * string) :=
  List.find (fun lv => negb (pathSegment lv.2))
    (flat_map (fun f => map (fun v => (f.1, v)) (elems f.2)) fields).

Definition invalid_value (lv : string * string) : Response :=
  writeError 400 "INVALID_REQUEST" (lv.1 +:+ " contains invalid value " +:+ Quote lv.2).

Definition valid_visibility (v : string) : bool := one_of ["public"; "private"] v.

Definition invalid_visibility (v : string) : Response :=
  writeError 400 "INVALID_VISIBILITY"
    ("visibility " +:+ Quote v +:+ " is invalid; must be " +:+ Quote "public" +:+ " or "
     +:+ Quote "private").

Definition rpm_init_failed (e : goerr) : Response :=
  writeError 500 "RPM_INIT_FAILED" ("RPM directory initialisation failed: " +:+ err_text e).

Definition component_not_found (name : string) : Response :=
  writeError 404 "COMPONENT_NOT_FOUND" ("component " +:+ Quote name +:+ " not found").

Definition Components_Create (body : option createComponentRequest) : Handler := fun _ =>
  match body with
  | None => ret invalid_json
  | Some req =>
      let name := TrimSpace (cc_Name req) in
      if name =s "" then ret (writeError 400 "INVALID_REQUEST" "name is required")
      else if negb (pathSegment name) then
        ret (writeError 400 "INVALID_REQUEST"
               "name must be 1-64 characters of letters, digits, '.', '_' or '-', starting with a letter or digit")
      else match invalid_segment [("rpm_series", cc_RPMSeries req);
                   ("rpm_os_families", cc_RPMOSFamilies req);
                   ("rpm_architectures", cc_RPMArchitectures req)] with
      | Some lv => ret (invalid_value lv)
      | None =>
          if (cc_Visibility req <>s "") && negb (valid_visibility (cc_Visibility req))
          then ret (invalid_visibility (cc_Visibility req))
          else
            c <- CreateComponent (mkComponent name (cc_Visibility req) (nonNil (cc_RPMSeries req))
                   (nonNil (cc_RPMOSFamilies req)) (nonNil (cc_RPMArchitectures req)) zero_time) ;;
            match c with
            | Err e =>
                if errors_is e ErrComponentExists then
                  ret (writeError 409 "COMPONENT_EXISTS"
                         ("component " +:+ Quote name +:+ " already exists"))
                else ret (writeError 500 "COMPONENT_CREATE_FAILED" "failed to create component")
            | Ok created =>
                match (initRPMTree created).2 with
                | Err e =>
                    CachedDeleteComponent ttl (Name created) ;;;
                    ret (rpm_init_failed e)
                | Ok _ => ret (reply 201 (BComponent created))
                end
            end
      end
  end.

Definition Components_List : Handler := fun r =>
  match parsePagination r with
  | inl resp => ret resp
  | inr (offset, limit) =>
      l <- ListComponents offset (limit + 1) ;;
      match l with
      | Err _ => ret (writeError 500 "COMPONENT_LIST_FAILED" "failed to list components")
      | Ok comps => ret (reply_page r offset limit comps BComponents)
      end
  end.

Definition Components_GetOne : Handler := fun r =>
  let name := r_param r "name" in
  c <- CachedGetComponent ttl name ;;
  match c with
  | Err e => if errors_is e ErrComponentNotFound then ret (component_not_found name)
             else ret (writeError 500 "COMPONENT_GET_FAILED" "failed to get component")
  | Ok comp => ret (reply 200 (BComponent comp))
  end.

Definition Components_Delete : Handler := fun r =>
  let name := r_param r "name" in
  let failed := writeError 500 "COMPONENT_DELETE_FAILED" in
  c <- CachedGetComponent ttl name ;;
  match c with
  | Err e => if errors_is e ErrComponentNotFound then ret (component_not_found name)
             else ret (failed "failed to get component for delete")
  | Ok comp =>
      n <- CountActiveComponentKeys name ;;
      match n with
      | Err _ => ret (failed "failed to count keys")
      | Ok activeKeys =>
          if r_query r "confirm" <>s name then
            ret (reply 409 (BDeleteImpact "CONFIRM_REQUIRED"
                   ("Deleting " +:+ Quote name +:+ " will remove the component and revoke all associated keys. Pass ?confirm="
                    +:+ name +:+ " to proceed.") activeKeys (Some (RPMSeries comp))))
          else
            d <- CachedDeleteComponentWithRevoke ttl name ;;
            match d with
            | Err _ => ret (failed "failed to delete component")
            | Ok revoked => ret (reply 200 (BDeleted revoked))
            end
      end
  end.

Definition Components_Update (body : option ComponentPatch) : Handler := fun r =>
  let name := r_param r "name" in
  let failed := writeError 500 "COMPONENT_UPDATE_FAILED" "failed to update component" in
  match body with
  | None => ret invalid_json
  | Some patch =>
      let field label (o : option strings_t) := (label, default None o) in
      if IsEmpty patch then
        ret (writeError 400 "INVALID_REQUEST"
               "at least one of visibility, rpm_series, rpm_os_families, rpm_architectures is required")
      else if match p_Visibility patch with Some v => negb (valid_visibility v) | None => false end
      then ret (invalid_visibility (default "" (p_Visibility patch)))
      else match invalid_segment [field "rpm_series" (p_RPMSeries patch);
                   field "rpm_os_families" (p_RPMOSFamilies patch);
                   field "rpm_architectures" (p_RPMArchitectures patch)] with
      | Some lv => ret (invalid_value lv)
      | None =>
          c <- CachedGetComponent ttl name ;;
          match c with
          | Err e => if errors_is e ErrComponentNotFound then ret (component_not_found name)
                     else ret failed
          | Ok current =>
              let next := apply_patch patch current in
              let before := rpmTargets current in
              match (initRPMTree next).2 with
              | Err e => ret (rpm_init_failed e)
              | Ok _ =>
                  u <- CachedUpdateComponent ttl name patch ;;
                  match u with
                  | Err e => if errors_is e ErrComponentNotFound then ret (component_not_found name)
                             else ret failed
                  | Ok updated =>
                      ret (reply 200 (BComponentUpdate updated (removedRPMTargets before updated)))
                  end
              end
          end
      end
  end.
End Components.
