(* ===== verification/AdminUI.v ===== *)
(** * The admin page: adminui/adminui.go and middleware/csp.go

    The embedded files are the output of the front-end build; [index_html] is
    the content of dist/index.html and [file_server] the answer of
    [http.FileServer] over them for a path below /admin/. *)
From Stdlib Require Import ZArith Lia Ascii.
From stdpp Require Import base gmap strings list.
From S2P Require Import Prelude GoStrings Errors State Encoding Effects Http Paths.
Open Scope packyard_scope.
Open Scope eff_scope.

(** ** Nonces *)
(** [rand.Read] of [n] bytes. *)
Definition rand_bytes (n : nat) : Eff (option (list Z)) := fun w =>
  (match w_rand w 0 with
   | Some f => Some (map (fun i => f i mod 256)%Z (seq 0 n))
   | None => None
   end, tick_rand w).

(** [http.Error] *)
Definition http_Error (status : Z) (message : string) : Response :=
  mkResponse status true [] [("Content-Type", "text/plain; charset=utf-8");
                             ("X-Content-Type-Options", "nosniff")]
    (BText (message +:+ String (of_byte 10) "")).

Definition csp_policy (nonce : string) : string :=
  "default-src 'self'; " +:+
  "script-src 'self' 'nonce-" +:+ nonce +:+ "'; " +:+
  "style-src 'self' 'nonce-" +:+ nonce +:+ "'; " +:+
  "frame-ancestors 'none'; " +:+ "object-src 'none'; " +:+ "base-uri 'self'".

(** The nonce also enters the request context; no handler reads it there. *)
Definition AdminCSP (next : Handler) : Handler := fun r =>
  raw <- rand_bytes 16 ;;
  match raw with
  | None => ret (http_Error 500 "failed to generate CSP nonce")
  | Some raw =>
      resp <- next r ;;
      ret (set_headers [("Content-Security-Policy", csp_policy (base64url_encode raw))] resp)
  end.

(** ** The page and its assets *)
Section Page.
Context (index_html : option string) (file_server : string -> Response).

Definition assetURLPrefix : string := "/admin/assets/".

Definition placeholderHTML : string :=
  "<!DOCTYPE html>" +:+ String (of_byte 10)
  ("<html lang=" +:+ String (of_byte 34) ("en" +:+ String (of_byte 34)
  ("><head><meta charset=" +:+ String (of_byte 34) ("utf-8" +:+ String (of_byte 34)
  ("><title>Packyard Admin</title></head>" +:+ String (of_byte 10)
  ("<body><h1>Admin SPA not built</h1>" +:+ String (of_byte 10)
  ("<p>The React+TypeScript SPA bundle is missing. Run <code>make admin-ui</code> to build it,"
   +:+ String (of_byte 10) "then rebuild the auth binary.</p></body></html>"))))))).

Definition readIndexHTML : string :=
  match index_html with
  | Some data => if TrimSpace data =s "" then placeholderHTML else data
  | None => placeholderHTML
  end.

Definition serveIndex (index : string) : Response :=
  mkResponse 200 true [] [("Content-Type", "text/html; charset=utf-8");
                          ("Cache-Control", "no-store")] (BText index).

(** A response written through [cacheOn2xx]. *)
Definition cacheOn2xx (cache_header : string) (resp : Response) : Response :=
  if rs_explicit resp && (200 <=? rs_status resp)%Z && (rs_status resp <? 300)%Z
  then set_headers [("Cache-Control", cache_header)] resp else resp.

Definition AdminPage : Handler := fun r =>
  ret (
    if (r_method r <>s "GET") && (r_method r <>s "HEAD") then
      set_headers [("Allow", "GET, HEAD")] (http_Error 405 "method not allowed")
    else if HasPrefix (r_path r) assetURLPrefix then
      if negb (HasPrefix (Clean (r_path r)) assetURLPrefix)
      then http_Error 404 "404 page not found"
      else cacheOn2xx "public, max-age=31536000, immutable"
             (file_server (TrimPrefix (r_path r) "/admin/"))
    else serveIndex readIndexHTML).
End Page.
