(* ===== verification/AuthHandler.v ===== *)
(** * Signing in and out: handler/auth.go

    An identity provider (package auth, oauth.go) is a parameter: the URL of
    its authorize page, and the exchange of a code for an identity.  *)
From Stdlib Require Import ZArith Lia.
From stdpp Require Import base gmap strings list relations.
From S2P Require Import Prelude GoStrings Sha256 Errors State Tables Effects AccountStore.
From S2P Require Import SessionStore OperatorStore AuditStore StoreInvariant StoreMethods Http.
From S2P Require Import RequestMeta OAuthState AdminGuards.
Open Scope packyard_scope.
Open Scope eff_scope.

(** oauth.go *)
Definition ProviderGitHub : string := "github".
Definition ProviderMicrosoft : string := "microsoft".

Record Identity := mkIdentity {
  id_Email : string; id_OrgMember : bool; id_ProviderUserID : string; id_Provider : string }.

(** [Exchange] is told the instant of the call, in nanoseconds: what an
    identity provider answers to one and the same code changes with time. *)
Class OAuthProvider := {
  AuthorizeURL : string -> string -> string;
  Exchange : Z -> string -> string -> res Identity }.

Definition oauthHandleCookieName : string := "packyard_oauth_handle".

Definition handle_cookie (handle : string) (max_age : Z) : SetCookie :=
  mkCookie oauthHandleCookieName handle (Some max_age) None SameSiteLax.
Definition clearOAuthHandleCookie : SetCookie := handle_cookie "" (-1).

Definition redirectLoginError (code : string) : Response :=
  redirect ("/admin/login?error=" +:+ code).

Section Auth.
Context `{SqlDriver} `{UnicodeTables} (Providers : gmap string OAuthProvider).
Context (LoginSuccessRedirect : string).

(** ** Login *)
Definition Login : Handler := fun r =>
  let providerName := r_param r "provider" in
  let init_failed := ret (redirectLoginError "LOGIN_INIT_FAILED") in
  match Providers !! providerName with
  | None => ret (redirectLoginError "UNKNOWN_PROVIDER")
  | Some provider =>
      state <- RandomHex 32 ;;
      match state with
      | Err _ => init_failed
      | Ok state =>
          verifier <- RandomHex 32 ;;
          match verifier with
          | Err _ => init_failed
          | Ok verifier =>
              handle <- RandomHex 16 ;;
              match handle with
              | Err _ => init_failed
              | Ok handle =>
                  state_put handle (mkStateEntry state verifier providerName zero_time) ;;;
                  ret (set_cookies [handle_cookie handle (StateTTL / Second)]
                         (redirect (AuthorizeURL state (PKCECodeChallenge verifier))))
              end
          end
      end
  end.

(** ** Callback *)
Definition failCallback (r : Request) (operatorEmail providerName : string) (status : Z)
    (code message reason : string) : Eff Response :=
  WriteFromRequest r (new_entry "" "login.failure" "session" ""
    ([("reason", DStr reason); ("http_status", DInt status); ("message", DStr message)]
     ++ (if operatorEmail <>s "" then [("email", DStr operatorEmail)] else [])
     ++ (if providerName <>s "" then [("provider", DStr providerName)] else []))) ;;;
  ret (set_cookies [clearOAuthHandleCookie] (redirectLoginError code)).

(** From the operator's row on. *)
Definition start_session (r : Request) (providerName : string) (identity : Identity)
    (op : Operator) : Eff Response :=
  let email := id_Email identity in
  s <- CreateSession (Op_ID op) (handler_clientIP r) (UserAgent r) ;;
  match s with
  | Err _ => failCallback r email providerName 500 "SESSION_CREATE_FAILED"
               "failed to create session" "session_create_failed"
  | Ok sess =>
      UpdateLastLogin (Op_ID op) (Sess_CreatedAt sess) ;;;
      (if id_ProviderUserID identity =s "" then ret tt
       else UpdateLoginProvider (Op_ID op) providerName (id_ProviderUserID identity) ;;; ret tt) ;;;
      WriteFromRequest r (new_entry (Op_ID op) "login.success" "session" (Sess_ID sess)
        [("provider", DStr providerName);
         ("provider_user_id", DStr (id_ProviderUserID identity)); ("email", DStr email)]) ;;;
      let dest := if LoginSuccessRedirect =s "" then "/admin/" else LoginSuccessRedirect in
      ret (set_cookies [clearOAuthHandleCookie;
                        IssueSessionCookie (Sess_ID sess) (Sess_ExpiresAt sess)]
             (redirect dest))
  end.

Definition match_operator (r : Request) (providerName : string) (identity : Identity) : Eff Response :=
  let email := id_Email identity in
  let refuse := failCallback r email providerName in
  if email =s "" then
    failCallback r "" providerName 403 "EMAIL_NOT_VERIFIED" "provider returned an empty email"
      "empty_email"
  else
    o <- GetOperatorByEmail email ;;
    match o with
    | Err e =>
        if errors_is e ErrOperatorNotFound then
          refuse 403%Z "OPERATOR_NOT_ALLOWED"
            "the authenticated identity is not on the operator allowlist" "not_on_allowlist"
        else refuse 500%Z "OPERATOR_LOOKUP_FAILED" "failed to resolve operator" "lookup_failed"
    | Ok op =>
        if Op_Status op =s OperatorStatusActive then start_session r providerName identity op
        else if Op_Status op =s OperatorStatusDisabled then
          refuse 403%Z "OPERATOR_DISABLED" "the operator account is disabled" "operator_disabled"
        else refuse 403%Z "OPERATOR_DISABLED" "the operator account is not in an active state"
               ("operator_status_" +:+ Op_Status op)
    end.

Definition exchange_code (r : Request) (providerName : string) (provider : OAuthProvider)
    (code : string) (entry : StateEntry) : Eff Response :=
  let refuse := failCallback r "" providerName in
  t <- now ;;
  match Exchange (OAuthProvider := provider) t code (CodeVerifier entry) with
  | Err e =>
      if errors_is e ErrUnverifiedEmail || errors_is e ErrNoEmail then
        refuse 403%Z "EMAIL_NOT_VERIFIED" "provider did not return a verified primary email"
          "unverified_email"
      else if errors_is e ErrNotOrgMember then
        refuse 403%Z "ORG_MEMBERSHIP_REQUIRED" "not a member of the allowed organisation/tenant"
          "not_org_member"
      else refuse 401%Z "OAUTH_EXCHANGE_FAILED" "failed to exchange authorisation code"
             "exchange_failed"
  | Ok identity => match_operator r providerName identity
  end.

(** The handle the browser brings back; an empty value counts as none. *)
Definition oauth_handle (r : Request) : option string :=
  match r_cookie r oauthHandleCookieName with
  | Some v => if v =s "" then None else Some v
  | None => None
  end.

Definition Callback : Handler := fun r =>
  let providerName := r_param r "provider" in
  let invalid := failCallback r "" "" 400 "INVALID_OAUTH_STATE" in
  match Providers !! providerName with
  | None =>
      match oauth_handle r with
      | Some handle => state_consume handle ;;; ret tt
      | None => ret tt
      end ;;;
      ret (set_cookies [clearOAuthHandleCookie] (redirectLoginError "UNKNOWN_PROVIDER"))
  | Some provider =>
      let queryState := r_query r "state" in
      let code := r_query r "code" in
      if (queryState =s "") || (code =s "") then
        invalid "state and code query parameters are required" "missing_state_or_code"
      else match oauth_handle r with
      | None => invalid "no oauth handle cookie present" "missing_handle_cookie"
      | Some handle =>
          e <- state_consume handle ;;
          match e with
          | Err _ => invalid "oauth handle expired or unknown" "state_not_found"
          | Ok entry =>
              if (State_ entry <>s queryState) || (Provider entry <>s providerName) then
                invalid "state or provider mismatch" "state_mismatch"
              else exchange_code r providerName provider code entry
          end
      end
  end.

(** ** Whoami and Logout *)
Definition Whoami : Handler := fun r =>
  match OperatorFromContext r with
  | None => ret (writeError 401 "UNAUTHORIZED" "no authenticated operator on the request")
  | Some op =>
      o <- GetOperator (ao_ID op) ;;
      match o with
      | Err _ => ret (writeError 500 "SESSION_LOOKUP_FAILED"
                        "failed to resolve operator for current session")
      | Ok full => ret (reply 200 (BOperator full))
      end
  end.

Definition Logout : Handler := fun r =>
  d <- match session_cookie r with
       | Some id => x <- DeleteSession id ;; ret (Some x)
       | None => ret None
       end ;;
  match OperatorFromContext r with
  | Some op =>
      WriteFromRequest r (new_entry (ao_ID op) "logout" "session" ""
        (match d with
         | Some (Ok _) => [("outcome", DStr "success")]
         | Some (Err e) => [("outcome", DStr "failure"); ("error", DStr (err_text e))]
         | None => [("outcome", DStr "failure")]
         end))
  | None => ret tt
  end ;;;
  ret (set_cookies [clearSessionCookie] no_content).
End Auth.
