(* ===== verification/AuthSpec.v ===== *)
(** * What signing in promises *)
From Stdlib Require Import ZArith Lia.
From stdpp Require Import base gmap strings list relations.
From S2P Require Import Prelude GoStrings Errors State Tables Effects AccountStore.
From S2P Require Import SessionStore OperatorStore AuditStore StoreInvariant StoreMethods Http.
From S2P Require Import RequestMeta OAuthState AdminGuards GuardsSpec AuthHandler Fixtures.
Open Scope packyard_scope.
Open Scope eff_scope.

(** The response hands out a session. *)
Definition issues_session (resp : Response) : Prop :=
  exists c, c ∈ rs_cookies resp /\ sc_name c = SessionCookieName.

Section Signing.
Context `{SqlDriver} `{UnicodeTables}.

Lemma failCallback_no_session r e p st c m why w :
  ~ issues_session (failCallback r e p st c m why w).1.
Proof.
  unfold failCallback. rewrite bind_run. intros (ck & Hin & Hn). simpl in Hin.
  apply list_elem_of_singleton in Hin as ->. done.
Qed.

Lemma CreateSession_run op ip ua w :
  match CreateSession op ip ua w with
  | (Ok sess, w') =>
      sessions (w_db w) !! Sess_ID sess = None /\ is_Some (operators (w_db w) !! op) /\
      Sess_ExpiresAt sess = (w_clock w 0 + SessionAbsoluteLifetime)%Z /\
      w_db w' = set_sessions (<[Sess_ID sess :=
        mkSessionRow op (format_stamp (w_clock w 0)) (format_stamp (w_clock w 0))
          (format_stamp (w_clock w 0 + SessionAbsoluteLifetime)) (Some ip) (Some ua)]>
        (sessions (w_db w))) (w_db w)
  | (Err e, w') => w_db w' = w_db w
  end.
Proof.
  unfold CreateSession, generateSessionID. rewrite bindR_run, wrapE_run. unfold rand_hex.
  cbn [fst snd]. destruct (w_rand w 0) as [f|]; [|done]. cbn [fst snd].
  generalize (hex_encode (map (fun i => f i mod 256)%Z (seq 0 32))); intros id. rewrite bind_run.
  unfold now. cbn [fst snd]. rewrite bind_run, sql_run. cbn [fst snd]. next_fault; [done|].
  unfold sql_insert_session. cbn.
  destruct (bool_decide (is_Some (sessions _ !! _))) eqn:Ei; [done|].
  destruct (bool_decide (is_Some (operators _ !! _))) eqn:Eo; [|done]. cbn.
  apply bool_decide_eq_false, eq_None_not_Some in Ei. apply bool_decide_eq_true in Eo.
  split; [exact Ei|]. by split.
Qed.

(** The tables the rest of a login leaves alone. *)
Definition same_sessions (db db' : Database) : Prop := sessions db' = sessions db.
#[local] Instance same_sessions_preorder : PreOrder same_sessions.
Proof. split; [by intros ?|]. unfold same_sessions. intros ? ? ? -> ->. done. Qed.

Lemma update_operator_sessions id guard upd db n db' :
  sql_update_operator id guard upd db = Done n db' -> same_sessions db db'.
Proof. unfold sql_update_operator. intros Hs. by inv_stmt Hs. Qed.

Lemma UpdateLastLogin_sessions id t : moves same_sessions (UpdateLastLogin id t).
Proof. unfold UpdateLastLogin. solve_moves. apply moves_sql. apply update_operator_sessions. Qed.

Lemma UpdateLoginProvider_sessions id p u : moves same_sessions (UpdateLoginProvider id p u).
Proof. unfold UpdateLoginProvider. solve_moves. apply moves_sql. apply update_operator_sessions. Qed.

Lemma WriteFromRequest_sessions r e : moves same_sessions (WriteFromRequest r e).
Proof.
  unfold WriteFromRequest, Write. cbv zeta. solve_moves. apply moves_sql.
  by intros db u db' [= _ <-].
Qed.

Lemma start_session_run redir r p ident op w :
  issues_session (start_session redir r p ident op w).1 ->
  exists sid row, sessions (w_db (start_session redir r p ident op w).2) !! sid = Some row /\
    sessions (w_db w) !! sid = None /\ s_operator_id row = Op_ID op /\
    IssueSessionCookie sid (w_clock w 0 + SessionAbsoluteLifetime) ∈
      rs_cookies (start_session redir r p ident op w).1.
Proof.
  unfold start_session. rewrite bind_run.
  pose proof (CreateSession_run (Op_ID op) (handler_clientIP r) (UserAgent r) w) as Hc.
  destruct (CreateSession _ _ _ w) as [[sess|e] w1]; cbn [fst snd].
  2:{ intros Hs. by apply failCallback_no_session in Hs. }
  intros _. destruct Hc as (Hnew & _ & Hexp & Hdb).
  match goal with |- context [bind ?m ?k w1] => set (tail := bind m k) end.
  assert (moves same_sessions tail) as Hm.
  { subst tail. solve_moves; auto using UpdateLastLogin_sessions, UpdateLoginProvider_sessions,
      WriteFromRequest_sessions. }
  exists (Sess_ID sess). eexists. split; [rewrite (Hm w1), Hdb; apply lookup_insert_eq|].
  split; [done|]. split; [done|]. subst tail. rewrite !bind_run. cbn [fst ret rs_cookies set_cookies].
  rewrite Hexp. set_solver.
Qed.

Context (Providers : gmap string OAuthProvider) (redir : string).

(** The flow a callback belongs to: the secrets put under the browser's
    handle, not older than the TTL, for this provider and this state. *)
Definition flow_of (r : Request) (w : World) (entry : StateEntry) : Prop :=
  exists handle, oauth_handle r = Some handle /\ w_states w !! handle = Some entry /\
    State_ entry = r_query r "state" /\ Provider entry = r_param r "provider" /\
    (w_clock w 0 - Created entry <= StateTTL)%Z.

(** A login that was completed: by whom, on what grounds, and what it left. *)
Definition completed_login (r : Request) (w : World) (out : Response * World) (entry : StateEntry)
    (provider : OAuthProvider) (ident : Identity) (oid : string) (orow : operator_row)
    (sid : string) (srow : session_row) : Prop :=
    flow_of r w entry /\ Providers !! r_param r "provider" = Some provider /\
    Exchange (OAuthProvider := provider) (w_clock w 1) (r_query r "code") (CodeVerifier entry) = Ok ident /\
    id_Email ident <> "" /\
    operators (w_db w) !! oid = Some orow /\ o_email orow = canonicalEmail (id_Email ident) /\
    o_status orow = "active" /\
    sessions (w_db w) !! sid = None /\
    sessions (w_db out.2) !! sid = Some srow /\
    s_operator_id srow = oid /\
    IssueSessionCookie sid (w_clock w 2 + SessionAbsoluteLifetime) ∈
      rs_cookies out.1.

Lemma callback_login r w :
  issues_session (Callback Providers redir r w).1 ->
  exists entry provider ident oid orow sid srow,
    completed_login r w (Callback Providers redir r w) entry provider ident oid orow sid srow.
Proof.
  unfold Callback. cbv zeta.
  destruct (Providers !! r_param r "provider") as [provider|] eqn:Ep.
  2:{ rewrite bind_run. intros (c & Hin & Hn). simpl in Hin.
      apply list_elem_of_singleton in Hin as ->. done. }
  destruct (_ || _) eqn:Eq; [by intros ?%failCallback_no_session|].
  destruct (oauth_handle r) as [handle|] eqn:Eh; [|by intros ?%failCallback_no_session].
  rewrite bind_run. unfold state_consume.
  destruct (w_states w !! handle) as [entry|] eqn:Es; cbn [fst snd];
    [|by intros ?%failCallback_no_session].
  unfold Consume. rewrite Es, expired_sub. cbn [fst snd].
  destruct (StateTTL <? _)%Z eqn:Et; [by intros ?%failCallback_no_session|].
  apply Z.ltb_ge in Et.
  destruct ((State_ entry <>s _) || _) eqn:Em; [by intros ?%failCallback_no_session|]. string_reflect.
  set (w1 := with_states _ (tick_clock w)). set (w2 := tick_clock w1). assert (w_db w2 = w_db w) as Hw2 by done.
  unfold exchange_code. cbv zeta. rewrite bind_run. cbn [now fst snd]. fold w2.
  destruct (Exchange _ _ _) as [ident|e] eqn:Ex.
  2:{ destruct (errors_is e ErrUnverifiedEmail || _); [by intros ?%failCallback_no_session|].
      destruct (errors_is e ErrNotOrgMember); by intros ?%failCallback_no_session. }
  unfold match_operator. cbv zeta.
  destruct (id_Email ident =s "") eqn:Ee; [by intros ?%failCallback_no_session|].
  rewrite bind_run. unfold GetOperatorByEmail. rewrite bind_run, query_row_run. cbn [fst snd].
  rewrite Hw2. destruct (w_fault w2 0); [by intros ?%failCallback_no_session|].
  destruct (find_by _ _ _) as [[oid orow]|] eqn:Ef; [|by intros ?%failCallback_no_session].
  apply find_by_sound in Ef as [Ho Hemail].
  cbn [fst snd ret scanOperator Op_Status].
  destruct (o_status orow =s OperatorStatusActive) eqn:Ea.
  2:{ destruct (_ =s OperatorStatusDisabled); by intros ?%failCallback_no_session. }
  string_reflect. intros Hs.
  destruct (start_session_run _ _ _ _ _ _ Hs) as (sid & srow & Hsid & Hnew & Hop & Hck).
  exists entry, provider, ident, oid, orow, sid, srow.
  split; [exists handle; by repeat split|]. repeat split; auto.
Qed.

(** A session is only handed out at the end of a complete flow: the
    browser's handle names live secrets whose state and provider are those
    of the request, the provider exchanged the code, under the flow's own
    verifier, for an identity with an email, and that email, canonicalised,
    is the email of an active operator.  The session is new, it belongs to
    that operator, and the cookie carries its id and its absolute expiry. *)
Theorem callback_sound r w :
  issues_session (Callback Providers redir r w).1 ->
  exists entry provider ident oid orow sid srow,
    flow_of r w entry /\ Providers !! r_param r "provider" = Some provider /\
    Exchange (OAuthProvider := provider) (w_clock w 1) (r_query r "code") (CodeVerifier entry) = Ok ident /\
    id_Email ident <> "" /\
    operators (w_db w) !! oid = Some orow /\ o_email orow = canonicalEmail (id_Email ident) /\
    o_status orow = "active" /\
    sessions (w_db w) !! sid = None /\
    sessions (w_db (Callback Providers redir r w).2) !! sid = Some srow /\
    s_operator_id srow = oid /\
    IssueSessionCookie sid (w_clock w 2 + SessionAbsoluteLifetime) ∈
      rs_cookies (Callback Providers redir r w).1.
Proof. apply callback_login. Qed.
End Signing.

(** ** A concrete login *)
Definition demo_provider : OAuthProvider :=
  {| AuthorizeURL := fun state challenge => "https://idp.example/authorize?state=" +:+ state;
     Exchange := fun t code verifier =>
       if (code =s "code") && (verifier =s "verifier")
       then Ok (mkIdentity "Admin@example.org" true "admin-login" ProviderGitHub)
       else Err (Sentinel ErrTokenExchange) |}.

Definition demo_callback : Request :=
  let r := demo_request "GET" "/api/v1/auth/callback/github" []
             [(oauthHandleCookieName, "handle")] in
  mkRequest (r_method r) (r_path r) (r_header r)
    {["state" := ["state"]; "code" := ["code"]]} (r_cookie r) (fun _ => "github") (r_remote r) None.

Definition demo_login_world : World :=
  with_states {["handle" := mkStateEntry "state" "verifier" "github" demo_now]} (demo_world demo_db).

Lemma callback_sound_witness :
  exists entry, flow_of demo_callback demo_login_world entry /\ CodeVerifier entry = "verifier".
Proof.
  destruct (@callback_sound sqlite_driver ascii_tables {["github" := demo_provider]} ""
    demo_callback demo_login_world) as (entry & provider & ident & oid & orow & sid & srow & Hf & _).
  - exists (IssueSessionCookie (hex_encode (map (fun i => Z.of_nat i) (seq 0 32)))
      (demo_now + SessionAbsoluteLifetime)).
    split; [|reflexivity]. vm_compute. right. left.
  - exists entry. split; [exact Hf|]. destruct Hf as (h & Hh & He & _).
    vm_compute in Hh. injection Hh as <-. vm_compute in He. injection He as <-. reflexivity.
Defined.
