(* ===== verification/Providers.v ===== *)
(** * The identity providers: auth/github and auth/microsoft

    The HTTP client is a parameter: [Do t req] is what comes back for a
    request made at instant [t] (building the request can fail as well, the
    code maps both failures to one error).  So are the JSON decoders, one for
    each type that is decoded. *)
From Stdlib Require Import ZArith Lia Ascii.
From stdpp Require Import base gmap strings list.
From S2P Require Import Prelude GoStrings Errors State Encoding Effects AuditStore Http AuthHandler.
Open Scope packyard_scope.

Record OutRequest := mkOut {
  out_method : string; out_url : string; out_header : list (string * string); out_body : string }.
Record InResponse := mkIn { in_status : Z; in_body : string }.

(** [url.Values] set key by key. *)
Definition values (l : list (string * string)) : gmap string (list string) :=
  list_to_map ((fun kv => (kv.1, [kv.2])) <$> l).

(** [fmt.Errorf("%w: ...", auth.ErrTokenExchange, ...)] *)
Definition exchange_failed (detail : string) : goerr :=
  Annotate (Sentinel ErrTokenExchange) detail.

(** The body of a 200 response, decoded. *)
Definition decode_body {A} (what : string) (decode : string -> res A) (resp : InResponse) : res A :=
  match decode (in_body resp) with
  | Ok a => Ok a
  | Err e => Err (exchange_failed (what +:+ ": " +:+ err_text e))
  end.

Section Client.
Context (Do : Z -> OutRequest -> res InResponse).

Definition perform (t : Z) (req : OutRequest) : res InResponse :=
  match Do t req with Ok resp => Ok resp | Err e => Err (exchange_failed (err_text e)) end.
End Client.

Definition form_headers : list (string * string) :=
  [("Content-Type", "application/x-www-form-urlencoded"); ("Accept", "application/json")].

(** ** GitHub *)
Module GitHub.
Record Config := mkConfig {
  ClientID : string; ClientSecret : string; RedirectURI : string; AllowedOrg : string;
  BaseAuthURL : string; BaseAPIURL : string }.

(** [None]: New panics. *)
Definition New (cfg : Config) : option Config :=
  if AllowedOrg cfg =s "" then None
  else Some (mkConfig (ClientID cfg) (ClientSecret cfg) (RedirectURI cfg) (AllowedOrg cfg)
    (if BaseAuthURL cfg =s "" then "https://github.com" else BaseAuthURL cfg)
    (if BaseAPIURL cfg =s "" then "https://api.github.com" else BaseAPIURL cfg)).

Definition authorize_values (cfg : Config) (state codeChallenge : string) :
    gmap string (list string) :=
  values [("client_id", ClientID cfg); ("redirect_uri", RedirectURI cfg);
    ("response_type", "code"); ("scope", "user:email read:org"); ("state", state);
    ("code_challenge", codeChallenge); ("code_challenge_method", "S256")].

Definition AuthorizeURL (cfg : Config) (state codeChallenge : string) : string :=
  BaseAuthURL cfg +:+ "/login/oauth/authorize?" +:+
  encode_values (authorize_values cfg state codeChallenge).

Record tokenResponse := mkToken {
  AccessToken : string; TokenType : string; Scope : string; TokenError : string }.
Record emailRow := mkEmail { Email : string; Primary : bool; Verified : bool }.
Definition userResponse := string. (* its login *)
Definition membershipResponse := string. (* its state *)

Section Provider.
Context `{UnicodeTables} (Do : Z -> OutRequest -> res InResponse).
Context (token_json : string -> res tokenResponse) (emails_json : string -> res (list emailRow)).
Context (user_json : string -> res userResponse) (membership_json : string -> res membershipResponse).
Context (cfg : Config).

Definition token_request (code codeVerifier : string) : OutRequest :=
  mkOut "POST" (BaseAuthURL cfg +:+ "/login/oauth/access_token") form_headers
    (encode_values (values [("client_id", ClientID cfg); ("client_secret", ClientSecret cfg);
      ("code", code); ("redirect_uri", RedirectURI cfg); ("code_verifier", codeVerifier)])).

Definition exchangeToken (t : Z) (code codeVerifier : string) : res tokenResponse :=
  resp ← perform Do t (token_request code codeVerifier);
  if negb (in_status resp =? 200)%Z
  then Err (exchange_failed ("status " +:+ itoa (in_status resp)))
  else
    tok ← decode_body "decode response" token_json resp;
    if (TokenError tok <>s "") || (AccessToken tok =s "")
    then Err (exchange_failed ("provider returned error " +:+ Quote (TokenError tok)))
    else Ok tok.

Definition api_request (token path : string) : OutRequest :=
  mkOut "GET" (BaseAPIURL cfg +:+ path)
    [("Authorization", "Bearer " +:+ token); ("Accept", "application/vnd.github+json")] "".

Definition apiGet {A} (decode : string -> res A) (t : Z) (token path : string) : res A :=
  resp ← perform Do t (api_request token path);
  if negb (in_status resp =? 200)%Z
  then Err (exchange_failed ("GET " +:+ path +:+ " -> " +:+ itoa (in_status resp)))
  else decode_body ("decode " +:+ path) decode resp.

Definition usable (r : emailRow) : bool := Primary r && Verified r && (Email r <>s "").

Definition fetchPrimaryVerifiedEmail (t : Z) (token : string) : res string :=
  rows ← apiGet emails_json t token "/user/emails";
  match List.find usable rows, rows with
  | Some r, _ => Ok (Email r)
  | None, [] => Err (Sentinel ErrNoEmail)
  | None, _ => Err (Sentinel ErrUnverifiedEmail)
  end.

Definition fetchUser (t : Z) (token : string) : res userResponse :=
  apiGet user_json t token "/user".

Definition membership_path : string := "/user/memberships/orgs/" +:+ PathEscape (AllowedOrg cfg).

Definition requireOrgMembership (t : Z) (token : string) : res unit :=
  resp ← perform Do t (api_request token membership_path);
  if (in_status resp =? 200)%Z then
    m ← decode_body "decode membership" membership_json resp;
    if m <>s "active" then Err (Sentinel ErrNotOrgMember) else Ok tt
  else if (in_status resp =? 404)%Z then Err (Sentinel ErrNotOrgMember)
  else if (in_status resp =? 403)%Z then
    Err (exchange_failed
      "403 from membership endpoint (read:org scope missing or SAML SSO required)")
  else Err (exchange_failed ("unexpected status " +:+ itoa (in_status resp) +:+ " for org membership")).

Definition Exchange (t : Z) (code codeVerifier : string) : res Identity :=
  tok ← wrapping "github" (exchangeToken t code codeVerifier);
  email ← wrapping "github" (fetchPrimaryVerifiedEmail t (AccessToken tok));
  user ← wrapping "github" (fetchUser t (AccessToken tok));
  _ ← wrapping "github" (requireOrgMembership t (AccessToken tok));
  Ok (mkIdentity (ToLower email) true user ProviderGitHub).

Definition provider : OAuthProvider :=
  {| AuthHandler.AuthorizeURL := AuthorizeURL cfg; AuthHandler.Exchange := Exchange |}.
End Provider.
End GitHub.

(** ** Microsoft Entra *)
Module Microsoft.
Record Config := mkConfig {
  TenantID : string; ClientID : string; ClientSecret : string; RedirectURI : string;
  AuthorityBaseURL : string }.

Definition New (cfg : Config) : option Config :=
  if TenantID cfg =s "" then None
  else Some (mkConfig (TenantID cfg) (ClientID cfg) (ClientSecret cfg) (RedirectURI cfg)
    (if AuthorityBaseURL cfg =s "" then "https://login.microsoftonline.com"
     else AuthorityBaseURL cfg)).

Definition authorize_values (cfg : Config) (state codeChallenge : string) :
    gmap string (list string) :=
  values [("client_id", ClientID cfg); ("response_type", "code");
    ("redirect_uri", RedirectURI cfg); ("response_mode", "query");
    ("scope", "openid email profile"); ("state", state);
    ("code_challenge", codeChallenge); ("code_challenge_method", "S256")].

Definition AuthorizeURL (cfg : Config) (state codeChallenge : string) : string :=
  AuthorityBaseURL cfg +:+ "/" +:+ PathEscape (TenantID cfg) +:+ "/oauth2/v2.0/authorize?" +:+
  encode_values (authorize_values cfg state codeChallenge).

Record tokenResponse := mkToken {
  AccessToken : string; IDToken : string; TokenType : string; TokenError : string;
  ErrorDescription : string }.

Record idTokenClaims := mkClaims {
  c_TenantID : string; Audience : string; Issuer : string; ExpiresAt : Z; NotBefore : Z;
  c_Email : string; PreferredUsername : string; EmailVerified : option bool }.

Section Provider.
Context `{UnicodeTables} (Do : Z -> OutRequest -> res InResponse).
Context (token_json : string -> res tokenResponse) (claims_json : list Z -> res idTokenClaims).
Context (cfg : Config).

(** [strings.EqualFold]. *)
Definition EqualFold (s t : string) : bool :=
  bool_decide (map unicode_fold (runes s) = map unicode_fold (runes t)).

Definition expectedIssuer : string := AuthorityBaseURL cfg +:+ "/" +:+ TenantID cfg +:+ "/v2.0".

Definition validateClaims (t : Z) (c : idTokenClaims) : res unit :=
  if (c_TenantID c =s "") || negb (EqualFold (c_TenantID c) (TenantID cfg))
  then Err (Sentinel ErrNotOrgMember)
  else if Audience c <>s ClientID cfg then
    Err (exchange_failed ("id_token audience " +:+ Quote (Audience c) +:+
           " does not match configured client_id"))
  else if Issuer c <>s expectedIssuer then
    Err (exchange_failed ("id_token issuer " +:+ Quote (Issuer c) +:+
           " does not match expected " +:+ Quote expectedIssuer))
  else if (ExpiresAt c <=? 0)%Z then
    Err (exchange_failed "id_token is missing or has invalid exp claim")
  else
    let now := (t / Second)%Z in
    if (ExpiresAt c <? now)%Z then Err (exchange_failed "id_token is expired")
    else if (NotBefore c <? 0)%Z then Err (exchange_failed "id_token has invalid nbf claim")
    else if (0 <? NotBefore c)%Z && (now <? NotBefore c)%Z
    then Err (exchange_failed "id_token is not yet valid")
    else Ok tt.

Definition token_request (code codeVerifier : string) : OutRequest :=
  mkOut "POST"
    (AuthorityBaseURL cfg +:+ "/" +:+ PathEscape (TenantID cfg) +:+ "/oauth2/v2.0/token")
    form_headers
    (encode_values (values [("client_id", ClientID cfg); ("client_secret", ClientSecret cfg);
      ("code", code); ("redirect_uri", RedirectURI cfg); ("grant_type", "authorization_code");
      ("code_verifier", codeVerifier); ("scope", "openid email profile")])).

Definition exchangeToken (t : Z) (code codeVerifier : string) : res tokenResponse :=
  resp ← perform Do t (token_request code codeVerifier);
  if negb (in_status resp =? 200)%Z
  then Err (exchange_failed ("status " +:+ itoa (in_status resp)))
  else
    tok ← decode_body "decode response" token_json resp;
    if TokenError tok <>s ""
    then Err (exchange_failed (TokenError tok +:+ ": " +:+ ErrorDescription tok))
    else Ok tok.

Definition decodeIDTokenClaims (idToken : string) : res idTokenClaims :=
  match split_byte idToken "." with
  | [_; payload; _] =>
      match base64url_decode payload with
      | None => Err (Wrap "decode payload" (ErrText "illegal base64 data"))
      | Some bs => wrapping "unmarshal claims" (claims_json bs)
      end
  | _ => Err (ErrText "id_token does not have three JWT segments")
  end.

(** The address the claims give: the email, else the user name. *)
Definition claimed_email (c : idTokenClaims) : string :=
  if c_Email c =s "" then PreferredUsername c else c_Email c.

Definition Exchange (t : Z) (code codeVerifier : string) : res Identity :=
  let fail e := Err (Wrap "microsoft" e) in
  tok ← wrapping "microsoft" (exchangeToken t code codeVerifier);
  if IDToken tok =s "" then fail (Sentinel ErrTokenExchange)
  else match decodeIDTokenClaims (IDToken tok) with
  | Err e => fail (exchange_failed (err_text e))
  | Ok claims =>
      _ ← wrapping "microsoft" (validateClaims t claims);
      let email := claimed_email claims in
      if email =s "" then fail (Sentinel ErrNoEmail)
      else if bool_decide (EmailVerified claims = Some false) then fail (Sentinel ErrUnverifiedEmail)
      else Ok (mkIdentity (ToLower email) true email ProviderMicrosoft)
  end.

Definition provider : OAuthProvider :=
  {| AuthHandler.AuthorizeURL := AuthorizeURL cfg; AuthHandler.Exchange := Exchange |}.
End Provider.
End Microsoft.
