(* ===== verification/ProvidersSpec.v ===== *)
(** * What the identity providers promise to the login *)
From Stdlib Require Import ZArith Lia Ascii.
From stdpp Require Import base gmap strings list.
From S2P Require Import Prelude GoStrings Errors State Encoding Effects AccountStore OAuthState.
From S2P Require Import SessionStore AdminGuards Http AuthHandler AuthSpec Providers Fixtures.
Open Scope packyard_scope.

(** ** Calls over HTTP *)
Section Client.
Context (Do : Z -> OutRequest -> res InResponse).

(** The request, made at [t], is answered 200 with a body that decodes to
    [a]. *)
Definition answered {A} (t : Z) (req : OutRequest) (decode : string -> res A) (a : A) : Prop :=
  exists resp, Do t req = Ok resp /\ in_status resp = 200%Z /\ decode (in_body resp) = Ok a.

Lemma perform_Ok t req resp : perform Do t req = Ok resp <-> Do t req = Ok resp.
Proof. unfold perform. by destruct (Do t req). Qed.

Lemma decode_body_Ok {A} what (decode : string -> res A) resp a :
  decode_body what decode resp = Ok a <-> decode (in_body resp) = Ok a.
Proof. unfold decode_body. by destruct (decode _). Qed.

(** The shape all calls share: a 200, decoded, then a check. *)
Lemma call_Ok {A B} t req (decode : string -> res A) what e (k : A -> res B) b :
  (resp ← perform Do t req;
   if negb (in_status resp =? 200)%Z then Err (e resp)
   else a ← decode_body what decode resp; k a) = Ok b <->
  exists a, answered t req decode a /\ k a = Ok b.
Proof.
  rewrite res_bind_Ok. unfold answered. setoid_rewrite perform_Ok. split.
  - intros (resp & Hd & Hk). destruct (in_status resp =? 200)%Z eqn:Es; [|done].
    apply Z.eqb_eq in Es. cbn [negb] in Hk. apply res_bind_Ok in Hk as (a & Ha & Hk).
    apply decode_body_Ok in Ha. eauto 6.
  - intros (a & (resp & Hd & Hs & Ha) & Hk). exists resp. split; [done|]. rewrite Hs. cbn [negb Z.eqb].
    change (200 =? 200)%Z with true. cbn [negb]. apply res_bind_Ok. exists a.
    by rewrite decode_body_Ok.
Qed.
End Client.

(** ** GitHub *)
Section GitHub.
Import GitHub.
Context `{UnicodeTables} (Do : Z -> OutRequest -> res InResponse).
Context (token_json : string -> res tokenResponse) (emails_json : string -> res (list emailRow)).
Context (user_json : string -> res userResponse) (membership_json : string -> res membershipResponse).
Context (cfg : Config).

Lemma exchangeToken_Ok t code v tok :
  exchangeToken Do token_json cfg t code v = Ok tok <->
  answered Do t (token_request cfg code v) token_json tok /\
  TokenError tok = "" /\ AccessToken tok <> "".
Proof.
  unfold exchangeToken. rewrite call_Ok. split.
  - intros (a & Ha & Hk). destruct (_ || _) eqn:E; [done|]. injection Hk as ->.
    string_reflect. auto.
  - intros (Ha & He & Ht). exists tok. split; [done|]. rewrite He. cbn [String.eqb negb orb].
    apply String.eqb_neq in Ht. by rewrite Ht.
Qed.

Lemma apiGet_Ok {A} (decode : string -> res A) t tok path a :
  apiGet Do cfg decode t tok path = Ok a <-> answered Do t (api_request cfg tok path) decode a.
Proof.
  unfold apiGet, answered. rewrite res_bind_Ok. setoid_rewrite perform_Ok. split.
  - intros (resp & Hd & Hk). destruct (in_status resp =? 200)%Z eqn:Es; [|done].
    apply Z.eqb_eq in Es. cbn [negb] in Hk. apply decode_body_Ok in Hk. eauto.
  - intros (resp & Hd & Hs & Ha). exists resp. split; [done|]. rewrite Hs.
    change (negb (200 =? 200)%Z) with false. cbn iota. by apply decode_body_Ok.
Qed.

(** The first primary, verified address of a listing. *)
Definition login_email (rows : list emailRow) (row : emailRow) : Prop :=
  exists pre post, rows = pre ++ row :: post /\
    Primary row = true /\ Verified row = true /\ Email row <> "" /\
    Forall (fun r => usable r = false) pre.

Lemma find_usable rows row : List.find usable rows = Some row <-> login_email rows row.
Proof.
  unfold login_email. induction rows as [|r rows IH].
  - split; [done|]. intros (pre & post & Hr & _). by destruct pre.
  - cbn [List.find]. destruct (usable r) eqn:Eu.
    + split.
      * intros [= ->]. exists [], rows. unfold usable in Eu. string_reflect. auto.
      * intros (pre & post & Hr & _ & _ & _ & Hpre). destruct pre as [|r' pre]; [by injection Hr as -> _|].
        injection Hr as <- _. inversion Hpre. congruence.
    + rewrite IH. split; intros (pre & post & Hr & Hrest).
      * exists (r :: pre), post. rewrite Hr. split; [done|]. destruct_and!. auto 6.
      * destruct pre as [|r' pre]; injection Hr as -> Hr.
        { destruct Hrest as (Hp & Hv & He & _). unfold usable in Eu.
          apply String.eqb_neq in He. by rewrite Hp, Hv, He in Eu. }
        exists pre, post. destruct_and!. split; [done|]. repeat split; auto.
        by inversion select (Forall _ _).
Qed.

Lemma fetchPrimaryVerifiedEmail_Ok t tok e :
  fetchPrimaryVerifiedEmail Do emails_json cfg t tok = Ok e <->
  exists rows row, answered Do t (api_request cfg tok "/user/emails") emails_json rows /\
    login_email rows row /\ e = Email row.
Proof.
  unfold fetchPrimaryVerifiedEmail. rewrite res_bind_Ok. setoid_rewrite apiGet_Ok.
  setoid_rewrite <-find_usable. split.
  - intros (rows & Ha & Hk). destruct (List.find usable rows) as [row|] eqn:Ef; [|by destruct rows].
    injection Hk as <-. eauto 6.
  - intros (rows & row & Ha & Hf & ->). exists rows. by rewrite Hf.
Qed.

(** The token's user is an active member of the organisation. *)
Definition org_member (t : Z) (tok : string) : Prop :=
  answered Do t (api_request cfg tok (membership_path cfg)) membership_json "active".

Lemma requireOrgMembership_Ok t tok :
  requireOrgMembership Do membership_json cfg t tok = Ok tt <-> org_member t tok.
Proof.
  unfold requireOrgMembership, org_member, answered. rewrite res_bind_Ok. setoid_rewrite perform_Ok.
  split.
  - intros (resp & Hd & Hk). exists resp. split; [done|].
    destruct (in_status resp =? 200)%Z eqn:Es.
    + apply Z.eqb_eq in Es. split; [done|]. apply res_bind_Ok in Hk as (m & Hm & Hk).
      apply decode_body_Ok in Hm. destruct (m =s "active") eqn:Em; [|done].
      by apply String.eqb_eq in Em as ->.
    + destruct (in_status resp =? 404)%Z; [done|]. by destruct (in_status resp =? 403)%Z.
  - intros (resp & Hd & Hs & Hm). exists resp. split; [done|]. rewrite Hs.
    change (200 =? 200)%Z with true. cbn iota. apply res_bind_Ok. exists "active".
    by rewrite decode_body_Ok.
Qed.

(** [Exchange] succeeds exactly for an active member with a primary, verified
    address, whose lower case it reports. *)
Definition vouched (t : Z) (code v : string) (ident : Identity) : Prop :=
  exists tok rows row login,
    answered Do t (token_request cfg code v) token_json tok /\
    TokenError tok = "" /\ AccessToken tok <> "" /\
    answered Do t (api_request cfg (AccessToken tok) "/user/emails") emails_json rows /\
    login_email rows row /\
    answered Do t (api_request cfg (AccessToken tok) "/user") user_json login /\
    org_member t (AccessToken tok) /\
    ident = mkIdentity (ToLower (Email row)) true login ProviderGitHub.

Lemma Exchange_Ok t code v ident :
  Exchange Do token_json emails_json user_json membership_json cfg t code v = Ok ident <->
  vouched t code v ident.
Proof.
  unfold Exchange, vouched, fetchUser. repeat setoid_rewrite res_bind_Ok.
  setoid_rewrite wrapping_Ok. setoid_rewrite exchangeToken_Ok.
  setoid_rewrite fetchPrimaryVerifiedEmail_Ok. setoid_rewrite apiGet_Ok. split.
  - intros (tok & (? & ? & ?) & e & (rows & row & ? & ? & ->) & login & ? & u & Hm & [= <-]).
    destruct u. apply requireOrgMembership_Ok in Hm. eauto 12.
  - intros (tok & rows & row & login & ? & ? & ? & ? & ? & ? & Hm & ->).
    exists tok. split; [done|]. exists (Email row). split; [eauto 6|]. exists login. split; [done|].
    exists tt. by rewrite requireOrgMembership_Ok.
Qed.
End GitHub.

(** ** Microsoft *)
Section Microsoft.
Import Microsoft.
Context `{UnicodeTables} (Do : Z -> OutRequest -> res InResponse).
Context (token_json : string -> res tokenResponse) (claims_json : list Z -> res idTokenClaims).
Context (cfg : Config).

(** Tenant, audience, issuer and expiry are in order at second [s]. *)
Definition claims_but_nbf (s : Z) (c : idTokenClaims) : Prop :=
  c_TenantID c <> "" /\ EqualFold (c_TenantID c) (TenantID cfg) = true /\
  Audience c = ClientID cfg /\ Issuer c = expectedIssuer cfg /\
  (0 < ExpiresAt c)%Z /\ (s <= ExpiresAt c)%Z.

(** The rule of the comment in [validateClaims]: a missing or zero [nbf] fails
    closed, as a missing or zero [exp] does. *)
Definition claims_documented (s : Z) (c : idTokenClaims) : Prop :=
  claims_but_nbf s c /\ (0 < NotBefore c <= s)%Z.

(** The rule of the code: a missing or zero [nbf] passes. *)
Definition claims_valid (s : Z) (c : idTokenClaims) : Prop :=
  claims_but_nbf s c /\ (NotBefore c = 0 \/ 0 < NotBefore c <= s)%Z.

Lemma claims_valid_documented s c :
  claims_valid s c <-> claims_documented s c \/ (NotBefore c = 0%Z /\ claims_but_nbf s c).
Proof. unfold claims_valid, claims_documented. tauto. Qed.

(** A check that failed, against the condition it stands for. *)
Ltac refuted :=
  split; [discriminate|]; intros Hc; exfalso; destruct_and? Hc; first [discriminate | lia].

Lemma validateClaims_Ok t c : validateClaims cfg t c = Ok tt <-> claims_valid (t / Second) c.
Proof.
  unfold validateClaims, claims_valid, claims_but_nbf. cbv zeta. rewrite <-String.eqb_neq.
  rewrite <-(String.eqb_eq (Audience c)), <-(String.eqb_eq (Issuer c)).
  destruct (c_TenantID c =s ""); [refuted|]. destruct (EqualFold _ _); [|refuted].
  destruct (Audience c =s _); [|refuted]. destruct (Issuer c =s _); [|refuted]. cbn [orb negb].
  destruct (Z.leb_spec (ExpiresAt c) 0); [refuted|].
  destruct (Z.ltb_spec (ExpiresAt c) (t / Second)); [refuted|].
  destruct (Z.ltb_spec (NotBefore c) 0); [refuted|].
  destruct (Z.ltb_spec 0 (NotBefore c)), (Z.ltb_spec (t / Second) (NotBefore c)); cbn [andb];
    first [refuted | split; [intros _|done]; repeat split; lia].
Qed.

Lemma token_Ok t code v tok :
  exchangeToken Do token_json cfg t code v = Ok tok <->
  answered Do t (token_request cfg code v) token_json tok /\ TokenError tok = "".
Proof.
  unfold exchangeToken. rewrite call_Ok. split.
  - intros (a & Ha & Hk). destruct (TokenError a =s "") eqn:E; [|done]. injection Hk as ->.
    string_reflect. auto.
  - intros (Ha & He). exists tok. by rewrite He.
Qed.

(** The token endpoint answered the code with an id token whose claims are
    in order and give an address not marked unverified. *)
Definition signed (t : Z) (code v : string) (claims : idTokenClaims) : Prop :=
  exists tok, answered Do t (token_request cfg code v) token_json tok /\ TokenError tok = "" /\
    decodeIDTokenClaims claims_json (IDToken tok) = Ok claims /\
    claims_valid (t / Second) claims /\ EmailVerified claims <> Some false.

Lemma microsoft_exchange_Ok t code v ident :
  Exchange Do token_json claims_json cfg t code v = Ok ident <->
  exists claims, signed t code v claims /\ claimed_email claims <> "" /\
    ident = mkIdentity (ToLower (claimed_email claims)) true (claimed_email claims) ProviderMicrosoft.
Proof.
  unfold Exchange, signed. cbv zeta. rewrite res_bind_Ok. setoid_rewrite wrapping_Ok.
  setoid_rewrite token_Ok. split.
  - intros (tok & [Ha He] & Hk). destruct (IDToken tok =s "") eqn:Ei; [done|].
    destruct (decodeIDTokenClaims claims_json (IDToken tok)) as [claims|e] eqn:Ed; [|done].
    apply res_bind_Ok in Hk as (u & Hv & Hk). destruct u.
    apply wrapping_Ok, validateClaims_Ok in Hv.
    destruct (claimed_email claims =s "") eqn:Ee; [done|]. case_bool_decide as Hver; [done|].
    injection Hk as <-. string_reflect. exists claims. split; [|done]. by exists tok.
  - intros (claims & (tok & Ha & He & Hd & Hv & Hver) & Hne & ->). exists tok. split; [done|].
    destruct (IDToken tok =s "") eqn:Ei; [string_reflect; by rewrite Ei in Hd|]. rewrite Hd.
    apply res_bind_Ok. exists tt. rewrite wrapping_Ok, validateClaims_Ok. split; [done|].
    apply String.eqb_neq in Hne. rewrite Hne. by rewrite bool_decide_eq_false_2.
Qed.

(** The claims of an id token, whose signature is not checked, are
    accepted exactly if the tenant is the configured one (letter case aside),
    audience and issuer are the expected ones, the expiry is present and not
    past, and the not-before time is past or zero, so that a missing one
    passes. *)
Theorem validate_claims_spec t c :
  if is_ok (validateClaims cfg t c) then claims_valid (t / Second) c
  else ~ claims_valid (t / Second) c.
Proof.
  pose proof (validateClaims_Ok t c) as Hv. destruct (validateClaims cfg t c) as [[]|e]; cbn [is_ok].
  - by apply Hv.
  - by intros Hc%Hv.
Qed.
End Microsoft.

(** ** What the requests carry *)
Lemma values_nonempty l k vs : values l !! k = Some vs -> vs <> [].
Proof.
  unfold values. intros Hk%elem_of_list_to_map_2. apply list_elem_of_fmap in Hk as ([k' v] & [= _ ->] & _).
  done.
Qed.

Lemma ParseQuery_values l : ParseQuery (encode_values (values l)) = values l.
Proof. apply ParseQuery_encode. intros k vs. apply values_nonempty. Qed.

(** The single value of a key in a query string. *)
Definition query_value (q key : string) : option (list string) := ParseQuery q !! key.

(** Both providers' authorisation URLs end in a query that parses back
    to the state and the PKCE challenge of the flow, method S256, whatever
    bytes these hold, and the bodies of both token requests to the code and
    the PKCE verifier. *)
Theorem oauth_requests_carry gh ms state challenge code verifier :
  (exists q, GitHub.AuthorizeURL gh state challenge =
     GitHub.BaseAuthURL gh +:+ "/login/oauth/authorize?" +:+ q /\
     query_value q "state" = Some [state] /\ query_value q "code_challenge" = Some [challenge] /\
     query_value q "code_challenge_method" = Some ["S256"] /\
     query_value q "client_id" = Some [GitHub.ClientID gh]) /\
  (exists q, Microsoft.AuthorizeURL ms state challenge =
     Microsoft.AuthorityBaseURL ms +:+ "/" +:+ PathEscape (Microsoft.TenantID ms) +:+
       "/oauth2/v2.0/authorize?" +:+ q /\
     query_value q "state" = Some [state] /\ query_value q "code_challenge" = Some [challenge] /\
     query_value q "code_challenge_method" = Some ["S256"] /\
     query_value q "client_id" = Some [Microsoft.ClientID ms]) /\
  query_value (out_body (GitHub.token_request gh code verifier)) "code" = Some [code] /\
  query_value (out_body (GitHub.token_request gh code verifier)) "code_verifier" = Some [verifier] /\
  query_value (out_body (Microsoft.token_request ms code verifier)) "code" = Some [code] /\
  query_value (out_body (Microsoft.token_request ms code verifier)) "code_verifier" = Some [verifier].
Proof.
  unfold query_value. repeat split; try (eexists; split; [reflexivity|]; repeat split).
  all: try (cbn [out_body GitHub.token_request Microsoft.token_request]).
  all: unfold GitHub.authorize_values, Microsoft.authorize_values; rewrite ParseQuery_values; reflexivity.
Qed.

(** ** The two locks of a login *)
Section Locks.
Context `{SqlDriver} `{UnicodeTables} (Do : Z -> OutRequest -> res InResponse).
Context (Providers : gmap string OAuthProvider) (redir : string).

(** C22. GitHub's two locks.  Whoever gets a session through the GitHub
    provider is, by GitHub's answers to the token it issued for this flow's
    code and verifier, an active member of the configured organisation, and
    the primary, verified address of that GitHub user is the email of an
    active operator. *)
Theorem github_two_locks token_json emails_json user_json membership_json cfg r w :
  Providers !! "github" =
    Some (GitHub.provider Do token_json emails_json user_json membership_json cfg) ->
  r_param r "provider" = "github" ->
  issues_session (Callback Providers redir r w).1 ->
  exists entry tok rows row oid orow, flow_of r w entry /\
    answered Do (w_clock w 1) (GitHub.token_request cfg (r_query r "code") (CodeVerifier entry))
      token_json tok /\
    org_member Do membership_json cfg (w_clock w 1) (GitHub.AccessToken tok) /\
    answered Do (w_clock w 1) (GitHub.api_request cfg (GitHub.AccessToken tok) "/user/emails")
      emails_json rows /\
    row ∈ rows /\ GitHub.Primary row = true /\ GitHub.Verified row = true /\
    operators (w_db w) !! oid = Some orow /\ o_status orow = "active" /\
    o_email orow = canonicalEmail (ToLower (GitHub.Email row)).
Proof.
  intros Hp Hr Hs.
  destruct (callback_login Providers redir r w Hs) as (entry & p & ident & oid & orow & sid & srow &
    Hf & Hprov & Hex & _ & Ho & He & Ha & _).
  rewrite Hr, Hp in Hprov. injection Hprov as <-.
  apply Exchange_Ok in Hex as (tok & rows & row & login & Ht & _ & _ & Hem & Hrow & _ & Hm & ->).
  destruct Hrow as (pre & post & -> & Hpr & Hv & _). exists entry, tok, (pre ++ row :: post), row, oid, orow.
  repeat split; auto. set_solver.
Qed.

(** C23. Microsoft's two locks.  Whoever gets a session through the Microsoft
    provider brought, for this flow's code and verifier, an id token with the
    configured tenant, this client as audience, the tenant's issuer and an
    expiry that is present and not past at that moment, and with an address
    not marked unverified that is the email of an active operator.  The token
    also satisfies the documented rule on [nbf], present and past, or it has
    none at all (or zero): the code lets that pass where the comment in
    [validateClaims] says it must fail closed, and this is the only difference
    between the claims that are accepted and the documented rule. *)
Theorem microsoft_two_locks token_json claims_json cfg r w :
  Providers !! "microsoft" = Some (Microsoft.provider Do token_json claims_json cfg) ->
  r_param r "provider" = "microsoft" ->
  issues_session (Callback Providers redir r w).1 ->
  (exists entry claims oid orow, flow_of r w entry /\
    signed Do token_json claims_json cfg (w_clock w 1) (r_query r "code") (CodeVerifier entry) claims /\
    claims_but_nbf cfg (w_clock w 1 / Second) claims /\
    (claims_documented cfg (w_clock w 1 / Second) claims \/ Microsoft.NotBefore claims = 0%Z) /\
    operators (w_db w) !! oid = Some orow /\ o_status orow = "active" /\
    o_email orow = canonicalEmail (ToLower (Microsoft.claimed_email claims))) /\
  (forall t c, Microsoft.validateClaims cfg t c = Ok tt <->
    claims_documented cfg (t / Second) c \/
    (Microsoft.NotBefore c = 0%Z /\ claims_but_nbf cfg (t / Second) c)).
Proof.
  intros Hp Hr Hs. split; [|intros t c; by rewrite validateClaims_Ok, claims_valid_documented].
  destruct (callback_login Providers redir r w Hs) as (entry & p & ident & oid & orow & sid & srow &
    Hf & Hprov & Hex & _ & Ho & He & Ha & _).
  rewrite Hr, Hp in Hprov. injection Hprov as <-.
  apply microsoft_exchange_Ok in Hex as (claims & Hsig & _ & ->).
  assert (claims_valid cfg (w_clock w 1 / Second) claims) as [Hc Hn] by (destruct Hsig as (? & _ & _ & _ & Hv & _); exact Hv).
  exists entry, claims, oid, orow. repeat (split; [done|]). split; [|auto].
  unfold claims_documented. tauto.
Qed.
End Locks.

(** ** Concrete logins *)
Definition demo_github : GitHub.Config :=
  GitHub.mkConfig "client" "secret" "https://admin.example.org/cb" "no42-org"
    "https://github.com" "https://api.github.com".

(** A user of the organisation, whose second address is the primary one. *)
Definition github_server (t : Z) (req : OutRequest) : res InResponse :=
  Ok (mkIn (if Contains (out_url req) "/memberships/orgs/no42-org" ||
                Contains (out_url req) "/login/oauth/access_token" ||
                Contains (out_url req) "/user" then 200 else 404)%Z "").

Definition github_provider : OAuthProvider :=
  @GitHub.provider ascii_tables github_server (fun _ => Ok (GitHub.mkToken "token" "bearer" "" ""))
    (fun _ => Ok [GitHub.mkEmail "old@example.org" false true;
                  GitHub.mkEmail "Admin@Example.org" true true])
    (fun _ => Ok "admin-login") (fun _ => Ok "active") demo_github.

Definition callback_of (provider : string) : Request :=
  let r := demo_request "GET" ("/api/v1/auth/callback/" +:+ provider) []
             [(oauthHandleCookieName, "handle")] in
  mkRequest (r_method r) (r_path r) (r_header r)
    {["state" := ["state"]; "code" := ["code"]]} (r_cookie r) (fun _ => provider) (r_remote r) None.

Definition flow_world (provider : string) : World :=
  with_states {["handle" := mkStateEntry "state" "verifier" provider demo_now]} (demo_world demo_db).

Definition demo_session_cookie : SetCookie :=
  IssueSessionCookie (hex_encode (map (fun i => Z.of_nat i) (seq 0 32)))
    (demo_now + SessionAbsoluteLifetime).

Lemma github_two_locks_witness :
  exists row : GitHub.emailRow, GitHub.Primary row = true /\ GitHub.Verified row = true /\
    exists oid orow, operators demo_db !! oid = Some orow /\
      o_email orow = @canonicalEmail ascii_tables (@ToLower ascii_tables (GitHub.Email row)).
Proof.
  destruct (@github_two_locks sqlite_driver ascii_tables github_server {["github" := github_provider]}
    "" (fun _ => Ok (GitHub.mkToken "token" "bearer" "" ""))
    (fun _ => Ok [GitHub.mkEmail "old@example.org" false true;
                  GitHub.mkEmail "Admin@Example.org" true true])
    (fun _ => Ok "admin-login") (fun _ => Ok "active") demo_github
    (callback_of "github") (flow_world "github"))
    as (entry & tok & rows & row & oid & orow & _ & _ & _ & _ & _ & Hp & Hv & Ho & _ & He).
  - reflexivity.
  - reflexivity.
  - exists demo_session_cookie. split; [|reflexivity]. vm_compute. right. left.
  - exists row. split; [exact Hp|]. split; [exact Hv|]. exists oid, orow. split; [exact Ho|exact He].
Defined.

Definition demo_entra : Microsoft.Config :=
  Microsoft.mkConfig "11111111-aaaa" "client" "secret" "https://admin.example.org/cb"
    "https://login.microsoftonline.com".

(** Claims of the tenant, written in capitals, valid for an hour. *)
Definition demo_claims : Microsoft.idTokenClaims :=
  Microsoft.mkClaims "11111111-AAAA" "client" "https://login.microsoftonline.com/11111111-aaaa/v2.0"
    (demo_second + 3600) demo_second "" "Admin@Example.org" None.

(** The payload is the two bytes of an empty JSON object. *)
Definition demo_token : Microsoft.tokenResponse :=
  Microsoft.mkToken "access" "e30.e30.sig" "Bearer" "" "".

Definition entra_server (t : Z) (req : OutRequest) : res InResponse := Ok (mkIn 200 "").

Definition entra_claims (bs : list Z) : res Microsoft.idTokenClaims :=
  if bool_decide (bs = [123; 125]%Z) then Ok demo_claims else Err (ErrText "json").

(** The same claims without [nbf]. *)
Definition undated_claims : Microsoft.idTokenClaims :=
  Microsoft.mkClaims "11111111-AAAA" "client" "https://login.microsoftonline.com/11111111-aaaa/v2.0"
    (demo_second + 3600) 0 "" "Admin@Example.org" None.

Lemma microsoft_two_locks_witness :
  (exists oid orow, operators demo_db !! oid = Some orow /\ o_email orow = "admin@example.org") /\
  @Microsoft.validateClaims ascii_tables demo_entra demo_now undated_claims = Ok tt /\
  ~ @claims_documented ascii_tables demo_entra (demo_now / Second) undated_claims.
Proof.
  destruct (@microsoft_two_locks sqlite_driver ascii_tables entra_server
    {["microsoft" := @Microsoft.provider ascii_tables entra_server (fun _ => Ok demo_token)
        entra_claims demo_entra]} "" (fun _ => Ok demo_token) entra_claims demo_entra
    (callback_of "microsoft") (flow_world "microsoft"))
    as [(entry & claims & oid & orow & _ & Hs & _ & _ & Ho & _ & He) Hrule].
  - reflexivity.
  - reflexivity.
  - exists demo_session_cookie. split; [|reflexivity]. vm_compute. right. left.
  - split; [exists oid, orow; split; [exact Ho|]|split].
    + destruct Hs as (tok & Ha & _ & Hd & _).
      destruct Ha as (resp & _ & _ & Ht). injection Ht as <-. vm_compute in Hd. injection Hd as <-.
      vm_compute in He. exact He.
    + apply Hrule. right. split; [reflexivity|]. vm_compute. repeat split; discriminate.
    + intros [_ [Hn _]]. vm_compute in Hn. discriminate Hn.
Defined.
