(* ===== verification/ProviderJson.v ===== *)
(** * The JSON the identity providers answer with

    The decoders the GitHub and Microsoft providers apply to a response body
    and to the claims of an id token, for the parameters of Providers.v. *)
From Stdlib Require Import ZArith Lia Ascii.
From stdpp Require Import base gmap strings list.
From S2P Require Import Prelude GoStrings Errors State AuditStore Json JsonSpec JsonDecode.
From S2P Require Import AuthHandler Providers Fixtures.
Open Scope packyard_scope.

Definition decoded {A} (o : option A) : res A :=
  match o with Some a => Ok a | None => Err (ErrText "invalid JSON") end.

(** [json.NewDecoder(resp.Body).Decode(&v)]: what follows the value is not
    read. *)
Definition Decode {A} (set : json -> option A) (body : string) : res A :=
  decoded (match parse body with Some (j, _) => set j | None => None end).

(** [json.Unmarshal(text, &v)]: only white space may follow. *)
Definition Unmarshal {A} (set : json -> option A) (text : string) : res A :=
  decoded (match parse text with
           | Some (j, rest) => if skip_space rest =s "" then set j else None
           | None => None
           end).

Section Decoders.
Context `{UnicodeTables}.

(** A slice of structs, decoded into nil. *)
Definition set_rows {A} (fields : list (string * setter A)) (zero : A) (j : json) : option (list A) :=
  match j with
  | JNull => Some []
  | JArr l => mapM (decode_struct fields zero) l
  | _ => None
  end.

Definition github_token_json : string -> res GitHub.tokenResponse := Decode (decode_struct [
  ("access_token", via GitHub.AccessToken (fun v t => GitHub.mkToken v (GitHub.TokenType t) (GitHub.Scope t) (GitHub.TokenError t)) set_string);
  ("token_type", via GitHub.TokenType (fun v t => GitHub.mkToken (GitHub.AccessToken t) v (GitHub.Scope t) (GitHub.TokenError t)) set_string);
  ("scope", via GitHub.Scope (fun v t => GitHub.mkToken (GitHub.AccessToken t) (GitHub.TokenType t) v (GitHub.TokenError t)) set_string);
  ("error", via GitHub.TokenError (fun v t => GitHub.mkToken (GitHub.AccessToken t) (GitHub.TokenType t) (GitHub.Scope t) v) set_string)
  ] (GitHub.mkToken "" "" "" "")).

Definition emails_json : string -> res (list GitHub.emailRow) := Decode (set_rows [
  ("email", via GitHub.Email (fun v r => GitHub.mkEmail v (GitHub.Primary r) (GitHub.Verified r)) set_string);
  ("primary", via GitHub.Primary (fun v r => GitHub.mkEmail (GitHub.Email r) v (GitHub.Verified r)) set_bool);
  ("verified", via GitHub.Verified (fun v r => GitHub.mkEmail (GitHub.Email r) (GitHub.Primary r) v) set_bool)
  ] (GitHub.mkEmail "" false false)).

Definition user_json : string -> res GitHub.userResponse := Decode (decode_struct [("login", set_string)] "").
Definition membership_json : string -> res GitHub.membershipResponse :=
  Decode (decode_struct [("state", set_string)] "").

Definition microsoft_token_json : string -> res Microsoft.tokenResponse := Decode (decode_struct [
  ("access_token", via Microsoft.AccessToken (fun v t => Microsoft.mkToken v (Microsoft.IDToken t) (Microsoft.TokenType t) (Microsoft.TokenError t) (Microsoft.ErrorDescription t)) set_string);
  ("id_token", via Microsoft.IDToken (fun v t => Microsoft.mkToken (Microsoft.AccessToken t) v (Microsoft.TokenType t) (Microsoft.TokenError t) (Microsoft.ErrorDescription t)) set_string);
  ("token_type", via Microsoft.TokenType (fun v t => Microsoft.mkToken (Microsoft.AccessToken t) (Microsoft.IDToken t) v (Microsoft.TokenError t) (Microsoft.ErrorDescription t)) set_string);
  ("error", via Microsoft.TokenError (fun v t => Microsoft.mkToken (Microsoft.AccessToken t) (Microsoft.IDToken t) (Microsoft.TokenType t) v (Microsoft.ErrorDescription t)) set_string);
  ("error_description", via Microsoft.ErrorDescription (fun v t => Microsoft.mkToken (Microsoft.AccessToken t) (Microsoft.IDToken t) (Microsoft.TokenType t) (Microsoft.TokenError t) v) set_string)
  ] (Microsoft.mkToken "" "" "" "" "")).

Import Microsoft.
Definition claims_fields : list (string * setter idTokenClaims) := [
  ("tid", via c_TenantID (fun v c => mkClaims v (Audience c) (Issuer c) (ExpiresAt c) (NotBefore c) (c_Email c) (PreferredUsername c) (EmailVerified c)) set_string);
  ("aud", via Audience (fun v c => mkClaims (c_TenantID c) v (Issuer c) (ExpiresAt c) (NotBefore c) (c_Email c) (PreferredUsername c) (EmailVerified c)) set_string);
  ("iss", via Issuer (fun v c => mkClaims (c_TenantID c) (Audience c) v (ExpiresAt c) (NotBefore c) (c_Email c) (PreferredUsername c) (EmailVerified c)) set_string);
  ("exp", via ExpiresAt (fun v c => mkClaims (c_TenantID c) (Audience c) (Issuer c) v (NotBefore c) (c_Email c) (PreferredUsername c) (EmailVerified c)) set_int64);
  ("nbf", via NotBefore (fun v c => mkClaims (c_TenantID c) (Audience c) (Issuer c) (ExpiresAt c) v (c_Email c) (PreferredUsername c) (EmailVerified c)) set_int64);
  ("email", via c_Email (fun v c => mkClaims (c_TenantID c) (Audience c) (Issuer c) (ExpiresAt c) (NotBefore c) v (PreferredUsername c) (EmailVerified c)) set_string);
  ("preferred_username", via PreferredUsername (fun v c => mkClaims (c_TenantID c) (Audience c) (Issuer c) (ExpiresAt c) (NotBefore c) (c_Email c) v (EmailVerified c)) set_string);
  ("email_verified", via EmailVerified (fun v c => mkClaims (c_TenantID c) (Audience c) (Issuer c) (ExpiresAt c) (NotBefore c) (c_Email c) (PreferredUsername c) v) (set_pointer false set_bool))].

Definition claims_json (payload : list Z) : res idTokenClaims :=
  Unmarshal (decode_struct claims_fields (mkClaims "" "" "" 0 0 "" "" None)) (bytes payload).
End Decoders.

(** ** On concrete texts *)
Definition obj (l : list (string * json)) : string := print (JObj l).

Example reads_emails :
  @emails_json ascii_tables (print (JArr [
    JObj [("email", JStr "a@b.c"); ("primary", JBool true); ("verified", JBool true); ("visibility", JNull)]; JNull]))
  = Ok [GitHub.mkEmail "a@b.c" true true; GitHub.mkEmail "" false false].
Proof. vm_compute. reflexivity. Qed.
(** A flag that is no JSON boolean is no flag. *)
Example strict_flags :
  is_ok (@emails_json ascii_tables (print (JArr [JObj [("email", JStr "a@b.c"); ("verified", JStr "true")]]))) = false.
Proof. vm_compute. reflexivity. Qed.
Example reads_claims :
  let text s := map byte_of (String.list_ascii_of_string s) in
  @claims_json ascii_tables (text (obj [("tid", JStr "t"); ("exp", JNum "1700000000"); ("email_verified", JBool false)]))
    = Ok (Microsoft.mkClaims "t" "" "" 1700000000 0 "" "" (Some false)) /\
  is_ok (@claims_json ascii_tables (text (obj [("exp", JNum "1.7e9")]))) = false /\
  is_ok (@claims_json ascii_tables (text (obj [("tid", JStr "t")] +:+ "x"))) = false.
Proof. vm_compute. repeat split. Qed.
