(* ===== verification/Server.v ===== *)
(** * The service: the routes of cmd/server/main.go

    The router of package chi is an interface: it picks an entry of the route
    table whose method is the request's and whose pattern matches the path,
    and binds the URL parameters.  The JSON decoder's result on the request
    body, one per request type, arrives with the request. *)
From Stdlib Require Import ZArith Lia Ascii.
From stdpp Require Import base gmap strings list relations.
From S2P Require Import Prelude GoStrings Errors State Tables Effects AccountStore.
From S2P Require Import ComponentStore SessionStore OperatorStore AuditStore ComponentCache.
From S2P Require Import Http ForwardAuth RequestMeta OAuthState RateLimiter AdminGuards.
From S2P Require Import Pagination KeysHandler AccountsHandler OperatorsHandler.
From S2P Require Import ComponentsHandler AdminUI AuthHandler.
Open Scope packyard_scope.
Open Scope eff_scope.

(** ** The router *)
(** A pattern segment in braces matches any one segment; a final star matches
    the rest of the path. *)
Fixpoint segments_match (pat path : list string) : bool :=
  match pat, path with
  | [], [] => true
  | p :: pat', s :: path' =>
      ((p =s "*") && match pat' with [] => true | _ => false end) ||
      ((HasPrefix p "{" || (p =s s)) && segments_match pat' path')
  | _, _ => false
  end.

Definition pattern_match (pat path : string) : bool :=
  segments_match (split_byte pat "/") (split_byte path "/").

(** A route without a method of its own serves all methods. *)
Definition route_match (m : option string) (pat method path : string) : Prop :=
  match m with Some m => m = method | None => True end /\ pattern_match pat path = true.

Definition pattern := (option string * string)%type.

Class Router := {
  find_route : list pattern -> string -> string -> option (nat * (string -> string));
  find_route_sound : forall table method path i params,
    find_route table method path = Some (i, params) ->
    exists m pat, table !! i = Some (m, pat) /\ route_match m pat method path;
  (** the answer when no entry serves the request: 404 or 405 *)
  unrouted : Request -> Response }.

Definition with_params (params : string -> string) (r : Request) : Request :=
  mkRequest (r_method r) (r_path r) (r_header r) (r_values r) (r_cookie r) params
    (r_remote r) (r_operator r).

(** ** What the service is built from *)
Record Bodies := mkBodies {
  b_key : option createKeyRequest;
  b_component : option createComponentRequest;
  b_patch : option ComponentPatch;
  b_account : option createAccountRequest;
  b_account_update : option updateAccountRequest;
  b_operator : option createOperatorRequest;
  b_operator_update : option updateOperatorRequest }.

Record Wiring := mkWiring {
  cacheTTL : Z;
  rpmDataRoot : string;
  keysHandler : KeysHandler;
  providers : gmap string OAuthProvider;
  adminOrigin : originParts;
  indexHTML : option string }.

Section Server.
Context `{SqlDriver} `{UnicodeTables} `{Router} (cfg : Wiring).
Context (MkdirAll : string -> option string).
Context (file_server : string -> Response).

Definition Health : Handler := fun _ => ret (mkResponse 200 true [] [] BEmpty).

(** [ForwardAuthHandler.ServeHTTP] over the caching component store, as a
    response. *)
Definition ForwardAuthRoute : Handler := fun r =>
  a <- @ServeHTTP _ (cached_source (cacheTTL cfg)) r ;;
  ret (mkResponse (ar_status a) true []
         (match ar_allow a with Some v => [("Allow", v)] | None => [] end) BEmpty).

Definition public_routes : list (pattern * Handler) := [
  ((Some "GET", "/health"), Health);
  ((Some "GET", "/auth"), ForwardAuthRoute);
  ((Some "GET", "/api/v1/auth/login/{provider}"),
   RateLimit defaults (Login (providers cfg)));
  ((Some "GET", "/api/v1/auth/callback/{provider}"),
   RateLimit defaults (Callback (providers cfg) ""));
  ((None, "/admin"), AdminCSP (AdminPage (indexHTML cfg) file_server));
  ((None, "/admin/*"), AdminCSP (AdminPage (indexHTML cfg) file_server)) ].

(** The routes of the session-protected group. *)
Definition api_routes (b : Bodies) : list (pattern * Handler) :=
  let visibility := ComponentVisibility (keysHandler cfg) in
  let root := rpmDataRoot cfg in
  let ttl := cacheTTL cfg in [
  ((Some "GET", "/api/v1/auth/whoami"), Whoami);
  ((Some "POST", "/api/v1/auth/logout"), Logout);
  ((Some "POST", "/api/v1/keys"), Keys_Create (keysHandler cfg) (b_key b));
  ((Some "GET", "/api/v1/keys"), Keys_List (keysHandler cfg));
  ((Some "GET", "/api/v1/keys/{id}"), Keys_Get (keysHandler cfg));
  ((Some "DELETE", "/api/v1/keys/{id}"), Keys_Delete);
  ((Some "POST", "/api/v1/components"), Components_Create ttl root MkdirAll (b_component b));
  ((Some "GET", "/api/v1/components"), Components_List);
  ((Some "GET", "/api/v1/components/{name}"), Components_GetOne ttl);
  ((Some "PATCH", "/api/v1/components/{name}"), Components_Update ttl root MkdirAll (b_patch b));
  ((Some "DELETE", "/api/v1/components/{name}"), Components_Delete ttl);
  ((Some "POST", "/api/v1/accounts"), Accounts_Create (b_account b));
  ((Some "GET", "/api/v1/accounts"), Accounts_List);
  ((Some "GET", "/api/v1/accounts/{id}"), Accounts_Get);
  ((Some "PATCH", "/api/v1/accounts/{id}"), Accounts_Update (b_account_update b));
  ((Some "DELETE", "/api/v1/accounts/{id}"), Accounts_Delete);
  ((Some "GET", "/api/v1/accounts/{id}/keys"), Accounts_ListKeys visibility);
  ((Some "POST", "/api/v1/accounts/{id}/keys"), Accounts_IssueKey visibility (b_key b));
  ((Some "GET", "/api/v1/audit"), Audit_List);
  ((Some "GET", "/api/v1/operators"), Operators_List);
  ((Some "POST", "/api/v1/operators"), Operators_Create (b_operator b));
  ((Some "PATCH", "/api/v1/operators/{id}"), Operators_Update (b_operator_update b)) ].

Definition routes (b : Bodies) : list (pattern * Handler) :=
  public_routes ++
  map (fun e => (e.1, admin_route (adminOrigin cfg) e.2)) (api_routes b).

(** One request.  A path at or below /api/v1 that no route serves still passes the
    guards of the group. *)
Definition serve (b : Bodies) : Handler := fun r =>
  match find_route (map fst (routes b)) (r_method r) (r_path r) with
  | Some (i, params) =>
      match routes b !! i with
      | Some e => e.2 (with_params params r)
      | None => ret (unrouted r)
      end
  | None =>
      if (r_path r =s "/api/v1") || HasPrefix (r_path r) "/api/v1/"
      then admin_route (adminOrigin cfg) (fun r => ret (unrouted r)) r
      else ret (unrouted r)
  end.
End Server.
