(* ===== verification/Background.v ===== *)
(** * The service over time: requests, and the two reapers between them

    main.go starts two goroutines that never end: [reapLoop] of the OAuth
    state store and [reapLoop] of the rate limiter.  Each pass of a reaper
    holds its mutex, as [Put], [Consume] and [check] do, so a history of the
    service is a sequence of requests and passes, in any order. *)
From Stdlib Require Import ZArith Lia.
From stdpp Require Import base gmap strings list relations.
From S2P Require Import Prelude GoStrings Errors State Tables Effects Http OAuthState RateLimiter.
From S2P Require Import AdminGuards AuthHandler Server.
Open Scope packyard_scope.
Open Scope eff_scope.

(** One pass of each loop, at the time it reads. *)
Definition reap_states : Eff unit :=
  t <- now ;; fun w => (tt, with_states (reap t (w_states w)) w).

Definition reap_limiter (lim : RateLimiterConfig) : Eff unit :=
  t <- now ;; fun w => (tt, with_buckets (reap_buckets lim t (w_buckets w)) w).

Lemma reap_states_moves {R : relation Database} `{!PreOrder R} : moves R reap_states.
Proof. unfold reap_states. apply moves_bind; [apply moves_now|]. intros t. by apply moves_local. Qed.

Lemma reap_limiter_moves {R : relation Database} `{!PreOrder R} lim : moves R (reap_limiter lim).
Proof. unfold reap_limiter. apply moves_bind; [apply moves_now|]. intros t. by apply moves_local. Qed.

Inductive event :=
| Arrives (b : Bodies) (r : Request)
| StatesReaped
| BucketsReaped.

Section Run.
Context `{SqlDriver} `{UnicodeTables} `{Router} (cfg : Wiring).
Context (MkdirAll : string -> option string).
Context (file_server : string -> Response).

Definition run_event (e : event) : Eff (option Response) :=
  match e with
  | Arrives b r =>
      resp <- serve cfg MkdirAll file_server b r ;;
      ret (Some resp)
  | StatesReaped => reap_states ;;; ret None
  | BucketsReaped => reap_limiter defaults ;;; ret None
  end.

(** A history, and the answers to its requests. *)
Fixpoint run_service (es : list event) : Eff (list Response) :=
  match es with
  | [] => ret []
  | e :: es =>
      a <- run_event e ;;
      rest <- run_service es ;;
      ret (option_list a ++ rest)
  end.
End Run.
