(* ===== verification/Requests.v ===== *)
(** * Request bodies: MaxBytesReader and the decoder of encoding/json

    The text of a body, read up to a limit, parsed and decoded into the
    request type of each handler as reflection on the struct tags does it. *)
From Stdlib Require Import ZArith Lia Ascii.
From stdpp Require Import base gmap strings list.
From S2P Require Import Prelude GoStrings Errors State Times Effects AuditStore Durations Json JsonSpec.
From S2P Require Import JsonDecode.
From S2P Require Import Http RequestMeta KeysHandler AccountsHandler OperatorsHandler.
From S2P Require Import ComponentsHandler Server.
Open Scope packyard_scope.

(** ** Reading *)
(** [http.MaxBytesReader(w, r.Body, 1<<20)]. *)
Definition max_body : Z := 2 ^ 20.

Definition oversized (body : string) : bool := (max_body <? Z.of_nat (String.length body))%Z.
Definition limited (body : string) : string :=
  if oversized body then stake (Z.to_nat max_body) body else body.

(** An array or object ends with its bracket; any other value ends at the
    byte after it or at the end of the body. *)
Definition self_delimiting (j : json) : bool :=
  match j with JArr _ | JObj _ => true | _ => false end.

(** The first value of the body, as the decoder reads it. *)
Definition read_value (body : string) : option json :=
  match parse (limited body) with
  | Some (j, rest) =>
      if negb (self_delimiting j) && (rest =s "") && oversized body then None else Some j
  | None => None
  end.

(** ** The request types *)
Definition key_fields : list (string * setter createKeyRequest) := [
  ("account_id", via ck_AccountID (fun v r => mkCreateKey v (ck_Component r) (ck_Label r) (ck_ExpiresAt r)) set_string);
  ("component", via ck_Component (fun v r => mkCreateKey (ck_AccountID r) v (ck_Label r) (ck_ExpiresAt r)) set_string);
  ("label", via ck_Label (fun v r => mkCreateKey (ck_AccountID r) (ck_Component r) v (ck_ExpiresAt r)) set_string);
  ("expires_at", via ck_ExpiresAt (fun v r => mkCreateKey (ck_AccountID r) (ck_Component r) (ck_Label r) v)
     (set_pointer zero_time set_time)) ].
Definition zero_key : createKeyRequest := mkCreateKey "" "" "" None.

Definition account_fields : list (string * setter createAccountRequest) := [
  ("email", via ca_Email (fun v r => mkCreateAccount v (ca_OrgName r)) set_string);
  ("org_name", via ca_OrgName (fun v r => mkCreateAccount (ca_Email r) v) set_string) ].
Definition zero_account : createAccountRequest := mkCreateAccount "" "".

Definition account_update_fields : list (string * setter updateAccountRequest) := [
  ("email", via ua_Email (fun v r => mkUpdateAccount v (ua_OrgName r) (ua_Status r)) (set_pointer "" set_string));
  ("org_name", via ua_OrgName (fun v r => mkUpdateAccount (ua_Email r) v (ua_Status r)) (set_pointer "" set_string));
  ("status", via ua_Status (fun v r => mkUpdateAccount (ua_Email r) (ua_OrgName r) v) (set_pointer "" set_string)) ].
Definition zero_account_update : updateAccountRequest := mkUpdateAccount None None None.

Definition operator_fields : list (string * setter createOperatorRequest) := [
  ("email", via co_Email (fun v r => mkCreateOperator v (co_Role r)) set_string);
  ("role", via co_Role (fun v r => mkCreateOperator (co_Email r) v) set_string) ].
Definition zero_operator : createOperatorRequest := mkCreateOperator "" "".

Definition operator_update_fields : list (string * setter updateOperatorRequest) := [
  ("role", via uo_Role (fun v r => mkUpdateOperator v (uo_Status r)) (set_pointer "" set_string));
  ("status", via uo_Status (fun v r => mkUpdateOperator (uo_Role r) v) (set_pointer "" set_string)) ].
Definition zero_operator_update : updateOperatorRequest := mkUpdateOperator None None.

(** The component requests while they are decoded: their lists as slices. *)
Record component_draft := mkDraft {
  d_name : string; d_visibility : option string; d_series : slice; d_families : slice; d_archs : slice }.
Definition zero_draft : component_draft := mkDraft "" None None None None.

Definition list_fields : list (string * setter component_draft) := [
  ("rpm_series", via d_series (fun v r => mkDraft (d_name r) (d_visibility r) v (d_families r) (d_archs r)) set_slice);
  ("rpm_os_families", via d_families (fun v r => mkDraft (d_name r) (d_visibility r) (d_series r) v (d_archs r)) set_slice);
  ("rpm_architectures", via d_archs (fun v r => mkDraft (d_name r) (d_visibility r) (d_series r) (d_families r) v) set_slice) ].

(** In POST the visibility is a string, in PATCH a pointer to one. *)
Definition set_visibility (set : setter (option string)) : setter component_draft :=
  via d_visibility (fun v r => mkDraft (d_name r) v (d_series r) (d_families r) (d_archs r)) set.
Definition component_fields : list (string * setter component_draft) :=
  ("name", via d_name (fun v r => mkDraft v (d_visibility r) (d_series r) (d_families r) (d_archs r)) set_string) ::
  ("visibility", set_visibility (fun j old => Some <$> set_string j (default "" old))) :: list_fields.
Definition patch_fields : list (string * setter component_draft) :=
  ("visibility", set_visibility (set_pointer "" set_string)) :: list_fields.

Definition draft_component (d : component_draft) : createComponentRequest :=
  mkCreateComponent (d_name d) (default "" (d_visibility d)) (visible (d_series d))
    (visible (d_families d)) (visible (d_archs d)).
Definition draft_patch (d : component_draft) : ComponentPatch :=
  let list s := (fun _ => visible s) <$> s in
  mkPatch (d_visibility d) (list (d_series d)) (list (d_families d)) (list (d_archs d)).

Section Bodies.
Context `{UnicodeTables}.

(** [json.NewDecoder(r.Body).Decode(&req)] for each request type. *)
Definition decode_body_as {A} (fields : list (string * setter A)) (zero : A) (body : string) : option A :=
  match read_value body with Some j => decode_struct fields zero j | None => None end.

Definition bodies (body : string) : Bodies := mkBodies
  (decode_body_as key_fields zero_key body)
  (draft_component <$> decode_body_as component_fields zero_draft body)
  (draft_patch <$> decode_body_as patch_fields zero_draft body)
  (decode_body_as account_fields zero_account body)
  (decode_body_as account_update_fields zero_account_update body)
  (decode_body_as operator_fields zero_operator body)
  (decode_body_as operator_update_fields zero_operator_update body).
End Bodies.

(** ** On concrete bodies *)
Definition text_object (l : list (string * json)) : string := print (JObj l).
Definition demo_bodies (body : string) : Bodies :=
  @bodies ascii_tables body.

Example decodes_key :
  b_key (demo_bodies (text_object [("Account_ID", JStr "a"); ("component", JStr "core"); ("x", JNum "1");
                                   ("component", JNull); ("expires_at", JStr "2030-01-01T00:00:00Z")] +:+ "junk"))
  = Some (mkCreateKey "a" "core" "" (Some 1893456000000000000%Z)).
Proof. vm_compute. reflexivity. Qed.
Example null_is_empty : b_account (demo_bodies " null") = Some zero_account.
Proof. vm_compute. reflexivity. Qed.
Example refuses_types :
  map (fun b => b_key (demo_bodies b))
    [""; "{"; "[]"; "true"; text_object [("label", JNum "1")]; text_object [("expires_at", JStr "soon")]]
  = [None; None; None; None; None; None].
Proof. vm_compute. reflexivity. Qed.
(** A null element keeps what an earlier duplicate of the field left there. *)
Example stale_element :
  b_patch (demo_bodies (text_object [("rpm_series", JArr [JStr "a"; JStr "b"]); ("rpm_series", JArr [JStr "c"]);
                                     ("RPM_SERIES", JArr [JStr "d"; JNull])]))
  = Some (mkPatch None (Some (Some ["d"; "b"])) None None).
Proof. vm_compute. reflexivity. Qed.
