(* ===== verification/Startup.v ===== *)
(** * Start-up of the process: cmd/server/main.go

    From the environment and a database file to the configured service, or an
    exit with the message that is logged.  The providers built over an HTTP
    client are [GitHub.provider] and [Microsoft.provider]; here they are
    functions of the configuration. *)
From Stdlib Require Import ZArith Lia Ascii.
From stdpp Require Import base gmap strings list.
From S2P Require Import Prelude GoStrings Errors Metrics State Tables Effects AccountStore.
From S2P Require Import ComponentStore OperatorStore ComponentCache Http AdminGuards Opening.
From S2P Require Import KeysHandler AuthHandler Providers Server Durations.
Open Scope packyard_scope.
Open Scope eff_scope.

Inductive boot (A : Type) :=
| Running (a : A)
| Exited (message : string) (* os.Exit(1) *)
| Panicked.
Arguments Running {A} a.
Arguments Exited {A} message.
Arguments Panicked {A}.

Definition bind_boot {A B} (m : Eff (boot A)) (k : A -> Eff (boot B)) : Eff (boot B) :=
  bind m (fun r => match r with
                   | Running a => k a
                   | Exited m => ret (Exited m)
                   | Panicked => ret Panicked
                   end).
Notation "x <-! m ;; k" := (bind_boot m (fun x => k))
  (at level 100, m at next level, right associativity) : eff_scope.

(** [if err != nil { logger.Error(message); os.Exit(1) }]. *)
Definition or_exit {A} (message : string) (m : Eff (res A)) : Eff (boot A) :=
  r <- m ;; ret (match r with Ok a => Running a | Err _ => Exited message end).

(** A variable that is empty counts as unset. *)
Definition any_set (l : list string) : bool := existsb (fun s => s <>s "") l.
Definition all_set (l : list string) : bool := forallb (fun s => s <>s "") l.

Definition db_path (env : Env) : string :=
  let dbPath := Getenv env "DB_PATH" in if dbPath =s "" then "/data/db/auth.db" else dbPath.

(** [NewComponentsHandler]. *)
Definition rpm_root (rpmDataRoot : string) : string :=
  if rpmDataRoot =s "" then "/data/rpm" else rpmDataRoot.

(** Mode -health-check: the exit code for the answer of GET /health. *)
Definition health_check (status : option Z) : Z :=
  match status with Some s => if (s =? 200)%Z then 0 else 1 | None => 1 end%Z.

Section Startup.
Context `{SqlDriver} `{UnicodeTables}.
Context (mail_ParseAddress : string -> bool).
Context (github_client : GitHub.Config -> OAuthProvider).
Context (microsoft_client : Microsoft.Config -> OAuthProvider).
Context (env : Env).

Definition github_vars : list string := map (Getenv env)
  ["PACKYARD_GITHUB_CLIENT_ID"; "PACKYARD_GITHUB_CLIENT_SECRET";
   "PACKYARD_GITHUB_REDIRECT_URI"; "PACKYARD_GITHUB_ORG"].

Definition buildGitHubProvider : boot (option OAuthProvider) :=
  if negb (any_set github_vars) then Running None
  else if negb (all_set github_vars) then Exited
    "github oauth provider is partially configured; require all of CLIENT_ID/CLIENT_SECRET/REDIRECT_URI/ORG together"
  else match GitHub.New (GitHub.mkConfig
               (Getenv env "PACKYARD_GITHUB_CLIENT_ID") (Getenv env "PACKYARD_GITHUB_CLIENT_SECRET")
               (Getenv env "PACKYARD_GITHUB_REDIRECT_URI") (Getenv env "PACKYARD_GITHUB_ORG") "" "") with
  | Some cfg => Running (Some (github_client cfg))
  | None => Panicked
  end.

Definition microsoft_vars : list string := map (Getenv env)
  ["PACKYARD_MICROSOFT_CLIENT_ID"; "PACKYARD_MICROSOFT_CLIENT_SECRET";
   "PACKYARD_MICROSOFT_REDIRECT_URI"; "PACKYARD_MICROSOFT_TENANT_ID"].

Definition buildMicrosoftProvider : boot (option OAuthProvider) :=
  if negb (any_set microsoft_vars) then Running None
  else if negb (all_set microsoft_vars) then Exited
    "microsoft oauth provider is partially configured; require all of CLIENT_ID/CLIENT_SECRET/REDIRECT_URI/TENANT_ID together"
  else match Microsoft.New (Microsoft.mkConfig
               (Getenv env "PACKYARD_MICROSOFT_TENANT_ID") (Getenv env "PACKYARD_MICROSOFT_CLIENT_ID")
               (Getenv env "PACKYARD_MICROSOFT_CLIENT_SECRET")
               (Getenv env "PACKYARD_MICROSOFT_REDIRECT_URI") "") with
  | Some cfg => Running (Some (microsoft_client cfg))
  | None => Panicked
  end.

Definition with_provider (name : string) (p : option OAuthProvider)
    (m : gmap string OAuthProvider) : gmap string OAuthProvider :=
  match p with Some p => <[name := p]> m | None => m end.

(** From PACKYARD_ADMIN_HOST to the origin the CSRF guard compares with. *)
Definition admin_origin : boot originParts :=
  let adminHost := Getenv env "PACKYARD_ADMIN_HOST" in
  if adminHost =s "" then Exited "PACKYARD_ADMIN_HOST is required for CSRF enforcement (D15)"
  else if negb (validAdminHost adminHost) then
    Exited "PACKYARD_ADMIN_HOST must be a bare scheme://host[:port] origin"
  else match parseAdminHostStrict adminHost with
  | Some origin => Running origin
  | None => Panicked
  end.

(** [main] once the store is open. *)
Definition configure (indexHTML : option string) : Eff (boot Wiring) :=
  sets <-! or_exit "failed to load components from database" LoadComponentSets ;;
  let keys := startup_keys_handler sets.1 sets.2 in
  _ <-! or_exit "bootstrap operator failed"
    (BootstrapOperatorFromEnv mail_ParseAddress (Getenv env "PACKYARD_BOOTSTRAP_OPERATOR_EMAIL")) ;;
  gh <-! ret buildGitHubProvider ;;
  ms <-! ret buildMicrosoftProvider ;;
  ttl <-! or_exit "invalid public-component cache configuration"
    (ret (envDuration env "PACKYARD_PUBLIC_COMPONENT_CACHE_TTL" (30 * Second) Hour)) ;;
  origin <-! ret admin_origin ;;
  ret (Running (mkWiring ttl (rpm_root (Getenv env "RPM_DATA_ROOT")) keys
    (with_provider ProviderMicrosoft ms (with_provider ProviderGitHub gh ∅)) origin indexHTML)).

(** A process that starts at second [t] on the files [files]: [faults] are the
    driver's failures while it opens the file; the clock, the later failures
    and the entropy are those of [w]. *)
Definition fresh_world (db : Database) (w : World) : World :=
  mkWorld db (mkCache ∅ ∅) ∅ ∅ no_metrics (w_clock w) (w_fault w) (w_rand w).

Definition main (files : string -> Disk) (t : Z) (faults : nat -> option string)
    (indexHTML : option string) (w : World) : boot Wiring * World :=
  match open_disk t faults (files (db_path env)) with
  | (Err _, c) => (Exited "failed to open store", fresh_world (database_of (disk c)) w)
  | (Ok _, c) => configure indexHTML (fresh_world (database_of (disk c)) w)
  end.
End Startup.
