(* ===== verification/ServerSpec.v ===== *)
(** * What the service as a whole promises: writes are authorised *)
From Stdlib Require Import ZArith Lia Ascii.
From stdpp Require Import base gmap strings list relations.
From S2P Require Import Prelude GoStrings Errors State Tables Effects AccountStore.
From S2P Require Import ComponentStore SessionStore OperatorStore AuditStore StoreInvariant.
From S2P Require Import StoreMethods ComponentCache Http ForwardAuth RequestMeta OAuthState.
From S2P Require Import RateLimiter AdminGuards GuardsSpec Pagination KeysHandler.
From S2P Require Import AccountsHandler OperatorsHandler ComponentsHandler AdminUI AuthHandler.
From S2P Require Import Server Fixtures.
Open Scope packyard_scope.
Open Scope eff_scope.

(** ** Bookkeeping and business data *)
(** What a request may change without an operator's authority: usage
    counters, the columns a login fills in, sessions, the audit log. *)
Definition unused (r : key_row) : key_row :=
  mkKeyRow (k_component r) (k_label r) (k_active r) (k_created_at r) (k_expires_at r) 0
    (k_account_id r).
Definition unlogged (r : operator_row) : operator_row :=
  mkOperatorRow (o_email r) (o_role r) (o_status r) (o_allowlisted_at r) (o_allowlisted_by r)
    None None None None.

Definition unwritten (db db' : Database) : Prop :=
  accounts db' = accounts db /\ components db' = components db /\
  unused <$> subscription_key db' = unused <$> subscription_key db /\
  unlogged <$> operators db' = unlogged <$> operators db.

#[export] Instance unwritten_preorder : PreOrder unwritten.
Proof.
  split; [by intros db|]. intros a b c (? & ? & ? & ?) (? & ? & ? & ?).
  repeat split; congruence.
Qed.

(** ** The store methods of the bookkeeping *)
Section Bookkeeping.
Context `{SqlDriver} `{UnicodeTables}.

Lemma sessions_unwritten f db : unwritten db (set_sessions f db).
Proof. by repeat split. Qed.

Lemma update_operator_unwritten id guard upd :
  (forall r, unlogged (upd r) = unlogged r) ->
  forall db n db', sql_update_operator id guard upd db = Done n db' -> unwritten db db'.
Proof.
  intros Hu db n db'. unfold sql_update_operator. intros Hs. inv_stmt Hs; try done.
  repeat split; try done. simpl. rewrite fmap_insert, Hu.
  apply insert_id. rewrite lookup_fmap. by simplify_option_eq.
Qed.

Lemma increment_unwritten id db n db' : sql_increment id db = Done n db' -> unwritten db db'.
Proof.
  intros [= _ <-]. repeat split; try done. simpl. apply map_eq. intros k.
  rewrite !lookup_fmap, lookup_update_where. destruct (subscription_key db !! k); [|done].
  simpl. by destruct (k =s id).
Qed.

Lemma IncrementUsage_unwritten id : moves unwritten (IncrementUsage id).
Proof. unfold IncrementUsage. solve_moves. apply moves_sql. intros ? ? ?. apply increment_unwritten. Qed.

Lemma Write_unwritten e : moves unwritten (Write e).
Proof. unfold Write. solve_moves. apply moves_sql. by intros db u db' [= _ <-]. Qed.

Lemma WriteFromRequest_unwritten r e : moves unwritten (WriteFromRequest r e).
Proof. unfold WriteFromRequest. cbv zeta. apply Write_unwritten. Qed.

Lemma CreateSession_unwritten o i u : moves unwritten (CreateSession o i u).
Proof.
  unfold CreateSession, generateSessionID. solve_moves. apply moves_sql.
  unfold sql_insert_session. intros db x db' Hs. by inv_stmt Hs.
Qed.

Lemma TouchSession_unwritten id t : moves unwritten (TouchSession id t).
Proof.
  unfold TouchSession. solve_moves. apply moves_sql.
  unfold sql_touch_session. intros db x db' Hs. by inv_stmt Hs.
Qed.

Lemma DeleteSession_unwritten id : moves unwritten (DeleteSession id).
Proof. unfold DeleteSession. solve_moves. apply moves_sql. by intros db u db' [= _ <-]. Qed.

Lemma UpdateLastLogin_unwritten id t : moves unwritten (UpdateLastLogin id t).
Proof. unfold UpdateLastLogin. solve_moves. apply moves_sql. by apply update_operator_unwritten. Qed.

Lemma UpdateLoginProvider_unwritten id p u : moves unwritten (UpdateLoginProvider id p u).
Proof.
  unfold UpdateLoginProvider. solve_moves. apply moves_sql. by apply update_operator_unwritten.
Qed.

Lemma cached_get_unwritten ttl n : moves unwritten (CachedGetComponent ttl n).
Proof. apply CachedGetComponent_moves; apply _. Qed.
End Bookkeeping.

#[export] Hint Resolve IncrementUsage_unwritten Write_unwritten WriteFromRequest_unwritten
  CreateSession_unwritten TouchSession_unwritten DeleteSession_unwritten
  UpdateLastLogin_unwritten UpdateLoginProvider_unwritten cached_get_unwritten : packyard.

(** ** Patterns *)
Lemma segments_match_lookup pat path i s :
  segments_match pat path = true -> pat !! i = Some s -> HasPrefix s "{" = false -> s <> "*" ->
  path !! i = Some s.
Proof.
  revert path i. induction pat as [|p pat IH]; intros [|x path] i Hm Hi Hp Hs; try done.
  cbn [segments_match] in Hm. apply orb_true_iff in Hm as [Hm|Hm].
  - apply andb_true_iff in Hm as [Hstar Hnil]. string_reflect. destruct pat; [|done].
    destruct i as [|i]; simpl in Hi; [congruence|done].
  - apply andb_true_iff in Hm as [Hx Hm]. destruct i as [|i]; simpl in *; [|by eapply IH].
    injection Hi as ->. rewrite Hp in Hx. simpl in Hx. by apply String.eqb_eq in Hx as ->.
Qed.

Lemma TrimRightByte_prefix s c : exists t, s = TrimRightByte s c +:+ t.
Proof.
  induction s as [|d s [t IH]]; [by exists ""|]. cbn [TrimRightByte].
  destruct (TrimRightByte s c) as [|e u] eqn:E.
  - destruct (Ascii.eqb d c); [by exists (String d s)|by exists s].
  - exists t. exact (f_equal (String d) IH).
Qed.

(** The one path the role guard lets a readonly operator mutate on. *)
Lemma logout_segment path :
  TrimRightByte path "/" = "/api/v1/auth/logout" -> split_byte path "/" !! 3 = Some "auth".
Proof.
  intros Ht. destruct (TrimRightByte_prefix path "/") as [t Hp]. rewrite Hp, Ht. reflexivity.
Qed.

(** ** The handlers *)
Section Handlers.
Context `{SqlDriver} `{UnicodeTables} `{Router} (cfg : Wiring).
Context (MkdirAll : string -> option string).
Context (file_server : string -> Response).

(** A handler that leaves the business data alone. *)
Definition quiet (h : Handler) : Prop := forall r, moves unwritten (h r).

Ltac solve_quiet := cbv zeta; solve_moves; try (apply moves_ret).

Lemma RateLimit_quiet lim h : quiet h -> quiet (RateLimit lim h).
Proof. intros Hh r. unfold RateLimit. solve_quiet; apply Hh. Qed.

Lemma failCallback_quiet r e p s c m why : moves unwritten (failCallback r e p s c m why).
Proof. unfold failCallback. solve_quiet. Qed.
Hint Resolve failCallback_quiet : packyard.

Lemma Login_quiet : quiet (Login (providers cfg)).
Proof. intros r. unfold Login, RandomHex. solve_quiet. Qed.

Lemma start_session_quiet redir r p i o : moves unwritten (start_session redir r p i o).
Proof. unfold start_session. solve_quiet. Qed.
Hint Resolve start_session_quiet : packyard.

Lemma Callback_quiet redir : quiet (Callback (providers cfg) redir).
Proof. intros r. unfold Callback, exchange_code, match_operator. solve_quiet. Qed.

Lemma ForwardAuth_quiet : quiet (ForwardAuthRoute cfg).
Proof.
  intros r. unfold ForwardAuthRoute, ServeHTTP, authorize, check_credentials, account_gate, answer. cbn [cs_get cached_source].
  solve_quiet.
Qed.

Lemma AdminUI_quiet : quiet (AdminCSP (AdminPage (indexHTML cfg) file_server)).
Proof.
  intros r. unfold AdminCSP, AdminPage. solve_quiet.
Qed.

Lemma public_quiet : Forall (fun e => quiet e.2) (public_routes cfg file_server).
Proof.
  unfold public_routes. repeat apply Forall_cons_2; try apply Forall_nil_2; cbn [snd]; auto using RateLimit_quiet, Login_quiet,
    Callback_quiet, ForwardAuth_quiet, AdminUI_quiet.
  intros req. apply moves_ret.
Qed.

(** ** The guards *)
Lemma session_gate_quiet r : moves unwritten (session_gate r).
Proof. unfold session_gate. solve_quiet. Qed.
Hint Resolve session_gate_quiet : packyard.

Lemma admin_route_quiet expected h : quiet h -> quiet (admin_route expected h).
Proof.
  intros Hh r. unfold admin_route, CSRFGuard, RequireSession, RequireRole, unauthorized.
  solve_quiet; apply Hh.
Qed.

(** A route that writes: a mutating method, and no path of the group's
    auth subtree. *)
Definition writing (p : pattern) : Prop :=
  exists m s, p.1 = Some m /\ safe_method m = false /\
    split_byte p.2 "/" !! 3 = Some s /\ HasPrefix s "{" = false /\ s <> "*" /\ s <> "auth".

Lemma api_routes_quiet b :
  Forall (fun e => quiet e.2 \/ writing e.1) (api_routes cfg MkdirAll b).
Proof.
  unfold api_routes. repeat apply Forall_cons_2; try apply Forall_nil_2; cbn [fst snd];
    try (right; eexists _, _; split; [reflexivity|]; split; [reflexivity|];
         split; [reflexivity|]; split; [reflexivity|]; done).
  all: left; intros req.
  all: unfold Whoami, Logout, Keys_List, Keys_Get, Components_List, Components_GetOne,
    Accounts_List, Accounts_Get, Accounts_ListKeys, with_account, Audit_List, Operators_List.
  all: solve_quiet.
Qed.

(** The guards let a writing route through only for a session in force whose
    operator may write. *)
Lemma writing_route_authorised expected h r w p :
  writing p -> route_match p.1 p.2 (r_method r) (r_path r) ->
  ~ unwritten (w_db w) (w_db (admin_route expected h r w).2) ->
  exists id s o, session_cookie r = Some id /\ in_force (w_db w) (w_clock w 0) id s o /\
    parseOrigin (origin_of r) = Some expected /\ o_role o <> "readonly".
Proof.
  intros (m & s & Hpm & Hsafe & Hseg & Hlit & Hstar & Hauth) [Hm Hpat] Hw. rewrite Hpm in Hm. subst m.
  set (idle := (fun _ => ret no_content) : Handler).
  assert (admin_route expected h r w <> admin_route expected idle r w) as Hne.
  { intros Heq. rewrite Heq in Hw. apply Hw. apply admin_route_quiet. intros ?. apply moves_ret. }
  apply CSRFGuard_differ in Hne as [Ho Hne]. apply RequireSession_differ in Hne
    as (id & sess & o & w' & Hc & Hf & Hne).
  exists id, sess, o. split; [done|]. split; [done|].
  split; [by destruct Ho as [Ho|Ho]; [congruence|]|].
  apply RequireRole_differ in Hne as [Hs|[Hl|(op & [= <-] & Hr)]]; [simpl in Hs; congruence| |done].
  apply logout_segment in Hl. simpl in Hl.
  pose proof (segments_match_lookup _ _ _ _ Hpat Hseg Hlit Hstar). congruence.
Qed.

(** A request that writes passed the guards of a writing route. *)
Lemma serve_writes b r w :
  ~ unwritten (w_db w)
      (w_db (serve cfg MkdirAll file_server b r w).2) ->
  exists id s o, session_cookie r = Some id /\ in_force (w_db w) (w_clock w 0) id s o /\
    parseOrigin (origin_of r) = Some (adminOrigin cfg) /\ o_role o <> "readonly".
Proof.
  intros Hw. unfold serve in Hw.
  match type of Hw with context [find_route (map fst ?rs) _ _] => set (table := rs) in Hw end.
  destruct (find_route _ _ _) as [[i params]|] eqn:Hfind.
  2:{ exfalso. apply Hw. destruct (_ || HasPrefix _ _); [|apply moves_ret].
      apply admin_route_quiet. intros ?. apply moves_ret. }
  apply find_route_sound in Hfind as (m & pat & Hi & Hm). rewrite list_lookup_fmap in Hi.
  destruct (table !! i) as [[p h]|] eqn:He; [|done]. injection Hi as ->. cbn [snd] in Hw.
  subst table. unfold routes in He. apply lookup_app_Some in He as [He|[_ He]].
  - exfalso. apply Hw. pose proof public_quiet as Hq.
    rewrite Forall_lookup in Hq. apply (Hq _ _ He).
  - rewrite list_lookup_fmap in He.
    destruct (api_routes _ _ _ !! _) as [[p' h']|] eqn:Ha; [|done]. injection He as -> <-.
    pose proof (api_routes_quiet b) as Hq. rewrite Forall_lookup in Hq.
    destruct (Hq _ _ Ha) as [Hquiet|Hwr].
    + exfalso. apply Hw. by apply admin_route_quiet.
    + cbn [fst] in Hwr. exact (writing_route_authorised _ h' (with_params params r) w (m, pat) Hwr Hm Hw).
Qed.

(** C5. Nothing but an authorised operator writes business data.  Whatever
    request the service is sent, on whatever route, path and method: if
    accounts, components, keys (beyond their usage counters) or operators
    (beyond what a login records) change at all, then the request carries the
    cookie of a session in force, its Origin (or Referer) is the configured
    admin host, and the session's operator is not readonly. *)
Theorem writes_authorised b r w :
  ~ unwritten (w_db w)
      (w_db (serve cfg MkdirAll file_server b r w).2) ->
  exists id s o, session_cookie r = Some id /\ in_force (w_db w) (w_clock w 0) id s o /\
    parseOrigin (origin_of r) = Some (adminOrigin cfg) /\ o_role o <> "readonly".
Proof. apply serve_writes. Qed.
End Handlers.

(** ** A router, and a concrete write *)
(** The values of the braced segments. *)
Fixpoint bind_params (pat path : list string) (key : string) : string :=
  match pat, path with
  | p :: pat, s :: path =>
      if p =s "{" +:+ key +:+ "}" then s else bind_params pat path key
  | _, _ => ""
  end.

Definition serves (p : pattern) (method path : string) : bool :=
  match p.1 with Some m => m =s method | None => true end && pattern_match p.2 path.

Fixpoint first_match (table : list pattern) (method path : string) :
    option (nat * (string -> string)) :=
  match table with
  | [] => None
  | p :: table =>
      if serves p method path
      then Some (0, bind_params (split_byte p.2 "/") (split_byte path "/"))
      else prod_map S id <$> first_match table method path
  end.

#[refine] Definition first_match_router : Router := {|
  find_route := first_match;
  unrouted := fun _ => writeError 404 "NOT_FOUND" "404 page not found" |}.
Proof.
  induction table as [|[m pat] table IH]; intros method path i params; [done|]. cbn [first_match].
  unfold serves at 1. cbn [fst snd]. destruct (_ && _) eqn:Es.
  - intros [= <- <-]. exists m, pat. split; [done|]. apply andb_true_iff in Es as [Em Ep].
    split; [|done]. destruct m; [by apply String.eqb_eq in Em|done].
  - destruct (first_match table method path) as [[j ps]|] eqn:Ef; [|done].
    intros [= <- <-]. apply (IH _ _ _ _ Ef).
Defined.

Definition demo_origin : originParts := mkOrigin "https" "admin.example.org" "".

Definition demo_wiring : Wiring :=
  mkWiring (30 * Second) "" (startup_keys_handler {["core"; "pub"]} {["pub"]}) ∅ demo_origin None.
Definition no_bodies : Bodies := mkBodies None None None None None None None.

Definition demo_revoke : Request :=
  demo_request "DELETE" ("/api/v1/keys/" +:+ demo_key) [("Origin", "https://admin.example.org")]
    [(SessionCookieName, "sess")].

Definition demo_serve (b : Bodies) (r : Request) : Response * World :=
  @serve sqlite_driver ascii_tables first_match_router demo_wiring (fun _ => None)
    (fun _ => no_content) b r (demo_world demo_db).

Lemma demo_revoke_writes : ~ unwritten demo_db (w_db (demo_serve no_bodies demo_revoke).2).
Proof.
  intros (_ & _ & Hk & _).
  apply (f_equal (fun t : gmap string key_row => k_active <$> t !! demo_key)) in Hk.
  vm_compute in Hk. discriminate Hk.
Qed.

Lemma writes_authorised_witness :
  exists id s o, session_cookie demo_revoke = Some id /\ in_force demo_db demo_now id s o /\
    @parseOrigin ascii_tables (origin_of demo_revoke) = Some demo_origin /\
    o_role o <> "readonly".
Proof.
  exact (@writes_authorised sqlite_driver ascii_tables first_match_router demo_wiring
    (fun _ => None) (fun _ => no_content) no_bodies demo_revoke
    (demo_world demo_db) demo_revoke_writes).
Defined.
