(* ===== verification/Logging.v ===== *)
(** * The access log: middleware/logging.go

    [RequestLogger] wraps every route (main.go).  What it adds to a response is
    one line; the line is returned beside the response here. *)
From Stdlib Require Import ZArith Lia Ascii.
From stdpp Require Import base gmap strings list relations.
From S2P Require Import Prelude GoStrings Errors State Tables Effects Http RequestMeta AdminGuards.
From S2P Require Import AuthHandler Server Fixtures ServerSpec.
Open Scope packyard_scope.
Open Scope eff_scope.

(** ** responseWriter *)
(** The status it reports: of the last WriteHeader, 200 without one. *)
Definition write_status (status : Z) (o : write_op) : Z :=
  match o with WriteHeader code => code | WriteBody => status end.
Definition logged_status (os : list write_op) : Z := fold_left write_status os 200%Z.

(** A handler that sets its header once, before its body, is logged with the
    status it is answered with; so is one that sets none. *)
Lemma logged_status_once code : forall n, logged_status (WriteHeader code :: repeat WriteBody n) = code.
Proof. intros n. unfold logged_status. cbn. by induction n. Qed.

Lemma logged_status_none n : logged_status (repeat WriteBody n) = 200%Z.
Proof. unfold logged_status. by induction n. Qed.

(** The tracker of the session guard keeps the first status instead. *)
Lemma trackers_agree code n :
  tw_status (tracker_of (WriteHeader code :: repeat WriteBody n)) =
  logged_status (WriteHeader code :: repeat WriteBody n).
Proof.
  rewrite logged_status_once. unfold tracker_of. cbn. induction n as [|n IH]; [done|]. exact IH.
Qed.

Record log_line := mkLine {
  ll_method : string; ll_path : string; ll_status : Z; ll_latency : Z }.

Definition RequestLogger (next : Handler) (r : Request) : Eff (Response * log_line) :=
  start <- now ;;
  resp <- next r ;;
  t <- now ;;
  ret (resp, mkLine (r_method r) (logsafe_String (r_path r)) (rs_status resp) (t - start)%Z).

(** The logger passes the answer on, in a world that differs by its two
    readings of the clock. *)
Lemma RequestLogger_answer next r w :
  (RequestLogger next r w).1.1 = (next r (tick_clock w)).1.
Proof.
  unfold RequestLogger. rewrite bind_run. cbn [now fst snd]. rewrite bind_run, bind_run. reflexivity.
Qed.

(** Of the request, the line holds the method and the path on one line, and
    nothing of the headers, the cookies or the query. *)
Lemma RequestLogger_line next r w :
  let line := (RequestLogger next r w).1.2 in
  ll_method line = r_method r /\ ll_path line = logsafe_String (r_path r) /\
  ll_status line = rs_status (next r (tick_clock w)).1 /\
  lacks (of_byte 10) (ll_path line) = true.
Proof.
  unfold RequestLogger. rewrite bind_run. cbn [now fst snd]. rewrite bind_run, bind_run. cbn.
  repeat split. apply logsafe_lines.
Qed.

(** The id of a key is its value, and the routes on one key have it in their
    path: the line of a revocation, of the lookup too, shows the key. *)
Example key_in_access_log :
  let serve := @serve sqlite_driver ascii_tables first_match_router demo_wiring (fun _ => None)
                 (fun _ => no_content) no_bodies in
  let line := (RequestLogger serve demo_revoke (demo_world demo_db)).1.2 in
  (ll_status line, ll_path line) = (204%Z, "/api/v1/keys/" +:+ demo_key) /\
  is_Some (subscription_key demo_db !! demo_key).
Proof. vm_compute. split; [reflexivity|by eexists]. Qed.
