(* ===== verification/RequestsSpec.v ===== *)
(** * Request bodies: round trip, and malformed ones change nothing *)
From Stdlib Require Import ZArith Lia Ascii.
From stdpp Require Import base gmap strings list relations.
From S2P Require Import Prelude GoStrings Errors State Times TimesSpec Tables Effects AccountStore.
From S2P Require Import SessionStore AuditStore Durations Json JsonSpec JsonDecode Http RequestMeta AdminGuards Pagination.
From S2P Require Import KeysHandler AccountsHandler OperatorsHandler ComponentsHandler AdminUI AuthHandler.
From S2P Require Import Responses Server Requests StoreInvariant StoreMethods ComponentCache Fixtures ServerSpec.
Open Scope packyard_scope.
Open Scope eff_scope.

(** ** Answers *)
(** Whatever happens, the result satisfies [P]. *)
Definition yields {A} (P : A -> Prop) (m : Eff A) : Prop := forall w, P (m w).1.

Lemma yields_ret {A} (P : A -> Prop) a : P a -> yields P (ret a).
Proof. by intros Ha w. Qed.

Lemma yields_bind {A B} (Q : A -> Prop) (P : B -> Prop) (m : Eff A) k :
  yields Q m -> (forall a, Q a -> yields P (k a)) -> yields P (bind m k).
Proof. intros Hm Hk w. unfold bind. specialize (Hm w). destruct (m w) as [a w']. by apply Hk. Qed.

Lemma yields_any {A} (m : Eff A) : yields (fun _ => True) m.
Proof. by intros w. Qed.

Definition refusal (resp : Response) : Prop := (400 <= rs_status resp)%Z.
Definition refuses (h : Handler) : Prop := forall r, yields refusal (h r).

Lemma refused r : refusal r -> yields refusal (ret r).
Proof. apply yields_ret. Qed.

(** Decomposes a computation, whatever its steps return. *)
Ltac solve_yields :=
  repeat match goal with
  | |- yields _ (ret _) => apply yields_ret
  | |- yields _ (bind _ _) => apply (yields_bind (fun _ => True)); [apply yields_any|intros ? _]
  | |- yields _ (match ?x with _ => _ end) => destruct x eqn:?
  end; try (unfold refusal; cbn; lia).

Section Guards.
Context `{SqlDriver} `{UnicodeTables}.

Lemma session_gate_yields r :
  yields (fun g => match g with inl resp => refusal resp | inr _ => True end) (session_gate r).
Proof. unfold session_gate. solve_yields; done. Qed.

Lemma RequireSession_refuses h : refuses h -> refuses (RequireSession h).
Proof.
  intros Hh r. unfold RequireSession. eapply yields_bind; [apply session_gate_yields|].
  intros [resp|[[sess op] t]] Hg; [by apply yields_ret|].
  apply (yields_bind refusal); [apply Hh|]. intros resp Hr.
  apply (yields_bind (fun _ => True)); [apply yields_any|]. intros _ _. by apply yields_ret.
Qed.

Lemma RequireRole_refuses h : refuses h -> refuses (RequireRole h).
Proof. intros Hh r. unfold RequireRole. cbv zeta. solve_yields; apply Hh. Qed.

Lemma admin_route_refuses expected h : refuses h -> refuses (admin_route expected h).
Proof.
  intros Hh r. unfold admin_route, CSRFGuard. cbv zeta.
  solve_yields; by apply RequireSession_refuses, RequireRole_refuses.
Qed.
End Guards.

(** ** Requests that leave the tables alone *)
(** Exactly the same accounts, components, keys and operators, usage counters
    and login columns included; a guard may still touch the session and write
    to the audit log. *)
Definition untouched (db db' : Database) : Prop :=
  accounts db' = accounts db /\ components db' = components db /\
  subscription_key db' = subscription_key db /\ operators db' = operators db.

#[export] Instance untouched_preorder : PreOrder untouched.
Proof.
  split; [by intros db|]. intros a b c (? & ? & ? & ?) (? & ? & ? & ?).
  repeat split; congruence.
Qed.

Section Untouched.
Context `{SqlDriver} `{UnicodeTables}.

Lemma Write_untouched e : moves untouched (Write e).
Proof. unfold Write. solve_moves. apply moves_sql. by intros db u db' [= _ <-]. Qed.

Lemma WriteFromRequest_untouched r e : moves untouched (WriteFromRequest r e).
Proof. unfold WriteFromRequest. cbv zeta. apply Write_untouched. Qed.

Lemma TouchSession_untouched id t : moves untouched (TouchSession id t).
Proof.
  unfold TouchSession. solve_moves. apply moves_sql.
  unfold sql_touch_session. intros db x db' Hs. by inv_stmt Hs.
Qed.

Lemma DeleteSession_untouched id : moves untouched (DeleteSession id).
Proof. unfold DeleteSession. solve_moves. apply moves_sql. by intros db u db' [= _ <-]. Qed.
End Untouched.
#[export] Hint Resolve Write_untouched WriteFromRequest_untouched TouchSession_untouched
  DeleteSession_untouched : packyard.

Section UntouchedGuards.
Context `{SqlDriver} `{UnicodeTables}.

Lemma admin_route_untouched expected h :
  (forall r, moves untouched (h r)) -> forall r, moves untouched (admin_route expected h r).
Proof.
  intros Hh r. unfold admin_route, CSRFGuard, RequireSession, RequireRole, session_gate, unauthorized.
  cbv zeta. solve_moves; try apply moves_ret; apply Hh.
Qed.
End UntouchedGuards.

(** ** Malformed bodies *)
(** No JSON value within the limit, or one that is neither an object nor null. *)
Definition malformed (body : string) : Prop :=
  match read_value body with Some JNull | Some (JObj _) => False | _ => True end.

Definition no_body : Bodies := mkBodies None None None None None None None.

Lemma malformed_bodies `{UnicodeTables} body :
  malformed body -> bodies body = no_body.
Proof.
  unfold malformed, bodies, decode_body_as. destruct (read_value body) as [[]|]; done.
Qed.

Section Malformed.
Context `{SqlDriver} `{UnicodeTables} `{Router} (cfg : Wiring).
Context (MkdirAll : string -> option string).
Context (file_server : string -> Response).

(** The routes whose handlers decode a body. *)
Definition takes_body (p : pattern) : bool := bool_decide (p ∈ [
  (Some "POST", "/api/v1/keys"); (Some "POST", "/api/v1/components");
  (Some "PATCH", "/api/v1/components/{name}"); (Some "POST", "/api/v1/accounts");
  (Some "PATCH", "/api/v1/accounts/{id}"); (Some "POST", "/api/v1/accounts/{id}/keys");
  (Some "POST", "/api/v1/operators"); (Some "PATCH", "/api/v1/operators/{id}")]).

Lemma requireAdmin_refusal r resp : requireAdmin r = inl resp -> refusal resp.
Proof.
  unfold requireAdmin. destruct (OperatorFromContext r) as [op|]; [|intros [= <-]; unfold refusal; cbn; lia].
  destruct (negb _); [intros [= <-]; unfold refusal; cbn; lia|done].
Qed.

Lemma api_routes_no_body :
  Forall (fun e => (e.1.1 <> Some "DELETE" -> quiet e.2) /\
      (takes_body e.1 = true -> refuses e.2 /\ forall r, moves untouched (e.2 r)))
    (api_routes cfg MkdirAll no_body).
Proof.
  unfold api_routes. repeat apply Forall_cons_2; try apply Forall_nil_2; cbn [fst snd].
  all: split; [intros Hm; try (by destruct Hm); intros req|intros Ht; try (by vm_compute in Ht); split; intros req].
  all: unfold Whoami, Logout, Keys_List, Keys_Get, Components_List, Components_GetOne,
    Accounts_List, Accounts_Get, Accounts_ListKeys, Audit_List, Operators_List,
    Keys_Create, Components_Create, Components_Update, Accounts_Create, Accounts_Update,
    Accounts_IssueKey, Operators_Create, Operators_Update, with_account; cbn [no_body b_key b_component b_patch
    b_account b_account_update b_operator b_operator_update].
  all: cbv zeta.
  all: try (by solve_moves; try apply moves_ret).
  all: by solve_yields; eapply requireAdmin_refusal.
Qed.

(** C6. A malformed body changes nothing.  When the body of a request is no
    JSON value within a mebibyte, or is not an object (or null), then on each of
    the eight routes that decode a body the answer is an error and the tables
    of accounts, components, keys and operators are exactly the ones before;
    and on every other route, DELETE apart, which reads no body, they are the
    same beyond the usage counters that GET /auth raises and the login columns
    that the callback fills in. *)
Theorem malformed_changes_nothing body r w :
  malformed body -> r_method r <> "DELETE" ->
  let b := bodies body in
  let table := routes cfg MkdirAll file_server b in
  let '(resp, w') := serve cfg MkdirAll file_server b r w in
  unwritten (w_db w) (w_db w') /\
  (forall i params p, find_route (map fst table) (r_method r) (r_path r) = Some (i, params) ->
     map fst table !! i = Some p -> takes_body p = true ->
     (400 <= rs_status resp)%Z /\ untouched (w_db w) (w_db w')).
Proof.
  intros Hbad Hm. rewrite (malformed_bodies body Hbad). cbv zeta.
  set (table := routes _ _ _ no_body). destruct (serve _ _ _ _ r w) as [resp w'] eqn:Es. unfold serve in Es.
  fold table in Es. destruct (find_route (map fst table) _ _) as [[i params]|] eqn:Ef.
  2:{ split; [|done]. assert (moves unwritten (if (r_path r =s "/api/v1") || HasPrefix (r_path r) "/api/v1/"
        then admin_route (adminOrigin cfg) (fun r => ret (unrouted r)) r else ret (unrouted r))) as Hu.
      { destruct (_ || _); [|apply moves_ret]. apply admin_route_quiet. intros ?. apply moves_ret. }
      specialize (Hu w). by rewrite Es in Hu. }
  pose proof (find_route_sound _ _ _ _ _ Ef) as (m & pat & Hi & Hmm & _).
  rewrite list_lookup_fmap in Hi. destruct (table !! i) as [[p h]|] eqn:He; [|done]. injection Hi as ->.
  cbn [snd] in Es.
  assert (quiet h /\ (takes_body (m, pat) = true -> refuses h /\ forall r, moves untouched (h r))) as [Hq Hr].
  { subst table. unfold routes in He. apply lookup_app_Some in He as [He|[_ He]].
    - pose proof (public_quiet cfg file_server) as Hp. rewrite Forall_lookup in Hp.
      split; [apply (Hp _ _ He)|]. intros Ht. exfalso. revert Ht.
      unfold public_routes in He. repeat (destruct i as [|i]; [injection He as <- <- _; by vm_compute|]). done.
    - rewrite list_lookup_fmap in He. destruct (api_routes _ _ _ !! _) as [[p' h']|] eqn:Ha; [|done].
      injection He as -> <-. pose proof api_routes_no_body as Hall. rewrite Forall_lookup in Hall.
      destruct (Hall _ _ Ha) as [Hq Hr]. cbn [fst snd] in Hq, Hr. split.
      + apply admin_route_quiet, Hq. destruct m; [congruence|done].
      + intros Ht. destruct (Hr Ht). split; [by apply admin_route_refuses|by apply admin_route_untouched]. }
  split; [pose proof (Hq (with_params params r) w) as Hu; by rewrite Es in Hu|]. intros i' params' p' [= <- <-] Hp' Ht.
  apply list_lookup_fmap_Some in Hp' as (e & -> & He').
  pose proof (eq_trans (eq_sym He') He) as [= ->].
  destruct (Hr Ht) as [Hs Hu]. specialize (Hs (with_params params r) w). specialize (Hu (with_params params r) w).
  by rewrite Es in Hs, Hu.
Qed.
End Malformed.

Definition demo_post (path : string) : Request :=
  demo_request "POST" path [("Origin", "https://admin.example.org")] [(SessionCookieName, "sess")].

Lemma malformed_changes_nothing_witness :
  let '(resp, w') := @serve sqlite_driver ascii_tables first_match_router demo_wiring (fun _ => None)
    (fun _ => no_content)
    (@bodies ascii_tables "{") (demo_post "/api/v1/accounts") (demo_world demo_db) in
  (400 <= rs_status resp)%Z /\ untouched demo_db (w_db w').
Proof.
  pose proof (@malformed_changes_nothing sqlite_driver ascii_tables first_match_router demo_wiring
    (fun _ => None) (fun _ => no_content) "{" (demo_post "/api/v1/accounts")
    (demo_world demo_db) I ltac:(discriminate)) as Hm.
  cbv zeta in Hm. destruct (serve _ _ _ _ _ _) as [resp w']. destruct Hm as [_ Hs].
  eapply Hs; [vm_compute; reflexivity|vm_compute; reflexivity|vm_compute; reflexivity].
Defined.

(** ** Well-formed bodies arrive *)
(** The body a client sends: a member for each field, in any spelling the
    encoder of package json produces. *)

Definition key_body (r : createKeyRequest) : string := text_object [
  string_member "account_id" (ck_AccountID r); string_member "component" (ck_Component r);
  string_member "label" (ck_Label r);
  ("expires_at", match ck_ExpiresAt r with None => JNull | Some t => JStr (format_RFC3339Nano t) end)].

Definition component_body (r : createComponentRequest) : string := text_object [
  string_member "name" (cc_Name r); string_member "visibility" (cc_Visibility r);
  ("rpm_series", match cc_RPMSeries r with None => JNull | Some l => list_json l end);
  ("rpm_os_families", match cc_RPMOSFamilies r with None => JNull | Some l => list_json l end);
  ("rpm_architectures", match cc_RPMArchitectures r with None => JNull | Some l => list_json l end)].

Definition optional_member (name : string) (o : option string) : string * json :=
  (name, match o with None => JNull | Some s => marshal_string s end).
Definition optional_list (name : string) (o : option strings_t) : string * json :=
  (name, match o with Some (Some l) => list_json l | _ => JNull end).

Definition patch_body (p : ComponentPatch) : string := text_object [
  optional_member "visibility" (p_Visibility p); optional_list "rpm_series" (p_RPMSeries p);
  optional_list "rpm_os_families" (p_RPMOSFamilies p);
  optional_list "rpm_architectures" (p_RPMArchitectures p)].
Definition account_body (r : createAccountRequest) : string := text_object [
  string_member "email" (ca_Email r); string_member "org_name" (ca_OrgName r)].
Definition account_update_body (r : updateAccountRequest) : string := text_object [
  optional_member "email" (ua_Email r); optional_member "org_name" (ua_OrgName r);
  optional_member "status" (ua_Status r)].
Definition operator_body (r : createOperatorRequest) : string := text_object [
  string_member "email" (co_Email r); string_member "role" (co_Role r)].
Definition operator_update_body (r : updateOperatorRequest) : string := text_object [
  optional_member "role" (uo_Role r); optional_member "status" (uo_Status r)].

Definition fits (body : string) : Prop := (Z.of_nat (String.length body) <= max_body)%Z.

Lemma read_object l :
  Forall (fun kv => scanned kv.1 /\ writable 1 kv.2) l -> fits (text_object l) ->
  read_value (text_object l) = Some (JObj l).
Proof.
  intros Hl Hsize. unfold read_value, limited, oversized. rewrite (proj2 (Z.ltb_ge _ _)) by done.
  unfold text_object. rewrite parse_print; [done|]. constructor; [unfold maxNestingDepth; lia|done].
Qed.

Lemma set_members_cons `{UnicodeTables} {A} (fields : list (string * setter A)) raw j l a set a' :
  field_of fields (unquote raw) = Some set -> set j a = Some a' ->
  set_members fields ((raw, j) :: l) a = set_members fields l a'.
Proof. cbn [set_members]. by intros -> ->. Qed.

Lemma set_marshalled s old : set_string (marshal_string s) old = Some (to_valid s).
Proof. cbn [set_string marshal_string]. by rewrite unquote_marshal. Qed.

Lemma set_elements_marshalled l old :
  set_elements old (map marshal_string l) = Some (map to_valid l ++ drop (length l) old).
Proof.
  revert old. induction l as [|s l IH]; intros old; [done|]. cbn [map set_elements].
  rewrite set_marshalled, IH. destruct old; cbn; by rewrite ?drop_nil.
Qed.

Lemma set_list l old :
  exists s, set_slice (list_json l) old = Some s /\ visible s = Some (map to_valid l).
Proof.
  unfold list_json, set_slice. destruct l as [|s l]; [by eexists|]. cbn [map].
  change (marshal_string s :: map marshal_string l) with (map marshal_string (s :: l)).
  rewrite set_elements_marshalled. eexists. split; [reflexivity|]. cbn [visible fmap option_fmap option_map fst snd].
  f_equal. apply take_app_length'. cbn. by rewrite !length_map.
Qed.

(** What the decoder makes of a request's strings. *)
Definition valid_key (r : createKeyRequest) : createKeyRequest :=
  mkCreateKey (to_valid (ck_AccountID r)) (to_valid (ck_Component r)) (to_valid (ck_Label r)) (ck_ExpiresAt r).
Definition valid_component (r : createComponentRequest) : createComponentRequest :=
  mkCreateComponent (to_valid (cc_Name r)) (to_valid (cc_Visibility r)) (map to_valid <$> cc_RPMSeries r)
    (map to_valid <$> cc_RPMOSFamilies r) (map to_valid <$> cc_RPMArchitectures r).

Definition valid_patch (p : ComponentPatch) : ComponentPatch :=
  let list (o : option strings_t) :=
    match o with Some (Some l) => Some (Some (map to_valid l)) | _ => None end in
  mkPatch (to_valid <$> p_Visibility p) (list (p_RPMSeries p)) (list (p_RPMOSFamilies p))
    (list (p_RPMArchitectures p)).
Definition valid_account (r : createAccountRequest) : createAccountRequest :=
  mkCreateAccount (to_valid (ca_Email r)) (to_valid (ca_OrgName r)).
Definition valid_account_update (r : updateAccountRequest) : updateAccountRequest :=
  mkUpdateAccount (to_valid <$> ua_Email r) (to_valid <$> ua_OrgName r) (to_valid <$> ua_Status r).
Definition valid_operator (r : createOperatorRequest) : createOperatorRequest :=
  mkCreateOperator (to_valid (co_Email r)) (to_valid (co_Role r)).
Definition valid_operator_update (r : updateOperatorRequest) : updateOperatorRequest :=
  mkUpdateOperator (to_valid <$> uo_Role r) (to_valid <$> uo_Status r).

Lemma set_optional o (old : option string) :
  set_pointer "" set_string (match o with None => JNull | Some s => marshal_string s end) old =
  Some (to_valid <$> o).
Proof. destruct o as [s|]; [|done]. cbn [set_pointer marshal_string set_string]. by rewrite unquote_marshal. Qed.

Lemma set_list_option (o : option (list string)) old : exists s,
  set_slice (match o with None => JNull | Some l => list_json l end) old = Some s /\
  visible s = map to_valid <$> o /\ (s = None <-> o = None).
Proof.
  destruct o as [l|]; [|by exists None]. destruct (set_list l old) as (s & Hs & Hv).
  exists s. split; [done|]. split; [done|]. by destruct s.
Qed.

Lemma list_writable d l : d < 100 -> writable d (list_json l).
Proof.
  intros Hd. constructor; [unfold maxNestingDepth; lia|]. apply Forall_fmap, Forall_forall. intros s _. apply writable_string.
Qed.

(** Fields, one after the other. *)
Ltac arrive_field rew := erewrite set_members_cons;
  [|reflexivity|unfold set_visibility, via; cbn [snd]; rewrite rew; reflexivity].
Ltac arrive_list Hs :=
  erewrite set_members_cons; [|reflexivity|unfold via; cbn [snd];
    match goal with |- context [set_slice _ ?o] => change o with (None : slice) end; rewrite Hs; reflexivity].
Ltac writable_members :=
  repeat (apply Forall_cons; split; [split; [by intros ?|cbn [snd string_member optional_member optional_list]]|]);
  try apply Forall_nil_2;
  repeat match goal with |- writable _ (match ?o with _ => _ end) => destruct o end;
  first [apply writable_string|apply list_writable; lia|by constructor|constructor; assumption].
Ltac read_members := rewrite read_object; [|writable_members|done];
  unfold string_member, optional_member, optional_list; cbn [decode_struct].

Section Arrive.
Context `{UnicodeTables}.

(** The encoder of package time refuses other years. *)
Definition expiry_ok (r : createKeyRequest) : Prop :=
  forall t, ck_ExpiresAt r = Some t -> in_years (t / Second) = true.

Lemma key_arrives r :
  expiry_ok r -> fits (key_body r) -> b_key (bodies (key_body r)) = Some (valid_key r).
Proof.
  intros Ht Hfits. cbn [b_key bodies]. unfold decode_body_as, key_body in *.
  unfold expiry_ok in Ht. destruct r as [a c l [t|]]; cbn [ck_AccountID ck_Component ck_Label ck_ExpiresAt] in *.
  1: assert (in_years (t / Second) = true) as Hin by auto.
  1: pose proof (scanned_plain _ (format_plain t Hin)) as Hscan.
  1: assert (time_Parse (format_RFC3339Nano t) = Some t) as Hparse by (rewrite (proj1 (time_text_back t)), Hin; done).
  all: read_members.
  all: do 3 arrive_field set_marshalled.
  all: erewrite set_members_cons; [reflexivity|reflexivity|].
  - unfold via, set_pointer, set_time. cbn [snd]. by rewrite Hparse.
  - reflexivity.
Qed.

Lemma component_arrives r :
  fits (component_body r) -> b_component (bodies (component_body r)) = Some (valid_component r).
Proof.
  intros Hfits. cbn [b_component bodies]. unfold decode_body_as, component_body in *. read_members.
  destruct r as [n v s f a]; cbn [cc_Name cc_Visibility cc_RPMSeries cc_RPMOSFamilies cc_RPMArchitectures].
  do 2 arrive_field set_marshalled.
  destruct (set_list_option s None) as (s' & Hs & Hs' & _), (set_list_option f None) as (f' & Hf & Hf' & _),
    (set_list_option a None) as (a' & Ha & Ha' & _).
  arrive_list Hs. arrive_list Hf. arrive_list Ha.
  cbn [set_members fmap option_fmap option_map]. unfold draft_component, valid_component.
  cbn -[visible to_valid]. by rewrite Hs', Hf', Ha'.
Qed.

Lemma patch_arrives p :
  fits (patch_body p) -> b_patch (bodies (patch_body p)) = Some (valid_patch p).
Proof.
  intros Hfits. cbn [b_patch bodies]. unfold decode_body_as, patch_body in *. read_members.
  destruct p as [v s f a]; cbn [p_Visibility p_RPMSeries p_RPMOSFamilies p_RPMArchitectures].
  assert (forall (o : option strings_t) old, exists s,
    set_slice (match o with Some (Some l) => list_json l | _ => JNull end) old = Some s /\
    (fun _ => visible s) <$> s = match o with Some (Some l) => Some (Some (map to_valid l)) | _ => None end) as Hset.
  { intros [[l|]|] old; [|by exists None..]. destruct (set_list l old) as (s0 & Hs & Hv).
    exists s0. split; [done|]. rewrite Hv. by destruct s0. }
  arrive_field set_optional.
  destruct (Hset s None) as (s' & Hs & Hs'), (Hset f None) as (f' & Hf & Hf'), (Hset a None) as (a' & Ha & Ha').
  arrive_list Hs. arrive_list Hf. arrive_list Ha.
  cbn [set_members fmap option_fmap option_map]. unfold draft_patch, valid_patch.
  cbn -[visible to_valid fmap]. by rewrite Hs', Hf', Ha'.
Qed.

Lemma account_arrives r :
  fits (account_body r) -> b_account (bodies (account_body r)) = Some (valid_account r).
Proof.
  intros Hfits. cbn [b_account bodies]. unfold decode_body_as, account_body in *. read_members.
  by do 2 arrive_field set_marshalled.
Qed.

Lemma account_update_arrives r :
  fits (account_update_body r) ->
  b_account_update (bodies (account_update_body r)) = Some (valid_account_update r).
Proof.
  intros Hfits. cbn [b_account_update bodies]. unfold decode_body_as, account_update_body in *. read_members.
  by do 3 arrive_field set_optional.
Qed.

Lemma operator_arrives r :
  fits (operator_body r) -> b_operator (bodies (operator_body r)) = Some (valid_operator r).
Proof.
  intros Hfits. cbn [b_operator bodies]. unfold decode_body_as, operator_body in *. read_members.
  by do 2 arrive_field set_marshalled.
Qed.

Lemma operator_update_arrives r :
  fits (operator_update_body r) ->
  b_operator_update (bodies (operator_update_body r)) = Some (valid_operator_update r).
Proof.
  intros Hfits. cbn [b_operator_update bodies]. unfold decode_body_as, operator_update_body in *. read_members.
  by do 2 arrive_field set_optional.
Qed.
End Arrive.

(** C35. What a client sends is what the handler gets.  The JSON object the
    encoder of package json writes for a request, of at most a mebibyte, is
    decoded to that very request, with the bytes of its strings that are not
    UTF-8 replaced by U+FFFD: for all seven request types, lists and optional
    fields included. *)
Theorem bodies_arrive `{UnicodeTables} :
  (forall r, expiry_ok r -> fits (key_body r) ->
     b_key (bodies (key_body r)) = Some (valid_key r)) /\
  (forall r, fits (component_body r) ->
     b_component (bodies (component_body r)) = Some (valid_component r)) /\
  (forall p, fits (patch_body p) -> b_patch (bodies (patch_body p)) = Some (valid_patch p)) /\
  (forall r, fits (account_body r) ->
     b_account (bodies (account_body r)) = Some (valid_account r)) /\
  (forall r, fits (account_update_body r) ->
     b_account_update (bodies (account_update_body r)) = Some (valid_account_update r)) /\
  (forall r, fits (operator_body r) ->
     b_operator (bodies (operator_body r)) = Some (valid_operator r)) /\
  (forall r, fits (operator_update_body r) ->
     b_operator_update (bodies (operator_update_body r)) = Some (valid_operator_update r)).
Proof.
  split_and!; intros.
  - by apply key_arrives.
  - by apply component_arrives.
  - by apply patch_arrives.
  - by apply account_arrives.
  - by apply account_update_arrives.
  - by apply operator_arrives.
  - by apply operator_update_arrives.
Qed.

(** Plain ASCII arrives unchanged. *)
Lemma bodies_arrive_witness :
  b_account (@bodies ascii_tables (account_body (mkCreateAccount "a@example.org" "A & B")))
  = Some (mkCreateAccount "a@example.org" "A & B").
Proof.
  destruct (@bodies_arrive ascii_tables) as (_ & _ & _ & Ha & _).
  rewrite Ha by (vm_compute; discriminate). reflexivity.
Defined.

(** ** An expiry no read survives *)
(** The offset puts the expiry into the year 10000 of UTC.  The request is
    accepted; from then on the key cannot be read back, and the listing
    answers with an error. *)
Example expiry_breaks_listing :
  let body := text_object [string_member "account_id" "acct"; string_member "component" "core";
                           ("expires_at", JStr "9999-12-31T23:59:59-01:00")] in
  let serve b := @serve sqlite_driver ascii_tables first_match_router demo_wiring (fun _ => None)
                   (fun _ => no_content) (@bodies ascii_tables b) in
  let list := demo_request "GET" "/api/v1/keys" [] [(SessionCookieName, "sess")] in
  let w0 := demo_world demo_db in
  let '(created, w1) := serve body (demo_post "/api/v1/keys") w0 in
  (rs_status (serve "" list w0).1, rs_status created, rs_status (serve "" list w1).1) = (200, 201, 500)%Z.
Proof. vm_compute. reflexivity. Qed.
