(* ===== verification/ServiceInvariant.v ===== *)
(** * The service keeps every property its store calls keep

    [api_safe R]: every store call the API makes moves the database along
    [R].  From this alone, every request does, and every history of the service. *)
From Stdlib Require Import ZArith Lia Ascii.
From stdpp Require Import base gmap strings list relations.
From S2P Require Import Prelude GoStrings Errors State Tables Effects AccountStore.
From S2P Require Import ComponentStore SessionStore OperatorStore AuditStore StoreInvariant.
From S2P Require Import StoreMethods OperatorSpec ComponentCache Http ForwardAuth RequestMeta.
From S2P Require Import OAuthState RateLimiter AdminGuards Pagination KeysHandler.
From S2P Require Import AccountsHandler OperatorsHandler ComponentsHandler AdminUI AuthHandler.
From S2P Require Import Server Background Fixtures ServerSpec.
Open Scope packyard_scope.
Open Scope eff_scope.

Section Safe.
Context `{SqlDriver} `{UnicodeTables} {R : relation Database} `{!PreOrder R}.
Context (safe : forall c, api_call c = true -> moves R (run_call (fun _ => true) c)).

Lemma of_call {A} (m : Eff A) c :
  api_call c = true -> run_call (fun _ => true) c = ignore m -> moves R m.
Proof.
  intros Hc Hm w. specialize (safe c Hc w). rewrite Hm in safe. unfold ignore in safe.
  by rewrite bind_run in safe.
Qed.

(** The call a store method is. *)
Ltac api_method :=
  match goal with
  | |- moves _ (CreateAccount ?i ?b) => eapply (of_call _ (CCreateAccount i b))
  | |- moves _ (UpdateAccount ?i ?u) => eapply (of_call _ (CUpdateAccount i u))
  | |- moves _ (DeleteAccountWithCascade ?i) => eapply (of_call _ (CDeleteAccount i))
  | |- moves _ (CreateKey ?a ?c ?l ?e) => eapply (of_call _ (CCreateKey a c l e))
  | |- moves _ (CreateKeyForAccount ?a ?c ?l ?e) => eapply (of_call _ (CCreateKey a c l e))
  | |- moves _ (RevokeKey ?i) => eapply (of_call _ (CRevokeKey i))
  | |- moves _ (IncrementUsage ?i) => eapply (of_call _ (CIncrementUsage i))
  | |- moves _ (CreateComponent ?c) => eapply (of_call _ (CCreateComponent c))
  | |- moves _ (DeleteComponent ?n) => eapply (of_call _ (CDeleteComponent n))
  | |- moves _ (DeleteComponentWithRevoke ?n) => eapply (of_call _ (CDeleteComponentWithRevoke n))
  | |- moves _ (UpdateComponent ?n ?p) => eapply (of_call _ (CUpdateComponent n p))
  | |- moves _ (CreateSession ?o ?i ?u) => eapply (of_call _ (CCreateSession o i u))
  | |- moves _ (TouchSession ?i ?t) => eapply (of_call _ (CTouchSession i t))
  | |- moves _ (DeleteSession ?i) => eapply (of_call _ (CDeleteSession i))
  | |- moves _ (DeleteOperatorSessions ?i) => eapply (of_call _ (CDeleteOperatorSessions i))
  | |- moves _ (AllowlistOperator ?e ?r ?b) => eapply (of_call _ (CAllowlistOperator e r b))
  | |- moves _ (UpdateOperatorAtomically ?i ?r ?s) => eapply (of_call _ (CUpdateOperator i r s))
  | |- moves _ (UpdateLastLogin ?i ?t) => eapply (of_call _ (CUpdateLastLogin i t))
  | |- moves _ (UpdateLoginProvider ?i ?p ?u) => eapply (of_call _ (CUpdateLoginProvider i p u))
  | |- moves _ (Write ?e) => eapply (of_call _ (CWrite e))
  | |- moves _ (CachedGetComponent _ _) => apply CachedGetComponent_moves
  | |- moves _ (modify_cache _ _) => apply moves_modify_cache
  end; try reflexivity.
Hint Extern 0 (moves _ _) => api_method : packyard.

Ltac solve_safe := cbv zeta; solve_moves.

Lemma WriteFromRequest_safe r e : moves R (WriteFromRequest r e).
Proof. unfold WriteFromRequest. solve_safe. Qed.
Hint Resolve WriteFromRequest_safe : packyard.

Context `{Router} (cfg : Wiring).
Context (MkdirAll : string -> option string).
Context (file_server : string -> Response).

Definition safe_handler (h : Handler) : Prop := forall r, moves R (h r).

Lemma RateLimit_safe lim h : safe_handler h -> safe_handler (RateLimit lim h).
Proof. intros Hh r. unfold RateLimit. solve_safe; apply Hh. Qed.

Lemma Login_safe : safe_handler (Login (providers cfg)).
Proof. intros r. unfold Login, RandomHex. solve_safe. Qed.

Lemma Callback_safe redir : safe_handler (Callback (providers cfg) redir).
Proof.
  intros r. unfold Callback, exchange_code, match_operator, start_session, failCallback.
  solve_safe.
Qed.

Lemma ForwardAuth_safe : safe_handler (ForwardAuthRoute cfg).
Proof.
  intros r. unfold ForwardAuthRoute, ServeHTTP, authorize, check_credentials, account_gate, answer.
  cbn [cs_get cached_source]. solve_safe.
Qed.

Lemma admin_route_safe expected h : safe_handler h -> safe_handler (admin_route expected h).
Proof.
  intros Hh r. unfold admin_route, CSRFGuard, RequireSession, RequireRole, session_gate, unauthorized.
  solve_safe; apply Hh.
Qed.

Lemma public_safe :
  Forall (fun e => safe_handler e.2) (public_routes cfg file_server).
Proof.
  unfold public_routes. repeat apply Forall_cons_2; try apply Forall_nil_2; cbn [snd];
    auto using RateLimit_safe, Login_safe, Callback_safe, ForwardAuth_safe.
  - intros req. apply moves_ret.
  - intros req. unfold AdminCSP, AdminPage. solve_safe.
  - intros req. unfold AdminCSP, AdminPage. solve_safe.
Qed.

Lemma api_safe b :
  Forall (fun e => safe_handler e.2) (api_routes cfg MkdirAll b).
Proof.
  unfold api_routes. repeat apply Forall_cons_2; try apply Forall_nil_2; cbn [snd]; intros req.
  all: unfold Whoami, Logout, Keys_Create, Keys_List, Keys_Get, Keys_Delete, Components_Create,
    Components_List, Components_GetOne, Components_Update, Components_Delete,
    CachedDeleteComponent, CachedUpdateComponent, CachedDeleteComponentWithRevoke, evicting,
    Accounts_Create, Accounts_List, Accounts_Get, Accounts_Update, Accounts_Delete,
    Accounts_ListKeys, Accounts_IssueKey, with_account, Audit_List, Operators_List,
    Operators_Create, Operators_Update, after_update.
  all: solve_safe.
Qed.

Lemma serve_safe b r :
  moves R (serve cfg MkdirAll file_server b r).
Proof.
  unfold serve. destruct (find_route _ _ _) as [[i params]|].
  - destruct (routes _ _ _ _ !! i) as [e|] eqn:He; [|apply moves_ret].
    revert He. unfold routes. intros [He|[_ He]]%lookup_app_Some.
    + pose proof public_safe as Hs. rewrite Forall_lookup in Hs. apply (Hs _ _ He).
    + rewrite list_lookup_fmap in He. destruct (api_routes _ _ _ !! _) as [e'|] eqn:Ha; [|done].
      injection He as <-. pose proof (api_safe b) as Hs. rewrite Forall_lookup in Hs.
      apply admin_route_safe, (Hs _ _ Ha).
  - destruct (_ || HasPrefix _ _); [|apply moves_ret]. apply admin_route_safe. intros ?. apply moves_ret.
Qed.

Lemma run_service_safe es :
  moves R (run_service cfg MkdirAll file_server es).
Proof.
  induction es as [|e es IH]; cbn [run_service]; [apply moves_ret|].
  apply moves_bind; [|intros a; apply moves_bind; [done|]; intros ?; apply moves_ret].
  destruct e; cbn [run_event]; (apply moves_bind; [|intros ?; apply moves_ret]);
    auto using serve_safe, reap_states_moves, reap_limiter_moves.
Qed.
End Safe.

(** ** The invariants of the service *)
Section Service.
Context `{SqlDriver} `{UnicodeTables} `{Router} (cfg : Wiring).
Context (MkdirAll : string -> option string).
Context (file_server : string -> Response).

(** Whatever requests the service is sent, in whatever order, on
    whatever routes, with the reapers at work between them, and whatever the
    clock, the entropy and the driver's failures: the database keeps its integrity and an active admin, revoked
    keys stay revoked, and the audit log only grows. *)
Theorem service_integrity es w :
  db_ok (w_db w) -> has_admin (w_db w) ->
  let w' := (run_service cfg MkdirAll file_server es w).2 in
  db_ok (w_db w') /\ has_admin (w_db w') /\ history (w_db w) (w_db w').
Proof.
  intros Hok Hadm. cbv zeta.
  destruct (run_service_safe (R := sound) (fun c _ => run_call_sound _ c) cfg MkdirAll
    file_server es w) as [Hs Hh].
  split; [auto|]. split; [|done].
  by apply (run_service_safe (R := keeps has_admin) (api_call_admin _) cfg MkdirAll
    file_server es w).
Qed.
End Service.

Lemma service_integrity_witness :
  let run := @run_service sqlite_driver ascii_tables first_match_router demo_wiring
    (fun _ => None) (fun _ => no_content) in
  let w' := (run [Arrives no_bodies demo_revoke; StatesReaped; Arrives no_bodies demo_revoke] (demo_world demo_db)).2 in
  db_ok (w_db w') /\ has_admin (w_db w') /\ history demo_db (w_db w').
Proof.
  apply (@service_integrity sqlite_driver ascii_tables first_match_router demo_wiring
    (fun _ => None) (fun _ => no_content)
    [Arrives no_bodies demo_revoke; StatesReaped; Arrives no_bodies demo_revoke] (demo_world demo_db)).
  - exact demo_ok.
  - exists "op", demo_admin. split; vm_compute; reflexivity.
Defined.
