(* ===== verification/Interleaving.v ===== *)
(** * Every handler as steps, and the service under interleaving

    A store method is one statement, or one transaction, and what is read
    before it and after it; a handler is a sequence of them.  [serve_steps]
    decomposes every route of the service this way, from the handlers as they
    are defined; [pool] runs any number of requests and reaper passes at
    once, in any order of their steps. *)
From Stdlib Require Import ZArith Lia Ascii.
From stdpp Require Import base gmap strings list relations.
From S2P Require Import Prelude GoStrings Errors State Tables Effects AccountStore.
From S2P Require Import ComponentStore SessionStore OperatorStore AuditStore StoreInvariant.
From S2P Require Import StoreMethods OperatorSpec ComponentCache Http ForwardAuth RequestMeta.
From S2P Require Import OAuthState RateLimiter AdminGuards Pagination KeysHandler.
From S2P Require Import AccountsHandler OperatorsHandler ComponentsHandler AdminUI AuthHandler.
From S2P Require Import Server Background Fixtures ServerSpec Steps Schedules CacheLaw.
Open Scope packyard_scope.
Open Scope eff_scope.

(** What every step keeps: the integrity and the history of the database, and
    an active admin. *)
Definition advances (db db' : Database) : Prop := sound db db' /\ keeps has_admin db db'.

#[export] Instance advances_preorder : PreOrder advances.
Proof.
  split; [intros db; split; reflexivity|].
  intros a b c [Hs Ha] [Hs' Ha']. split; [by trans b|by trans b].
Qed.

(** A statement on a table other than the operators. *)
Lemma advances_other db db' :
  sound db db' -> operators db' = operators db -> advances db db'.
Proof. intros Hs Ho. split; [done|]. intros Hd. by eapply has_admin_same. Qed.

(** And what the steps before and around authorisation keep besides: the business
    data (ServerSpec.v). *)
Definition quietly (db db' : Database) : Prop := advances db db' /\ unwritten db db'.

#[export] Instance quietly_preorder : PreOrder quietly.
Proof.
  split; [intros db; split; reflexivity|].
  intros a b c [Hs Ha] [Hs' Ha']. split; by trans b.
Qed.

Lemma quietly_advances db db' : quietly db db' -> advances db db'.
Proof. by intros [? ?]. Qed.

(** The critical sections of the cache that only remove. *)
Section CacheSteps.
Context `{SqlDriver} {R : relation Database} `{!PreOrder R}.

Definition steps_evict sets n : Steps R (modify_cache sets (cache_evict n)).
Proof.
  refine (steps_cache (modify_cache sets (cache_evict n)) (fun _ => eq_refl) (fun s => _)).
  by apply (allow_evict _ _ n).
Defined.

Definition steps_drop sets n x : Steps R (modify_cache sets (cache_drop_expired n x)).
Proof.
  refine (steps_cache (modify_cache sets (cache_drop_expired n x)) (fun _ => eq_refl) (fun s => _)).
  apply allow_fewer; cbn.
  - unfold cache_drop_expired. by case_match.
  - unfold cache_drop_expired. case_match; [|done]. apply delete_subseteq.
Defined.
End CacheSteps.

Create HintDb steps.

(** Decomposes a computation along its structure. *)
Ltac solve_steps :=
  repeat match goal with
  | |- Steps _ (ret _) => apply steps_ret
  | |- Steps _ (fail _ _) => apply steps_fail
  | |- Steps _ now => apply steps_now
  | |- Steps _ (rand_hex _) => apply steps_rand
  | |- Steps _ (query _) => apply steps_query
  | |- Steps _ (query_row _) => apply steps_query_row
  | |- Steps _ (bind _ _) => apply steps_bind; [|intros ?]
  | |- Steps _ (bindR _ _) => apply steps_bindR; [|intros ?]
  | |- Steps _ (wrapE _ _) => apply steps_wrapE
  | |- Steps _ (get_cache _) => apply steps_local; intros ?; reflexivity
  | |- Steps _ (modify_cache _ (cache_drop_expired _ _)) => apply steps_drop
  | |- Steps _ (modify_cache _ (cache_evict _)) => apply steps_evict
  | |- Steps _ (meter _) => apply steps_local; intros ?; reflexivity
  | |- Steps _ (match ?x with _ => _ end) => destruct x
  | |- Steps _ (let '(_, _) := ?x in _) => destruct x
  | |- _ => progress eauto with steps
  end.

(** A statement on another table than the operators: its integrity lemma, and
    that it leaves the operators alone. *)
Ltac other_statement lem :=
  apply steps_sql; let Hs := fresh "Hs" in intros ? ? ? Hs; apply advances_other;
  [by eapply lem; first [exact Hs|auto]
  |unfold sql_insert_account, sql_update_account, sql_deactivate, sql_increment, sql_insert_key,
     sql_insert_component, sql_delete_component, sql_insert_session, sql_touch_session,
     sql_delete_session, sql_delete_operator_sessions, sql_insert_audit in Hs; by inv_stmt Hs].

Section Reading.
Context `{SqlDriver} `{UnicodeTables} {R : relation Database} `{!PreOrder R}.

(** *** Reading *)
Ltac reading := unfold no_rows; solve_steps.

Definition GetAccount_steps id : Steps R (GetAccount id).
Proof. unfold GetAccount. reading. Defined.
Definition ListAccounts_steps s o l : Steps R (ListAccounts s o l).
Proof. unfold ListAccounts. reading. Defined.
Definition CountActiveAccountKeys_steps id : Steps R (CountActiveAccountKeys id).
Proof. unfold CountActiveAccountKeys. reading. Defined.
Definition ListAccountKeys_steps id o l : Steps R (ListAccountKeys id o l).
Proof. unfold ListAccountKeys. reading. Defined.
Definition GetByID_steps id : Steps R (GetByID id).
Proof. unfold GetByID. reading. Defined.
Definition GetByValue_steps v : Steps R (GetByValue v).
Proof. unfold GetByValue. reading. Defined.
Definition ListKeys_steps c a o l : Steps R (ListKeys c a o l).
Proof. unfold ListKeys. reading. Defined.
Definition GetComponent_steps n : Steps R (GetComponent n).
Proof. unfold GetComponent. reading. Defined.
Definition ListComponents_steps o l : Steps R (ListComponents o l).
Proof. unfold ListComponents. reading. Defined.
Definition CountActiveComponentKeys_steps n : Steps R (CountActiveComponentKeys n).
Proof. unfold CountActiveComponentKeys. reading. Defined.
Definition GetSession_steps id : Steps R (GetSession id).
Proof. unfold GetSession. reading. Defined.
Definition GetOperator_steps id : Steps R (GetOperator id).
Proof. unfold GetOperator. reading. Defined.
Definition GetOperatorByEmail_steps e : Steps R (GetOperatorByEmail e).
Proof. unfold GetOperatorByEmail. reading. Defined.
Definition ListOperators_steps o l : Steps R (ListOperators o l).
Proof. unfold ListOperators. reading. Defined.
Definition ListAuditEntries_steps f o l : Steps R (ListAuditEntries f o l).
Proof. unfold ListAuditEntries. reading. Defined.
End Reading.

#[export] Hint Resolve GetAccount_steps ListAccounts_steps CountActiveAccountKeys_steps
  ListAccountKeys_steps GetByID_steps GetByValue_steps ListKeys_steps GetComponent_steps
  ListComponents_steps CountActiveComponentKeys_steps GetSession_steps GetOperator_steps
  GetOperatorByEmail_steps ListOperators_steps ListAuditEntries_steps : steps.

(** *** Bookkeeping *)
(** The methods that requests call before and around authorisation, as steps
    along [R]. *)
Class Bookkeeping `{SqlDriver} `{UnicodeTables} (R : relation Database) := {
  IncrementUsage_steps : forall id, Steps R (IncrementUsage id);
  CreateSession_steps : forall o i u, Steps R (CreateSession o i u);
  TouchSession_steps : forall id t, Steps R (TouchSession id t);
  DeleteSession_steps : forall id, Steps R (DeleteSession id);
  UpdateLastLogin_steps : forall id t, Steps R (UpdateLastLogin id t);
  UpdateLoginProvider_steps : forall id p u, Steps R (UpdateLoginProvider id p u);
  Write_steps : forall e, Steps R (Write e) }.
#[export] Hint Resolve IncrementUsage_steps CreateSession_steps TouchSession_steps DeleteSession_steps
  UpdateLastLogin_steps UpdateLoginProvider_steps Write_steps : steps.
#[export] Hint Extern 0 (Bookkeeping _) => typeclasses eauto : steps.
#[export] Hint Extern 0 (PreOrder _) => typeclasses eauto : steps.

(** An update that leaves email, role and status. *)
Lemma login_update_quiet id guard upd db n db' :
  sql_update_operator id guard upd db = Done n db' ->
  (forall r, unlogged (upd r) = unlogged r) -> quietly db db'.
Proof.
  intros Hs Hu. split; [split|].
  - eapply update_operator_sound; [exact Hs|]. intros r. by injection (Hu r).
  - eapply update_operator_admin; [exact Hs|]. intros r. unfold active_admin.
    injection (Hu r) as _ -> -> _. done.
  - by eapply update_operator_unwritten.
Qed.

(** A statement on sessions or the audit log. *)
Lemma quietly_other db db' :
  sound db db' -> operators db' = operators db -> accounts db' = accounts db ->
  components db' = components db -> subscription_key db' = subscription_key db -> quietly db db'.
Proof.
  intros Hs Ho Ha Hc Hk. split; [by apply advances_other|].
  unfold unwritten. by rewrite Ho, Ha, Hc, Hk.
Qed.

Section Quiet.
Context `{SqlDriver} `{UnicodeTables}.

#[export] Instance quiet_bookkeeping : Bookkeeping quietly.
Proof.
  split.
  - intros id. unfold IncrementUsage. solve_steps. apply steps_sql. intros ? ? ? Hs.
    split; [|by eapply increment_unwritten]. apply advances_other; [by eapply increment_sound|].
    by injection Hs as _ <-.
  - intros o i u. unfold CreateSession, generateSessionID. solve_steps. apply steps_sql. intros ? ? ? Hs.
    apply quietly_other; [|unfold sql_insert_session in Hs; by inv_stmt Hs..].
    eapply insert_session_sound; [done|]. split; simpl; [done|apply expiry_seconds].
  - intros id t. unfold TouchSession. solve_steps. apply steps_sql. intros ? ? ? Hs.
    apply quietly_other; [by eapply touch_session_sound|unfold sql_touch_session in Hs; by inv_stmt Hs..].
  - intros id. unfold DeleteSession. solve_steps. apply steps_sql. intros ? ? ? Hs.
    apply quietly_other; [by eapply delete_session_sound|by injection Hs as _ <-..].
  - intros id t. unfold UpdateLastLogin. solve_steps. apply steps_sql. intros ? ? ? Hs.
    by eapply login_update_quiet.
  - intros id p u. unfold UpdateLoginProvider. solve_steps. apply steps_sql. intros ? ? ? Hs.
    by eapply login_update_quiet.
  - intros e. unfold Write. solve_steps. apply steps_sql. intros ? ? ? Hs.
    apply quietly_other; [by eapply insert_audit_sound|by injection Hs as _ <-..].
Defined.

#[export] Instance bookkeeping : Bookkeeping advances.
Proof.
  split; intros; apply (steps_weaken quietly_advances).
  - apply IncrementUsage_steps.
  - apply CreateSession_steps.
  - apply TouchSession_steps.
  - apply DeleteSession_steps.
  - apply UpdateLastLogin_steps.
  - apply UpdateLoginProvider_steps.
  - apply Write_steps.
Defined.
End Quiet.

Section Methods.
Context `{SqlDriver} `{UnicodeTables}.

(** *** Writing, by one statement *)
Definition CreateAccount_steps i b : Steps advances (CreateAccount i b).
Proof.
  unfold CreateAccount, generateAccountID. solve_steps. other_statement insert_account_sound.
Defined.

Definition UpdateAccount_steps id u : Steps advances (UpdateAccount id u).
Proof.
  unfold UpdateAccount. lazymatch goal with |- Steps _ (if ?b then _ else _) => destruct b end; [solve_steps|].
  destruct (_ && _) eqn:Hl; [solve_steps|]. apply steps_bind; [|intros ?; solve_steps].
  apply steps_sql. intros db a db' Hu. apply advances_other.
  - by eapply update_account_sound, legacy_untouched.
  - unfold sql_update_account in Hu. by inv_stmt Hu.
Defined.

Definition CreateKey_steps a c l e : Steps advances (CreateKey a c l e).
Proof.
  unfold CreateKey, CreateKeyForAccount, generateKeyValue. solve_steps.
  apply steps_sql. intros ? ? ? Hs. apply advances_other.
  - eapply insert_key_sound; [done|]. split; [by right|done].
  - unfold sql_insert_key in Hs. by inv_stmt Hs.
Defined.

Definition RevokeKey_steps id : Steps advances (RevokeKey id).
Proof. unfold RevokeKey. solve_steps. other_statement deactivate_sound. Defined.

Definition CreateComponent_steps c : Steps advances (CreateComponent c).
Proof. unfold CreateComponent. solve_steps. other_statement insert_component_sound. Defined.

Definition DeleteComponent_steps n : Steps advances (DeleteComponent n).
Proof. unfold DeleteComponent. solve_steps. other_statement delete_component_sound. Defined.

Definition DeleteOperatorSessions_steps id : Steps advances (DeleteOperatorSessions id).
Proof.
  unfold DeleteOperatorSessions. solve_steps. other_statement delete_operator_sessions_sound.
Defined.

Definition AllowlistOperator_steps e r b : Steps advances (AllowlistOperator e r b).
Proof.
  unfold AllowlistOperator, generateOperatorID. solve_steps.
  apply steps_sql. intros ? ? ? Hs. split; [by eapply insert_operator_sound|].
  by eapply insert_operator_admin.
Defined.

(** *** Writing, in one transaction *)
(** A call of the API keeps what the steps keep, so a method that is one
    transaction is one step. *)
Lemma call_advances {A} (m : Eff A) c :
  api_call c = true -> run_call (fun _ => true) c = ignore m -> moves advances m.
Proof.
  intros Hc Hm w. unfold advances. split.
  - pose proof (run_call_sound (fun _ => true) c w) as Hs. rewrite Hm in Hs.
    unfold ignore in Hs. by rewrite bind_run in Hs.
  - pose proof (api_call_admin (fun _ => true) c Hc w) as Ha. rewrite Hm in Ha.
    unfold ignore in Ha. by rewrite bind_run in Ha.
Qed.

Ltac tx_step :=
  apply steps_tx; [done|]; match goal with |- forall w, w_cache (?m w).2 = _ => change (no_cache m) end; solve_no_cache.

Definition DeleteAccountWithCascade_steps id : Steps advances (DeleteAccountWithCascade id).
Proof.
  assert (moves advances (DeleteAccountWithCascade id)) as Hm by by apply (call_advances _ (CDeleteAccount id)).
  revert Hm. unfold DeleteAccountWithCascade. destruct (_ =s _); intros Hm; [apply steps_fail|].
  tx_step.
Defined.

Lemma DeleteComponentWithRevoke_no_cache n : no_cache (DeleteComponentWithRevoke n).
Proof. unfold DeleteComponentWithRevoke. solve_no_cache. Qed.

Lemma UpdateComponent_no_cache n p : no_cache (UpdateComponent n p).
Proof. unfold UpdateComponent. solve_no_cache. Qed.

Definition DeleteComponentWithRevoke_steps n : Steps advances (DeleteComponentWithRevoke n) :=
  steps_tx _ _ _ _ (call_advances _ (CDeleteComponentWithRevoke n) eq_refl eq_refl)
    (DeleteComponentWithRevoke_no_cache n).

Definition UpdateComponent_steps n p : Steps advances (UpdateComponent n p) :=
  steps_tx _ _ _ _ (call_advances _ (CUpdateComponent n p) eq_refl eq_refl) (UpdateComponent_no_cache n p).

Definition UpdateOperatorAtomically_steps id r s :
  Steps advances (UpdateOperatorAtomically id r s).
Proof.
  assert (moves advances (UpdateOperatorAtomically id r s)) as Hm
    by by apply (call_advances _ (CUpdateOperator id r s)).
  revert Hm. unfold UpdateOperatorAtomically.
  destruct r, s; intros Hm; first [apply steps_fail|tx_step].
Defined.
End Methods.

#[export] Hint Resolve CreateAccount_steps UpdateAccount_steps CreateKey_steps RevokeKey_steps
  CreateComponent_steps DeleteComponent_steps DeleteOperatorSessions_steps AllowlistOperator_steps
  DeleteAccountWithCascade_steps DeleteComponentWithRevoke_steps UpdateComponent_steps
  UpdateOperatorAtomically_steps : steps.

(** ** The handlers *)
(** A property of every element of a list, with evidence to compute with. *)
Fixpoint each {A} (P : A -> Type) (l : list A) : Type :=
  match l with [] => unit | x :: l => P x * each P l end.

Fixpoint each_lookup {A} {P : A -> Type} (l : list A) :
    each P l -> forall i, match l !! i with Some x => P x | None => unit end :=
  match l with
  | [] => fun _ i => tt
  | x :: l => fun e i => match i with O => e.1 | S i => each_lookup l e.2 i end
  end.

Fixpoint each_app {A} {P : A -> Type} (l k : list A) : each P l -> each P k -> each P (l ++ k) :=
  match l with
  | [] => fun _ e => e
  | x :: l => fun d e => (d.1, each_app l k d.2 e)
  end.

Fixpoint each_map {A B} {P : A -> Type} {Q : B -> Type} (f : A -> B)
    (h : forall x, P x -> Q (f x)) (l : list A) : each P l -> each Q (map f l) :=
  match l with
  | [] => fun _ => tt
  | x :: l => fun e => (h x e.1, each_map f h l e.2)
  end.

(** What stands around the handlers, and the public routes, do no more than
    the bookkeeping does. *)
Section Guards.
Context `{SqlDriver} `{UnicodeTables} {R : relation Database} `{!PreOrder R} `{!Bookkeeping R}.

Definition steps_handler (h : Handler) : Type := forall r, Steps R (h r).

Definition WriteFromRequest_steps r e : Steps R (WriteFromRequest r e).
Proof. unfold WriteFromRequest. solve_steps. Defined.

Definition lookup_entry_steps n : Steps R (lookup_entry n).
Proof. unfold lookup_entry. solve_steps. Defined.

(** What the singleflight group runs for a name that is not in the cache: what
    the insertion stores was read from the table, after the generation. *)
Definition fill_prog ttl n : Prog (res Component) :=
  Act (get_cache (generation n)) (fun gen =>
    pbind (prog (R := R) (GetComponent_steps n)) (fun r =>
      match r with
      | Ok comp =>
          if Visibility comp =s "public"
          then Act now (fun t =>
            Act (modify_cache (fun c => generation n c =? gen)%Z (cache_insert ttl t n comp gen))
              (fun _ => Halt (Ok comp)))
          else Halt (Ok comp)
      | Err e => Halt (Err e)
      end)).

(** One call runs it, whoever joins gets the result. *)
Definition lead_prog ttl n (id : nat) : Prog (res Component) :=
  pbind (fill_prog ttl n) (fun r => Land n id r (Halt r)).
Definition share_prog ttl n : Prog (res Component) := Share n None (lead_prog ttl n) Halt.

Lemma lead_prog_run ttl n id w : run (lead_prog ttl n id) w = fill ttl n w.
Proof.
  unfold lead_prog. rewrite run_pbind, bind_run. change (fun r => run (Land n id r (Halt r))) with (@ret (res Component)).
  cbn [run]. transitivity (run (fill_prog ttl n) w); [by destruct (run _ w)|].
  unfold fill_prog, fill. cbn [run]. rewrite !bind_run, run_pbind, bindR_run, bind_run, prog_run.
  destruct (GetComponent n _) as [[comp|e] w2]; [|done]. cbn [fst snd]. by destruct (Visibility comp =s "public").
Qed.

Lemma fill_prog_guarded ttl n : guarded R (fill_prog ttl n).
Proof.
  apply guarded_local; [done|]. intros gen. apply guarded_pbind; [apply prog_guarded|].
  intros [comp|e]; [|done]. destruct (Visibility comp =s "public"); [|done].
  apply guarded_local; [done|]. intros t. by apply guarded_local.
Qed.

Lemma share_prog_guarded ttl n : guarded R (share_prog ttl n).
Proof. split; [|done]. intros id. by apply guarded_pbind; [apply fill_prog_guarded|]. Qed.

Lemma GetComponent_record n w comp :
  (GetComponent n w).1 = Ok comp -> exists row, components (w_db w) !! n = Some row /\ comp = scanComponent n row.
Proof.
  rewrite GetComponent_run. cbn. destruct (w_fault w 0); [done|].
  destruct (components (w_db w) !! n) as [row|]; [|done]. intros [= <-]. by exists row.
Qed.

(** It may do so, and a public component that comes of it was read on the way. *)
Lemma fill_prog_held ttl n s :
  wp (R := arbitrary) permitted lands (fill_prog ttl n) (fun r s' =>
    forall comp, r = Ok comp -> Visibility comp = "public" ->
    exists s1, later (R := arbitrary) s s1 /\ earlier s1 s' /\ public_record n comp s1) s.
Proof.
  intros s1 Hs1. split; [by apply permitted_plain|]. cbn [get_cache fst snd]. apply wp_pbind.
  apply wp_reading.
  { intros s2 w _. apply permitted_plain. }
  { unfold no_rows. intros [row|e]; cbn; [by eexists|]. case_match; by eexists. }
  intros s2 s3 H12 H23. change (bind (query_row _) _ s2.1) with (GetComponent n s2.1).
  destruct (GetComponent n s2.1).1 as [comp|e] eqn:Ec; [|by intros ? _].
  apply GetComponent_record in Ec as (row & Hrow & ->).
  assert (later (R := arbitrary) s s2) as H02 by (etrans; [exact Hs1|]; etrans; [|exact H12]; apply later_stay).
  assert (forall s', earlier s2 s' -> forall comp, Ok (scanComponent n row) = Ok comp -> Visibility comp = "public" ->
    exists s1, later (R := arbitrary) s s1 /\ earlier s1 s' /\ public_record n comp s1) as Hdone.
  { intros s' Hs' comp [= <-] Hv. exists s2. split; [done|]. split; [done|]. by exists row. }
  apply later_past in H23.
  destruct (Visibility (scanComponent n row) =s "public") eqn:Hv.
  2:{ intros s4 H34%later_past. apply Hdone. by etrans. }
  apply String.eqb_eq in Hv.
  intros s4 H34. split; [by apply permitted_plain|]. intros s5 H45. apply later_past in H12, H34, H45. split.
  2:{ intros s6 H56%later_past. apply Hdone. etrans; [exact H23|]. etrans; [exact H34|].
      etrans; [apply earlier_next|]. etrans; [exact H45|]. etrans; [apply earlier_next|exact H56]. }
  unfold modify_cache, cache_insert. cbn [snd w_cache with_cache with_metrics].
  destruct (_ =? _)%Z eqn:Hg; [|by apply permitted_plain]. apply Z.eqb_eq in Hg.
  apply (allow_insert _ _ n (scanComponent n row) ((now s4.1).1 + ttl) s1 s2).
  - etrans; [apply earlier_after|exact H12].
  - do 2 (etrans; [eassumption|]). etrans; [apply earlier_after|exact H45].
  - unfold gen_at. by rewrite Hg.
  - by exists row.
  - done.
Qed.

Lemma share_prog_obeys ttl n : obeys (share_prog ttl n).
Proof.
  intros s s' _. split; [|by intros ? _ ? ? _ _ ? _]. intros _. apply wp_pbind.
  eapply wp_always, fill_prog_held. intros r s1 Hr s2 Hs2. split; [|by intros ? _].
  intros comp -> Hv. destruct (Hr comp eq_refl Hv) as (s3 & [_ _ Hc] & H3 & Hrec). exists s3.
  split; [|split; [|done]].
  - unfold begun_call. change (group (regroup _ s')) with (begin_call n (group s')) in Hc.
    rewrite begin_call_length in Hc. lia.
  - apply later_past in Hs2. by etrans.
Qed.

Lemma share_prog_balanced ttl n : balanced None (share_prog ttl n).
Proof.
  split; [done|]. split; [done|]. split; [|done]. intros id. split; [|intros w; by rewrite !lead_prog_run].
  intros gen. unfold GetComponent_steps. cbn. intros a. unfold no_rows. by repeat (case_match; cbn).
Qed.

Definition fill_steps ttl n : Steps R (fill ttl n) :=
  {| prog := share_prog ttl n; prog_run := lead_prog_run ttl n 0;
     prog_guarded := share_prog_guarded ttl n; prog_obeys := share_prog_obeys ttl n;
     prog_balanced := share_prog_balanced ttl n |}.

Definition CachedGetComponent_steps ttl n : Steps R (CachedGetComponent ttl n).
Proof.
  unfold CachedGetComponent. apply steps_bind; [solve_steps|intros _].
  destruct (negb (enabled ttl)); [apply GetComponent_steps|].
  apply steps_bind; [apply lookup_entry_steps|]. intros [comp|]; [solve_steps|exact (fill_steps ttl n)].
Defined.

Definition check_eff_steps lim ip : Steps R (check_eff lim ip).
Proof.
  unfold check_eff. solve_steps. apply steps_local. intros w. by destruct (check _ _ _ _).
Defined.

Definition state_put_steps handle e : Steps R (state_put handle e).
Proof. apply steps_local. intros w. unfold state_put. by destruct (_ =? _)%Z. Defined.

Definition state_consume_steps handle : Steps R (state_consume handle).
Proof.
  apply steps_local. intros w. unfold state_consume.
  destruct (_ !! handle); [|done]. by destruct (Consume _ _ _).
Defined.

#[local] Hint Resolve WriteFromRequest_steps CachedGetComponent_steps check_eff_steps state_put_steps
  state_consume_steps : steps.

Definition RateLimit_steps lim h : steps_handler h -> steps_handler (RateLimit lim h).
Proof. intros Hh r. unfold RateLimit. solve_steps. Defined.

Definition Login_steps providers : steps_handler (Login providers).
Proof. intros r. unfold Login, RandomHex. solve_steps. Defined.

Definition failCallback_steps r e p st c m why : Steps R (failCallback r e p st c m why).
Proof. unfold failCallback. solve_steps. Defined.
#[local] Hint Resolve failCallback_steps : steps.

Definition start_session_steps redir r p i o : Steps R (start_session redir r p i o).
Proof. unfold start_session. cbv zeta. solve_steps. Defined.
#[local] Hint Resolve start_session_steps : steps.

Definition match_operator_steps redir r p i : Steps R (match_operator redir r p i).
Proof. unfold match_operator. cbv zeta. solve_steps. Defined.
#[local] Hint Resolve match_operator_steps : steps.

Definition exchange_code_steps redir r p provider code entry :
  Steps R (exchange_code redir r p provider code entry).
Proof. unfold exchange_code. cbv zeta. solve_steps. Defined.
#[local] Hint Resolve exchange_code_steps : steps.

Definition Callback_steps providers redir : steps_handler (Callback providers redir).
Proof. intros r. unfold Callback. cbv zeta. solve_steps. Defined.

Definition answer_steps o : Steps R (answer o).
Proof. unfold answer. solve_steps. Defined.
#[local] Hint Resolve answer_steps : steps.

Definition account_gate_steps key : Steps R (account_gate key).
Proof. unfold account_gate. solve_steps. Defined.

Definition check_credentials_steps r c : Steps R (check_credentials r c).
Proof. unfold check_credentials. solve_steps. apply account_gate_steps. Defined.

Definition authorize_steps ttl r : Steps R (@authorize _ (cached_source ttl) r).
Proof.
  unfold authorize. cbn [cs_get cached_source]. solve_steps. apply check_credentials_steps.
Defined.

Definition ServeHTTP_steps ttl r : Steps R (@ServeHTTP _ (cached_source ttl) r).
Proof. unfold ServeHTTP. solve_steps. apply authorize_steps. Defined.

Definition session_gate_steps r : Steps R (session_gate r).
Proof. unfold session_gate, unauthorized. solve_steps. Defined.

Definition RequireRole_steps h : steps_handler h -> steps_handler (RequireRole h).
Proof. intros Hh r. unfold RequireRole. cbv zeta. solve_steps. Defined.

Definition RequireSession_steps h : steps_handler h -> steps_handler (RequireSession h).
Proof.
  intros Hh r. unfold RequireSession. apply steps_bind; [apply session_gate_steps|].
  intros [resp|[[sess op] t]]; solve_steps.
Defined.

Definition CSRFGuard_steps expected h : steps_handler h -> steps_handler (CSRFGuard expected h).
Proof. intros Hh r. unfold CSRFGuard. cbv zeta. solve_steps. Defined.

Definition admin_route_steps expected h (Hh : steps_handler h) : steps_handler (admin_route expected h) :=
  CSRFGuard_steps expected _ (RequireSession_steps _ (RequireRole_steps h Hh)).

Definition AdminPage_steps index file_server : steps_handler (AdminCSP (AdminPage index file_server)).
Proof.
  intros r. unfold AdminCSP, AdminPage. apply steps_bind; [by apply steps_local|]. intros ?. solve_steps.
Defined.

Definition reap_states_steps : Steps R reap_states.
Proof. unfold reap_states. apply steps_bind; [apply steps_now|]. intros t. by apply steps_local. Defined.

Definition reap_limiter_steps lim : Steps R (reap_limiter lim).
Proof. unfold reap_limiter. apply steps_bind; [apply steps_now|]. intros t. by apply steps_local. Defined.
End Guards.
#[export] Hint Resolve WriteFromRequest_steps CachedGetComponent_steps : steps.

Section Handlers.
Context `{SqlDriver} `{UnicodeTables} `{Router} (cfg : Wiring).
Context (MkdirAll : string -> option string).
Context (file_server : string -> Response).

(** A route of the service as steps: it writes no business data, or it is a
    writing route behind the guards. *)
Inductive route_steps : pattern * Handler -> Type :=
| quiet_route p h : steps_handler (R := quietly) h -> route_steps (p, h)
| writing_route p h : writing p -> steps_handler (R := advances) h ->
    route_steps (p, admin_route (adminOrigin cfg) h).

Definition route_prog e (s : route_steps e) : steps_handler (R := advances) e.2 :=
  match s with
  | quiet_route _ _ q => fun r => steps_weaken quietly_advances _ (q r)
  | writing_route _ h _ t => admin_route_steps (adminOrigin cfg) h t
  end.

Definition public_steps : each route_steps (public_routes cfg file_server).
Proof.
  unfold public_routes. repeat split; apply quiet_route.
  - intros r. apply steps_ret.
  - intros r. apply steps_bind; [apply ServeHTTP_steps|intros ?; apply steps_ret].
  - apply RateLimit_steps, Login_steps.
  - apply RateLimit_steps, Callback_steps.
  - apply AdminPage_steps.
  - apply AdminPage_steps.
Defined.

(** The handlers of the API before the guards are put around them. *)
Definition api_handler_steps b :
  each (fun e => (steps_handler (R := quietly) e.2 + writing e.1 * steps_handler (R := advances) e.2)%type)
    (api_routes cfg MkdirAll b).
Proof.
  unfold api_routes. repeat split; cbn [fst snd].
  all: first
    [ right; split;
      [eexists _, _; split; [reflexivity|]; split; [reflexivity|]; split; [reflexivity|];
       split; [reflexivity|]; done
      |intros req;
       unfold Keys_Create, Keys_Delete, Components_Create, Components_Update, Components_Delete,
         CachedDeleteComponent, CachedUpdateComponent, CachedDeleteComponentWithRevoke, evicting,
         Accounts_Create, Accounts_Update, Accounts_Delete, Accounts_IssueKey, with_account,
         Operators_Create, Operators_Update, after_update;
       cbv zeta; solve_steps; fail ]
    | left; intros req;
      unfold Whoami, Logout, Keys_List, Keys_Get, Components_List, Components_GetOne, Accounts_List,
        Accounts_Get, Accounts_ListKeys, with_account, Audit_List, Operators_List;
      cbv zeta; solve_steps; fail ].
Defined.

Definition routes_steps b : each route_steps (routes cfg MkdirAll file_server b).
Proof.
  unfold routes. apply each_app; [apply public_steps|].
  eapply each_map; [|apply api_handler_steps]. intros [p h] [q|[Hw t]]; cbn [fst snd] in *.
  - apply quiet_route. by apply admin_route_steps.
  - by apply writing_route.
Defined.

(** What is served where no route matches. *)
Definition unmatched_steps (r : Request) (guarded : bool) :
    Steps quietly (if guarded then admin_route (adminOrigin cfg) (fun r => ret (unrouted r)) r else ret (unrouted r)).
Proof.
  destruct guarded; [|apply steps_ret]. apply admin_route_steps. intros ?. apply steps_ret.
Defined.

Definition serve_steps b r : Steps advances (serve cfg MkdirAll file_server b r).
Proof.
  unfold serve. destruct (find_route _ _ _) as [[i params]|].
  - pose proof (each_lookup _ (routes_steps b) i) as He. revert He.
    destruct (routes _ _ _ _ !! i) as [e|]; intros He; [by apply route_prog|apply steps_ret].
  - apply (steps_weaken quietly_advances), unmatched_steps.
Defined.

Definition event_steps e : Steps advances (run_event cfg MkdirAll file_server e).
Proof.
  destruct e; cbn [run_event]; (apply steps_bind; [|intros ?; apply steps_ret]).
  - apply serve_steps.
  - apply reap_states_steps.
  - apply reap_limiter_steps.
Defined.
End Handlers.
