(* ===== verification/Stays.v ===== *)
(** * Conditions that requests keep

    [stays I m] says that [m] keeps [I], a condition on the whole world, of
    which the database is no part.  For an [I] that the primitives of a kind
    keep, [serve_stays] walks through every route of the service. *)
From Stdlib Require Import ZArith Lia.
From stdpp Require Import base gmap strings list relations.
From S2P Require Import Prelude GoStrings Sha256 Errors Metrics State Tables Effects AccountStore.
From S2P Require Import ComponentStore SessionStore OperatorStore AuditStore StoreInvariant.
From S2P Require Import StoreMethods ComponentCache Http ForwardAuth RequestMeta OAuthState.
From S2P Require Import RateLimiter AdminGuards GuardsSpec Pagination KeysHandler AccountsHandler.
From S2P Require Import OperatorsHandler ComponentsHandler AdminUI AuthHandler AuthSpec Server.
From S2P Require Import Background Fixtures ServerSpec ServiceInvariant.
Open Scope packyard_scope.
Open Scope eff_scope.

(** [indifferent I]: [I] survives any change of the tables, the cache and the
    limiter, and the passing of the clock, the faults and the entropy. *)
Class Indifferent (I : World -> Prop) := {
  ind_db : forall db w, I w -> I (with_db db w);
  ind_buckets : forall b w, I w -> I (with_buckets b w);
  ind_clock : forall w, I w -> I (tick_clock w);
  ind_fault : forall w, I w -> I (tick_fault w);
  ind_rand : forall w, I w -> I (tick_rand w) }.

(** [CacheFree I]: and any change of the cache and of the counters. *)
Class CacheFree (I : World -> Prop) := {
  ind_cache : forall c w, I w -> I (with_cache c w);
  ind_metrics : forall m w, I w -> I (with_metrics m w) }.

Definition stays (I : World -> Prop) {A} (m : Eff A) : Prop := forall w, I w -> I (m w).2.

Section Stays.
Context {I : World -> Prop} `{!Indifferent I}.

Lemma holds_ret {A} (a : A) : stays I (ret a).
Proof. by intros w. Qed.

Lemma holds_bind {A B} (m : Eff A) (k : A -> Eff B) :
  stays I m -> (forall a, stays I (k a)) -> stays I (bind m k).
Proof. intros Hm Hk w Hw. rewrite bind_run. by apply Hk, Hm. Qed.

Lemma stays_now : stays I now.
Proof. intros w. apply ind_clock. Qed.

Lemma stays_rand n : stays I (rand_hex n).
Proof. intros w. apply ind_rand. Qed.

Lemma stays_rand_bytes n : stays I (rand_bytes n).
Proof. intros w. apply ind_rand. Qed.

Lemma stays_get_cache {A} (f : Cache -> A) : stays I (get_cache f).
Proof. by intros w. Qed.

Lemma stays_check_eff lim ip : stays I (check_eff lim ip).
Proof.
  apply holds_bind; [apply stays_now|]. intros t w Hw.
  destruct (check lim t ip (w_buckets w)). by apply ind_buckets.
Qed.

Lemma stays_reap_limiter lim : stays I (reap_limiter lim).
Proof. apply holds_bind; [apply stays_now|]. intros t w. apply ind_buckets. Qed.

Context `{SqlDriver}.

Lemma stays_sql {A} (f : Database -> stmt A) : stays I (sql f).
Proof.
  intros w Hw. rewrite sql_run. destruct (w_fault w 0); [by apply ind_fault|].
  destruct (f (w_db w)); [by apply ind_db, ind_fault|by apply ind_fault].
Qed.

Lemma stays_with_tx {A} bp cp commits (body : Eff (res A)) :
  stays I body -> stays I (with_tx bp cp commits body).
Proof.
  intros Hb w Hw. unfold with_tx. destruct (w_fault w 0); [by apply ind_fault|].
  specialize (Hb (tick_fault w) (ind_fault w Hw)).
  destruct (body (tick_fault w)) as [[a|e] w2]; [|by apply ind_db].
  destruct (commits a); [|by apply ind_db].
  destruct (w_fault w2 0); [by apply ind_db, ind_fault|by apply ind_fault].
Qed.
End Stays.

Create HintDb stays.
#[export] Hint Resolve holds_ret stays_now stays_rand stays_rand_bytes stays_get_cache
   stays_check_eff stays_reap_limiter stays_sql : stays.
#[export] Hint Extern 0 (Indifferent _) => typeclasses eauto : stays.

(** [Cached I]: what [I] needs of the operations that reach the cache or the
    counters. *)
Class Cached `{SqlDriver} (I : World -> Prop) := {
  cached_get_stays : forall ttl n, stays I (CachedGetComponent ttl n);
  evicting_stays : forall ttl n A (m : Eff (res A)), stays I m -> stays I (evicting ttl n m);
  ServeHTTP_stays : forall ttl r, stays I (@ServeHTTP _ (cached_source ttl) r) }.
#[export] Hint Resolve cached_get_stays ServeHTTP_stays : stays.
#[export] Hint Extern 0 (Cached _) => typeclasses eauto : stays.

(** Walks through a computation, unfolding every method on the way to the
    primitives above. *)
Ltac head_of t := lazymatch t with ?f _ => head_of f | _ => t end.
Ltac solve_stays :=
  repeat (cbv zeta; match goal with
  | |- stays _ _ => solve [auto with stays]
  | |- stays _ (bind _ _) => apply holds_bind; [|intros ?]
  | |- stays _ (with_tx _ _ _ _) => apply stays_with_tx
  | |- stays _ (evicting _ _ _) => apply evicting_stays
  | |- stays _ (match ?x with _ => _ end) => destruct x
  | |- stays _ ?m => let h := head_of m in progress unfold h
  end).

Section CacheFreeCached.
Context {I : World -> Prop} `{!Indifferent I} `{!CacheFree I}.

Lemma stays_modify_cache sets f : stays I (modify_cache sets f).
Proof. intros w Hw. by apply ind_cache, ind_metrics. Qed.

Lemma stays_meter f : stays I (meter f).
Proof. intros w. apply ind_metrics. Qed.
#[local] Hint Resolve stays_modify_cache stays_meter : stays.

#[export] Instance cache_free_cached `{SqlDriver} : Cached I.
Proof.
  assert (forall ttl n, stays I (CachedGetComponent ttl n)) as Hget by (intros ttl n; solve_stays).
  split; [done| |].
  - intros ttl n A m Hm. unfold evicting. solve_stays.
  - intros ttl r. unfold ServeHTTP, authorize. cbn [cs_get cached_source]. solve_stays.
Qed.
End CacheFreeCached.

Section Requests.
Context `{SqlDriver} `{UnicodeTables} `{Router} (cfg : Wiring).
Context (MkdirAll : string -> option string).
Context (file_server : string -> Response).
Context {I : World -> Prop} `{!Indifferent I} `{!Cached I}.

Definition stay_handler (h : Handler) : Prop := forall r, stays I (h r).

Lemma WriteFromRequest_stays r e : stays I (WriteFromRequest r e).
Proof. solve_stays. Qed.
#[local] Hint Resolve WriteFromRequest_stays : stays.

Lemma failCallback_stays r e p st c m why : stays I (failCallback r e p st c m why).
Proof. solve_stays. Qed.
#[local] Hint Resolve failCallback_stays : stays.

Lemma start_session_stays redir r p ident op : stays I (start_session redir r p ident op).
Proof. solve_stays. Qed.
#[local] Hint Resolve start_session_stays : stays.

Lemma Callback_stays Providers redir r :
  (forall h, oauth_handle r = Some h -> stays I (state_consume h)) -> stays I (Callback Providers redir r).
Proof. intros Hc. unfold Callback. cbv zeta. destruct (oauth_handle r) as [h|]; [specialize (Hc h eq_refl)|]; solve_stays. Qed.

Lemma admin_route_stays expected h : stay_handler h -> stay_handler (admin_route expected h).
Proof. intros Hh r. red in Hh. unfold admin_route, CSRFGuard, RequireSession, RequireRole. solve_stays; apply Hh. Qed.

Lemma RateLimit_stays lim h : stay_handler h -> stay_handler (RateLimit lim h).
Proof. intros Hh r. unfold RateLimit. solve_stays; apply Hh. Qed.

Lemma api_routes_stay b : Forall (fun e => stay_handler e.2) (api_routes cfg MkdirAll b).
Proof.
  unfold api_routes. repeat apply Forall_cons_2; try apply Forall_nil_2; cbn [snd]; intros req; solve_stays.
Qed.

(** A route, given what its OAuth handlers do to this request. *)
Lemma serve_stays b r :
  (forall params, stays I (Login (providers cfg) (with_params params r))) ->
  (forall params, stays I (Callback (providers cfg) "" (with_params params r))) ->
  stays I (serve cfg MkdirAll file_server b r).
Proof.
  intros Hl Hc. unfold serve. destruct (find_route _ _ _) as [[i params]|].
  - destruct (routes _ _ _ _ !! i) as [e|] eqn:He; [|apply holds_ret].
    revert He. unfold routes. intros [He|[_ He]]%lookup_app_Some.
    + unfold public_routes in He. repeat (destruct i as [|i]; [injection He as <-; cbn [snd]|]); [..|done].
      all: unfold RateLimit; solve_stays.
    + rewrite list_lookup_fmap in He. destruct (api_routes _ _ _ !! _) as [e'|] eqn:Ha; [|done].
      injection He as <-. pose proof (api_routes_stay b) as Hs. rewrite Forall_lookup in Hs.
      apply admin_route_stays, (Hs _ _ Ha).
  - destruct (_ || HasPrefix _ _); [|apply holds_ret]. apply admin_route_stays. intros ?. apply holds_ret.
Qed.
End Requests.

