(* ===== verification/SignInSpec.v ===== *)
(** * Signing in completes

    From the Login request to a request behind the session guard, with any
    other requests and reaper passes in between. *)
From Stdlib Require Import ZArith Lia.
From stdpp Require Import base gmap strings list relations.
From S2P Require Import Prelude GoStrings Sha256 Errors State Tables Effects AccountStore.
From S2P Require Import ComponentStore SessionStore OperatorStore AuditStore StoreInvariant.
From S2P Require Import StoreMethods ComponentCache Http ForwardAuth RequestMeta OAuthState.
From S2P Require Import RateLimiter AdminGuards GuardsSpec Pagination KeysHandler AccountsHandler.
From S2P Require Import OperatorsHandler ComponentsHandler AdminUI AuthHandler AuthSpec Server.
From S2P Require Import Background Fixtures ServerSpec ServiceInvariant Stays.
Open Scope packyard_scope.
Open Scope eff_scope.

(** ** Conditions on the world that the database has no part in *)
(** ** A flow in progress *)
Definition drawn (n : nat) (f : nat -> Z) : string := hex_encode (map (fun i => f i mod 256)%Z (seq 0 n)).

(** The clock does not run backwards, the handle is not drawn again, and the
    entry is there unless its time is over. *)
Definition flow_kept (h : string) (e : StateEntry) (w : World) : Prop :=
  (forall i, (w_clock w i <= w_clock w (S i))%Z) /\
  (forall i f, w_rand w i = Some f -> drawn 16 f <> h) /\
  (w_states w !! h = Some e \/ (Created e + StateTTL < w_clock w 0)%Z).

#[local] Instance flow_indifferent h e : Indifferent (flow_kept h e).
Proof.
  split; intros; destruct H as (Hc & Hr & Hs); (split; [|split]); cbn; auto.
  - intros i. apply Hc.
  - unfold shift. specialize (Hc 0). destruct Hs; [by left|right; lia].
  - intros i. apply (Hr (S i)).
Qed.

#[local] Instance flow_cache_free h e : CacheFree (flow_kept h e).
Proof. by split. Qed.

#[local] Instance no_faults_cache_free : CacheFree no_faults.
Proof. by split. Qed.

#[local] Instance no_faults_indifferent : Indifferent no_faults.
Proof. split; auto. intros w Hw i. apply (Hw (S i)). Qed.

Lemma stays_draw {A} h e (k : res string -> Eff A) :
  (forall a, a <> Ok h -> stays (flow_kept h e) (k a)) -> stays (flow_kept h e) (bind (RandomHex 16) k).
Proof.
  intros Hk w Hw. rewrite bind_run. apply Hk; [|by apply stays_rand].
  cbn. destruct Hw as (_ & Hr & _). destruct (w_rand w 0) as [f|] eqn:Ef; [|done].
  intros [= Hd]. by apply (Hr 0 f).
Qed.

(** The state store, on other handles, and the reaper. *)
Lemma stays_put h e h' e' : h' <> h -> stays (flow_kept h e) (state_put h' e').
Proof.
  intros Hne w (Hc & Hr & Hs). unfold state_put, Put.
  destruct (Created e' =? zero_time)%Z; (split; [|split]); cbn; auto.
  - intros i. apply Hc.
  - rewrite lookup_insert_ne by done. unfold shift. specialize (Hc 0). destruct Hs; [by left|right; lia].
  - rewrite lookup_insert_ne by done. exact Hs.
Qed.

Lemma stays_consume h e h' : h' <> h -> stays (flow_kept h e) (state_consume h').
Proof.
  intros Hne w (Hc & Hr & Hs). unfold state_consume, Consume.
  destruct (w_states w !! h') as [e'|] eqn:E; [|done]. rewrite ?E. cbn [snd].
  split; [intros i; apply Hc|]. split; [done|]. cbn.
  rewrite lookup_delete_ne by done. unfold shift. specialize (Hc 0). destruct Hs; [by left|right; lia].
Qed.

Lemma stays_reap_states h e : stays (flow_kept h e) reap_states.
Proof.
  intros w (Hc & Hr & Hs). unfold reap_states. rewrite bind_run. cbn.
  split; [intros i; apply Hc|]. split; [done|]. cbn.
  unfold shift. specialize (Hc 0). destruct Hs as [Hs|Hs]; [|right; lia].
  unfold reap. destruct (decide (w_clock w 0 - StateTTL <= Created e)%Z) as [Hle|Hgt].
  - left. by apply map_lookup_filter_Some.
  - right. lia.
Qed.

Lemma Login_stays `{SqlDriver} providers h e r : stays (flow_kept h e) (Login providers r).
Proof.
  unfold Login. cbv zeta. destruct (providers !! _); [|solve_stays].
  do 2 (apply holds_bind; [apply stays_rand|intros [?|?]; [|apply holds_ret]]). apply stays_draw. intros [h'|e'] Hne; [|apply holds_ret].
  apply holds_bind; [apply stays_put; congruence|]. intros _. apply holds_ret.
Qed.

Lemma consume_faultless h : stays no_faults (state_consume h).
Proof. intros w Hn. unfold state_consume. destruct (_ !! _); [|done]. by destruct (Consume _ _ _). Qed.

Lemma put_faultless h e : stays no_faults (state_put h e).
Proof. intros w Hn. unfold state_put. by destruct (_ =? _)%Z. Qed.
#[local] Hint Resolve put_faultless : stays.

(** ** The steps *)
Section Steps.
Context `{SqlDriver} `{UnicodeTables}.

Lemma hex_drawn_nonempty n f : drawn (S n) f <> "".
Proof. unfold drawn. cbn [seq map hex_encode]. done. Qed.

Lemma CreateSession_ok op ip ua w f :
  w_rand w 0 = Some f -> no_faults w -> sessions (w_db w) !! drawn 32 f = None ->
  is_Some (operators (w_db w) !! op) ->
  exists sess w', CreateSession op ip ua w = (Ok sess, w') /\
    Sess_ID sess = drawn 32 f /\ Sess_ExpiresAt sess = (w_clock w 0 + SessionAbsoluteLifetime)%Z /\
    w_db w' = set_sessions (<[drawn 32 f :=
        mkSessionRow op (format_stamp (w_clock w 0)) (format_stamp (w_clock w 0))
          (format_stamp (w_clock w 0 + SessionAbsoluteLifetime)) (Some ip) (Some ua)]>
        (sessions (w_db w))) (w_db w).
Proof.
  intros Hf Hn Hs Ho. unfold CreateSession, generateSessionID. rewrite bindR_run, wrapE_run. unfold rand_hex.
  cbn [fst snd]. rewrite Hf. cbn [fst snd]. fold (drawn 32 f). rewrite bind_run.
  unfold now. cbn [fst snd]. rewrite bind_run, sql_run. cbn [fst snd w_fault tick_clock tick_rand].
  rewrite (Hn 0). unfold sql_insert_session. cbn [w_db tick_clock tick_rand s_operator_id].
  rewrite Hs, bool_decide_eq_false_2 by apply is_Some_None. rewrite bool_decide_eq_true_2 by done.
  cbn [fst snd]. do 2 eexists. split; [reflexivity|]. by repeat split.
Qed.

(** What a login writes about its operator leaves the standing alone. *)
Definition same_standing (oid : string) (db db' : Database) : Prop :=
  sessions db' = sessions db /\
  forall o, operators db !! oid = Some o -> exists o', operators db' !! oid = Some o' /\
    o_email o' = o_email o /\ o_role o' = o_role o /\ o_status o' = o_status o.

#[local] Instance same_standing_preorder oid : PreOrder (same_standing oid).
Proof.
  split; [intros db; split; [done|]; eauto|]. intros a b c [Hs Hab] [Hs' Hbc].
  split; [congruence|]. intros o Ho. destruct (Hab o Ho) as (o1 & Ho1 & ? & ? & ?).
  destruct (Hbc o1 Ho1) as (o2 & ? & ? & ? & ?). exists o2. repeat split; congruence.
Qed.

Lemma update_standing oid id guard upd db n db' :
  (forall r, o_email (upd r) = o_email r /\ o_role (upd r) = o_role r /\ o_status (upd r) = o_status r) ->
  sql_update_operator id guard upd db = Done n db' -> same_standing oid db db'.
Proof.
  intros Hu Hs. unfold sql_update_operator in Hs. destruct (operators db !! id) as [r|] eqn:Er; inv_stmt Hs.
  all: split; [done|]; intros o Ho; eauto.
  cbn. destruct (decide (id = oid)) as [->|Hne].
  - rewrite lookup_insert_eq. simplify_eq. eexists. split; [done|]. apply Hu.
  - rewrite lookup_insert_ne by done. eauto.
Qed.

Lemma UpdateLastLogin_standing oid id t : moves (same_standing oid) (UpdateLastLogin id t).
Proof. unfold UpdateLastLogin. solve_moves. apply moves_sql. intros db n db'. by apply update_standing. Qed.

Lemma UpdateLoginProvider_standing oid id p u : moves (same_standing oid) (UpdateLoginProvider id p u).
Proof. unfold UpdateLoginProvider. solve_moves; apply moves_sql; intros db n db'; by apply update_standing. Qed.

Lemma WriteFromRequest_standing oid r e : moves (same_standing oid) (WriteFromRequest r e).
Proof.
  unfold WriteFromRequest, Write. cbv zeta. solve_moves. apply moves_sql.
  intros db u db' [= _ <-]. split; [done|]. eauto.
Qed.

Lemma stamp_second t : (t - Second < parse_stamp (format_stamp t) <= t)%Z.
Proof.
  unfold parse_stamp, format_stamp, Second.
  pose proof (Z.mod_pos_bound t 1000000000 ltac:(lia)). pose proof (Z.div_mod t 1000000000 ltac:(lia)). lia.
Qed.

(** A session just created is in force for the next eight hours. *)
Lemma fresh_in_force db db' oid o id row t t' :
  operators db !! oid = Some o -> o_status o = "active" ->
  s_operator_id row = oid -> s_last_seen_at row = format_stamp t ->
  s_expires_at row = format_stamp (t + SessionAbsoluteLifetime) ->
  same_standing oid (set_sessions (<[id := row]> (sessions db)) db) db' ->
  (t' <= t + SessionIdleLifetime - Second)%Z ->
  exists o', in_force db' t' id row o' /\ o_email o' = o_email o /\ o_role o' = o_role o.
Proof.
  intros Ho Ha Hop Hl He [Hs Hst] Ht. destruct (Hst o Ho) as (o' & Ho' & Hm & Hr & Hact).
  exists o'. split; [|done]. split; [by rewrite Hs; apply lookup_insert_eq|].
  rewrite Hop, Hl, He. split; [done|]. split; [congruence|].
  pose proof (stamp_second t). pose proof (stamp_second (t + SessionAbsoluteLifetime)).
  unfold SessionIdleLifetime, SessionAbsoluteLifetime, Hour, Minute, Second in *. lia.
Qed.

Lemma start_session_ok redir r p ident op w f o :
  w_rand w 0 = Some f -> no_faults w -> sessions (w_db w) !! drawn 32 f = None ->
  operators (w_db w) !! Op_ID op = Some o ->
  let '(resp, w') := start_session redir r p ident op w in
  IssueSessionCookie (drawn 32 f) (w_clock w 0 + SessionAbsoluteLifetime) ∈ rs_cookies resp /\
  exists row, s_operator_id row = Op_ID op /\ s_last_seen_at row = format_stamp (w_clock w 0) /\
    s_expires_at row = format_stamp (w_clock w 0 + SessionAbsoluteLifetime) /\
    same_standing (Op_ID op) (set_sessions (<[drawn 32 f := row]> (sessions (w_db w))) (w_db w)) (w_db w').
Proof.
  intros Hf Hn Hs Ho. unfold start_session. rewrite bind_run.
  destruct (CreateSession_ok (Op_ID op) (handler_clientIP r) (UserAgent r) w f Hf Hn Hs ltac:(eauto))
    as (sess & w1 & -> & Hid & Hexp & Hdb). cbn [fst snd].
  match goal with |- context [bind ?m ?k w1] => set (tail := bind m k) end.
  assert (moves (same_standing (Op_ID op)) tail) as Hm.
  { subst tail. cbv zeta. solve_moves; auto using UpdateLastLogin_standing, UpdateLoginProvider_standing,
      WriteFromRequest_standing. }
  specialize (Hm w1). rewrite Hdb in Hm. destruct (tail w1) as [resp w'] eqn:Et. split.
  - apply (f_equal fst) in Et. subst tail. rewrite !bind_run in Et. cbn [fst ret] in Et.
    rewrite <- Et, Hid, Hexp. cbn [rs_cookies set_cookies]. set_solver.
  - eexists. split; [|split; [|split; [|exact Hm]]]; done.
Qed.

Context (Providers : gmap string OAuthProvider).

Lemma Login_ok provider fs fv fh r w :
  Providers !! r_param r "provider" = Some provider ->
  w_rand w 0 = Some fs -> w_rand w 1 = Some fv -> w_rand w 2 = Some fh ->
  exists resp, Login Providers r w =
    (resp, with_states (<[drawn 16 fh := mkStateEntry (drawn 32 fs) (drawn 32 fv) (r_param r "provider") (w_clock w 0)]>
       (w_states w)) (tick_clock (tick_rand (tick_rand (tick_rand w))))) /\
    rs_body resp = BRedirect (AuthorizeURL (drawn 32 fs) (PKCECodeChallenge (drawn 32 fv))) /\
    handle_cookie (drawn 16 fh) (StateTTL / Second) ∈ rs_cookies resp.
Proof.
  intros Hp Hs Hv Hh. unfold Login, RandomHex, rand_hex. cbv zeta. rewrite Hp, bind_run. cbn [fst snd].
  rewrite Hs, bind_run. cbn [fst snd]. change (w_rand (tick_rand w) 0) with (w_rand w 1). rewrite Hv, bind_run.
  cbn [fst snd]. change (w_rand (tick_rand (tick_rand w)) 0) with (w_rand w 2). rewrite Hh, bind_run. eexists. split; [reflexivity|].
  split; [done|]. cbn. set_solver.
Qed.

Lemma match_operator_ok redir r p ident w oid o f :
  id_Email ident <> "" -> unique_column o_email (operators (w_db w)) ->
  operators (w_db w) !! oid = Some o -> o_email o = canonicalEmail (id_Email ident) ->
  o_status o = "active" -> no_faults w -> w_rand w 0 = Some f ->
  match_operator redir r p ident w = start_session redir r p ident (scanOperator oid o) (tick_fault w).
Proof.
  intros Hne Hu Ho Hm Ha Hn Hf. unfold match_operator. cbv zeta.
  rewrite (proj2 (String.eqb_neq _ _) Hne), bind_run. unfold GetOperatorByEmail.
  rewrite bind_run, query_row_run, (Hn 0). cbn [fst snd].
  rewrite (proj2 (find_by_Some _ _ _ _ _ Hu) (conj Ho Hm)). cbn [fst snd ret scanOperator Op_Status].
  by rewrite Ha.
Qed.

(** A callback of a live flow signs the operator in. *)
Lemma Callback_ok redir r w handle entry provider ident oid o f :
  Providers !! r_param r "provider" = Some provider ->
  oauth_handle r = Some handle -> w_states w !! handle = Some entry ->
  (w_clock w 0 <= Created entry + StateTTL)%Z ->
  State_ entry <> "" -> State_ entry = r_query r "state" -> Provider entry = r_param r "provider" ->
  r_query r "code" <> "" ->
  Exchange (OAuthProvider := provider) (w_clock w 1) (r_query r "code") (CodeVerifier entry) = Ok ident ->
  id_Email ident <> "" -> unique_column o_email (operators (w_db w)) ->
  operators (w_db w) !! oid = Some o -> o_email o = canonicalEmail (id_Email ident) ->
  o_status o = "active" -> no_faults w -> w_rand w 0 = Some f -> sessions (w_db w) !! drawn 32 f = None ->
  let '(resp, w') := Callback Providers redir r w in
  IssueSessionCookie (drawn 32 f) (w_clock w 2 + SessionAbsoluteLifetime) ∈ rs_cookies resp /\
  exists row, s_operator_id row = oid /\ s_last_seen_at row = format_stamp (w_clock w 2) /\
    s_expires_at row = format_stamp (w_clock w 2 + SessionAbsoluteLifetime) /\
    same_standing oid (set_sessions (<[drawn 32 f := row]> (sessions (w_db w))) (w_db w)) (w_db w').
Proof.
  intros Hp Hh He Ht Hne Hst Hpr Hcode Hx Hmail Hu Ho Hm Ha Hn Hf Hs.
  unfold Callback. cbv zeta. rewrite Hp, Hh, <- Hst.
  rewrite (proj2 (String.eqb_neq _ _) Hne), (proj2 (String.eqb_neq _ _) Hcode). cbn [orb].
  rewrite bind_run. unfold state_consume, Consume. rewrite He. cbn [fst snd].
  rewrite expired_sub, (proj2 (Z.ltb_ge _ _)) by lia. rewrite Hpr, !String.eqb_refl. cbn [negb orb].
  unfold exchange_code. cbv zeta. rewrite bind_run. cbn [now fst snd].
  change (w_clock (with_states _ (tick_clock w)) 0) with (w_clock w 1). rewrite Hx.
  erewrite match_operator_ok by first [eassumption|exact Hn].
  set (w2 := tick_fault _).
  pose proof (start_session_ok redir r (r_param r "provider") ident (scanOperator oid o) w2 f o Hf
    (fun i => Hn (S i)) Hs Ho) as Hss.
  change (w_clock w2 0) with (w_clock w 2) in Hss. exact Hss.
Qed.
End Steps.

(** ** From Login to the session guard *)
(** The event does not carry the handle of the flow. *)
Definition foreign (handle : string) (e : event) : Prop :=
  match e with Arrives _ r => oauth_handle r <> Some handle | _ => True end.

Section SignIn.
Context `{SqlDriver} `{UnicodeTables} `{Router} (cfg : Wiring).
Context (MkdirAll : string -> option string).
Context (file_server : string -> Response).
#[local] Abbreviation service := (run_service cfg MkdirAll file_server).

Lemma service_keeps_flow es h e :
  Forall (foreign h) es -> stays (flow_kept h e) (service es).
Proof.
  induction 1 as [|ev es Hev Hes IH]; [apply holds_ret|]. cbn [run_service].
  apply holds_bind; [|intros a; apply holds_bind; [done|intros rest; apply holds_ret]].
  destruct ev; cbn [run_event]; (apply holds_bind; [|intros x; apply holds_ret]).
  - apply (@serve_stays _ _ _ cfg MkdirAll file_server
      (flow_kept h e) _ _); intros params; [apply Login_stays|].
    apply (Callback_stays (I := flow_kept h e)). intros h' Hh'. apply stays_consume.
    change (oauth_handle r = Some h') in Hh'. cbn in Hev. congruence.
  - apply stays_reap_states.
  - apply stays_reap_limiter.
Qed.

Lemma service_keeps_faultless es : stays no_faults (service es).
Proof.
  induction es as [|ev es IH]; [apply holds_ret|]. cbn [run_service].
  apply holds_bind; [|intros a; apply holds_bind; [done|intros rest; apply holds_ret]].
  destruct ev; cbn [run_event]; (apply holds_bind; [|intros x; apply holds_ret]).
  - apply (@serve_stays _ _ _ cfg MkdirAll file_server
      no_faults _ _); intros params; [solve_stays|].
    apply (Callback_stays (I := no_faults)). intros h _. apply consume_faultless.
  - unfold reap_states. apply holds_bind; [apply stays_now|]. by intros t w.
  - apply stays_reap_limiter.
Qed.

(** C14. A sign-in that is due succeeds, on an intact database, with a driver
    that fails nothing, a clock that does not go back and random bytes for its
    two requests.  Login sends the browser to the
    provider with a fresh state and the challenge of a fresh verifier, and a
    handle cookie.  Whatever the service does meanwhile, other sign-ins and
    reaper passes included, as long as nobody else holds the handle: if the
    browser comes back within fifteen minutes with the state, and the
    provider exchanges its code for the address of an active operator, then
    the callback sets a session cookie, and every request that carries it in
    the next eight hours passes the session guard as that operator, until a
    request changes the database. *)
Theorem sign_in_completes es provider fs fv fh f ident oid o r1 r2 w0 :
  let p := r_param r1 "provider" in
  let handle := drawn 16 fh in let id := drawn 32 f in
  db_ok (w_db w0) -> no_faults w0 -> (forall i, w_clock w0 i <= w_clock w0 (S i))%Z ->
  providers cfg !! p = Some provider ->
  w_rand w0 0 = Some fs -> w_rand w0 1 = Some fv -> w_rand w0 2 = Some fh ->
  (forall i g, w_rand w0 (3 + i) = Some g -> drawn 16 g <> handle) -> Forall (foreign handle) es ->
  let '(resp1, w1) := Login (providers cfg) r1 w0 in
  let w2 := (service es w1).2 in
  r_param r2 "provider" = p -> oauth_handle r2 = Some handle ->
  r_query r2 "state" = drawn 32 fs -> r_query r2 "code" <> "" ->
  (w_clock w2 0 <= w_clock w0 0 + StateTTL)%Z ->
  Exchange (OAuthProvider := provider) (w_clock w2 1) (r_query r2 "code") (drawn 32 fv) = Ok ident ->
  id_Email ident <> "" -> operators (w_db w2) !! oid = Some o ->
  o_email o = canonicalEmail (id_Email ident) -> o_status o = "active" ->
  w_rand w2 0 = Some f -> sessions (w_db w2) !! id = None ->
  rs_body resp1 = BRedirect (AuthorizeURL (drawn 32 fs) (PKCECodeChallenge (drawn 32 fv))) /\
  handle_cookie handle (StateTTL / Second) ∈ rs_cookies resp1 /\
  let '(resp2, w3) := Callback (providers cfg) "" r2 w2 in
  IssueSessionCookie id (w_clock w2 2 + SessionAbsoluteLifetime) ∈ rs_cookies resp2 /\
  forall r3 w4, w_db w4 = w_db w3 -> no_faults w4 -> session_cookie r3 = Some id ->
    (w_clock w4 0 <= w_clock w2 2 + SessionIdleLifetime - Second)%Z ->
    exists sess w5, session_gate r3 w4 =
      (inr (sess, mkAuthOperator oid (o_email o) (o_role o), w_clock w4 0), w5).
Proof.
  intros p handle id Hok Hn Hclock Hp Hs Hv Hh Hfresh Hes.
  destruct (Login_ok (providers cfg) provider fs fv fh r1 w0 Hp Hs Hv Hh)
    as (resp1 & -> & Hbody & Hcookie). cbv zeta.
  set (e := mkStateEntry _ _ _ _). set (w1 := with_states _ _).
  intros Hp2 Hh2 Hst Hcode Ht Hx Hmail Ho Hm Ha Hf Hnone.
  assert (flow_kept handle e (service es w1).2) as (_ & _ & Hkept).
  { apply service_keeps_flow; [done|]. split; [intros i; apply Hclock|]. split; [done|].
    left. apply lookup_insert_eq. }
  assert (db_ok (w_db (service es w1).2)) as Hok2.
  { by apply (run_service_safe (R := sound) (fun c _ => run_call_sound _ c) cfg MkdirAll
      file_server es w1). }
  assert (no_faults (service es w1).2) as Hn2 by by apply service_keeps_faultless.
  split; [done|]. split; [done|]. subst e.
  destruct Hkept as [Hkept|Hlate]; [|cbn in Hlate; lia].
  pose proof (Callback_ok (providers cfg) "" r2 _ handle _ provider ident oid o f
    ltac:(by rewrite Hp2) Hh2 Hkept Ht ltac:(apply hex_drawn_nonempty) (eq_sym Hst) (eq_sym Hp2) Hcode Hx Hmail
    (ok_operator_emails _ Hok2) Ho Hm Ha Hn2 Hf Hnone) as Hc.
  destruct (Callback _ _ _ _) as [resp2 w3]. destruct Hc as (Hset & row & Hop & Hl & He & Hstand).
  split; [done|]. intros r3 w4 Hdb Hn4 Hck Ht3. rewrite <- Hdb in Hstand.
  destruct (fresh_in_force _ _ oid o id row _ _ Ho Ha Hop Hl He Hstand Ht3) as (o' & Hforce & Hmail' & Hrole).
  pose proof (session_gate_run r3 w4) as Hg.
  destruct (session_gate r3 w4) as [[resp|[[sess op] t]] w5].
  - destruct Hg as (_ & _ & Hno). exfalso. apply (Hno Hn4). by exists id, row, o'.
  - destruct Hg as (-> & _ & id' & s' & o2 & Hid & Hf' & _ & ->). simplify_eq.
    destruct Hforce as (Hr & Ho' & _), Hf' as (Hr2 & Ho2 & _). simplify_eq.
    exists sess, w5. by rewrite <- Hmail', <- Hrole.
Qed.
End SignIn.

(** ** A concrete sign-in *)
Definition idp : OAuthProvider :=
  {| AuthorizeURL := fun state challenge => "https://idp.example/authorize?state=" +:+ state;
     Exchange := fun t code verifier =>
       if (code =s "code") && (verifier =s drawn 32 (fun k => Z.of_nat (k + 1)))
       then Ok (mkIdentity "Admin@example.org" true "" ProviderGitHub)
       else Err (Sentinel ErrTokenExchange) |}.

Definition idp_wiring : Wiring :=
  mkWiring (cacheTTL demo_wiring) (rpmDataRoot demo_wiring) (keysHandler demo_wiring)
    {["github" := idp]} (adminOrigin demo_wiring) (indexHTML demo_wiring).

(** The i-th draw is i, i + 1, i + 2, ...; there are four. *)
Definition drawing_world : World :=
  let w := demo_world demo_db in
  mkWorld (w_db w) (w_cache w) (w_states w) (w_buckets w) (w_metrics w) (fun i => demo_now + Z.of_nat i * Second)%Z
    (w_fault w) (fun i => if i <? 4 then Some (fun k => Z.of_nat (k + i)) else None).

Definition back (r : Request) (values : gmap string (list string)) (cookie : string -> option string) : Request :=
  mkRequest "GET" "/" (r_header r) values cookie (fun _ => "github") (r_remote r) None.

Definition returning : Request :=
  back demo_revoke {["state" := [drawn 32 (fun k => Z.of_nat (k + 0))]; "code" := ["code"]]}
    (fun n => if n =s oauthHandleCookieName then Some (drawn 16 (fun k => Z.of_nat (k + 2))) else None).

Definition signed_in_request : Request :=
  back demo_revoke ∅ (fun n => if n =s SessionCookieName then Some (drawn 32 (fun k => Z.of_nat (k + 3))) else None).

Lemma sign_in_completes_witness :
  let w1 := (Login {["github" := idp]} (back demo_revoke ∅ (fun _ => None)) drawing_world).2 in
  let w2 := (@run_service sqlite_driver ascii_tables first_match_router idp_wiring (fun _ => None)
    (fun _ => no_content) [Arrives no_bodies demo_revoke; StatesReaped] w1).2 in
  let w3 := (@Callback sqlite_driver ascii_tables {["github" := idp]} "" returning w2).2 in
  exists sess w5, @session_gate sqlite_driver signed_in_request w3 =
    (inr (sess, mkAuthOperator "op" "admin@example.org" "admin", w_clock w3 0), w5).
Proof.
  intros w1 w2 w3.
  pose proof (@sign_in_completes sqlite_driver ascii_tables first_match_router idp_wiring (fun _ => None)
    (fun _ => no_content) [Arrives no_bodies demo_revoke; StatesReaped] idp
    (fun k => Z.of_nat (k + 0)) (fun k => Z.of_nat (k + 1)) (fun k => Z.of_nat (k + 2)) (fun k => Z.of_nat (k + 3))
    (mkIdentity "Admin@example.org" true "" ProviderGitHub) "op" demo_admin
    (back demo_revoke ∅ (fun _ => None)) returning drawing_world) as Hsign. cbv zeta in Hsign.
  specialize (Hsign demo_ok ltac:(by intros i) ltac:(intros i; cbn; unfold Second; lia) eq_refl eq_refl eq_refl eq_refl).
  assert (forall i g, w_rand drawing_world (3 + i) = Some g -> drawn 16 g <> drawn 16 (fun k => Z.of_nat (k + 2)))
    as Hfresh.
  { intros [|i] g; [intros [= <-]; vm_compute; discriminate|done]. }
  assert (Forall (foreign (drawn 16 (fun k => Z.of_nat (k + 2)))) [Arrives no_bodies demo_revoke; StatesReaped]) as Hes.
  { repeat constructor. vm_compute. discriminate. }
  specialize (Hsign Hfresh Hes). cbv beta in Hsign.
  change (Login _ _ drawing_world) with (Login {["github" := idp]} (back demo_revoke ∅ (fun _ => None)) drawing_world) in Hsign.
  rewrite (surjective_pairing (Login _ _ _)) in Hsign. fold w1 in Hsign. fold w2 in Hsign.
  specialize (Hsign eq_refl eq_refl eq_refl ltac:(discriminate)).
  do 8 (match type of Hsign with ?P -> _ => specialize (Hsign ltac:(vm_compute; first [reflexivity|discriminate])) end).
  destruct Hsign as (_ & _ & Hsign).
  change (Callback _ _ _ w2) with (@Callback sqlite_driver ascii_tables {["github" := idp]} "" returning w2) in Hsign.
  rewrite (surjective_pairing (Callback _ _ _ _)) in Hsign. fold w3 in Hsign. destruct Hsign as [_ Hg].
  apply (Hg signed_in_request w3); [reflexivity|intros i; vm_compute; reflexivity|vm_compute; reflexivity|].
  vm_compute. discriminate.
Defined.
