(* ===== verification/CacheService.v ===== *)
(** * The cache in the service: coherent after every request

    Requests handled one after another keep the component cache equal to the
    components table, so the cache cannot be observed. *)
From Stdlib Require Import ZArith Lia Ascii.
From stdpp Require Import base gmap strings list relations.
From S2P Require Import Prelude GoStrings Errors State Tables Effects AccountStore.
From S2P Require Import ComponentStore SessionStore OperatorStore AuditStore StoreInvariant.
From S2P Require Import StoreMethods ComponentCache Http ForwardAuth RequestMeta.
From S2P Require Import OAuthState RateLimiter AdminGuards Pagination KeysHandler.
From S2P Require Import AccountsHandler OperatorsHandler ComponentsHandler AdminUI AuthHandler.
From S2P Require Import ForwardAuthSpec Server Background Fixtures ServerSpec ServiceInvariant.
Open Scope packyard_scope.
Open Scope eff_scope.

(** ** Computations that touch neither the cache nor the components *)
Definition same_components (db db' : Database) : Prop := components db' = components db.

Definition spares {A} (m : Eff A) : Prop := forall w,
  w_cache (m w).2 = w_cache w /\ same_components (w_db w) (w_db (m w).2).

Section Spares.
Context `{SqlDriver}.

Lemma spares_ret {A} (a : A) : spares (ret a).
Proof. by intros w. Qed.

Lemma spares_bind {A B} (m : Eff A) (k : A -> Eff B) :
  spares m -> (forall a, spares (k a)) -> spares (bind m k).
Proof.
  intros Hm Hk w. rewrite bind_run. destruct (Hm w) as [H1 H2].
  destruct (Hk (m w).1 (m w).2) as [H3 H4]. unfold same_components in *. split; congruence.
Qed.

Lemma spares_bindR {A B} (m : Eff (res A)) (k : A -> Eff (res B)) :
  spares m -> (forall a, spares (k a)) -> spares (bindR m k).
Proof. intros Hm Hk. apply spares_bind; [done|]. intros [a|e]; [apply Hk|apply spares_ret]. Qed.

Lemma spares_wrapE {A} op (m : Eff (res A)) : spares m -> spares (wrapE op m).
Proof. intros Hm. apply spares_bind; [done|]. intros r. apply spares_ret. Qed.

Lemma spares_sql {A} (f : Database -> stmt A) :
  (forall db a db', f db = Done a db' -> same_components db db') -> spares (sql f).
Proof.
  intros Hf w. rewrite sql_run. destruct (w_fault w 0); [done|].
  destruct (f (w_db w)) eqn:E; [|done]. split; [done|]. by eapply Hf.
Qed.

Lemma spares_query {A} (f : Database -> A) : spares (query f).
Proof. apply spares_sql. by intros db a db' [= _ <-]. Qed.

Lemma spares_query_row {A} (f : Database -> option A) : spares (query_row f).
Proof. apply spares_bindR; [apply spares_query|]. intros [a|]; apply spares_ret. Qed.

Lemma spares_with_tx {A} bp cp commits (body : Eff (res A)) :
  spares body -> spares (with_tx bp cp commits body).
Proof.
  intros Hb w. unfold with_tx. destruct (w_fault w 0); [done|].
  destruct (Hb (tick_fault w)) as [H1 H2]. destruct (body (tick_fault w)) as [[a|e] w2]; [|done].
  destruct (commits a); [|done]. by destruct (w_fault w2 0).
Qed.
End Spares.

(** The statements, each on a table of its own. *)
Ltac spare_statement :=
  apply spares_sql; let Hs := fresh "Hs" in intros ? ? ? Hs;
  unfold sql_insert_account, sql_update_account, sql_mark_deleted, sql_deactivate,
    sql_increment, sql_insert_key, sql_insert_session, sql_touch_session, sql_delete_session,
    sql_delete_operator_sessions, sql_insert_audit, sql_insert_operator, sql_update_operator in Hs;
  inv_stmt Hs; reflexivity.

Ltac solve_spares :=
  repeat match goal with
  | |- spares (ret _) => apply spares_ret
  | |- spares (fail _ _) => apply spares_ret
  | |- spares now => by intros ?
  | |- spares (rand_hex _) => by intros ?
  | |- spares (query _) => apply spares_query
  | |- spares (query_row _) => apply spares_query_row
  | |- spares (bind _ _) => apply spares_bind; [|intros ?]
  | |- spares (bindR _ _) => apply spares_bindR; [|intros ?]
  | |- spares (wrapE _ _) => apply spares_wrapE
  | |- spares (with_tx _ _ _ _) => apply spares_with_tx
  | |- spares (sql _) => spare_statement
  | |- spares (match ?x with _ => _ end) => destruct x
  | |- spares _ => progress auto with cache_spares
  end.

Create HintDb cache_spares.

Section Methods.
Context `{SqlDriver} `{UnicodeTables}.

Ltac spare_method := intros; unfold no_rows; cbv zeta; solve_spares.

Lemma GetAccount_spares id : spares (GetAccount id).
Proof. unfold GetAccount. spare_method. Qed.
Lemma ListAccounts_spares s o l : spares (ListAccounts s o l).
Proof. unfold ListAccounts. spare_method. Qed.
Lemma CountActiveAccountKeys_spares id : spares (CountActiveAccountKeys id).
Proof. unfold CountActiveAccountKeys. spare_method. Qed.
Lemma ListAccountKeys_spares id o l : spares (ListAccountKeys id o l).
Proof. unfold ListAccountKeys. spare_method. Qed.
Lemma GetByID_spares id : spares (GetByID id).
Proof. unfold GetByID. spare_method. Qed.
Lemma GetByValue_spares v : spares (GetByValue v).
Proof. unfold GetByValue. spare_method. Qed.
Lemma ListKeys_spares c a o l : spares (ListKeys c a o l).
Proof. unfold ListKeys. spare_method. Qed.
Lemma GetComponent_spares n : spares (GetComponent n).
Proof. unfold GetComponent. spare_method. Qed.
Lemma ListComponents_spares o l : spares (ListComponents o l).
Proof. unfold ListComponents. spare_method. Qed.
Lemma CountActiveComponentKeys_spares n : spares (CountActiveComponentKeys n).
Proof. unfold CountActiveComponentKeys. spare_method. Qed.
Lemma GetSession_spares id : spares (GetSession id).
Proof. unfold GetSession. spare_method. Qed.
Lemma GetOperator_spares id : spares (GetOperator id).
Proof. unfold GetOperator. spare_method. Qed.
Lemma GetOperatorByEmail_spares e : spares (GetOperatorByEmail e).
Proof. unfold GetOperatorByEmail. spare_method. Qed.
Lemma ListOperators_spares o l : spares (ListOperators o l).
Proof. unfold ListOperators. spare_method. Qed.
Lemma ListAuditEntries_spares f o l : spares (ListAuditEntries f o l).
Proof. unfold ListAuditEntries. spare_method. Qed.
Lemma CreateAccount_spares i b : spares (CreateAccount i b).
Proof. unfold CreateAccount, generateAccountID. spare_method. Qed.
Lemma UpdateAccount_spares i u : spares (UpdateAccount i u).
Proof. unfold UpdateAccount. spare_method. Qed.
Lemma DeleteAccountWithCascade_spares i : spares (DeleteAccountWithCascade i).
Proof. unfold DeleteAccountWithCascade. spare_method. Qed.
Lemma CreateKeyForAccount_spares a c l e : spares (CreateKeyForAccount a c l e).
Proof. unfold CreateKeyForAccount, generateKeyValue. spare_method. Qed.
Lemma RevokeKey_spares i : spares (RevokeKey i).
Proof. unfold RevokeKey. spare_method. Qed.
Lemma IncrementUsage_spares i : spares (IncrementUsage i).
Proof. unfold IncrementUsage. spare_method. Qed.
Lemma CreateSession_spares o i u : spares (CreateSession o i u).
Proof. unfold CreateSession, generateSessionID. spare_method. Qed.
Lemma TouchSession_spares i t : spares (TouchSession i t).
Proof. unfold TouchSession. spare_method. Qed.
Lemma DeleteSession_spares i : spares (DeleteSession i).
Proof. unfold DeleteSession. spare_method. Qed.
Lemma DeleteOperatorSessions_spares i : spares (DeleteOperatorSessions i).
Proof. unfold DeleteOperatorSessions. spare_method. Qed.
Lemma AllowlistOperator_spares e r b : spares (AllowlistOperator e r b).
Proof. unfold AllowlistOperator, generateOperatorID. spare_method. Qed.
Lemma UpdateOperatorAtomically_spares i r s : spares (UpdateOperatorAtomically i r s).
Proof. unfold UpdateOperatorAtomically. spare_method. Qed.
Lemma UpdateLastLogin_spares i t : spares (UpdateLastLogin i t).
Proof. unfold UpdateLastLogin. spare_method. Qed.
Lemma UpdateLoginProvider_spares i p u : spares (UpdateLoginProvider i p u).
Proof. unfold UpdateLoginProvider. spare_method. Qed.
Lemma Write_spares e : spares (Write e).
Proof. unfold Write. spare_method. Qed.
Lemma WriteFromRequest_spares r e : spares (WriteFromRequest r e).
Proof. unfold WriteFromRequest. cbv zeta. apply Write_spares. Qed.
End Methods.

#[export] Hint Resolve GetAccount_spares ListAccounts_spares CountActiveAccountKeys_spares
  ListAccountKeys_spares GetByID_spares GetByValue_spares ListKeys_spares GetComponent_spares
  ListComponents_spares CountActiveComponentKeys_spares GetSession_spares GetOperator_spares
  GetOperatorByEmail_spares ListOperators_spares ListAuditEntries_spares CreateAccount_spares
  UpdateAccount_spares DeleteAccountWithCascade_spares CreateKeyForAccount_spares RevokeKey_spares
  IncrementUsage_spares CreateSession_spares TouchSession_spares DeleteSession_spares
  DeleteOperatorSessions_spares AllowlistOperator_spares UpdateOperatorAtomically_spares
  UpdateLastLogin_spares UpdateLoginProvider_spares Write_spares WriteFromRequest_spares : cache_spares.

(** ** What every request keeps *)
Section Keeps.
Context `{SqlDriver} `{UnicodeTables} (ttl : Z).

(** The entries are the current public records; a disabled cache is empty. *)
Definition in_step (w : World) : Prop :=
  coherent w /\ (enabled ttl = false -> cache_entries (w_cache w) = ∅).

Definition keeps_step {A} (m : Eff A) : Prop := forall w, in_step w -> in_step (m w).2.

Lemma keeps_ret {A} (a : A) : keeps_step (ret a).
Proof. by intros w. Qed.

Lemma keeps_bind {A B} (m : Eff A) (k : A -> Eff B) :
  keeps_step m -> (forall a, keeps_step (k a)) -> keeps_step (bind m k).
Proof. intros Hm Hk w Hw. rewrite bind_run. by apply Hk, Hm. Qed.

Lemma keeps_bindR {A B} (m : Eff (res A)) (k : A -> Eff (res B)) :
  keeps_step m -> (forall a, keeps_step (k a)) -> keeps_step (bindR m k).
Proof. intros Hm Hk. apply keeps_bind; [done|]. intros [a|e]; [apply Hk|apply keeps_ret]. Qed.

Lemma in_step_same w w' :
  w_cache w' = w_cache w -> same_components (w_db w) (w_db w') -> in_step w -> in_step w'.
Proof.
  unfold in_step, coherent, same_components. intros -> Hd [Hc He]. split; [|done]. by rewrite Hd.
Qed.

Lemma spares_keeps {A} (m : Eff A) : spares m -> keeps_step m.
Proof. intros Hm w. destruct (Hm w). by apply in_step_same. Qed.

Lemma keeps_local {A} (f : World -> A * World) :
  (forall w, w_cache (f w).2 = w_cache w /\ w_db (f w).2 = w_db w) -> keeps_step f.
Proof. intros Hf w. destruct (Hf w) as [H1 H2]. apply in_step_same; [done|]. by rewrite H2. Qed.

(** ** The component methods *)
Lemma CachedGetComponent_keeps n : keeps_step (CachedGetComponent ttl n).
Proof.
  intros w [Hc He]. split; [by apply CachedGetComponent_coherent|]. intros Hd. specialize (He Hd).
  unfold CachedGetComponent. rewrite bind_run, Hd. cbn [meter fst snd negb]. by rewrite GetComponent_run.
Qed.

Lemma CreateComponent_keeps c : keeps_step (CreateComponent c).
Proof.
  apply keeps_bind; [by apply spares_keeps; intros ?|]. intros t.
  apply keeps_bind; [|intros [?|e]; [apply keeps_ret|destruct (Contains _ _); apply keeps_ret]].
  intros w [Hc He]. rewrite sql_run. destruct (w_fault w 0); [by split|].
  unfold sql_insert_component. destruct (negb _); [by split|].
  destruct (bool_decide_reflect (is_Some (components (w_db w) !! Name c))) as [|Hn]; [by split|].
  split; [|exact He]. intros n e Hne. destruct (Hc n e Hne) as (r & Hr & Hs & Hv). exists r.
  split; [|done]. cbn. rewrite lookup_insert_ne; [done|]. intros <-. destruct Hn. by eexists.
Qed.

Definition but_one (n : string) (db db' : Database) : Prop :=
  forall k, k <> n -> components db' !! k = components db !! k.

#[local] Instance but_one_preorder n : PreOrder (but_one n).
Proof. split; [by intros db k|]. intros a b c H1 H2 k Hk. by rewrite H2, H1. Qed.

(** A write of one component that evicts it. *)
Lemma evicting_keeps {A} n (m : Eff (res A)) :
  no_cache m -> moves (but_one n) m ->
  (forall w, is_ok (m w).1 = false -> components (w_db (m w).2) = components (w_db w)) ->
  keeps_step (evicting ttl n m).
Proof.
  intros Hcache Hother Herr w [Hc He]. destruct (enabled ttl) eqn:Een.
  - split; [|congruence]. apply evicting_coherent;
      [done|done|apply Hcache|intros k Hk; by apply (Hother w)|apply Herr].
  - specialize (He eq_refl). unfold evicting. rewrite bind_run. rewrite Een, andb_false_r.
    cbn. assert (cache_entries (w_cache (m w).2) = ∅) as Hemp by by rewrite Hcache.
    split; [|done]. intros k e. by rewrite Hemp, lookup_empty.
Qed.

Lemma UpdateComponent_keeps n p : keeps_step (CachedUpdateComponent ttl n p).
Proof.
  apply evicting_keeps.
  - unfold UpdateComponent. solve_no_cache.
  - unfold UpdateComponent, no_rows. solve_moves. apply moves_sql.
    unfold sql_update_component. intros db o db' Hs. inv_stmt Hs; [|done].
    intros k Hk. cbn. rewrite lookup_insert_ne; [done|]. cbn. congruence.
  - intros w Hr. destruct (UpdateComponent n p w) as [[c|e] w'] eqn:E; [done|].
    unfold UpdateComponent in E.
    pose proof (with_tx_err _ _ _ _ _ _ (f_equal fst E)) as Hdb. rewrite E in Hdb. cbn in Hdb |- *. by rewrite Hdb.
Qed.

Lemma DeleteComponent_keeps n : keeps_step (CachedDeleteComponent ttl n).
Proof.
  apply evicting_keeps.
  - unfold DeleteComponent. solve_no_cache.
  - unfold DeleteComponent. solve_moves. apply moves_sql.
    intros db o db' [= _ <-] k Hk. cbn. by rewrite lookup_delete_ne.
  - intros w. unfold DeleteComponent. rewrite bindR_run, wrapE_run, sql_run. cbn [fst snd].
    destruct (w_fault w 0); [done|]. cbn [sql_delete_component fst snd].
    case_bool_decide as Hb; cbn; [done|]. intros _. apply delete_id. by apply eq_None_not_Some.
Qed.

Lemma DeleteComponentWithRevoke_keeps n : keeps_step (CachedDeleteComponentWithRevoke ttl n).
Proof.
  apply evicting_keeps.
  - unfold DeleteComponentWithRevoke. solve_no_cache.
  - unfold DeleteComponentWithRevoke. solve_moves.
    + apply moves_sql. unfold sql_deactivate. intros db o db' [= _ <-] k Hk. done.
    + apply moves_sql. intros db o db' [= _ <-] k Hk. cbn. by rewrite lookup_delete_ne.
  - intros w Hr. destruct (DeleteComponentWithRevoke n w) as [[c|e] w'] eqn:E; [done|].
    unfold DeleteComponentWithRevoke in E.
    pose proof (with_tx_err _ _ _ _ _ _ (f_equal fst E)) as Hdb. rewrite E in Hdb. cbn in Hdb |- *. by rewrite Hdb.
Qed.
End Keeps.

#[export] Hint Resolve CachedGetComponent_keeps CreateComponent_keeps UpdateComponent_keeps
  DeleteComponent_keeps DeleteComponentWithRevoke_keeps : cache_spares.

Lemma check_eff_spares lim ip : spares (check_eff lim ip).
Proof. intros w. unfold check_eff. rewrite bind_run. by destruct (check lim _ ip _). Qed.

#[export] Hint Resolve check_eff_spares : cache_spares.

(** Along the structure of a handler. *)
Ltac solve_keeps :=
  repeat match goal with
  | |- keeps_step _ (ret _) => apply keeps_ret
  | |- keeps_step _ (fail _ _) => apply keeps_ret
  | |- keeps_step _ (bind _ _) => apply keeps_bind; [|intros ?]
  | |- keeps_step _ (bindR _ _) => apply keeps_bindR; [|intros ?]
  | |- keeps_step _ (match ?x with _ => _ end) => destruct x
  | |- keeps_step _ (let '(_, _) := ?x in _) => destruct x
  | |- keeps_step _ _ => solve [auto with cache_spares]
  | |- keeps_step _ _ => solve [apply spares_keeps; auto with cache_spares]
  | |- keeps_step _ _ => solve [apply keeps_local; intros ?; unfold state_put, state_consume; repeat case_match; done]
  end.

(** ** The answer behind the cache and behind the store *)
Section Behind.
Context `{SqlDriver} (ttl : Z).

(** The same tables, and the same driver failures ahead. *)
Definition alike (w w' : World) : Prop := w_db w' = w_db w /\ w_fault w' = w_fault w.

Lemma check_credentials_alike r c w w' :
  alike w w' -> (check_credentials r c w').1 = (check_credentials r c w).1.
Proof.
  intros [Hdb Hf]. unfold check_credentials. destruct (BasicAuth r) as [[u pw]|]; [|done].
  destruct (_ || _); [done|]. rewrite !bind_run, !GetByValue_run. cbn [fst snd]. rewrite Hdb, Hf.
  destruct (w_fault w 0); [done|]. destruct (subscription_key _ !! pw) as [k|]; [|done].
  destruct (scanKey pw k) as [key|e]; [|by destruct (_ || _)]. destruct (Key_Active key); [|done].
  destruct (_ <>s _); [done|]. unfold account_gate. rewrite !bind_run, !GetAccount_run. cbn [fst snd].
  unfold tick_fault. cbn [w_fault w_db]. rewrite Hdb, Hf.
  destruct (shift (w_fault w) 0); [done|]. destruct (accounts _ !! _) as [a|]; [|done].
  destruct (a_status a =s "deleted"); [done|]. cbn [Acc_Status scanAccount].
  destruct (a_status a <>s _); [done|]. unfold answer. by rewrite !bind_run.
Qed.

Lemma fill_alike n w :
  (fill ttl n w).1 = (GetComponent n w).1 /\ alike (GetComponent n w).2 (fill ttl n w).2.
Proof.
  unfold fill. rewrite bind_run, bindR_run. unfold get_cache. cbn [fst snd].
  destruct (GetComponent n w) as [[c|e] w2]; cbn [fst snd]; [|done]. by destruct (_ =s _).
Qed.

(** A lookup is a hit on the record of a public component, or does to the
    tables and the driver what the store's own lookup does. *)
Lemma CachedGetComponent_alike n w :
  coherent w ->
  (exists row, components (w_db w) !! n = Some row /\ c_visibility row = "public" /\
     (CachedGetComponent ttl n w).1 = Ok (scanComponent n row)) \/
  ((CachedGetComponent ttl n w).1 = (GetComponent n w).1 /\
   alike (GetComponent n w).2 (CachedGetComponent ttl n w).2).
Proof.
  intros Hc. assert (forall w', alike w w' ->
    (fill ttl n w').1 = (GetComponent n w).1 /\ alike (GetComponent n w).2 (fill ttl n w').2) as Hfill.
  { intros w' [Hdb Hf]. destruct (fill_alike n w') as [-> Ha]. revert Ha.
    rewrite !GetComponent_run. unfold alike, tick_fault. cbn [fst snd w_fault w_db].
    rewrite Hdb, Hf. done. }
  unfold CachedGetComponent. rewrite bind_run. cbn [meter fst snd].
  destruct (enabled ttl); cbn [negb]; [|right; by rewrite !GetComponent_run].
  rewrite bind_run, lookup_entry_run. cbn [w_cache with_metrics].
  destruct (cache_entries (w_cache w) !! n) as [e|] eqn:Ee; [|right; by apply Hfill].
  cbn [w_clock]. destruct (_ <? _)%Z; cbn [fst snd]; [left|right; by apply Hfill].
  destruct (Hc _ _ Ee) as (row & Hr & Hs & Hp). exists row. by rewrite Hs.
Qed.

Lemma authorize_behind r w :
  coherent w ->
  let cached := (@authorize _ (cached_source ttl) r w).1 in
  let direct := (@authorize _ store_source r w).1 in
  cached = direct \/
  (direct = respond error /\ cached = respond allowed_public /\ verdict (w_db w) r = allowed_public).
Proof.
  intros Hc. unfold authorize, verdict. change (if _ =s "" then _ else _) with (request_method r).
  cbv zeta. destruct (_ && _); [by left|]. destruct (isRegistryPing _); [by left|].
  destruct (extractComponent _) as [c|]; [|by left]. rewrite !bind_run. cbn [cs_get store_source cached_source].
  destruct (CachedGetComponent_alike c w Hc) as [(row & Hr & Hp & Ha)|[Ha Hw]].
  - rewrite Hr, Hp. destruct (CachedGetComponent ttl c w) as [a w']. cbn [fst snd] in *. subst a.
    rewrite GetComponent_run. cbn [fst snd]. rewrite Hr. cbn [scanComponent Visibility]. rewrite Hp.
    destruct (w_fault w 0); [by right|left]. cbn [scanComponent Visibility]. by rewrite Hp.
  - left. destruct (CachedGetComponent ttl c w) as [a w'], (GetComponent c w) as [b w'']. cbn [fst snd] in *.
    subst a. destruct b as [comp|e]; [|by destruct (errors_is _ _)].
    destruct (_ =s "public"); [done|]. by apply check_credentials_alike.
Qed.
End Behind.

Section Requests.
Context `{SqlDriver} `{UnicodeTables} `{Router} (cfg : Wiring).
Context (MkdirAll : string -> option string).
Context (file_server : string -> Response).

Definition step_handler (h : Handler) : Prop := forall r, keeps_step (cacheTTL cfg) (h r).

Lemma admin_route_step expected h : step_handler h -> step_handler (admin_route expected h).
Proof.
  intros Hh r. unfold admin_route, CSRFGuard, RequireSession, RequireRole, session_gate, unauthorized.
  cbv zeta. solve_keeps; apply Hh.
Qed.

Lemma api_routes_step b :
  Forall (fun e => step_handler e.2) (api_routes cfg MkdirAll b).
Proof.
  unfold api_routes. repeat apply Forall_cons_2; try apply Forall_nil_2; cbn [snd]; intros req.
  all: unfold Whoami, Logout, Keys_Create, Keys_List, Keys_Get, Keys_Delete, Components_Create,
    Components_List, Components_GetOne, Components_Update, Components_Delete, CreateKey,
    Accounts_Create, Accounts_List, Accounts_Get, Accounts_Update, Accounts_Delete,
    Accounts_ListKeys, Accounts_IssueKey, with_account, Audit_List, Operators_List,
    Operators_Create, Operators_Update, after_update.
  all: cbv zeta; solve_keeps.
Qed.

Lemma RateLimit_step lim h : step_handler h -> step_handler (RateLimit lim h).
Proof. intros Hh r. unfold RateLimit. cbv zeta. solve_keeps; apply Hh. Qed.

Lemma ForwardAuth_step : step_handler (ForwardAuthRoute cfg).
Proof.
  intros r. unfold ForwardAuthRoute, ServeHTTP, authorize, check_credentials, account_gate, answer.
  cbn [cs_get cached_source]. cbv zeta. solve_keeps.
Qed.

Lemma public_routes_step :
  Forall (fun e => step_handler e.2) (public_routes cfg file_server).
Proof.
  unfold public_routes. repeat apply Forall_cons_2; try apply Forall_nil_2; cbn [snd];
    try apply RateLimit_step; try apply ForwardAuth_step; intros req.
  all: unfold Health, Login, Callback, exchange_code, match_operator, start_session, failCallback,
    RandomHex, AdminCSP, AdminPage; cbv zeta; solve_keeps.
Qed.

Lemma serve_step b r :
  keeps_step (cacheTTL cfg) (serve cfg MkdirAll file_server b r).
Proof.
  unfold serve. destruct (find_route _ _ _) as [[i params]|].
  - destruct (routes _ _ _ _ !! i) as [e|] eqn:He; [|apply keeps_ret].
    revert He. unfold routes. intros [He|[_ He]]%lookup_app_Some.
    + pose proof public_routes_step as Hs. rewrite Forall_lookup in Hs. apply (Hs _ _ He).
    + rewrite list_lookup_fmap in He. destruct (api_routes _ _ _ !! _) as [e'|] eqn:Ha; [|done].
      injection He as <-. pose proof (api_routes_step b) as Hs. rewrite Forall_lookup in Hs.
      apply admin_route_step, (Hs _ _ Ha).
  - destruct (_ || HasPrefix _ _); [|apply keeps_ret]. apply admin_route_step. intros ?. apply keeps_ret.
Qed.

Lemma run_service_step es :
  keeps_step (cacheTTL cfg) (run_service cfg MkdirAll file_server es).
Proof.
  induction es as [|e es IH]; cbn [run_service]; [apply keeps_ret|].
  apply keeps_bind; [|intros a; apply keeps_bind; [done|]; intros ?; apply keeps_ret].
  destruct e; cbn [run_event]; (apply keeps_bind; [|intros ?; apply keeps_ret]).
  - apply serve_step.
  - unfold reap_states. solve_keeps.
  - unfold reap_limiter. solve_keeps.
Qed.

Lemma fresh_in_step w : cache_entries (w_cache w) = ∅ -> in_step (cacheTTL cfg) w.
Proof. intros He. split; [|done]. intros n e. by rewrite He, lookup_empty. Qed.

(** C4. The cache cannot be observed while the driver answers, and is
    right when it does not.  After any history of requests on any routes and
    of reaper passes, from a start with an empty cache, under whatever clock,
    entropy and driver failures: every entry of the cache is the current record
    of a public component; forward-auth in front of the cache gives any request
    the answer it would give in front of the database under the same driver
    failures, with one exception, a public component that the cache still
    answers as public, rightly, where the database would fail with 503; so if
    the driver then does not fail the two answers are the same. *)
Theorem cache_transparent es w0 r :
  cache_entries (w_cache w0) = ∅ ->
  let w := (run_service cfg MkdirAll file_server es w0).2 in
  let cached := (@ServeHTTP _ (cached_source (cacheTTL cfg)) r w).1 in
  let direct := (@ServeHTTP _ store_source r w).1 in
  coherent w /\
  (cached = direct \/
   (direct = respond error /\ cached = respond allowed_public /\ verdict (w_db w) r = allowed_public)) /\
  (no_faults w -> cached = direct).
Proof.
  intros He w cached direct. destruct (run_service_step es w0 (fresh_in_step w0 He)) as [Hc _]. fold w in Hc.
  split; [done|]. split.
  - unfold cached, direct. rewrite !(proj1 (ServeHTTP_run r w)).
    apply (authorize_behind (cacheTTL cfg) r (tick_clock w)), Hc.
  - intros Hn. unfold cached, direct.
    destruct (@ServeHTTP_answers _ (cached_source (cacheTTL cfg)) r w Hc) as [->|[_ Hf]]; [|done].
    by destruct (@ServeHTTP_answers _ store_source r w I) as [->|[_ Hf]].
Qed.
End Requests.

Lemma cache_transparent_witness :
  let w := (@run_service sqlite_driver ascii_tables first_match_router demo_wiring (fun _ => None)
    (fun _ => no_content)
    [Arrives no_bodies demo_read; BucketsReaped] (demo_world demo_db)).2 in
  (@ServeHTTP sqlite_driver (@cached_source sqlite_driver (cacheTTL demo_wiring)) demo_read w).1 =
  (@ServeHTTP sqlite_driver (@store_source sqlite_driver) demo_read w).1.
Proof.
  apply (@cache_transparent sqlite_driver ascii_tables first_match_router demo_wiring (fun _ => None)
    (fun _ => no_content) [Arrives no_bodies demo_read; BucketsReaped] (demo_world demo_db) demo_read).
  - reflexivity.
  - intros i. vm_compute. reflexivity.
Defined.
