(* ===== verification/ResponsesSpec.v ===== *)
(** * Every answer of the API has the type the clients declare *)
From Stdlib Require Import ZArith Lia Ascii.
From stdpp Require Import base gmap strings list relations.
From S2P Require Import Prelude GoStrings Errors State Tables Effects AccountStore.
From S2P Require Import ComponentStore SessionStore OperatorStore AuditStore StoreInvariant.
From S2P Require Import StoreMethods OperatorSpec ComponentCache Http ForwardAuth RequestMeta.
From S2P Require Import OAuthState RateLimiter AdminGuards Pagination KeysHandler.
From S2P Require Import AccountsHandler OperatorsHandler ComponentsHandler AdminUI AuthHandler.
From S2P Require Import Server Background Fixtures ServerSpec ServiceInvariant CacheService.
From S2P Require Import Responses BodyTypes.
Open Scope packyard_scope.
Open Scope eff_scope.

(** ** Postconditions under an invariant of the world *)
Section Gives.
Context (I : World -> Prop).

Definition gives {A} (P : A -> Prop) (m : Eff A) : Prop :=
  forall w, I w -> I (m w).2 /\ P (m w).1.

Lemma gives_ret {A} (P : A -> Prop) a : P a -> gives P (ret a).
Proof. by intros Ha w Hw. Qed.

Lemma gives_bind {A B} (Q : A -> Prop) (P : B -> Prop) (m : Eff A) k :
  gives Q m -> (forall a, Q a -> gives P (k a)) -> gives P (bind m k).
Proof. intros Hm Hk w Hw. rewrite bind_run. destruct (Hm w Hw) as [Hw' Ha]. by apply Hk. Qed.

Lemma gives_post {A} (Q P : A -> Prop) m : (forall a, Q a -> P a) -> gives Q m -> gives P m.
Proof. intros HP Hm w Hw. destruct (Hm w Hw). auto. Qed.
End Gives.

(** The value of a result, if it has one. *)
Definition on_ok {A} (P : A -> Prop) (r : res A) : Prop :=
  match r with Ok a => P a | Err _ => True end.

(** ** The rows *)
(** No list of a component is null. *)
Definition row_listed (r : component_row) : Prop :=
  is_Some (c_rpm_series r) /\ is_Some (c_rpm_os_families r) /\ is_Some (c_rpm_architectures r).
Definition listed (db : Database) : Prop :=
  forall n r, components db !! n = Some r -> row_listed r.
Definition rows_good (db : Database) : Prop := db_ok db /\ listed db.

Lemma account_row_good db id r :
  rows_good db -> accounts db !! id = Some r -> account_good (scanAccount id r) = true.
Proof.
  intros [Hok _] Hr. pose proof (ok_accounts _ Hok _ _ Hr) as Hc. unfold account_check in Hc.
  by apply andb_true_iff in Hc as [_ ?].
Qed.

Lemma operator_check_good id r : operator_check r = true -> operator_good (scanOperator id r) = true.
Proof.
  unfold operator_check, operator_good. intros [[[_ Hr]%andb_true_iff Hs]%andb_true_iff _]%andb_true_iff.
  by apply andb_true_intro.
Qed.

Lemma operator_row_good db id r :
  rows_good db -> operators db !! id = Some r -> operator_good (scanOperator id r) = true.
Proof. intros [Hok _] Hr. apply operator_check_good, (ok_operators _ Hok _ _ Hr). Qed.

Lemma component_check_good n r :
  component_check r = true -> row_listed r -> component_good (scanComponent n r) = true.
Proof.
  unfold component_check, component_good. intros Hc (Hs & Hf & Ha).
  repeat (apply andb_true_intro; split); [done|by apply bool_decide_eq_true_2..].
Qed.

Lemma component_row_good db n r :
  rows_good db -> components db !! n = Some r -> component_good (scanComponent n r) = true.
Proof. intros [Hok Hl] Hr. eapply component_check_good; [apply (ok_components _ Hok _ _ Hr)|by eapply Hl]. Qed.

Lemma page_subset {A} offset limit (l : list A) a : a ∈ sql_page offset limit l -> a ∈ l.
Proof.
  unfold sql_page. cbv zeta. destruct (_ <? _)%Z; intros Ha.
  - by apply (subseteq_drop _ _ _ Ha).
  - by apply (subseteq_drop _ _ _ (subseteq_take _ _ _ Ha)).
Qed.

(** What a list method reads: a page of rows of the table, in some order. *)
Lemma rows_page_good `{SqlDriver} {A} (P : string * A -> Prop) (m : gmap string A) order offset limit :
  (forall l : list (string * A), order l ⊆ l) ->
  (forall id r, m !! id = Some r -> P (id, r)) ->
  Forall P (sql_page offset limit (order (scan m))).
Proof.
  intros Ho Hm. apply Forall_forall. intros [id r] Hin. apply page_subset, Ho, elem_of_scan in Hin. auto.
Qed.

(** ** The store methods *)
Section Methods.
Context `{SqlDriver} `{UnicodeTables}.

(** What the method's value satisfies over good rows. *)
Definition values {A} (P : A -> Prop) (m : Eff (res A)) : Prop :=
  forall w, rows_good (w_db w) -> on_ok P (m w).1.

Lemma GetAccount_values id : values (fun a => account_good a = true) (GetAccount id).
Proof.
  intros w Hw. unfold GetAccount, no_rows. run_step. run_step. next_fault; [by cbn|].
  destruct (accounts _ !! id) as [r|] eqn:Hr; [|by cbn]. cbv zeta.
  destruct (_ =s _); [done|]. by eapply account_row_good.
Qed.

Lemma ListAccounts_values s o l :
  values (Forall (fun a => account_good a = true)) (ListAccounts s o l).
Proof.
  intros w Hw. unfold ListAccounts. repeat run_step. next_fault; [done|]. cbn.
  apply Forall_map. eapply (rows_page_good _ _ (fun l => order_newest _ (List.filter _ l))).
  - intros rows kr. rewrite order_newest_perm. rewrite !list_elem_of_In, filter_In. by intros [??].
  - intros id r Hr. by eapply account_row_good.
Qed.

Lemma CreateAccount_values i b : values (fun a => account_good a = true) (CreateAccount i b).
Proof.
  intros w Hw. unfold CreateAccount, generateAccountID. repeat run_step.
  destruct (rand_hex _ _) as [[id|e] w']; cbn [fst snd]; [|done]. repeat run_step.
  next_fault; [done|]. by destruct (sql_insert_account _ _ _).
Qed.

Lemma UpdateAccount_values i u : values (fun a => account_good a = true) (UpdateAccount i u).
Proof.
  intros w Hw. unfold UpdateAccount. cbv zeta. destruct (match u_Status u with Some _ => _ | None => _ end); [done|].
  destruct ((i =s legacyAccountID) && _); [done|].
  run_step. run_step. next_fault; [done|]. unfold sql_update_account.
  destruct (accounts _ !! i) as [r|]; [|done]. cbv zeta. destruct (negb _) eqn:Hc; [done|].
  destruct (held_by_other _ _ _ _); [done|]. cbn. apply negb_false_iff, andb_true_iff in Hc as [_ Hc]. exact Hc.
Qed.

Lemma GetOperator_values id : values (fun o => operator_good o = true) (GetOperator id).
Proof.
  intros w Hw. unfold GetOperator, no_rows. run_step. run_step. next_fault; [by cbn|].
  destruct (operators _ !! id) as [r|] eqn:Hr; [|by cbn]. by eapply operator_row_good.
Qed.

Lemma ListOperators_values o l : values (Forall (fun o => operator_good o = true)) (ListOperators o l).
Proof.
  intros w Hw. unfold ListOperators. repeat run_step. next_fault; [done|]. cbn.
  apply Forall_map. eapply (rows_page_good _ _ (order_newest _)).
  - intros rows kr. by rewrite order_newest_perm.
  - intros id r Hr. by eapply operator_row_good.
Qed.

Lemma AllowlistOperator_values e role b : values (fun o => operator_good o = true) (AllowlistOperator e role b).
Proof.
  intros w Hw. unfold AllowlistOperator, generateOperatorID. repeat run_step.
  destruct (rand_hex _ _) as [[id|er] w']; cbn [fst snd]; [|done]. repeat run_step.
  next_fault; [done|]. unfold sql_insert_operator. destruct (negb _) eqn:Hc; [done|].
  apply negb_false_iff, (operator_check_good id) in Hc. destruct (bool_decide _); [done|].
  by destruct (held_by_other _ _ _ _).
Qed.

Lemma UpdateOperatorAtomically_values id role status :
  values (fun ba => operator_good ba.2 = true) (UpdateOperatorAtomically id role status).
Proof.
  intros w Hw. pose proof (UpdateOperatorAtomically_run id role status w) as Hrun.
  destruct (UpdateOperatorAtomically id role status w) as [[[b a]|e] w']; [|done].
  destruct Hrun as (r & _ & _ & -> & Hc & _). by apply operator_check_good.
Qed.

Lemma ListComponents_values o l :
  values (Forall (fun c => component_good c = true)) (ListComponents o l).
Proof.
  intros w Hw. unfold ListComponents. repeat run_step. next_fault; [done|]. cbn.
  apply Forall_map. eapply (rows_page_good _ _ order_by_key).
  - intros rows kr. by rewrite order_by_key_perm.
  - intros id r Hr. by eapply component_row_good.
Qed.

Definition declares (c : Component) : Prop :=
  is_Some (RPMSeries c) /\ is_Some (RPMOSFamilies c) /\ is_Some (RPMArchitectures c).

Lemma CreateComponent_values c :
  declares c -> values (fun c => component_good c = true) (CreateComponent c).
Proof.
  intros Hd w Hw. unfold CreateComponent. cbv zeta. run_step. cbn [now fst snd]. run_step. run_step.
  next_fault; [cbn; by destruct (Contains _ _)|]. unfold sql_insert_component.
  destruct (negb _) eqn:Hc; [cbn [fst]; by destruct (Contains _ _)|].
  destruct (bool_decide _); [cbn [fst]; by destruct (Contains _ _)|].
  apply negb_false_iff, (component_check_good (Name c)) in Hc; [exact Hc|exact Hd].
Qed.

Lemma UpdateComponent_values n p : values (fun c => component_good c = true) (UpdateComponent n p).
Proof.
  intros w Hw. unfold UpdateComponent. destruct (with_tx _ _ _ _ w) as [[c|e] w'] eqn:E; [|done].
  apply (f_equal fst) in E. apply with_tx_ok in E as [E _]. revert E. unfold no_rows.
  run_step. run_step. next_fault; [by cbn|]. destruct (components _ !! n) as [r|] eqn:Hr; [|by cbn].
  repeat run_step. next_fault; [done|]. unfold sql_update_component.
  destruct (components _ !! _) as [r'|]; [|done]. destruct (negb _) eqn:Hc; [done|]. cbn.
  intros [= <-]. apply negb_false_iff in Hc. by apply (component_check_good n _ Hc).
Qed.
End Methods.

(** ** The world of the service *)
Section Fit.
Context `{SqlDriver} `{UnicodeTables} (ttl : Z).

Definition fit (w : World) : Prop := rows_good (w_db w) /\ in_step ttl w.

Lemma fit_keeps {A} (m : Eff A) :
  moves sound m -> moves (keeps listed) m -> keeps_step ttl m -> gives fit (fun _ => True) m.
Proof.
  intros Hs Hl Hk w [[Hok Hli] Hin]. split; [|done]. split; [|by apply Hk].
  split; [by apply (Hs w)|by apply (Hl w)].
Qed.

Lemma spares_listed {A} (m : Eff A) : spares m -> moves (keeps listed) m.
Proof. intros Hm w Hl. destruct (Hm w) as [_ Hc]. unfold same_components, listed in *. by rewrite Hc. Qed.

Lemma fit_spares {A} (m : Eff A) : moves sound m -> spares m -> gives fit (fun _ => True) m.
Proof. intros Hs Hm. apply fit_keeps; [done|by apply spares_listed|by apply spares_keeps]. Qed.

Lemma gives_values {A} (P : A -> Prop) (m : Eff (res A)) :
  gives fit (fun _ => True) m -> values P m -> gives fit (on_ok P) m.
Proof. intros Hm Hv w Hw. split; [by apply Hm|by apply Hv; destruct Hw]. Qed.

Lemma fit_local {A} (f : World -> A * World) :
  (forall w, w_cache (f w).2 = w_cache w /\ w_db (f w).2 = w_db w) -> gives fit (fun _ => True) f.
Proof.
  intros Hf. apply fit_keeps; [| |by apply keeps_local].
  - intros w. destruct (Hf w) as [_ ->]. reflexivity.
  - intros w. destruct (Hf w) as [_ ->]. by intros ?.
Qed.

(** *** The cached component methods *)
Lemma CachedGetComponent_fit n :
  gives fit (on_ok (fun c => component_good c = true)) (CachedGetComponent ttl n).
Proof.
  intros w Hw. split.
  - apply (fit_keeps (CachedGetComponent ttl n)); [| |apply CachedGetComponent_keeps|done];
      apply CachedGetComponent_moves, _.
  - destruct Hw as [Hg [Hc _]].
    destruct (CachedGetComponent_coherent ttl n w Hc) as (_ & _ & Ha). unfold current_answer in Ha.
    destruct (CachedGetComponent ttl n w).1 as [c|e]; [|done]. destruct Ha as (r & Hr & ->).
    by eapply component_row_good.
Qed.

Lemma delete_listed n db a db' : sql_delete_component n db = Done a db' -> keeps listed db db'.
Proof. intros [= _ <-] Hl k r. cbn. intros [_ Hr]%lookup_delete_Some. by eapply Hl. Qed.

Lemma CachedDeleteComponent_fit n : gives fit (fun _ => True) (CachedDeleteComponent ttl n).
Proof.
  apply fit_keeps; [apply moves_evicting|apply moves_evicting|apply DeleteComponent_keeps].
  - apply _.
  - apply DeleteComponent_sound.
  - apply _.
  - unfold DeleteComponent. solve_moves. apply moves_sql, delete_listed.
Qed.

Lemma CachedDeleteComponentWithRevoke_fit n :
  gives fit (fun _ => True) (CachedDeleteComponentWithRevoke ttl n).
Proof.
  apply fit_keeps; [apply moves_evicting|apply moves_evicting|apply DeleteComponentWithRevoke_keeps].
  - apply _.
  - apply DeleteComponentWithRevoke_sound.
  - apply _.
  - unfold DeleteComponentWithRevoke. solve_moves; [|apply moves_sql, delete_listed].
    apply moves_sql. intros db a db' [= _ <-] Hl. exact Hl.
Qed.

Lemma CachedUpdateComponent_fit n p :
  gives fit (on_ok (fun c => component_good c = true)) (CachedUpdateComponent ttl n p).
Proof.
  intros w Hw. split.
  - apply (fit_keeps (CachedUpdateComponent ttl n p)); [| |apply UpdateComponent_keeps|done].
    + apply moves_evicting; [apply _|]. apply UpdateComponent_sound.
    + apply moves_evicting; [apply _|]. unfold UpdateComponent, no_rows. solve_moves. apply moves_sql.
      unfold sql_update_component. intros db o db' Hs. inv_stmt Hs; [|intros Hl; exact Hl].
      intros Hl k r. cbn. rewrite lookup_insert. case_decide; [|apply Hl].
      intros [= <-]. by repeat split.
  - unfold CachedUpdateComponent, evicting. rewrite bind_run, bind_run.
    apply (UpdateComponent_values n p w). by destruct Hw.
Qed.

Lemma CreateComponent_fit c :
  declares c -> gives fit (on_ok (fun c => component_good c = true)) (CreateComponent c).
Proof.
  intros Hd. apply gives_values; [|by apply CreateComponent_values].
  apply fit_keeps; [apply CreateComponent_sound| |apply CreateComponent_keeps].
  unfold CreateComponent. solve_moves. apply moves_sql. unfold sql_insert_component.
  intros db o db' Hs. inv_stmt Hs; intros Hl k r; cbn; rewrite lookup_insert; (case_decide; [|apply Hl]);
    intros [= <-]; exact Hd.
Qed.
End Fit.

(** The other methods leave the components alone. *)
Create HintDb typed.

Ltac fit_values L :=
  apply gives_values; [apply fit_spares; auto with packyard cache_spares|apply L].

Section Fits.
Context `{SqlDriver} `{UnicodeTables} (ttl : Z).

Lemma GetAccount_fit id : gives (fit ttl) (on_ok (fun a => account_good a = true)) (GetAccount id).
Proof. fit_values GetAccount_values. Qed.
Lemma ListAccounts_fit s o l :
  gives (fit ttl) (on_ok (Forall (fun a => account_good a = true))) (ListAccounts s o l).
Proof. fit_values ListAccounts_values. Qed.
Lemma CreateAccount_fit i b :
  gives (fit ttl) (on_ok (fun a => account_good a = true)) (CreateAccount i b).
Proof. fit_values CreateAccount_values. Qed.
Lemma UpdateAccount_fit i u :
  gives (fit ttl) (on_ok (fun a => account_good a = true)) (UpdateAccount i u).
Proof. fit_values UpdateAccount_values. Qed.
Lemma GetOperator_fit id : gives (fit ttl) (on_ok (fun o => operator_good o = true)) (GetOperator id).
Proof. fit_values GetOperator_values. Qed.
Lemma ListOperators_fit o l :
  gives (fit ttl) (on_ok (Forall (fun o => operator_good o = true))) (ListOperators o l).
Proof. fit_values ListOperators_values. Qed.
Lemma AllowlistOperator_fit e r b :
  gives (fit ttl) (on_ok (fun o => operator_good o = true)) (AllowlistOperator e r b).
Proof. fit_values AllowlistOperator_values. Qed.
Lemma UpdateOperatorAtomically_fit i r s :
  gives (fit ttl) (on_ok (fun ba => operator_good ba.2 = true)) (UpdateOperatorAtomically i r s).
Proof. fit_values UpdateOperatorAtomically_values. Qed.
Lemma ListComponents_fit o l :
  gives (fit ttl) (on_ok (Forall (fun c => component_good c = true))) (ListComponents o l).
Proof. fit_values ListComponents_values. Qed.
End Fits.
#[export] Hint Resolve GetAccount_fit ListAccounts_fit CreateAccount_fit UpdateAccount_fit GetOperator_fit
  ListOperators_fit AllowlistOperator_fit UpdateOperatorAtomically_fit ListComponents_fit
  CachedGetComponent_fit CachedUpdateComponent_fit CachedDeleteComponent_fit
  CachedDeleteComponentWithRevoke_fit : typed.

(** ** The answers *)
(** What a route answers: its type on success, and that of the error that
    asks for a confirmation, [TNothing] for a route that never asks. *)
Record answer_type := mkAnswerType { on_success : ty; on_preview : ty }.
Definition plainly (t : ty) : answer_type := mkAnswerType t TNothing.

Definition expected_type (t : answer_type) (resp : Response) : ty :=
  if (400 <=? rs_status resp)%Z
  then if rs_code resp =s "CONFIRM_REQUIRED" then on_preview t else TError
  else on_success t.

(** An empty 204, or a good body of the type expected. *)
Definition answer_shape (t : answer_type) (resp : Response) : Prop :=
  body_good (rs_body resp) /\
  ((rs_status resp = 204%Z /\ rs_body resp = BEmpty) \/
   body_type (rs_body resp) = Some (expected_type t resp)).

(** *** The visibility of a key's component *)
Definition visibilities (m : gmap string string) : Prop :=
  forall n v, m !! n = Some v -> visibility_good v = true.

Lemma startup_visibilities valid public : visibilities (startup_visibility valid public).
Proof.
  intros n v. unfold startup_visibility. intros (m & _ & [= _ <-])%lookup_set_to_map; [|done].
  by case_bool_decide.
Qed.

Lemma wrapKey_good m k : visibilities m -> visibility_good (wrapKey m k) = true.
Proof.
  intros Hm. unfold wrapKey. cbv zeta. destruct (m !! Key_Component k) as [v|] eqn:Hv; cbn [from_option id];
    [|reflexivity]. destruct (v =s ""); [done|]. exact (Hm _ _ Hv).
Qed.

Lemma wrapped_one_good m k : visibilities m -> body_good (BKey k (wrapKey m k)).
Proof. apply wrapKey_good. Qed.

Lemma wrapped_good m ks :
  visibilities m -> body_good (BKeys (map (fun k => (k, wrapKey m k)) ks)).
Proof. intros Hm. apply Forall_map, Forall_true. intros k. by apply wrapKey_good. Qed.

Lemma preview_good code message n c :
  component_good c = true -> body_good (BDeleteImpact code message n (Some (RPMSeries c))).
Proof.
  unfold component_good. intros [[[_ Hs]%andb_true_iff _]%andb_true_iff _]%andb_true_iff l [= <-].
  by apply bool_decide_eq_true in Hs.
Qed.
#[export] Hint Resolve wrapped_one_good wrapped_good preview_good : typed.

Lemma page_shape {A} t r offset limit (rows : list A) body (good : A -> Prop) :
  Forall good rows ->
  (forall l, Forall good l -> body_good (body l) /\ body_type (body l) = Some (on_success t)) ->
  answer_shape t (reply_page r offset limit rows body).
Proof.
  intros Hg Hb. unfold reply_page, trim_page. destruct (limit <? _)%Z.
  - destruct (Hb (take (Z.to_nat limit) rows)) as [? ?]; [by apply Forall_take|]. split; [done|]. by right.
  - destruct (Hb rows Hg) as [? ?]. split; [done|]. by right.
Qed.

Lemma pagination_shape t r resp : parsePagination r = inl resp -> answer_shape t resp.
Proof.
  unfold parsePagination. cbv zeta. intros Hp.
  repeat (case_match; try discriminate Hp); injection Hp as <-; by (split; [|right]).
Qed.

Lemma require_shape t r resp : requireAdmin r = inl resp -> answer_shape t resp.
Proof. unfold requireAdmin. intros Hp. repeat (case_match; try discriminate Hp); injection Hp as <-; by (split; [|right]). Qed.

Lemma change_shape `{UnicodeTables} t e s resp : status_change e s = inl resp -> answer_shape t resp.
Proof. unfold status_change. intros Hp. repeat (case_match; try discriminate Hp); injection Hp as <-; by (split; [|right]). Qed.

Lemma WriteFromRequest_sound `{SqlDriver} `{UnicodeTables} r e : moves sound (WriteFromRequest r e).
Proof. unfold WriteFromRequest. cbv zeta. apply Write_sound. Qed.
#[export] Hint Resolve WriteFromRequest_sound : packyard.
#[export] Hint Resolve pagination_shape require_shape change_shape : typed.

Lemma nonNil_declares n v s f a t : declares (mkComponent n v (nonNil s) (nonNil f) (nonNil a) t).
Proof. by repeat split. Qed.
#[export] Hint Resolve CreateComponent_fit nonNil_declares : typed.

Ltac shape :=
  match goal with
  | |- answer_shape _ (reply_page _ _ _ _ _) =>
      first [eapply page_shape; [eassumption|by intros ? ?; split]
            | eapply (page_shape _ _ _ _ _ _ (fun _ => True));
              [by apply Forall_true|intros ? ?; split; [eauto with typed|reflexivity]]]
  | |- answer_shape _ _ =>
      solve [eauto with typed
            | split; [first [done|assumption|cbn [reply rs_body]; eauto with typed]
                     | first [right; reflexivity|by left]]]
  end.

Ltac fit_leaf :=
  solve [eauto with typed | apply fit_spares; eauto with packyard cache_spares
        | apply fit_local; intros ?; unfold state_put, state_consume; repeat case_match; done].

(** A part whose value does not matter. *)
Ltac solve_fit :=
  repeat match goal with
  | |- gives _ _ (ret _) => by apply gives_ret
  | |- gives _ _ _ => fit_leaf
  | |- gives _ _ (bind _ _) => eapply (gives_bind _ (fun _ => True)); [|intros ? _]
  | |- gives _ _ (match ?x with _ => _ end) => destruct x
  end.

(** Along the structure of a handler. *)
Ltac solve_gives :=
  repeat match goal with
  | H : on_ok _ (Ok _) |- _ => cbn [on_ok] in H
  | |- gives _ _ (ret _) => apply gives_ret; try done
  | |- gives _ _ (bind _ _) =>
      first [eapply gives_bind; [fit_leaf|intros ? ?]
            | eapply (gives_bind _ (fun _ => True)); [solve [solve_fit]|intros ? _]]
  | |- gives _ _ (match ?x with _ => _ end) => destruct x eqn:?
  | |- gives _ _ (let '(_, _) := ?x in _) => destruct x eqn:?
  end; try shape.

Section Handlers.
Context `{SqlDriver} `{UnicodeTables} `{Router} (cfg : Wiring).
Context (MkdirAll : string -> option string).
Context (file_server : string -> Response).

Definition posts (P : Response -> Prop) (h : Handler) : Prop :=
  forall r, gives (fit (cacheTTL cfg)) P (h r).
Definition types_handler (t : answer_type) : Handler -> Prop := posts (answer_shape t).

(** The types of the answers of [api_routes], in its order. *)
Definition api_types : list answer_type :=
  map plainly [
    TOperator; TNothing; TIssuedKey; TArray TIssuedKey; TIssuedKey; TNothing;
    TComponent; TArray TComponent; TComponent; TComponentUpdate] ++
  [mkAnswerType TRevoked TComponentImpact] ++
  map plainly [TAccount; TArray TAccount; TAccount; TAccount] ++
  [mkAnswerType TRevoked TAccountImpact] ++
  map plainly [
    TArray TIssuedKey; TIssuedKey; TArray TAuditEntry; TArray TOperator; TOperator; TOperator].

Section Wired.
Context (shown : visibilities (ComponentVisibility (keysHandler cfg))).

Lemma api_routes_typed b :
  Forall2 (fun t e => types_handler t e.2) api_types (api_routes cfg MkdirAll b).
Proof.
  unfold api_types, api_routes. cbn [map app]. repeat apply Forall2_cons_2; try apply Forall2_nil_2; cbn [snd]; intros req.
  all: unfold Whoami, Logout, Keys_Create, Keys_List, Keys_Get, Keys_Delete, Components_Create,
    Components_List, Components_GetOne, Components_Update, Components_Delete, CreateKey,
    Accounts_Create, Accounts_List, Accounts_Get, Accounts_Update, Accounts_Delete,
    Accounts_ListKeys, Accounts_IssueKey, with_account, Audit_List, Operators_List,
    Operators_Create, Operators_Update, after_update.
  all: cbv zeta; solve_gives.
Qed.

(** The guards answer with errors. *)
Definition is_error (resp : Response) : Prop := forall t, answer_shape t resp.

Section Guards.
Context (P : Response -> Prop) (errors : forall resp, is_error resp -> P resp).

Ltac guard_error := apply errors; intros ?; shape.

Lemma session_gate_posts r :
  gives (fit (cacheTTL cfg)) (fun a => match a with inl resp => P resp | inr _ => True end)
    (session_gate r).
Proof. unfold session_gate, unauthorized. solve_gives; guard_error. Qed.

Lemma RequireSession_posts h : posts P h -> posts P (RequireSession h).
Proof.
  intros Hh r. unfold RequireSession. eapply gives_bind; [apply session_gate_posts|].
  intros [resp|[[sess op] nowTime]]; [by apply gives_ret|]. intros _.
  eapply gives_bind; [apply Hh|]. intros resp Hr.
  eapply (gives_bind _ (fun _ => True)); [solve_fit|]. intros _ _. by apply gives_ret.
Qed.

Lemma RequireRole_posts h : posts P h -> posts P (RequireRole h).
Proof. intros Hh r. unfold RequireRole. cbv zeta. solve_gives; try apply Hh; guard_error. Qed.

Lemma CSRFGuard_posts expected h : posts P h -> posts P (CSRFGuard expected h).
Proof. intros Hh r. unfold CSRFGuard. cbv zeta. solve_gives; try apply Hh; guard_error. Qed.

Lemma admin_route_posts expected h : posts P h -> posts P (admin_route expected h).
Proof.
  intros Hh. unfold admin_route. by apply CSRFGuard_posts, RequireSession_posts, RequireRole_posts.
Qed.
End Guards.

(** The public routes keep the rows and the cache as they should be. *)
Definition fit_handler : Handler -> Prop := posts (fun _ => True).

Lemma RateLimit_fit lim h : fit_handler h -> fit_handler (RateLimit lim h).
Proof. intros Hh r. unfold RateLimit. cbv zeta. solve_gives; apply Hh. Qed.

Lemma public_routes_fit :
  Forall (fun e => fit_handler e.2) (public_routes cfg file_server).
Proof.
  unfold public_routes. repeat apply Forall_cons_2; try apply Forall_nil_2; cbn [snd];
    try apply RateLimit_fit; intros req.
  all: unfold Health, ForwardAuthRoute, ServeHTTP, authorize, check_credentials, account_gate, answer, Login, Callback,
    exchange_code, match_operator, start_session, failCallback, RandomHex, AdminCSP, AdminPage;
    cbn [cs_get cached_source]; cbv zeta; solve_fit.
  eapply gives_post; [|apply CachedGetComponent_fit]. done.
Qed.

Lemma api_route_typed b i t e :
  api_types !! i = Some t -> api_routes cfg MkdirAll b !! i = Some e -> types_handler t e.2.
Proof. intros Ht He. by apply (Forall2_lookup_lr _ _ _ _ _ _ (api_routes_typed b) Ht He). Qed.

Lemma serve_fit b r :
  gives (fit (cacheTTL cfg)) (fun _ => True) (serve cfg MkdirAll file_server b r).
Proof.
  unfold serve. destruct (find_route _ _ _) as [[i params]|].
  - destruct (routes _ _ _ _ !! i) as [e|] eqn:He; [|by apply gives_ret].
    revert He. unfold routes. intros [He|[_ He]]%lookup_app_Some.
    + pose proof public_routes_fit as Hs. rewrite Forall_lookup in Hs. apply (Hs _ _ He).
    + rewrite list_lookup_fmap in He. destruct (api_routes _ _ _ !! _) as [e'|] eqn:Ha; [|done].
      injection He as <-. destruct (Forall2_lookup_r _ _ _ _ _ (api_routes_typed b) Ha) as (t & _ & Ht).
      apply admin_route_posts; [done|]. intros q. by eapply gives_post; [|apply Ht].
  - destruct (_ || HasPrefix _ _); [|by apply gives_ret].
    apply admin_route_posts; [done|]. intros q. by apply gives_ret.
Qed.

Lemma run_service_fit es :
  gives (fit (cacheTTL cfg)) (fun _ => True) (run_service cfg MkdirAll file_server es).
Proof.
  induction es as [|e es IH]; cbn [run_service]; [by apply gives_ret|].
  eapply (gives_bind _ (fun _ => True)); [|intros a _].
  - destruct e; cbn [run_event]; (eapply (gives_bind _ (fun _ => True)); [|by intros; apply gives_ret]).
    + apply serve_fit.
    + unfold reap_states. solve_fit.
    + unfold reap_limiter. solve_fit.
  - eapply gives_bind; [exact IH|]. by intros; apply gives_ret.
Qed.

End Wired.

(** ** The type of an answer *)
Context (time_json : Z -> option string).

Definition answer_typed (t : answer_type) (resp : Response) : Prop :=
  match body_json time_json (rs_body resp) with
  | Some j => has_type (expected_type t resp) j = true
  | None => (rs_status resp = 204%Z /\ rs_body resp = BEmpty) \/
            refused_time time_json (body_times (rs_body resp))
  end.

Lemma shape_typed t resp :
  (forall t s, time_json t = Some s -> time_text s = true) ->
  answer_shape t resp -> answer_typed t resp.
Proof.
  intros Htime [Hg Hs]. unfold answer_typed.
  destruct (body_json time_json (rs_body resp)) as [j|] eqn:Hj.
  - destruct (body_typed time_json Htime _ _ Hg Hj) as (t' & Ht' & Hty). rewrite Ht' in Hs.
    destruct Hs as [[_ Hb]|[= ->]]; [|done]. by rewrite Hb in Ht'.
  - destruct Hs as [?|Hs]; [by left|right]. apply body_written; [done|by eexists|done].
Qed.

(** C7. Every answer of the API has its declared type.  After any history of
    requests and reaper passes, from a database that is intact and whose
    components have no null list, an empty cache, and the keys handler that
    main.go builds from two sets of components, whatever the sets: the JSON of
    an answer of a route of the session-protected group is what
    admin-ui/src/api declares for it, each required field present and of its
    type, an enumeration at one of its values, the visibility of a key's
    component among them, times in RFC 3339, no null list; a status of
    400 or more comes with a code and a message, and CONFIRM_REQUIRED, from the
    two routes that ask for a confirmation, with the impact of the deletion;
    and only a 204 has no body, or an answer with a time that the encoder
    refuses. *)
Theorem answers_typed valid public es w0 b r i params t :
  keysHandler cfg = startup_keys_handler valid public ->
  (forall t s, time_json t = Some s -> time_text s = true) ->
  db_ok (w_db w0) -> listed (w_db w0) -> cache_entries (w_cache w0) = ∅ ->
  find_route (map fst (routes cfg MkdirAll file_server b)) (r_method r) (r_path r) =
    Some (length (public_routes cfg file_server) + i, params) ->
  api_types !! i = Some t ->
  let w := (run_service cfg MkdirAll file_server es w0).2 in
  answer_typed t (serve cfg MkdirAll file_server b r w).1.
Proof.
  intros Hk Htime Hok Hl Hc Hr Ht w.
  assert (visibilities (ComponentVisibility (keysHandler cfg))) as Hv.
  { rewrite Hk. apply startup_visibilities. }
  assert (fit (cacheTTL cfg) w) as Hw.
  { apply (run_service_fit Hv). split; [by split|by apply fresh_in_step]. }
  apply shape_typed; [done|]. unfold serve. rewrite Hr.
  destruct (Forall2_lookup_l _ _ _ _ _ (api_routes_typed Hv b) Ht) as (e & He & Hty).
  unfold routes. rewrite lookup_app_r by apply Nat.le_add_r. rewrite Nat.add_comm, Nat.add_sub.
  rewrite list_lookup_fmap, He. cbn [fmap option_fmap option_map snd].
  apply admin_route_posts; [intros resp Hr'; apply Hr'|exact Hty|exact Hw].
Qed.
End Handlers.

(** The list of operators, read over a session. *)
Definition demo_operators : Request :=
  demo_request "GET" "/api/v1/operators" [] [(SessionCookieName, "sess")].

Lemma demo_listed : listed (w_db (demo_world demo_db)).
Proof.
  assert (forallb (fun kr => bool_decide (is_Some (c_rpm_series kr.2)) &&
    bool_decide (is_Some (c_rpm_os_families kr.2)) && bool_decide (is_Some (c_rpm_architectures kr.2)))
    (map_to_list (components demo_db)) = true) as Hm by (vm_compute; reflexivity).
  intros n r Hr%elem_of_map_to_list%list_elem_of_In. rewrite forallb_forall in Hm. specialize (Hm _ Hr).
  apply andb_true_iff in Hm as [[Hs Hf]%andb_true_iff Ha].
  apply bool_decide_eq_true in Hs, Hf, Ha. exact (conj Hs (conj Hf Ha)).
Qed.

Example demo_operators_answer :
  let resp := (demo_serve no_bodies demo_operators).1 in
  rs_status resp = 200%Z /\ is_Some (body_json utc_json (rs_body resp)).
Proof. vm_compute. split; [reflexivity|by eexists]. Qed.

Lemma answers_typed_witness :
  answer_typed utc_json (plainly (TArray TOperator))
    (@serve sqlite_driver ascii_tables first_match_router demo_wiring (fun _ => None)
      (fun _ => no_content) no_bodies demo_operators
      (@run_service sqlite_driver ascii_tables first_match_router demo_wiring (fun _ => None)
        (fun _ => no_content) [Arrives no_bodies demo_revoke; StatesReaped] (demo_world demo_db)).2).1.
Proof.
  eapply (@answers_typed sqlite_driver ascii_tables first_match_router demo_wiring (fun _ => None)
    (fun _ => no_content) utc_json {["core"; "pub"]} {["pub"]} [Arrives no_bodies demo_revoke; StatesReaped]
    (demo_world demo_db) no_bodies demo_operators 19).
  - reflexivity.
  - exact utc_json_text.
  - exact demo_ok.
  - exact demo_listed.
  - reflexivity.
  - vm_compute. reflexivity.
  - reflexivity.
Defined.

(** The question before a component is deleted. *)
Example demo_preview_answer :
  let resp := (demo_serve no_bodies (demo_request "DELETE" "/api/v1/components/core"
    [("Origin", "https://admin.example.org")] [(SessionCookieName, "sess")])).1 in
  rs_status resp = 409%Z /\ rs_code resp = "CONFIRM_REQUIRED" /\
  has_type TComponentImpact <$> body_json utc_json (rs_body resp) = Some true.
Proof. vm_compute. done. Qed.
