(* ===== verification/StartupSpec.v ===== *)
(** * What start-up promises: a checked configuration over a sound database *)
From Stdlib Require Import ZArith Lia Ascii.
From stdpp Require Import base gmap strings list relations.
From S2P Require Import Url.
From S2P Require Import Prelude GoStrings Errors State Tables Effects AccountStore.
From S2P Require Import ComponentStore OperatorStore StoreInvariant StoreMethods OperatorSpec.
From S2P Require Import ComponentCache Http AdminGuards Opening OpeningSpec KeysHandler AuthHandler.
From S2P Require Import Providers Server Background Durations Startup Fixtures ServerSpec ServiceInvariant.
Open Scope packyard_scope.
Open Scope eff_scope.

Section Steps.
Context `{SqlDriver} `{UnicodeTables}.

(** ** Loading the components *)
Lemma load_fold (rows : list (string * component_row)) acc :
  let out := fold_left (fun (acc : gset string * gset string) kr =>
    ({[kr.1]} ∪ acc.1, if c_visibility kr.2 =s "public" then {[kr.1]} ∪ acc.2 else acc.2)) rows acc in
  (forall n, n ∈ out.1 <-> n ∈ acc.1 \/ exists r, (n, r) ∈ rows) /\
  (forall n, n ∈ out.2 <-> n ∈ acc.2 \/ exists r, (n, r) ∈ rows /\ c_visibility r = "public").
Proof.
  revert acc. induction rows as [|[k r] rows IH]; intros acc; cbn [fold_left].
  { split; intros n; (split; [by left|intros [?|[? Hin]]; [done|]]).
    - by apply elem_of_nil in Hin.
    - destruct Hin as [Hin _]. by apply elem_of_nil in Hin. }
  destruct (IH ({[k]} ∪ acc.1, if c_visibility r =s "public" then {[k]} ∪ acc.2 else acc.2)) as [H1 H2].
  cbn [fst snd] in *. cbv zeta. split; intros n.
  - rewrite H1, elem_of_union, elem_of_singleton. setoid_rewrite elem_of_cons. split.
    + intros [[->|?]|[x ?]]; eauto.
    + intros [?|[x [[= -> ->]|?]]]; eauto.
  - rewrite H2. setoid_rewrite elem_of_cons. destruct (String.eqb_spec (c_visibility r) "public") as [Hp|Hp].
    + rewrite elem_of_union, elem_of_singleton. split.
      * intros [[->|?]|(x & ? & ?)]; eauto.
      * intros [?|(x & [[= -> ->]|?] & ?)]; eauto.
    + split; [intros [?|(x & ? & ?)]; eauto|]. intros [?|(x & [[= -> ->]|?] & ?)]; eauto. done.
Qed.

Lemma LoadComponentSets_run w :
  match LoadComponentSets w with
  | (Ok s, w') => w' = tick_fault w /\
      (forall n, n ∈ s.1 <-> is_Some (components (w_db w) !! n)) /\
      (forall n, n ∈ s.2 <-> exists r, components (w_db w) !! n = Some r /\ c_visibility r = "public")
  | (Err _, w') => w_db w' = w_db w /\ ~ no_faults w
  end.
Proof.
  unfold LoadComponentSets. rewrite bindR_run. run_step. run_step. cbn [fst snd].
  next_fault; cbn [fst snd ret]; [split; [done|live_contra]|]. split; [done|].
  set (rows := order_by_key (scan (components (w_db w)))).
  assert (forall n r, (n, r) ∈ rows <-> components (w_db w) !! n = Some r) as Hrows.
  { intros n r. unfold rows. rewrite order_by_key_perm. apply elem_of_scan. }
  destruct (load_fold rows (∅, ∅)) as [H1 H2]. cbn [fst snd] in *. split; intros n.
  - rewrite H1. setoid_rewrite Hrows. split; [intros [?%elem_of_empty|]; done|by right].
  - rewrite H2. setoid_rewrite Hrows. split; [intros [?%elem_of_empty|]; done|by right].
Qed.

(** The handler's map agrees with the table it was built from. *)
Lemma startup_visibility_lookup (valid public : gset string) n :
  startup_visibility valid public !! n =
    if bool_decide (n ∈ valid) then Some (if bool_decide (n ∈ public) then "public" else "private") else None.
Proof.
  unfold startup_visibility. destruct (bool_decide_reflect (n ∈ valid)) as [Hin|Hin].
  - apply lookup_set_to_map; [by intros x y _ _ [= ->]|]. by exists n.
  - apply eq_None_not_Some. intros [v Hv]. apply lookup_set_to_map in Hv; [|by intros x y _ _ [= ->]].
    destruct Hv as (y & Hy & [= -> _]). done.
Qed.

Lemma load_visibility s db n :
  db_ok db ->
  (forall n, n ∈ s.1 <-> is_Some (components db !! n)) ->
  (forall n, n ∈ s.2 <-> exists r, components db !! n = Some r /\ c_visibility r = "public") ->
  startup_visibility s.1 s.2 !! n = c_visibility <$> components db !! n.
Proof.
  intros Hok H1 H2. rewrite startup_visibility_lookup. case_bool_decide as Hin; rewrite H1 in Hin.
  - destruct Hin as [r Hr]. rewrite Hr. cbn. f_equal.
    pose proof (ok_components _ Hok _ _ Hr) as Hv. unfold component_check in Hv. cbn in Hv.
    case_bool_decide as Hp; rewrite H2 in Hp.
    + destruct Hp as (r' & Hr' & Hv'). congruence.
    + rewrite orb_false_r in Hv. apply orb_true_iff in Hv as [Hv|Hv]; apply String.eqb_eq in Hv; [|done].
      destruct Hp. by exists r.
  - apply eq_None_not_Some in Hin. by rewrite Hin.
Qed.

(** ** The first operator *)
Context (mail_ParseAddress : string -> bool).

Definition first_admin (email : string) (db db' : Database) : Prop :=
  exists id t, db' = set_operators
    {[id := new_operator_row (canonicalEmail email) OperatorRoleAdmin "bootstrap" t]} db.

Lemma Bootstrap_run email w :
  match BootstrapOperatorFromEnv mail_ParseAddress email w with
  | (Ok _, w') =>
      ((email = "" \/ operators (w_db w) <> ∅) -> w_db w' = w_db w) /\
      (email <> "" -> operators (w_db w) = ∅ -> first_admin email (w_db w) (w_db w'))
  | (Err _, w') => w_db w' = w_db w /\
      ~ (no_faults w /\ (forall i, is_Some (w_rand w i)) /\ (email <> "" -> mail_ParseAddress email = true /\
           email_check (canonicalEmail email) = true))
  end.
Proof.
  unfold BootstrapOperatorFromEnv. destruct (String.eqb_spec email "") as [->|He].
  { cbn. by split. }
  destruct (mail_ParseAddress email) eqn:Em; cbn [negb].
  2:{ cbn. split; [done|]. intros (_ & _ & Hp). by destruct (Hp He). }
  unfold with_tx. next_fault; [split; [done|intros [? _]; live_contra]|].
  rewrite bindR_run. run_step. run_step. cbn [fst snd].
  next_fault; cbn [fst snd ret]; [split; [done|intros [? _]; live_contra]|]. cbn [w_db tick_fault].
  destruct (Z.ltb_spec 0 (Z.of_nat (size (operators (w_db w))))) as [Hn|Hn]; cbn [ret].
  { rewrite bool_decide_eq_false_2 by by intros [? ?]. cbn. split; [done|].
    intros _ Hemp. rewrite Hemp, map_size_empty in Hn. lia. }
  assert (operators (w_db w) = ∅) as Hemp by (apply map_size_empty_inv; lia).
  do 2 run_step. unfold generateOperatorID, rand_hex. cbn [fst snd]. cbn [w_rand tick_fault].
  destruct (w_rand w 0) as [f|] eqn:Er; cbn [fst snd ret].
  2:{ split; [done|]. intros (_ & Hr & _). destruct (Hr 0). congruence. }
  do 3 run_step. unfold now. cbn [fst snd]. next_fault; cbn [fst snd ret].
  { split; [done|intros [? _]; live_contra]. }
  unfold sql_insert_operator. cbn [w_db tick_clock tick_rand tick_fault].
  set (row := new_operator_row _ _ _ _). set (id := hex_encode _).
  assert (operator_check row = email_check (canonicalEmail email)) as Hcheck.
  { unfold operator_check, row, new_operator_row. cbn. by rewrite !andb_true_r. }
  destruct (operator_check row) eqn:Ec; cbn [negb].
  2:{ cbn. split; [done|]. intros (_ & _ & Hp). destruct (Hp He). congruence. }
  rewrite Hemp, lookup_empty, bool_decide_eq_false_2 by by intros [? ?].
  replace (held_by_other _ _ _ _) with false by (by rewrite (proj2 (held_by_other_false _ _ _ _))).
  cbn [fst snd ret]. rewrite bool_decide_eq_true_2 by by eexists.
  next_fault; [split; [done|intros [? _]; live_contra]|].
  split; [intros [?|?]; by contradict He|]. intros _ _. eexists _, _. done.
Qed.
End Steps.

(** ** The environment *)
Section Environment.
Context `{UnicodeTables} (env : Env).
Context (github_client : GitHub.Config -> OAuthProvider).
Context (microsoft_client : Microsoft.Config -> OAuthProvider).

(** An admin host that passes validAdminHost is one CSRFGuard takes: the
    panic of its constructor is out of reach. *)
Lemma valid_host_parses s :
  validAdminHost s = true -> s <> "" ->
  is_Some (parseAdminHostStrict s).
Proof.
  unfold validAdminHost, parseAdminHostStrict, parseOrigin.
  destruct (url_Parse s) as [u|] eqn:Eu; [|done]. intros Hv Hs.
  repeat (apply andb_true_iff in Hv as [Hv ?]).
  assert (u_Scheme u <> "") as Hscheme by (intros He; by rewrite He in Hv).
  assert (s <> "null") as Hne by (intros ->; vm_compute in Eu; injection Eu as <-; by destruct Hscheme).
  rewrite !(proj2 (String.eqb_neq s _)) by done. cbn [orb].
  rewrite (proj2 (String.eqb_neq _ _)) by done. string_reflect.
  rewrite (proj2 (String.eqb_neq _ _)) by done. cbn [orb].
  match goal with Hq : u_RawQuery u = _, Hf : u_Fragment u = _ |- _ => rewrite Hq, Hf end.
  match goal with Hp : (u_Path u =s _) || _ = true |- _ => revert Hp end.
  destruct (u_Path u =s ""), (u_Path u =s "/"); try done; by eexists.
Qed.

Lemma admin_origin_spec :
  match admin_origin env with
  | Running origin => parseAdminHostStrict (Getenv env "PACKYARD_ADMIN_HOST") = Some origin
  | Exited _ => Getenv env "PACKYARD_ADMIN_HOST" = "" \/
      validAdminHost (Getenv env "PACKYARD_ADMIN_HOST") = false
  | Panicked => False
  end.
Proof.
  unfold admin_origin. destruct (String.eqb_spec (Getenv env "PACKYARD_ADMIN_HOST") "") as [|Hne]; [by left|].
  destruct (validAdminHost _) eqn:Ev; cbn [negb]; [|by right].
  destruct (parseAdminHostStrict _) eqn:Ep; [done|].
  destruct (valid_host_parses _ Ev Hne). congruence.
Qed.

Lemma github_spec :
  match buildGitHubProvider github_client env with
  | Running (Some p) => all_set (github_vars env) = true /\
      exists c, p = github_client c /\ GitHub.AllowedOrg c = Getenv env "PACKYARD_GITHUB_ORG" /\
        GitHub.ClientID c = Getenv env "PACKYARD_GITHUB_CLIENT_ID"
  | Running None => any_set (github_vars env) = false
  | Exited _ => any_set (github_vars env) = true /\ all_set (github_vars env) = false
  | Panicked => False
  end.
Proof.
  unfold buildGitHubProvider. destruct (any_set _) eqn:Ea; [|done].
  destruct (all_set _) eqn:El; [|done]. cbn [negb]. unfold GitHub.New. cbn.
  assert ((Getenv env "PACKYARD_GITHUB_ORG" =s "") = false) as ->.
  { unfold all_set, github_vars in El. cbn in El. string_reflect. by apply String.eqb_neq. }
  split; [done|]. eexists. by split_and!.
Qed.

Lemma microsoft_spec :
  match buildMicrosoftProvider microsoft_client env with
  | Running (Some p) => all_set (microsoft_vars env) = true /\
      exists c, p = microsoft_client c /\ Microsoft.TenantID c = Getenv env "PACKYARD_MICROSOFT_TENANT_ID" /\
        Microsoft.ClientID c = Getenv env "PACKYARD_MICROSOFT_CLIENT_ID"
  | Running None => any_set (microsoft_vars env) = false
  | Exited _ => any_set (microsoft_vars env) = true /\ all_set (microsoft_vars env) = false
  | Panicked => False
  end.
Proof.
  unfold buildMicrosoftProvider. destruct (any_set _) eqn:Ea; [|done].
  destruct (all_set _) eqn:El; [|done]. cbn [negb]. unfold Microsoft.New. cbn.
  assert ((Getenv env "PACKYARD_MICROSOFT_TENANT_ID" =s "") = false) as ->.
  { unfold all_set, microsoft_vars in El. cbn in El. string_reflect. by apply String.eqb_neq. }
  split; [done|]. eexists. by split_and!.
Qed.
End Environment.

(** ** The configured service *)
Section Configure.
Context `{SqlDriver} `{UnicodeTables}.
Context (mail_ParseAddress : string -> bool).
Context (github_client : GitHub.Config -> OAuthProvider).
Context (microsoft_client : Microsoft.Config -> OAuthProvider).
Context (env : Env).

(** What the operator can rely on once the listener is up. *)
Record well_configured (cfg : Wiring) (db : Database) : Prop := {
  wc_ttl : (0 <= cacheTTL cfg <= Hour)%Z;
  wc_root : rpmDataRoot cfg <> "";
  wc_origin : parseAdminHostStrict (Getenv env "PACKYARD_ADMIN_HOST") = Some (adminOrigin cfg);
  wc_visibility : forall n, ComponentVisibility (keysHandler cfg) !! n = c_visibility <$> components db !! n;
  wc_valid : forall n, n ∈ ValidComponents (keysHandler cfg) <-> is_Some (components db !! n);
  wc_github : match providers cfg !! ProviderGitHub with
    | None => any_set (github_vars env) = false
    | Some p => all_set (github_vars env) = true /\ exists c, p = github_client c /\
        GitHub.AllowedOrg c = Getenv env "PACKYARD_GITHUB_ORG" /\
        GitHub.ClientID c = Getenv env "PACKYARD_GITHUB_CLIENT_ID"
    end;
  wc_microsoft : match providers cfg !! ProviderMicrosoft with
    | None => any_set (microsoft_vars env) = false
    | Some p => all_set (microsoft_vars env) = true /\ exists c, p = microsoft_client c /\
        Microsoft.TenantID c = Getenv env "PACKYARD_MICROSOFT_TENANT_ID" /\
        Microsoft.ClientID c = Getenv env "PACKYARD_MICROSOFT_CLIENT_ID"
    end;
  wc_other : forall name, name <> ProviderGitHub -> name <> ProviderMicrosoft -> providers cfg !! name = None }.

(** Nothing the environment says stops the service. *)
Record startable : Prop := {
  st_email : let email := Getenv env "PACKYARD_BOOTSTRAP_OPERATOR_EMAIL" in
    email <> "" -> mail_ParseAddress email = true /\ email_check (canonicalEmail email) = true;
  st_github : any_set (github_vars env) = true -> all_set (github_vars env) = true;
  st_microsoft : any_set (microsoft_vars env) = true -> all_set (microsoft_vars env) = true;
  st_ttl : is_ok (envDuration env "PACKYARD_PUBLIC_COMPONENT_CACHE_TTL" (30 * Second) Hour) = true;
  st_host : Getenv env "PACKYARD_ADMIN_HOST" <> "" /\
    validAdminHost (Getenv env "PACKYARD_ADMIN_HOST") = true }.

(** The database after start-up: the first operator is the only change. *)
Definition booted (db db' : Database) : Prop :=
  let email := Getenv env "PACKYARD_BOOTSTRAP_OPERATOR_EMAIL" in
  (db' = db /\ (email = "" \/ operators db <> ∅)) \/ first_admin email db db'.

Lemma bind_boot_run {A B} (m : Eff (boot A)) (k : A -> Eff (boot B)) w :
  bind_boot m k w = match (m w).1 with
    | Running a => k a (m w).2 | Exited e => (Exited e, (m w).2) | Panicked => (Panicked, (m w).2) end.
Proof. unfold bind_boot. rewrite bind_run. by destruct (m w).1. Qed.

Lemma or_exit_run {A} e (m : Eff (res A)) w :
  or_exit e m w = (match (m w).1 with Ok a => Running a | Err _ => Exited e end, (m w).2).
Proof. unfold or_exit. by rewrite bind_run. Qed.

Lemma with_providers_lookup gh ms name :
  with_provider ProviderMicrosoft ms (with_provider ProviderGitHub gh ∅) !! name =
    if name =s ProviderMicrosoft then ms else if name =s ProviderGitHub then gh else None.
Proof.
  assert (forall n p (m : gmap string OAuthProvider), m !! n = None ->
    with_provider n p m !! name = if name =s n then p else m !! name) as Hwith.
  { intros n p m Hn. destruct p as [p|]; cbn; destruct (String.eqb_spec name n) as [->|Hne]; try done.
    - by rewrite lookup_insert_eq.
    - by rewrite lookup_insert_ne. }
  assert (with_provider ProviderGitHub gh ∅ !! ProviderMicrosoft = None) as Hm.
  { unfold with_provider. destruct gh; [by rewrite lookup_insert_ne|done]. }
  rewrite Hwith by done. destruct (name =s _); [done|]. by rewrite Hwith.
Qed.

Lemma configure_run indexHTML w :
  db_ok (w_db w) ->
  match configure mail_ParseAddress github_client microsoft_client env indexHTML w with
  | (Running cfg, w') => booted (w_db w) (w_db w') /\ well_configured cfg (w_db w')
  | (Exited _, w') => (w_db w' = w_db w \/ booted (w_db w) (w_db w')) /\
      ~ (no_faults w /\ (forall i, is_Some (w_rand w i)) /\ startable)
  | (Panicked, _) => False
  end.
Proof.
  intros Hok. unfold configure. rewrite bind_boot_run, or_exit_run. cbn [fst snd].
  pose proof (LoadComponentSets_run w) as Hload.
  destruct (LoadComponentSets w) as [[s|e] w1]; cbn [fst snd].
  2:{ destruct Hload as [Hdb Hf]. split; [by left|]. by intros (? & _). }
  destruct Hload as (-> & Hvalid & Hpublic).
  rewrite bind_boot_run, or_exit_run. cbn [fst snd].
  set (email := Getenv env "PACKYARD_BOOTSTRAP_OPERATOR_EMAIL").
  pose proof (Bootstrap_run mail_ParseAddress email (tick_fault w)) as Hboot.
  destruct (BootstrapOperatorFromEnv _ email _) as [[o|e] w2]; cbn [fst snd].
  2:{ destruct Hboot as [Hdb Hf]. split; [by left|]. intros (Hn & Hr & Hs). apply Hf.
      split; [by apply no_faults_tick|]. split; [exact Hr|]. apply Hs. }
  assert (booted (w_db w) (w_db w2)) as Hbooted.
  { destruct Hboot as [Hsame Hfirst]. unfold booted. cbn [w_db tick_fault] in *. fold email.
    destruct (decide (email = "")) as [He|He]; [left; auto|].
    destruct (decide (operators (w_db w) = ∅)) as [Hemp|Hemp]; [right|left]; auto. }
  clear Hboot. rewrite bind_boot_run. cbn [ret fst snd].
  pose proof (github_spec env github_client) as Hgh.
  destruct (buildGitHubProvider _ _) as [gh| |]; [|split; [by right|]|done].
  2:{ intros (_ & _ & Hs). destruct Hgh as [Ha Hl]. apply st_github in Hs; congruence. }
  rewrite bind_boot_run. cbn [ret fst snd].
  pose proof (microsoft_spec env microsoft_client) as Hms.
  destruct (buildMicrosoftProvider _ _) as [ms| |]; [|split; [by right|]|done].
  2:{ intros (_ & _ & Hs). destruct Hms as [Ha Hl]. apply st_microsoft in Hs; congruence. }
  rewrite bind_boot_run, or_exit_run. cbn [ret fst snd].
  destruct (envDuration _ _ _ _) as [ttl|e] eqn:Ettl; [|split; [by right|]].
  2:{ intros (_ & _ & Hs). apply st_ttl in Hs. by rewrite Ettl in Hs. }
  rewrite bind_boot_run. cbn [ret fst snd].
  pose proof (admin_origin_spec env) as Ho.
  destruct (admin_origin _) as [origin| |]; [|split; [by right|]|done].
  2:{ intros (_ & _ & Hs). apply st_host in Hs as [Hs1 Hs2]. destruct Ho; congruence. }
  split; [exact Hbooted|].
  assert (components (w_db w2) = components (w_db w)) as Hcomp.
  { by destruct Hbooted as [[-> _]|(id & t & ->)]. }
  split; cbn [cacheTTL rpmDataRoot keysHandler providers adminOrigin].
  - eapply envDuration_in_range; [|exact Ettl]. by vm_compute.
  - unfold rpm_root. by destruct (String.eqb_spec (Getenv env "RPM_DATA_ROOT") "").
  - exact Ho.
  - intros n. rewrite Hcomp. by apply load_visibility.
  - intros n. rewrite Hcomp. apply Hvalid.
  - rewrite with_providers_lookup. exact Hgh.
  - rewrite with_providers_lookup. exact Hms.
  - intros name H1 H2. rewrite with_providers_lookup. by rewrite !(proj2 (String.eqb_neq _ _)).
Qed.

Lemma configure_sound indexHTML :
  moves sound (configure mail_ParseAddress github_client microsoft_client env indexHTML).
Proof.
  unfold configure, bind_boot, or_exit.
  repeat first
    [ apply moves_ret | apply (LoadComponentSets_moves (R := sound)) | apply Bootstrap_sound
    | match goal with |- moves _ (match ?x with _ => _ end) => destruct x end
    | apply moves_bind; [|intros ?] ].
Qed.

Lemma seeded_history t db : history db (seeded t db).
Proof.
  unfold seeded. destruct (accounts db !! legacyAccountID); [reflexivity|]. split; cbn.
  - intros id r Hr. exists r. by split.
  - intros id [r Hr]. destruct (decide (id = legacyAccountID)) as [->|Hne];
      [rewrite lookup_insert_eq|rewrite lookup_insert_ne by done]; by eexists.
  - done.
  - exists []. by rewrite app_nil_r.
Qed.

Lemma seeded_operators t db : operators (seeded t db) = operators db.
Proof. unfold seeded. by destruct (accounts db !! legacyAccountID). Qed.

Lemma first_admin_has email db db' : first_admin email db db' -> has_admin db'.
Proof.
  intros (id & t & ->). eexists id, _. cbn. split; [apply lookup_insert_eq|done].
Qed.

(** Starting never loses data, whether it succeeds or not. *)
Lemma main_run files t faults indexHTML w :
  let d := files (db_path env) in
  disk_ok d ->
  match main mail_ParseAddress github_client microsoft_client env files t faults indexHTML w with
  | (Running cfg, w') => well_configured cfg (w_db w') /\
      exists t', booted (seeded t' (database_of d)) (w_db w') /\
        db_ok (seeded t' (database_of d)) /\ sound (seeded t' (database_of d)) (w_db w')
  | (Exited _, _) => ~ ((forall i, faults i = None) /\ no_faults w /\ (forall i, is_Some (w_rand w i)) /\ startable)
  | (Panicked, _) => False
  end.
Proof.
  intros d Hd. unfold main. fold d. pose proof (open_after_attempts [] t faults d Hd) as Hopen.
  cbn [attempts] in Hopen. destruct (open_disk t faults d) as [[[]|e] c].
  2:{ intros (Hf & _). destruct Hopen as [Hopen _]. by specialize (Hopen Hf). }
  destruct Hopen as [_ Hopen]. destruct (Hopen eq_refl) as (_ & _ & Hok & t' & Hdb).
  pose proof (configure_run indexHTML (fresh_world (database_of (disk c)) w) Hok) as Hc.
  pose proof (configure_sound indexHTML (fresh_world (database_of (disk c)) w)) as Hs.
  destruct (configure _ _ _ _ _ _) as [[cfg|e|] w']; cbn [fresh_world w_db snd] in Hc, Hs; [|by intros (_ & Hx); apply Hc|done].
  destruct Hc as [Hb Hw]. split; [done|]. exists t'. by rewrite <-Hdb.
Qed.
End Configure.

(** ** From the environment to the running service *)
Section Service.
Context `{SqlDriver} `{UnicodeTables} `{Router}.
Context (mail_ParseAddress : string -> bool).
Context (github_client : GitHub.Config -> OAuthProvider).
Context (microsoft_client : Microsoft.Config -> OAuthProvider).
Context (MkdirAll : string -> option string).
Context (file_server : string -> Response).

(** C18. The service starts when it can: with a driver that fails nothing, a
    source of random bytes and an environment in order, [main] reaches the
    listener.  And only when its configuration is sound: it never panics, and
    a service that listens has a cache lifetime between zero and an hour, the
    admin origin of the environment, a visibility map equal to the
    components table, and exactly those identity providers whose variables
    are all set. *)
Theorem start_sound files t faults env indexHTML w :
  disk_ok (files (db_path env)) ->
  match main mail_ParseAddress github_client microsoft_client env files t faults indexHTML w with
  | (Running cfg, w') => well_configured github_client microsoft_client env cfg (w_db w')
  | (Exited _, _) => ~ ((forall i, faults i = None) /\ no_faults w /\ (forall i, is_Some (w_rand w i)) /\
      startable mail_ParseAddress env)
  | (Panicked, _) => False
  end.
Proof.
  intros Hd. pose proof (main_run mail_ParseAddress github_client microsoft_client env
    files t faults indexHTML w Hd) as Hm.
  destruct (main _ _ _ _ _ _ _ _ _) as [[cfg|e|] w']; [by destruct Hm|done|done].
Qed.

(** C17. From the file to any moment of service: whatever database file a
    version of the service left, once [main] listens on it and whatever
    requests and reaper passes follow, the constraints hold, keys and audit rows of the file
    are kept, and there is an active admin, if the file had one or the
    bootstrap variable named the first operator. *)
Theorem service_from_start files t faults env indexHTML w cfg w1 es :
  disk_ok (files (db_path env)) ->
  main mail_ParseAddress github_client microsoft_client env files t faults indexHTML w
    = (Running cfg, w1) ->
  let db := database_of (files (db_path env)) in
  let w' := (run_service cfg MkdirAll file_server es w1).2 in
  db_ok (w_db w') /\ history db (w_db w') /\
  (has_admin db \/ (operators db = ∅ /\ Getenv env "PACKYARD_BOOTSTRAP_OPERATOR_EMAIL" <> "") ->
   has_admin (w_db w')).
Proof.
  intros Hd Hmain db w'.
  pose proof (main_run mail_ParseAddress github_client microsoft_client env
    files t faults indexHTML w Hd) as Hm. rewrite Hmain in Hm.
  destruct Hm as (_ & t' & Hb & Hok & Hs1 & Hh1). fold db in Hb, Hok, Hs1, Hh1.
  destruct (run_service_safe (R := sound) (fun c _ => run_call_sound _ c) cfg MkdirAll
    file_server es w1) as [Hs2 Hh2].
  split; [auto|]. split; [etrans; [apply (seeded_history t')|]; by etrans|].
  intros Hadm. apply (run_service_safe (R := keeps has_admin) (api_call_admin _) cfg MkdirAll
    file_server es w1).
  destruct Hb as [[-> Hb]|Hb]; [|by eapply first_admin_has].
  rewrite seeded_operators in Hb. destruct Hadm as [Hadm|[Hemp He]]; [|by destruct Hb].
  by eapply has_admin_same, Hadm; rewrite seeded_operators.
Qed.
End Service.

(** ** A first start *)
Definition demo_env : Env := env_of
  [("PACKYARD_BOOTSTRAP_OPERATOR_EMAIL", "Admin@Example.org");
   ("PACKYARD_ADMIN_HOST", "https://admin.example.org");
   ("PACKYARD_GITHUB_CLIENT_ID", "id"); ("PACKYARD_GITHUB_CLIENT_SECRET", "secret");
   ("PACKYARD_GITHUB_REDIRECT_URI", "https://admin.example.org/cb"); ("PACKYARD_GITHUB_ORG", "no42-org");
   ("PACKYARD_PUBLIC_COMPONENT_CACHE_TTL", "1m30s")].

Definition no_provider : OAuthProvider :=
  {| AuthorizeURL := fun _ _ => ""; Exchange := fun _ _ _ => Err (ErrText "offline") |}.

Abbreviation demo_main :=
  (@main sqlite_driver ascii_tables (fun _ => true) (fun _ => no_provider)
    (fun _ => no_provider) demo_env (fun _ => old_disk) 200 no_fault None (demo_world demo_db)).

Definition is_running {A} (b : boot A) : bool := match b with Running _ => true | _ => false end.

Example demo_main_runs :
  is_running demo_main.1 = true /\
  o_email <$> operators (w_db demo_main.2) !! hex_encode (map Z.of_nat (seq 0 16)) = Some "admin@example.org".
Proof. vm_compute. split; reflexivity. Qed.

Lemma start_sound_witness :
  match demo_main with
  | (Running cfg, w') => @well_configured ascii_tables (fun _ => no_provider)
      (fun _ => no_provider) demo_env cfg (w_db w')
  | _ => False
  end.
Proof.
  pose proof (@start_sound sqlite_driver ascii_tables (fun _ => true) (fun _ => no_provider)
    (fun _ => no_provider) (fun _ => old_disk) 200 no_fault demo_env None (demo_world demo_db)
    old_disk_ok) as Hs.
  pose proof demo_main_runs as [Hr _].
  destruct demo_main as [[cfg|e|] w'] ; [exact Hs|done..].
Defined.

Lemma service_from_start_witness :
  match demo_main with
  | (Running cfg, w1) =>
      has_admin (w_db (@run_service sqlite_driver ascii_tables first_match_router cfg (fun _ => None)
        (fun _ => no_content) [Arrives no_bodies demo_revoke] w1).2)
  | _ => False
  end.
Proof.
  destruct demo_main as [[cfg|e|] w1] eqn:E;
    [|apply (f_equal (fun x => is_running x.1)) in E; vm_compute in E; discriminate E..].
  apply (@service_from_start sqlite_driver ascii_tables first_match_router (fun _ => true)
    (fun _ => no_provider) (fun _ => no_provider) (fun _ => None) (fun _ => no_content)
    (fun _ => old_disk) 200 no_fault demo_env None (demo_world demo_db) cfg w1 [Arrives no_bodies demo_revoke]
    old_disk_ok).
  - exact E.
  - right. split; [reflexivity|discriminate].
Defined.

(** net/mail accepts an address with a display name, and the row then holds
    the whole text: no identity provider ever returns it, and the bootstrap is
    spent. *)
Example display_name_stored :
  let env := env_of [("PACKYARD_BOOTSTRAP_OPERATOR_EMAIL", "Admin <admin@example.org>");
                     ("PACKYARD_ADMIN_HOST", "https://admin.example.org")] in
  let '(r, w) := @main sqlite_driver ascii_tables (fun _ => true) (fun _ => no_provider)
    (fun _ => no_provider) env (fun _ => old_disk) 200 no_fault None (demo_world demo_db) in
  is_running r = true /\
  map (fun kr => o_email kr.2) (map_to_list (operators (w_db w))) = ["admin <admin@example.org>"].
Proof. vm_compute. split; reflexivity. Qed.
