(* ===== verification/HandlerSpec.v ===== *)
(** * What the admin handlers promise: no change without an audit row *)
From Stdlib Require Import ZArith Lia Ascii.
From stdpp Require Import base gmap strings list relations.
From S2P Require Import Prelude GoStrings Errors State Tables Effects AccountStore.
From S2P Require Import ComponentStore SessionStore OperatorStore AuditStore StoreInvariant.
From S2P Require Import StoreMethods StoreSpec OperatorSpec ComponentCache Http RequestMeta.
From S2P Require Import AdminGuards GuardsSpec Pagination KeysHandler AccountsHandler.
From S2P Require Import OperatorsHandler ComponentsHandler AuthHandler AuthSpec Server ServerSpec.
From S2P Require Import Fixtures.
Open Scope packyard_scope.
Open Scope eff_scope.

(** ** Audit rows of an operator *)
(** Rows were added, one of them in the operator's name. *)
Definition recorded (op : string) (db db' : Database) : Prop :=
  exists l row, audit_log db' = audit_log db ++ l /\ row ∈ l /\ l_operator_id row = Some op.

Definition grows (db db' : Database) : Prop := exists l, audit_log db' = audit_log db ++ l.

#[export] Instance grows_preorder : PreOrder grows.
Proof.
  split; [intros db; exists []; by rewrite app_nil_r|].
  intros a b c [l1 H1] [l2 H2]. exists (l1 ++ l2). by rewrite H2, H1, app_assoc.
Qed.

Lemma recorded_grows op a b c : recorded op a b -> grows b c -> recorded op a c.
Proof.
  intros (l & row & Hl & Hin & Ho) [l' Hl']. exists (l ++ l'), row.
  rewrite Hl', Hl, app_assoc. split; [done|]. split; [set_solver|done].
Qed.

Lemma grows_recorded op a b c : grows a b -> recorded op b c -> recorded op a c.
Proof.
  intros [l' Hl'] (l & row & Hl & Hin & Ho). exists (l' ++ l), row.
  rewrite Hl, Hl', app_assoc. split; [done|]. split; [set_solver|done].
Qed.

(** With a driver that fails nothing, the computation changes nothing or
    records the operator; [records]: it does record the operator. *)
Definition audited (op : string) {A} (m : Eff A) : Prop := forall w, no_faults w ->
  w_db (m w).2 = w_db w \/ recorded op (w_db w) (w_db (m w).2).
Definition records (op : string) {A} (m : Eff A) : Prop := forall w, no_faults w ->
  recorded op (w_db w) (w_db (m w).2).

(** A failing call has changed nothing. *)
Definition atomic {A} (m : Eff (res A)) : Prop := forall w,
  match (m w).1 with Ok _ => True | Err _ => w_db (m w).2 = w_db w end.

Section Audited.
Context (op : string).

Lemma audited_pure {A} (m : Eff A) : pure_db m -> audited op m.
Proof. intros Hm w _. by left. Qed.

(** After a call that reads. *)
Lemma audited_read {A B} (m : Eff A) (k : A -> Eff B) :
  pure_db m -> live m -> (forall a, audited op (k a)) -> audited op (bind m k).
Proof.
  intros Hm Hl Hk w Hw. rewrite bind_run. rewrite (Hm w). apply Hk. by apply Hl.
Qed.

(** After a call that writes, the row follows. *)
Lemma audited_write {A B} (m : Eff (res A)) (k : res A -> Eff B) :
  moves grows m -> live m -> atomic m ->
  (forall a, records op (k (Ok a))) -> (forall e, audited op (k (Err e))) -> audited op (bind m k).
Proof.
  intros Hg Hl Hat Hok Herr w Hw. rewrite bind_run. specialize (Hg w). specialize (Hat w).
  specialize (Hl w Hw). destruct (m w) as [[a|e] w']; cbn [fst snd] in *.
  - right. by eapply grows_recorded; [|apply Hok].
  - rewrite <-Hat. by apply Herr.
Qed.

Lemma records_then {A B} (m : Eff A) (k : A -> Eff B) :
  records op m -> (forall a, moves grows (k a)) -> records op (bind m k).
Proof.
  intros Hm Hk w Hw. rewrite bind_run. eapply recorded_grows; [by apply Hm|apply Hk].
Qed.

Lemma audited_records {A} (m : Eff A) : records op m -> audited op m.
Proof. intros Hm w Hw. right. by apply Hm. Qed.
End Audited.

Section Rows.
Context `{SqlDriver}.

Lemma Write_grows e : moves grows (Write e).
Proof. unfold Write. solve_moves. apply moves_sql. intros db u db' [= _ <-]. by eexists. Qed.

Lemma WriteFromRequest_grows r e : moves grows (WriteFromRequest r e).
Proof. apply Write_grows. Qed.

(** The row of an entry that names the operator, or leaves the operator to
    the request context. *)
Lemma WriteFromRequest_records op r id act tt ti d :
  r_operator r = Some op -> ao_ID op <> "" -> TrimSpace (ao_ID op) = ao_ID op ->
  id = "" \/ id = ao_ID op -> TrimSpace act <> "" ->
  records (ao_ID op) (WriteFromRequest r (new_entry id act tt ti d)).
Proof.
  intros Hr Hne Htrim Hid Hact w Hw. unfold WriteFromRequest, OperatorFromContext. cbv zeta.
  rewrite Hr. cbn [new_entry E_OperatorID E_Action].
  set (who := if TrimSpace id =s "" then _ else _).
  assert (who = ao_ID op) as ->.
  { subst who. apply String.eqb_neq in Hne. destruct Hid as [->| ->].
    - change (TrimSpace "") with "". cbn. by rewrite Hne.
    - rewrite Htrim. by rewrite Hne. }
  unfold Write. cbn [E_Action E_OperatorID]. apply String.eqb_neq in Hact. rewrite Hact.
  run_step. cbn [now fst snd]. do 2 run_step. cbn [w_fault tick_clock]. rewrite (Hw 0). cbn [fst snd sql_insert_audit ret].
  eexists [_], _. split; [reflexivity|]. split; [by apply list_elem_of_singleton|].
  cbn [l_operator_id]. unfold nullif. apply String.eqb_neq in Hne. by rewrite Hne.
Qed.
End Rows.

#[export] Hint Resolve Write_grows WriteFromRequest_grows : packyard.

(** ** The calls *)
Section Calls.
Context `{SqlDriver} `{UnicodeTables}.

Lemma GetAccount_live id : live (GetAccount id).
Proof. unfold GetAccount, no_rows. solve_live. Qed.
Lemma GetComponent_live' n : live (GetComponent n).
Proof. unfold GetComponent, no_rows. solve_live. Qed.
Lemma CountActiveAccountKeys_live id : live (CountActiveAccountKeys id).
Proof. unfold CountActiveAccountKeys. solve_live. Qed.
Lemma GetByID_live id : live (GetByID id).
Proof. unfold GetByID, no_rows. solve_live. Qed.

(** The writing calls: live, atomic, and no audit row removed. *)
Definition writes {A} (m : Eff (res A)) : Prop := moves grows m /\ live m /\ atomic m.

Lemma sound_grows {A} (m : Eff A) : moves sound m -> moves grows m.
Proof. intros Hm w. apply (h_audit _ _ (proj2 (Hm w))). Qed.

Lemma CreateAccount_writes i b : writes (CreateAccount i b).
Proof.
  split; [apply sound_grows; auto with packyard|].
  unfold CreateAccount, generateAccountID. split; [solve_live|]. intros w.
  rewrite bindR_run, wrapE_run. unfold rand_hex. cbn [fst snd].
  destruct (w_rand w 0); cbn [fst snd]; [|done]. generalize (hex_encode (map (fun i => z i mod 256)%Z (seq 0 16))).
  intros id. do 3 run_step. cbn [now fst snd]. next_fault; [done|].
  by destruct (sql_insert_account _ _ _).
Qed.

Lemma CreateKey_writes a c l e : writes (CreateKeyForAccount a c l e).
Proof.
  split; [apply sound_grows; apply (CreateKey_sound a c l e)|].
  unfold CreateKeyForAccount, generateKeyValue. split; [solve_live|]. intros w.
  rewrite bindR_run, wrapE_run. unfold rand_hex. cbn [fst snd].
  destruct (w_rand w 0); cbn [fst snd]; [|done]. generalize (hex_encode (map (fun i => z i mod 256)%Z (seq 0 32))).
  intros id. do 3 run_step. cbn [now fst snd]. next_fault; [done|].
  by destruct (sql_insert_key _ _ _).
Qed.

Lemma UpdateAccount_writes id u : writes (UpdateAccount id u).
Proof.
  split; [apply sound_grows; auto with packyard|].
  unfold UpdateAccount. cbv zeta. split; [solve_live|]. intros w.
  destruct (match u_Status u with Some s => s =s AccountStatusDeleted | None => false end);
    [done|]. destruct ((id =s legacyAccountID) && _); [done|].
  do 2 run_step. next_fault; [done|].
  destruct (sql_update_account _ _ _ _ _) as [[r|] db'|v] eqn:Es; [done| |done].
  cbn. revert Es. unfold sql_update_account. destruct (accounts _ !! id); [|by intros [= <-]].
  destruct (negb _); [done|]. by destruct (held_by_other _ _ _ _).
Qed.

Lemma DeleteAccountWithCascade_writes id : writes (DeleteAccountWithCascade id).
Proof.
  split; [apply sound_grows; auto with packyard|].
  split; [unfold DeleteAccountWithCascade; solve_live|]. intros w.
  pose proof (DeleteAccountWithCascade_run id w) as Hr.
  destruct (DeleteAccountWithCascade id w) as [[n|e] w']; [done|]. apply Hr.
Qed.

Lemma RevokeKey_writes id : writes (RevokeKey id).
Proof.
  split; [apply sound_grows; auto with packyard|].
  split; [unfold RevokeKey; solve_live|]. intros w.
  pose proof (RevokeKey_run id w) as Hr. destruct (RevokeKey id w) as [[n|e] w']; [done|]. apply Hr.
Qed.

Lemma AllowlistOperator_writes e r b : writes (AllowlistOperator e r b).
Proof.
  split; [apply sound_grows; auto with packyard|].
  unfold AllowlistOperator, generateOperatorID. split; [solve_live|]. intros w.
  rewrite bindR_run, wrapE_run. unfold rand_hex. cbn [fst snd].
  destruct (w_rand w 0); cbn [fst snd]; [|done]. generalize (hex_encode (map (fun i => z i mod 256)%Z (seq 0 16))).
  intros id. do 3 run_step. cbn [now fst snd]. next_fault; [done|].
  by destruct (sql_insert_operator _ _ _).
Qed.
End Calls.

#[export] Hint Resolve CreateAccount_writes CreateKey_writes UpdateAccount_writes
  DeleteAccountWithCascade_writes RevokeKey_writes AllowlistOperator_writes : packyard.

(** ** The handlers *)
Section Handlers.
Context `{SqlDriver} `{UnicodeTables} (op : AuthOperator).
Context (Hne : ao_ID op <> "") (Htrim : TrimSpace (ao_ID op) = ao_ID op).

Lemma audited_ret {A} (a : A) : audited (ao_ID op) (ret a).
Proof. by left. Qed.

Lemma audited_call {A B} (m : Eff (res A)) (k : res A -> Eff B) :
  writes m -> (forall a, records (ao_ID op) (k (Ok a))) ->
  (forall e, audited (ao_ID op) (k (Err e))) -> audited (ao_ID op) (bind m k).
Proof. intros (? & ? & ?). by apply audited_write. Qed.

(** An entry in the operator's name, and then the answer. *)
Lemma records_entry {B} r id act tt ti d (k : unit -> Eff B) :
  r_operator r = Some op -> id = "" \/ id = ao_ID op -> TrimSpace act <> "" ->
  (forall u, moves grows (k u)) ->
  records (ao_ID op) (bind (WriteFromRequest r (new_entry id act tt ti d)) k).
Proof. intros. apply records_then; [by apply WriteFromRequest_records|done]. Qed.

Ltac solve_read :=
  apply audited_read;
  [ solve_moves
  | first [apply GetAccount_live | apply GetComponent_live' | apply GetByID_live
          | apply CountActiveAccountKeys_live]
  | intros ? ].
Ltac solve_entry :=
  intros ?; apply records_entry; [done|auto|done|intros ?; apply moves_ret].
Ltac solve_audited :=
  repeat match goal with
  | |- audited _ (ret _) => apply audited_ret
  | |- audited _ (match ?x with _ => _ end) => destruct x
  | |- audited _ (bind _ _) =>
      first [ solve_read | apply audited_call; [solve [auto with packyard]|solve_entry|intros ?] ]
  end.

(** A handler that changes nothing unless it records the session's operator. *)
Definition audited_handler (h : Handler) : Prop :=
  forall r, r_operator r = Some op -> audited (ao_ID op) (h r).

Lemma requireAdmin_op r : r_operator r = Some op ->
  requireAdmin r = inr op \/ exists resp, requireAdmin r = inl resp.
Proof.
  intros Hr. unfold requireAdmin, OperatorFromContext. rewrite Hr.
  destruct (IsAdmin op); cbn; eauto.
Qed.

Ltac as_admin Hr :=
  destruct (requireAdmin_op _ Hr) as [-> |[resp ->]]; [|apply audited_ret].

Lemma Keys_Create_audited h b : audited_handler (Keys_Create h b).
Proof. intros r Hr. unfold Keys_Create, CreateKey, key_issue_entry. cbv zeta. solve_audited. Qed.

Lemma Keys_Delete_audited : audited_handler Keys_Delete.
Proof. intros r Hr. unfold Keys_Delete. cbv zeta. solve_audited. Qed.

Lemma Accounts_Create_audited b : audited_handler (Accounts_Create b).
Proof. intros r Hr. unfold Accounts_Create. as_admin Hr. solve_audited. Qed.

Lemma Accounts_Update_audited b : audited_handler (Accounts_Update b).
Proof.
  intros r Hr. unfold Accounts_Update, with_account. as_admin Hr. cbv zeta. solve_read.
  destruct a as [existing|e]; [|solve_audited]. destruct b as [req|]; [|solve_audited].
  destruct (status_change (Acc_Status existing) (ua_Status req)) as [resp|[status action]] eqn:Es;
    [solve_audited|].
  assert (TrimSpace action <> "") as Hact.
  { unfold status_change in Es. destruct (ua_Status req); [|by injection Es as <- <-].
    destruct (_ || _); [done|]. destruct (_ && _); [done|]. injection Es as <- <-.
    destruct (_ && _); [done|]. by destruct (_ && _). }
  solve_audited.
Qed.

Lemma Accounts_Delete_audited : audited_handler Accounts_Delete.
Proof. intros r Hr. unfold Accounts_Delete, with_account. as_admin Hr. cbv zeta. solve_audited. Qed.

Lemma Accounts_IssueKey_audited v b : audited_handler (Accounts_IssueKey v b).
Proof.
  intros r Hr. unfold Accounts_IssueKey, with_account, key_issue_entry. as_admin Hr. cbv zeta.
  solve_audited.
Qed.

Lemma Operators_Create_audited b : audited_handler (Operators_Create b).
Proof. intros r Hr. unfold Operators_Create. as_admin Hr. cbv zeta. solve_audited. Qed.
(** ** PATCH /api/v1/operators/{id} *)
Lemma transition_records r id act from to :
  r_operator r = Some op -> TrimSpace act <> "" ->
  records (ao_ID op) (WriteFromRequest r (transition_entry (ao_ID op) act id from to)).
Proof. intros Hr Hact. apply WriteFromRequest_records; auto. Qed.

Lemma DeleteOperatorSessions_grows id : moves grows (DeleteOperatorSessions id).
Proof. apply sound_grows. auto with packyard. Qed.
Hint Resolve DeleteOperatorSessions_grows : packyard.

Lemma after_update_grows r a id role status b c : moves grows (after_update r a id role status b c).
Proof. unfold after_update. cbv zeta. solve_moves. Qed.

(** A change that shows leaves a row. *)
Lemma after_update_records r id role status before after :
  r_operator r = Some op ->
  (is_some role = true /\ Op_Role before <> Op_Role after) \/
  (is_some status = true /\ Op_Status before <> Op_Status after) ->
  records (ao_ID op) (after_update r (ao_ID op) id role status before after).
Proof.
  intros Hr Hch. unfold after_update. cbv zeta.
  destruct (is_some role && (Op_Role before <>s Op_Role after)) eqn:Erole.
  - apply records_then; [by apply transition_records|]. intros ?. solve_moves.
  - intros w Hw. rewrite bind_run. cbn [ret fst snd].
    destruct Hch as [[Hs Hd]|[Hs Hd]]; apply String.eqb_neq in Hd.
    + rewrite Hs, Hd in Erole. done.
    + rewrite Hs, Hd. cbn [andb negb]. revert w Hw. apply records_then.
      * apply transition_records; [done|]. by destruct (_ =s OperatorStatusActive).
      * intros ?. solve_moves.
Qed.

Lemma eqb_both s a b : a <> b -> (s =s a) && (s =s b) = false.
Proof.
  intros Hab. destruct (s =s a) eqn:E; [|done]. apply String.eqb_eq in E as ->.
  by apply String.eqb_neq.
Qed.

Lemma set_role_status_same role status row :
  ~ ((is_some role = true /\ o_role row <> o_role (set_role_status role status row)) \/
     (is_some status = true /\ o_status row <> o_status (set_role_status role status row))) ->
  set_role_status role status row = row.
Proof.
  intros Hsame.
  assert (default (o_role row) role = o_role row) as Hr.
  { destruct role; [|done]. cbn in *. apply dec_stable. intros ?. apply Hsame. auto. }
  assert (default (o_status row) status = o_status row) as Hs.
  { destruct status; [|done]. cbn in *. apply dec_stable. intros ?. apply Hsame. auto. }
  unfold set_role_status. rewrite Hr, Hs. by destruct row.
Qed.

Lemma Operators_Update_audited b : audited_handler (Operators_Update b).
Proof.
  intros r Hr. unfold Operators_Update. as_admin Hr. cbv zeta. destruct b as [req|]; [|solve_audited].
  do 3 (match goal with |- audited _ (if ?c then _ else _) => destruct c end; [solve_audited|]).
  intros w Hw. rewrite bind_run.
  pose proof (UpdateOperatorAtomically_run (r_param r "id") (uo_Role req) (uo_Status req) w) as Hrun.
  assert (live (UpdateOperatorAtomically (r_param r "id") (uo_Role req) (uo_Status req))) as Hl.
  { unfold UpdateOperatorAtomically. solve_live. }
  specialize (Hl w Hw).
  destruct (UpdateOperatorAtomically _ _ _ w) as [[[before after]|e] w']; cbn [fst snd] in *.
  2:{ destruct Hrun as [Hdb _]. rewrite <-Hdb. left.
      destruct (errors_is e ErrOperatorNotFound); [done|]. by destruct (errors_is e ErrOperatorSelfLockout). }
  destruct Hrun as (row & Hrow & -> & -> & _ & Hdb & _).
  rewrite bind_run. cbn [ret fst snd].
  destruct (decide ((is_some (uo_Role req) = true /\
                     o_role row <> o_role (set_role_status (uo_Role req) (uo_Status req) row)) \/
                    (is_some (uo_Status req) = true /\
                     o_status row <> o_status (set_role_status (uo_Role req) (uo_Status req) row))))
    as [Hch|Hsame].
  - right. apply (grows_recorded _ _ (w_db w')); [rewrite Hdb; by exists []; rewrite app_nil_r|].
    by apply after_update_records.
  - assert (set_role_status (uo_Role req) (uo_Status req) row = row) as Hid.
    { by apply set_role_status_same. }
    left. rewrite Hid in *. rewrite insert_id in Hdb by done.
    assert (w_db w' = w_db w) as <- by (rewrite Hdb; by destruct (w_db w)).
    unfold after_update, scanOperator. cbn [Op_Role Op_Status]. rewrite !String.eqb_refl.
    rewrite !andb_false_r. rewrite !bind_run. cbn [ret fst snd].
    by rewrite !eqb_both by done.
Qed.
(** ** Logout *)
Lemma DeleteSession_writes id : writes (DeleteSession id).
Proof.
  split; [apply sound_grows; auto with packyard|]. split; [unfold DeleteSession; solve_live|].
  intros w. unfold DeleteSession. do 2 run_step. by next_fault.
Qed.

Lemma Logout_audited : audited_handler Logout.
Proof.
  intros r Hr w Hw. right. revert w Hw. unfold Logout, OperatorFromContext. rewrite Hr.
  intros w Hw. rewrite bind_run.
  match goal with |- context [(match ?c with Some _ => _ | None => _ end) w] =>
    set (m := match c with Some id => x <- DeleteSession id ;; ret (Some x) | None => ret None end) end.
  assert (moves grows m /\ live m) as [Hg Hl].
  { subst m. destruct (session_cookie r) as [id|]; [|by split; [solve_moves|solve_live]].
    destruct (DeleteSession_writes id) as (? & ? & _).
    split; [apply moves_bind; [done|intros ?; apply moves_ret]
           |apply live_bind; [done|intros ?; apply live_ret]]. }
  apply (grows_recorded _ _ (w_db (m w).2)); [apply Hg|].
  specialize (Hl w Hw). revert Hl. generalize (m w). intros [d w'] Hl. cbn [fst snd] in *.
  revert w' Hl. apply records_entry; [done|by right|done|intros ?; apply moves_ret].
Qed.

(** ** Every route *)
Context `{Router} (cfg : Wiring) (MkdirAll : string -> option string).

(** C24. No silent changes.  On every route of the admin API except those of
    the components, with a driver that fails nothing, the handler leaves the
    whole database as it was or appends to the audit log a row that names the
    operator of the session. *)
Theorem changes_audited b p h r w :
  (p, h) ∈ api_routes cfg MkdirAll b ->
  HasPrefix p.2 "/api/v1/components" = false ->
  r_operator r = Some op -> no_faults w ->
  w_db (h r w).2 = w_db w \/ recorded (ao_ID op) (w_db w) (w_db (h r w).2).
Proof.
  intros Hin Hp Hr Hw. revert r Hr w Hw. change (audited_handler h). revert Hin Hp.
  unfold api_routes.
  repeat (rewrite elem_of_cons; intros [[= -> ->]|Hin]; [intros Hp; try discriminate Hp; clear Hp|
    revert Hin]); [..|by intros ?%elem_of_nil].
  all: auto using Keys_Create_audited, Keys_Delete_audited, Accounts_Create_audited,
    Accounts_Update_audited, Accounts_Delete_audited, Accounts_IssueKey_audited,
    Operators_Create_audited, Operators_Update_audited, Logout_audited.
  all: intros r _; apply audited_pure; unfold Whoami, Keys_List, Keys_Get, Accounts_List,
    Accounts_Get, Accounts_ListKeys, with_account, Audit_List, Operators_List; cbv zeta; solve_moves.
Qed.
End Handlers.

(** ** Forced logout *)
(** With a driver that fails nothing, the computation ends in [P]. *)
Definition ends (P : Database -> Prop) {A} (m : Eff A) : Prop :=
  forall w, no_faults w -> P (w_db (m w).2).

Lemma ends_bind {A B} P (m : Eff A) (k : A -> Eff B) :
  live m -> (forall a, ends P (k a)) -> ends P (bind m k).
Proof. intros Hl Hk w Hw. rewrite bind_run. by apply Hk, Hl. Qed.

Lemma ends_then {A B} P (m : Eff A) (k : A -> Eff B) :
  ends P m -> (forall a, moves (keeps P) (k a)) -> ends P (bind m k).
Proof. intros Hm Hk w Hw. rewrite bind_run. by apply Hk, Hm. Qed.

Section Logout.
Context `{SqlDriver} `{UnicodeTables}.

(** No session belongs to the operator. *)
Definition signed_out (id : string) (db : Database) : Prop :=
  forall sid s, sessions db !! sid = Some s -> s_operator_id s <> id.

Lemma DeleteOperatorSessions_signs_out id :
  id <> "" -> ends (signed_out id) (DeleteOperatorSessions id).
Proof.
  intros Hid w Hw. unfold DeleteOperatorSessions. apply String.eqb_neq in Hid. rewrite Hid.
  do 2 run_step. rewrite (Hw 0). cbn. intros sid s Hs.
  by apply map_lookup_filter_Some in Hs as [_ Hs].
Qed.

Lemma WriteFromRequest_live r e : live (WriteFromRequest r e).
Proof. unfold WriteFromRequest, Write. cbv zeta. solve_live. Qed.

(** What a PATCH takes away: the admin role, or the active status. *)
Definition loses_rights (before after : operator_row) : Prop :=
  (o_role before = "admin" /\ o_role after = "readonly") \/
  (o_status before = "active" /\ o_status after = "disabled").

Lemma after_update_signs_out r actor id role status before after :
  id <> "" -> loses_rights before after ->
  ends (signed_out id)
    (after_update r actor id role status (scanOperator id before) (scanOperator id after)).
Proof.
  intros Hid Hl. unfold after_update. cbv zeta. cbn [scanOperator Op_Role Op_Status].
  do 2 (apply ends_bind; [destruct (_ && _); solve [apply WriteFromRequest_live|apply live_ret]|intros _]).
  assert (((o_role before =s OperatorRoleAdmin) && (o_role after =s OperatorRoleReadonly)) ||
    ((o_status before =s OperatorStatusActive) && (o_status after =s OperatorStatusDisabled)) = true) as ->.
  { destruct Hl as [[-> ->]|[-> ->]]; [done|]. apply orb_true_r. }
  apply ends_then; [by apply DeleteOperatorSessions_signs_out|]. intros ?. apply moves_ret.
Qed.

Definition same_operators (db db' : Database) : Prop := operators db' = operators db.
#[local] Instance same_operators_preorder : PreOrder same_operators.
Proof. split; [by intros ?|]. unfold same_operators. intros ? ? ? -> ->. done. Qed.

Lemma after_update_operators r actor id role status b a :
  moves same_operators (after_update r actor id role status b a).
Proof.
  unfold after_update, WriteFromRequest, Write, DeleteOperatorSessions. cbv zeta. solve_moves.
  all: apply moves_sql; by intros db u db' [= _ <-].
Qed.

(** With any driver: the sessions are the same, or the operator has none. *)
Definition settles (id : string) (db db' : Database) : Prop :=
  sessions db' = sessions db \/ signed_out id db'.
#[local] Instance settles_preorder id : PreOrder (settles id).
Proof.
  split; [by left|]. unfold settles, signed_out. intros a b c [Hb|Hb] [->|Hc]; [left|right|right|right]; done.
Qed.

Lemma after_update_settles r actor id role status b a :
  id <> "" -> moves (settles id) (after_update r actor id role status b a).
Proof.
  intros Hid. unfold after_update, WriteFromRequest, Write, DeleteOperatorSessions. cbv zeta.
  apply String.eqb_neq in Hid. rewrite Hid. solve_moves.
  all: apply moves_sql; intros db u db' [= _ <-]; first [by left|right].
  intros sid s. cbn. by intros [_ Hs]%map_lookup_filter_Some.
Qed.

(** A PATCH that answers 200 wrote the operator's row, and went on from there. *)
Lemma Operators_Update_done b r w :
  rs_status (Operators_Update b r w).1 = 200%Z ->
  exists actor role status row w',
    let id := r_param r "id" in
    let row' := set_role_status role status row in
    operators (w_db w) !! id = Some row /\ (no_faults w -> no_faults w') /\
    w_db w' = set_operators (<[id := row']> (operators (w_db w))) (w_db w) /\
    w_db (Operators_Update b r w).2 =
      w_db (after_update r actor id role status (scanOperator id row) (scanOperator id row') w').2.
Proof.
  unfold Operators_Update. cbv zeta. destruct (requireAdmin r) as [resp|actor] eqn:Ea.
  { unfold requireAdmin in Ea. destruct (OperatorFromContext r) as [o|]; [|by injection Ea as <-].
    destruct (negb _); [by injection Ea as <-|done]. }
  destruct b as [req|]; [|done].
  do 3 (match goal with |- context [rs_status ((if ?c then _ else _) w).1] => destruct c end; [done|]).
  rewrite bind_run.
  pose proof (UpdateOperatorAtomically_run (r_param r "id") (uo_Role req) (uo_Status req) w) as Hrun.
  assert (live (UpdateOperatorAtomically (r_param r "id") (uo_Role req) (uo_Status req))) as Hl.
  { unfold UpdateOperatorAtomically. solve_live. }
  specialize (Hl w).
  destruct (UpdateOperatorAtomically _ _ _ w) as [[[ob oa]|e] w']; cbn [fst snd] in *.
  2:{ destruct (errors_is e ErrOperatorNotFound); [done|]. by destruct (errors_is e ErrOperatorSelfLockout). }
  destruct Hrun as (row & Hrow & -> & -> & _ & Hdb & _). intros _.
  exists (ao_ID actor), (uo_Role req), (uo_Status req), row, w'. by rewrite bind_run.
Qed.

(** C25. A demotion or a disabling takes effect at once.  When PATCH
    /operators/{id} answers 200 and the operator's row went from admin to
    readonly or from active to disabled: with a driver that fails nothing, no
    session of that operator is left.  If the driver fails, the answer may
    still be 200 with the sessions as they were (the handler only logs that
    failure); but none of them is let through to write: the next request that
    changes business data is authorised by a session of another operator. *)
Theorem patch_signs_out b r w before after :
  r_param r "id" <> "" ->
  rs_status (Operators_Update b r w).1 = 200%Z ->
  operators (w_db w) !! r_param r "id" = Some before ->
  operators (w_db (Operators_Update b r w).2) !! r_param r "id" = Some after ->
  loses_rights before after ->
  let id := r_param r "id" in
  let db' := w_db (Operators_Update b r w).2 in
  (no_faults w -> signed_out id db') /\
  (signed_out id db' \/ sessions db' = sessions (w_db w)) /\
  (forall (R : Router) cfg MkdirAll file_server b2 r2 w2,
     w_db w2 = db' ->
     ~ unwritten (w_db w2) (w_db (serve cfg MkdirAll file_server b2 r2 w2).2) ->
     exists sid s o, session_cookie r2 = Some sid /\ in_force (w_db w2) (w_clock w2 0) sid s o /\
       s_operator_id s <> id).
Proof.
  intros Hid H200 Hb Ha Hlost id db'.
  destruct (Operators_Update_done _ _ _ H200) as (actor & role & status & row & w' & Hrow & Hl & Hdb & Hdone).
  simplify_eq. assert (after = set_role_status role status before) as ->.
  { revert Ha. rewrite Hdone, (after_update_operators _ _ _ _ _ _ _ w'), Hdb. cbn.
    rewrite lookup_insert_eq. by intros [= <-]. }
  split; [|split].
  - intros Hn. unfold db'. rewrite Hdone. apply after_update_signs_out; auto.
  - unfold db'. rewrite Hdone.
    destruct (after_update_settles r actor id role status (scanOperator id before)
      (scanOperator id (set_role_status role status before)) Hid w') as [Hs|Hs]; [right|by left].
    etransitivity; [exact Hs|]. by rewrite Hdb.
  - intros R cfg MkdirAll file_server b2 r2 w2 Hw2 (sid & s & o & Hc & Hf & _ & Hro)%serve_writes.
    exists sid, s, o. split; [done|]. split; [done|]. intros Hs.
    destruct Hf as (_ & Ho & Hact & _). rewrite Hw2, Hs in Ho. pose proof (eq_trans (eq_sym Ho) Ha) as [= ->].
    destruct Hlost as [[_ Hrole]|[_ Hstat]]; congruence.
Qed.
End Logout.

(** ** Concrete requests *)
Definition demo_op : AuthOperator := mkAuthOperator "op" "admin@example.org" "admin".

Definition demo_id (method path id : string) : Request :=
  let r := demo_request method path [] [] in
  mkRequest (r_method r) (r_path r) (r_header r) (r_values r) (r_cookie r) (fun _ => id)
    (r_remote r) (Some demo_op).

Lemma changes_audited_witness :
  let w := demo_world demo_db in
  let r := demo_id "DELETE" ("/api/v1/keys/" +:+ demo_key) demo_key in
  let out := @Keys_Delete sqlite_driver ascii_tables r w in
  w_db out.2 = w_db w \/ recorded "op" (w_db w) (w_db out.2).
Proof.
  cbv zeta.
  apply (@changes_audited sqlite_driver ascii_tables demo_op ltac:(vm_compute; discriminate)
    ltac:(vm_compute; reflexivity) demo_wiring (fun _ => None) no_bodies
    (Some "DELETE", "/api/v1/keys/{id}")).
  - unfold api_routes. do 5 apply list_elem_of_further. apply list_elem_of_here.
  - vm_compute. reflexivity.
  - reflexivity.
  - intros i. reflexivity.
Defined.

(** Two admins, the second with a session; the first demotes the second. *)
Definition two_admins_db : Database :=
  let op2 := mkOperatorRow "second@example.org" "admin" "active" demo_second (Some "op")
               None None None None in
  mkDatabase demo_accounts {["op" := demo_admin; "op2" := op2]}
    {["sess2" := mkSessionRow "op2" demo_second demo_second (demo_second + 3600) None None]}
    ∅ ∅ [] 0.

Lemma patch_signs_out_witness :
  signed_out "op2" (w_db (@Operators_Update sqlite_driver ascii_tables
    (Some (mkUpdateOperator (Some "readonly") None))
    (demo_id "PATCH" "/api/v1/operators/op2" "op2") (demo_world two_admins_db)).2).
Proof.
  apply (@patch_signs_out sqlite_driver ascii_tables (Some (mkUpdateOperator (Some "readonly") None))
    (demo_id "PATCH" "/api/v1/operators/op2" "op2") (demo_world two_admins_db)
    (mkOperatorRow "second@example.org" "admin" "active" demo_second (Some "op") None None None None)
    (mkOperatorRow "second@example.org" "readonly" "active" demo_second (Some "op") None None None None)).
  - vm_compute. discriminate.
  - vm_compute. reflexivity.
  - vm_compute. reflexivity.
  - vm_compute. reflexivity.
  - left. split; reflexivity.
  - intros i. reflexivity.
Defined.
