(* ===== verification/IssueSpec.v ===== *)
(** * What issuing keys and deleting promise at the API *)
From Stdlib Require Import ZArith Lia Ascii.
From stdpp Require Import base gmap strings list relations.
From S2P Require Import Prelude GoStrings Errors State Tables Effects AccountStore.
From S2P Require Import ComponentStore SessionStore OperatorStore AuditStore StoreInvariant.
From S2P Require Import StoreMethods StoreSpec ComponentCache Http ForwardAuth ForwardAuthSpec.
From S2P Require Import RequestMeta Pagination KeysHandler AccountsHandler ComponentsHandler.
From S2P Require Import HandlerSpec Fixtures.
Open Scope packyard_scope.
Open Scope eff_scope.

(** ** Issuing a key *)
(** The answer carries a new key, and the table has gained exactly its row:
    active, unused, for an existing component, under an active account. *)
Definition issued (acct : string) (req : createKeyRequest) (db db' : Database) (resp : Response) : Prop :=
  exists a id t vis,
    accounts db !! acct = Some a /\ a_status a = "active" /\
    is_Some (components db !! ck_Component req) /\
    rs_body resp =
      BKey (mkKey id (ck_Component req) true (ck_Label req) t (ck_ExpiresAt req) 0 acct) vis /\
    subscription_key db !! id = None /\
    subscription_key db' = <[id := mkKeyRow (ck_Component req) (ck_Label req) 1
      (format_stamp t) (format_stamp <$> ck_ExpiresAt req) 0 acct]> (subscription_key db).

Definition same_keys (db db' : Database) : Prop := subscription_key db' = subscription_key db.
#[export] Instance same_keys_preorder : PreOrder same_keys.
Proof. split; [by intros ?|]. unfold same_keys. intros ? ? ? -> ->. done. Qed.

Section Issue.
Context `{SqlDriver} `{UnicodeTables}.

Lemma WriteFromRequest_keys r e : moves same_keys (WriteFromRequest r e).
Proof.
  unfold WriteFromRequest, Write. cbv zeta. solve_moves. apply moves_sql.
  by intros db u db' [= _ <-].
Qed.

Lemma CreateKeyForAccount_run a c l e w :
  match CreateKeyForAccount a c l e w with
  | (Ok k, w') => exists id t, k = mkKey id c true l t e 0 a /\
      subscription_key (w_db w) !! id = None /\
      w_db w' = set_keys (<[id := mkKeyRow c l 1 (format_stamp t) (formatNullTime e) 0 a]>
        (subscription_key (w_db w))) (w_db w)
  | (Err _, w') => w_db w' = w_db w
  end.
Proof.
  unfold CreateKeyForAccount, generateKeyValue. rewrite bindR_run, wrapE_run. unfold rand_hex.
  cbn [fst snd]. destruct (w_rand w 0) as [f|]; cbn [fst snd]; [|done].
  generalize (hex_encode (map (fun i => f i mod 256)%Z (seq 0 32))); intros id.
  do 3 run_step. cbn [now fst snd]. next_fault; [done|]. unfold sql_insert_key. cbn.
  destruct (bool_decide (is_Some (subscription_key _ !! id))) eqn:Ei; [done|].
  destruct (bool_decide (is_Some (accounts _ !! _))); [|done]. cbn.
  apply bool_decide_eq_false, eq_None_not_Some in Ei. by eexists _, _.
Qed.

(** The common end of the two endpoints, after the account and its status. *)
Lemma issue_tail acct a req (k : res Component -> Eff Response) w :
  accounts (w_db w) !! acct = Some a -> a_status a = "active" ->
  (forall e w', rs_status (k (Err e) w').1 <> 201%Z /\ w_db (k (Err e) w').2 = w_db w') ->
  (forall c w', exists (f : res Key -> Eff Response),
    k (Ok c) w' = (key <- CreateKeyForAccount acct (ck_Component req) (ck_Label req)
                            (ck_ExpiresAt req) ;; f key) w' /\
    (forall e w2, rs_status (f (Err e) w2).1 <> 201%Z /\ w_db (f (Err e) w2).2 = w_db w2) /\
    (forall key w2, same_keys (w_db w2) (w_db (f (Ok key) w2).2) /\
       exists vis, (f (Ok key) w2).1 = reply 201 (BKey key vis))) ->
  let out := (c <- GetComponent (ck_Component req) ;; k c) w in
  if decide (rs_status out.1 = 201%Z) then issued acct req (w_db w) (w_db out.2) out.1
  else same_keys (w_db w) (w_db out.2).
Proof.
  intros Ha Hst Herr Hok. cbv zeta. rewrite bind_run, GetComponent_run. cbn [fst snd].
  destruct (w_fault w 0) as [m|].
  { destruct (Herr (Wrap "get component" (ErrText m)) (tick_fault w)) as [H1 H2].
    rewrite decide_False by done. unfold same_keys. by rewrite H2. }
  destruct (components (w_db w) !! ck_Component req) as [c|] eqn:Ec.
  2:{ destruct (Herr (Wrap "get component" (Sentinel ErrComponentNotFound)) (tick_fault w)) as [H1 H2].
      rewrite decide_False by done. unfold same_keys. by rewrite H2. }
  destruct (Hok (scanComponent (ck_Component req) c) (tick_fault w)) as (f & -> & Hfe & Hf).
  rewrite bind_run.
  pose proof (CreateKeyForAccount_run acct (ck_Component req) (ck_Label req) (ck_ExpiresAt req)
    (tick_fault w)) as Hrun.
  destruct (CreateKeyForAccount _ _ _ _ _) as [[key|e] w2]; cbn [fst snd] in *.
  2:{ destruct (Hfe e w2) as [H1 H2]. rewrite decide_False by done. unfold same_keys. rewrite H2, Hrun. done. }
  destruct Hrun as (id & t & -> & Hnew & Hdb). destruct (Hf (mkKey id (ck_Component req) true
    (ck_Label req) t (ck_ExpiresAt req) 0 acct) w2) as [Hs [vis Hb]].
  unfold same_keys in Hs. rewrite Hdb in Hs.
  rewrite Hb. rewrite decide_True by done. exists a, id, t, vis. by repeat split; eauto.
Qed.

Lemma log_then_reply r e resp w :
  same_keys (w_db w) (w_db ((WriteFromRequest r e ;;; ret (A := Response) resp) w).2) /\
  ((WriteFromRequest r e ;;; ret resp) w).1 = resp.
Proof. rewrite bind_run. split; [apply WriteFromRequest_keys|done]. Qed.

(** Refusals are neither 201 nor writes. *)
Ltac refused := unfold same_keys; rewrite decide_False by done; done.

(** C26. POST /keys answers 201 exactly when it issued a key: the account
    exists, is active and is not the legacy account, the component exists, and
    the key table gained one fresh, active, unused row for them, the key of
    the answer.  On every other answer the key table is as it was. *)
Theorem create_key_spec h body r w :
  let out := Keys_Create h body r w in
  if decide (rs_status out.1 = 201%Z)
  then exists req, body = Some req /\ ck_AccountID req <> "legacy" /\
    issued (ck_AccountID req) req (w_db w) (w_db out.2) out.1
  else same_keys (w_db w) (w_db out.2).
Proof.
  cbv zeta. unfold Keys_Create. destruct body as [req|]; [|refused].
  destruct (ck_AccountID req =s "") eqn:E0; [refused|].
  destruct (ck_AccountID req =s legacyAccountID) eqn:El; [refused|].
  rewrite bind_run, GetAccount_run. cbn [fst snd]. destruct (w_fault w 0); [refused|].
  destruct (accounts (w_db w) !! ck_AccountID req) as [a|] eqn:Ea; [|refused].
  destruct (a_status a =s "deleted"); [refused|]. cbn [scanAccount Acc_Status].
  destruct (a_status a <>s AccountStatusActive) eqn:Es; [refused|].
  apply negb_false_iff, String.eqb_eq in Es. apply String.eqb_neq in El.
  match goal with |- context [bind (GetComponent _) ?k ?w0] =>
    pose proof (issue_tail (ck_AccountID req) a req k w0 Ea Es) as Ht end.
  cbv zeta in Ht. lapply Ht; [clear Ht; intros Ht|].
  2:{ intros e w'. by destruct (errors_is e ErrComponentNotFound). }
  lapply Ht; [clear Ht; intros Ht|].
  - case_decide; [|done]. exists req. by repeat split.
  - intros c w'. eexists. split; [reflexivity|]. split.
    + intros e w2. cbn beta iota. by destruct (errors_is e ErrAccountNotFound).
    + intros key w2. cbn beta iota. destruct (log_then_reply r (key_issue_entry "" (Key_ID key)
        (Key_AccountID key) (Key_Component key) (Key_Label key))
        (reply 201 (BKey key (wrapKey (ComponentVisibility h) key))) w2) as [? ?]. eauto.
Qed.
(** POST /accounts/{id}/keys answers 201 exactly when an admin asked and
    it issued a key for the account of the URL, in the same sense; on every
    other answer the key table is as it was. *)
Theorem issue_key_spec v body r w :
  let out := Accounts_IssueKey v body r w in
  if decide (rs_status out.1 = 201%Z)
  then exists req op, body = Some req /\ r_operator r = Some op /\ ao_Role op = "admin" /\
    (ck_AccountID req = "" \/ ck_AccountID req = r_param r "id") /\
    issued (r_param r "id") req (w_db w) (w_db out.2) out.1
  else same_keys (w_db w) (w_db out.2).
Proof.
  cbv zeta. unfold Accounts_IssueKey, requireAdmin, OperatorFromContext.
  destruct (r_operator r) as [op|] eqn:Eop; [|refused].
  destruct (negb (IsAdmin op)) eqn:Eadm; [refused|].
  apply negb_false_iff, String.eqb_eq in Eadm. unfold with_account.
  rewrite bind_run, GetAccount_run. cbn [fst snd]. destruct (w_fault w 0); [refused|].
  destruct (accounts (w_db w) !! r_param r "id") as [a|] eqn:Ea; [|refused].
  destruct (a_status a =s "deleted"); [refused|]. cbn [scanAccount Acc_Status].
  destruct (a_status a <>s AccountStatusActive) eqn:Es; [refused|].
  apply negb_false_iff, String.eqb_eq in Es. destruct body as [req|]; [|refused].
  destruct ((ck_AccountID req <>s "") && _) eqn:Eid; [refused|].
  match goal with |- context [bind (GetComponent _) ?k ?w0] =>
    pose proof (issue_tail (r_param r "id") a req k w0 Ea Es) as Ht end.
  cbv zeta in Ht. lapply Ht; [clear Ht; intros Ht|].
  2:{ intros e w'. by destruct (errors_is e ErrComponentNotFound). }
  lapply Ht; [clear Ht; intros Ht|].
  - case_decide; [|done]. exists req, op. split; [done|]. split; [done|]. split; [done|].
    split; [|done]. apply andb_false_iff in Eid.
    destruct Eid as [Eid|Eid]; apply negb_false_iff, String.eqb_eq in Eid; auto.
  - intros c w'. eexists. split; [reflexivity|]. split.
    + intros e w2. cbn beta iota. by destruct (errors_is e ErrAccountNotFound).
    + intros key w2. cbn beta iota. destruct (log_then_reply r (key_issue_entry (ao_ID op)
        (Key_ID key) (r_param r "id") (ck_Component req) (ck_Label req))
        (reply 201 (BKey key (wrapKey v key))) w2) as [? ?]. eauto.
Qed.

(** ** Deleting *)
(** The same request, confirmed. *)
Definition confirmed (name : string) (r : Request) : Request :=
  mkRequest (r_method r) (r_path r) (r_header r) (<["confirm" := [name]]> (r_values r)) (r_cookie r)
    (r_param r) (r_remote r) (r_operator r).

Lemma confirmed_query name r : r_query (confirmed name r) "confirm" = name.
Proof. unfold r_query, confirmed. cbn [r_values]. by rewrite lookup_insert_eq. Qed.

(** The impact a DELETE /accounts/{id} without confirmation announces is
    truthful and free: nothing was changed, and the confirmed request, made
    while the database is still the same, deletes the account and revokes just
    as many keys (the legacy account alone refuses). *)
Theorem account_preview_truthful r w w' code msg n series :
  rs_body (Accounts_Delete r w).1 = BDeleteImpact code msg n series ->
  r_param r "id" <> legacyAccountID -> w_db w' = w_db w -> no_faults w' ->
  w_db (Accounts_Delete r w).2 = w_db w /\
  (Accounts_Delete (confirmed (r_param r "id") r) w').1 = reply 200 (BDeleted n).
Proof.
  unfold Accounts_Delete, requireAdmin, OperatorFromContext. cbn [confirmed r_operator].
  destruct (r_operator r) as [op|]; [|done]. destruct (negb (IsAdmin op)); [done|].
  change (r_param (confirmed _ r) "id") with (r_param r "id"). cbv zeta.
  rewrite confirmed_query, String.eqb_refl. cbn [negb]. unfold with_account.
  rewrite !bind_run, !GetAccount_run. cbn [fst snd]. destruct (w_fault w 0); [done|].
  intros Hb Hleg Hdb Hw'. rewrite (Hw' 0), Hdb.
  destruct (accounts (w_db w) !! r_param r "id") as [a|] eqn:Ea; [|done].
  destruct (a_status a =s "deleted") eqn:Ed; [done|].
  destruct (r_query r "confirm" <>s r_param r "id"); revert Hb; rewrite !bind_run.
  - unfold CountActiveAccountKeys. rewrite wrapE_run, query_run. cbn [fst snd].
    destruct (w_fault (tick_fault w) 0); [done|]. cbn. intros [= _ _ <- _]. split; [done|].
    pose proof (DeleteAccountWithCascade_run (r_param r "id") (tick_fault w')) as Hrun.
    destruct (DeleteAccountWithCascade _ _) as [[m|e] w2]; cbn [fst snd].
    + destruct Hrun as (_ & _ & _ & _ & _ & ->). rewrite bind_run. cbn. by rewrite Hdb.
    + exfalso. destruct Hrun as [_ [[? _]|[Hgone _]]]; [by apply no_faults_tick|done|].
      apply String.eqb_neq in Ed. apply Ed. apply (Hgone a). cbn. by rewrite Hdb.
  - destruct (DeleteAccountWithCascade _ _) as [[m|e] w2]; cbn [fst snd].
    + by rewrite bind_run.
    + destruct (errors_is e ErrAccountNotFound); [done|].
      by destruct (errors_is e ErrLegacyAccountProtected).
Qed.
End Issue.

(** ** Concrete requests *)
Definition demo_operator : AuthOperator := mkAuthOperator "op" "admin@example.org" "admin".

Definition demo_on (method id : string) : Request :=
  let r := demo_request method ("/api/v1/accounts/" +:+ id) [] [] in
  mkRequest (r_method r) (r_path r) (r_header r) (r_values r) (r_cookie r) (fun _ => id)
    (r_remote r) (Some demo_operator).

Lemma account_preview_truthful_witness :
  w_db (@Accounts_Delete sqlite_driver ascii_tables (demo_on "DELETE" "acct")
    (demo_world demo_db)).2 = demo_db /\
  (@Accounts_Delete sqlite_driver ascii_tables (confirmed "acct" (demo_on "DELETE" "acct"))
    (demo_world demo_db)).1 = reply 200 (BDeleted 1).
Proof.
  apply (@account_preview_truthful sqlite_driver ascii_tables (demo_on "DELETE" "acct")
    (demo_world demo_db) (demo_world demo_db) "CONFIRM_REQUIRED"
    "repeat the request with ?confirm=acct to proceed" 1%Z None).
  - vm_compute. reflexivity.
  - vm_compute. discriminate.
  - reflexivity.
  - intros i. reflexivity.
Defined.

(** The two endpoints disagree on the legacy account: POST /keys refuses
    it, POST /accounts/legacy/keys issues an active key under it. *)
Theorem legacy_key_issued :
  let req := mkCreateKey "legacy" "core" "new" None in
  (@Keys_Create sqlite_driver ascii_tables (mkKeysHandler {["core"]} "core" ∅) (Some req)
     (demo_on "POST" "legacy") (demo_world demo_db)).1 =
    writeError 400 "ACCOUNT_RESERVED"
      "the legacy account is reserved for migration and cannot be used to issue new keys" /\
  let out := @Accounts_IssueKey sqlite_driver ascii_tables ∅ (Some req)
    (demo_on "POST" "legacy") (demo_world demo_db) in
  rs_status out.1 = 201%Z /\
  exists id k, subscription_key (w_db out.2) !! id = Some k /\ k_account_id k = "legacy" /\
    k_active k = 1%Z /\ subscription_key demo_db !! id = None.
Proof.
  cbv zeta. split; [vm_compute; reflexivity|]. split; [vm_compute; reflexivity|].
  exists (hex_encode (map (fun i => Z.of_nat i mod 256)%Z (seq 0 32))),
    (mkKeyRow "core" "new" 1 (demo_second + 60) None 0 "legacy").
  split; [vm_compute; reflexivity|]. split; [reflexivity|]. split; [reflexivity|].
  vm_compute. reflexivity.
Qed.
