(* ===== verification/Observations.v ===== *)
(** * What a request among others has seen

    While a request runs, others change the database.  What it has read holds
    of worlds that the run went through, one after the other: the rows behind
    an answer of forward-auth, the flow and the operator behind a new session,
    and the session and the operator behind a write. *)
From Stdlib Require Import ZArith Lia Ascii.
From stdpp Require Import base gmap strings list relations.
From S2P Require Import Prelude GoStrings Errors State Tables Effects AccountStore.
From S2P Require Import ComponentStore SessionStore OperatorStore StoreInvariant StoreMethods OperatorSpec ComponentCache.
From S2P Require Import Http ForwardAuth ForwardAuthSpec StoreSpec AdminGuards GuardsSpec AuthSpec KeysHandler AdminUI.
From S2P Require Import RequestMeta OAuthState IssueSpec AccountsHandler AuthHandler Server Background Fixtures ServerSpec Steps Schedules CacheLaw Interleaving.
Open Scope packyard_scope.
Open Scope eff_scope.

(** One moment after the other, while others run. *)
Abbreviation onward := (later (R := advances)).
Abbreviation passes G := (wp (R := advances) G (fun _ _ _ _ => True)).
Abbreviation program := (prog (R := advances)).

Ltac ends := apply wp_halt; intros ? ?.

(** The method computes its answer from the row, without a further step. *)
Ltac read_row f :=
  unfold f; let HQ := fresh in intros HQ; apply wp_reading; [done| |exact HQ]; clear HQ;
  intros [?|?]; cbn -[no_rows]; unfold no_rows; repeat case_match; by eexists.

Section Readers.
Context `{SqlDriver} (G : moment -> World -> Prop).
Hypothesis reads : forall s w, w_db w = w_db s.1 -> w_cache w = w_cache s.1 -> G s w.

Lemma GetByValue_wp v Q s :
  (forall s1 s', onward s s1 -> onward s1 s' -> Q (GetByValue v s1.1).1 s') ->
  passes G (program (GetByValue_steps v)) Q s.
Proof. read_row @GetByValue_steps. Qed.

Lemma GetAccount_wp id Q s :
  (forall s1 s', onward s s1 -> onward s1 s' -> Q (GetAccount id s1.1).1 s') ->
  passes G (program (GetAccount_steps id)) Q s.
Proof. read_row @GetAccount_steps. Qed.

Lemma GetComponent_wp n Q s :
  (forall s1 s', onward s s1 -> onward s1 s' -> Q (GetComponent n s1.1).1 s') ->
  passes G (program (GetComponent_steps n)) Q s.
Proof. read_row @GetComponent_steps. Qed.

Lemma GetSession_wp id Q s :
  (forall s1 s', onward s s1 -> onward s1 s' -> Q (GetSession id s1.1).1 s') ->
  passes G (program (GetSession_steps id)) Q s.
Proof. read_row @GetSession_steps. Qed.

Lemma GetOperator_wp id Q s :
  (forall s1 s', onward s s1 -> onward s1 s' -> Q (GetOperator id s1.1).1 s') ->
  passes G (program (GetOperator_steps id)) Q s.
Proof. read_row @GetOperator_steps. Qed.

Lemma GetOperatorByEmail_wp `{UnicodeTables} e Q s :
  (forall s1 s', onward s s1 -> onward s1 s' -> Q (GetOperatorByEmail e s1.1).1 s') ->
  passes G (program (GetOperatorByEmail_steps e)) Q s.
Proof. read_row @GetOperatorByEmail_steps. Qed.
End Readers.

(** Nothing is asked of the steps themselves. *)
Definition anything (_ : moment) (_ : World) : Prop := True.

Section Anything.
Context `{SqlDriver}.

Lemma passes_any {A} (p : Prog A) s : guarded advances p -> passes anything p (fun _ _ => True) s.
Proof. intros Hp. by apply (wp_guarded (R := advances) (fun _ _ Hr => Hr)). Qed.

Lemma anything_reads s w : w_db w = w_db s.1 -> w_cache w = w_cache s.1 -> anything s w.
Proof. done. Qed.

(** One step: what it answers, and the moment after it. *)
Lemma act_wp {A B} (m : Eff B) (k : B -> Prog A) Q s :
  (forall s1, onward s s1 -> passes anything (k (m s1.1).1) Q (after (m s1.1).2 s1)) ->
  passes anything (Act m k) Q s.
Proof. intros HQ. apply wp_act. intros s1 Hs1. split; [done|]. by apply HQ. Qed.

Lemma land_wp {A} n id r (k : Prog A) Q s :
  (forall s1, onward s s1 -> passes anything k Q s1) -> passes anything (Land n id r k) Q s.
Proof. intros HQ s1 Hs1. split; [done|]. apply HQ. etrans; [exact Hs1|apply later_land]. Qed.
End Anything.

(** ** Forward-auth among other requests *)
Section Forward.
Context `{SqlDriver} `{UnicodeTables}.

Lemma answer_wp o Q s :
  (forall s', onward s s' -> Q (respond o) s') -> passes anything (program (answer_steps o)) Q s.
Proof.
  intros HQ. unfold answer_steps. apply wp_bind, wp_local; [done|]. intros s1 s2 H1 H2.
  ends. apply HQ. etrans; [done|]. by etrans.
Qed.

Ltac answers := apply answer_wp; intros ? ?.

(** The account was active when it was looked up. *)
Definition account_seen (id : string) (s s' : moment) : Prop :=
  exists a s2, accounts (w_db s2.1) !! id = Some a /\ a_status a = "active" /\
    onward s s2 /\ onward s2 s'.

Lemma account_gate_wp key s :
  passes anything (program (account_gate_steps key))
    (fun resp s' => ar_status resp = 200%Z -> ar_label resp = allowed /\ account_seen (Key_AccountID key) s s') s.
Proof.
  unfold account_gate_steps. apply wp_bind, (GetAccount_wp _ anything_reads). intros s2 s' H2 H'.
  rewrite GetAccount_run. cbn [fst]. destruct (w_fault s2.1 0).
  { destruct (errors_is _ _); by answers. }
  destruct (accounts (w_db s2.1) !! Key_AccountID key) as [a|] eqn:Ha; [|by answers].
  destruct (a_status a =s "deleted"); [by answers|].
  destruct (Acc_Status (scanAccount _ a) <>s AccountStatusActive) eqn:Hs; [by answers|].
  apply wp_bind. eapply wp_mono; [|apply prog_guarded|apply passes_any, prog_guarded].
  cbn beta. intros _ s3 H3 _. answers. intros _. split; [done|]. exists a, s2. split; [done|].
  split; [by apply negb_false_iff, String.eqb_eq in Hs|]. split; [done|]. etrans; [done|]. by etrans.
Qed.

(** The key was active, and for this component, when it was looked up, and
    then its account when that was. *)
Definition key_seen (c pw : string) (s s' : moment) : Prop :=
  exists k s1, subscription_key (w_db s1.1) !! pw = Some k /\ k_active k = 1%Z /\ readable k = true /\
    k_component k = c /\ onward s s1 /\ account_seen (k_account_id k) s1 s'.

Lemma check_credentials_wp r c s :
  passes anything (program (check_credentials_steps r c))
    (fun resp s' => ar_status resp = 200%Z -> ar_label resp = allowed /\
       exists user pw, BasicAuth r = Some (user, pw) /\ key_seen c pw s s') s.
Proof.
  unfold check_credentials_steps, check_credentials. destruct (BasicAuth r) as [[user pw]|]; [|by answers].
  destruct (_ || _); [by answers|]. apply wp_bind, (GetByValue_wp _ anything_reads). intros s1 s' H1 H'.
  rewrite GetByValue_run. cbn [fst].
  destruct (w_fault s1.1 0); [destruct (_ || _); by answers|].
  destruct (subscription_key (w_db s1.1) !! pw) as [k|] eqn:Hk; [|by answers].
  destruct (scanKey_cases pw k) as [(key & -> & Hread & Hact & Hcomp & Hacc)|[-> _]];
    [|destruct (_ || _); by answers].
  destruct (Key_Active key) eqn:Ea; [|by answers].
  destruct (Key_Component key <>s c) eqn:Ec; [by answers|].
  eapply wp_mono; [|apply prog_guarded|apply account_gate_wp]. cbn beta. intros resp s2 _ Hseen Hl.
  destruct (Hseen Hl) as (? & a & s3 & ? & ? & ? & ?). split; [done|]. exists user, pw. split; [done|].
  string_reflect. exists k, s1. split; [done|]. split; [lia|]. split; [done|].
  split; [congruence|]. split; [done|]. exists a, s3. rewrite <- Hacc.
  split; [done|]. split; [done|]. split; [by etrans|done].
Qed.

(** A component answered public was read from its row, or was in the cache, or
    is the result of a call that was under way when the request joined it. *)
Definition found (ttl : Z) (c : string) (comp : Component) (s s' : moment) : Prop :=
  exists s1, onward s s1 /\ onward s1 s' /\
    (public_record c comp s1 \/
     (enabled ttl = true /\
      ((exists e, cache_entries (w_cache s1.1) !! c = Some e /\ cc_comp e = comp) \/
       exists id sj, onward s sj /\ onward sj s1 /\ leading (group sj) !! c = Some id /\
         call_result id (group s1) = Some (Ok comp)))).

Lemma lookup_entry_wp c s :
  passes anything (program (lookup_entry_steps c))
    (fun hit s' => forall comp, hit = Some comp -> exists e s1, onward s s1 /\ onward s1 s' /\
       cache_entries (w_cache s1.1) !! c = Some e /\ cc_comp e = comp) s.
Proof.
  unfold lookup_entry_steps, lookup_entry. apply wp_bind, wp_local; [done|]. intros s1 s2 Hs1 Hs2. cbn [get_cache fst].
  destruct (cache_entries (w_cache s1.1) !! c) as [e|] eqn:He; [|by ends].
  apply wp_bind, wp_local; [done|]. intros s3 s4 Hs3 Hs4. destruct (_ <? _)%Z.
  - apply wp_halt. intros s5 Hs5 comp [= <-]. exists e, s1. split; [done|].
    split; [|done]. do 3 (etrans; [eassumption|]). done.
  - apply wp_bind. eapply wp_mono; [|apply prog_guarded|apply passes_any, prog_guarded]. cbn beta.
    intros _ s5 _ _. by ends.
Qed.

Lemma fill_wp ttl c s :
  enabled ttl = true ->
  passes anything (program (fill_steps ttl c))
    (fun answer s' => forall comp, answer = Ok comp -> Visibility comp = "public" -> found ttl c comp s s') s.
Proof.
  intros Hon s0 Hs0. split.
  2:{ intros id Hid s1 r Hs1 Hr. ends. intros comp -> Hv. exists s1.
      assert (onward s0 s1) as H01 by (etrans; [apply later_stay|exact Hs1]).
      split; [by etrans|]. split; [etrans; [apply later_stay|done]|]. right. split; [done|]. right. by exists id, s0. }
  intros _. set (sb := regroup _ s0). assert (onward s sb) as Hsb by (etrans; [exact Hs0|apply later_begin]).
  apply wp_pbind, act_wp. intros s1 Hs1. apply wp_pbind.
  apply (GetComponent_wp _ anything_reads). intros s2 s3 Hs2 Hs3.
  assert (onward s s2) as Hs.
  { etrans; [exact Hsb|]. etrans; [exact Hs1|]. etrans; [|exact Hs2]. by apply later_after. }
  destruct (GetComponent c s2.1).1 as [comp|e] eqn:Ec; [|apply wp_halt; intros ? _; apply land_wp; intros ? _; by ends].
  apply GetComponent_record in Ec as (row & Hrow & ->).
  assert (forall s', onward s3 s' -> forall comp, Ok (scanComponent c row) = Ok comp -> Visibility comp = "public" ->
    found ttl c comp s s') as Hfound.
  { intros s' Hs' comp [= <-] Hv. exists s2. split; [done|]. split; [by etrans|]. left. by exists row. }
  destruct (Visibility (scanComponent c row) =s "public").
  2:{ apply wp_halt. intros s4 Hs4. apply land_wp. intros s5 Hs5. ends. apply Hfound. by do 2 (etrans; [eassumption|]). }
  apply act_wp. intros s4 Hs4. apply act_wp. intros s5 Hs5. apply wp_halt. intros s6 Hs6.
  apply land_wp. intros s7 Hs7. apply wp_halt. intros s8 Hs8. apply Hfound.
  etrans; [exact Hs4|]. transitivity s5; [etrans; [|exact Hs5]; by apply later_after|].
  transitivity s6; [etrans; [|exact Hs6]; by apply later_after|]. by transitivity s7.
Qed.

Lemma found_wider ttl c comp s0 s s' s2 :
  onward s0 s -> onward s' s2 -> found ttl c comp s s' -> found ttl c comp s0 s2.
Proof.
  intros Hs Hs2 (s1 & ? & ? & [Hrec|(Hon & [He|(id & sj & ? & ? & ? & ?)])]); exists s1;
    (split; [by etrans|]); (split; [by etrans|]); [by left|right; split; [done|by left]|].
  right. split; [done|]. right. exists id, sj. by split; [etrans|].
Qed.

Lemma CachedGetComponent_wp ttl c s :
  passes anything (program (CachedGetComponent_steps ttl c))
    (fun answer s' => forall comp, answer = Ok comp -> Visibility comp = "public" -> found ttl c comp s s') s.
Proof.
  unfold CachedGetComponent_steps, CachedGetComponent.
  apply wp_bind, wp_local; [done|]. intros s0 s1 Hs0 Hs1. assert (onward s s1) as Hs by by etrans.
  destruct (enabled ttl) eqn:He; cbn [negb].
  - apply wp_bind. eapply wp_mono; [|apply prog_guarded|apply lookup_entry_wp]. cbn beta.
    intros [comp|] s2 Hs2 Hhit.
    + destruct (Hhit comp eq_refl) as (e & s3 & Hs3 & Hs3' & Hent & Hc).
      apply wp_bind, wp_local; [done|]. intros s4 s5 Hs4 Hs5. apply wp_halt. intros s6 Hs6 comp' [= <-] Hv.
      exists s3. split; [by etrans|]. split; [|right; split; [done|left; by exists e]].
      do 3 (etrans; [eassumption|]). done.
    + eapply wp_mono; [|apply prog_guarded|by apply fill_wp]. cbn beta. intros answer s3 _ Hf comp Ha Hv.
      eapply found_wider, (Hf comp Ha Hv); [by etrans|done].
  - apply (GetComponent_wp _ anything_reads). intros s2 s3 Hs2 Hs3 comp Ha Hv.
    apply GetComponent_record in Ha as (row & Hrow & ->). exists s2. split; [by etrans|]. split; [done|].
    left. by exists row.
Qed.

(** What an answer 200 to [r] says of the worlds that the run went through
    from the arrival of [r] at [s] to its end at [s']. *)
Definition entitled (public : string -> moment -> moment -> Prop) (r : Request) (s s' : moment)
    (resp : AuthResponse) : Prop :=
  exists c, names_component (r_header r "X-Forwarded-Uri") c /\
    ((ar_label resp = allowed_public /\ public c s s') \/
     (ar_label resp = allowed /\
      exists user pw, BasicAuth r = Some (user, pw) /\ key_seen c pw s s')).

Definition found_public (ttl : Z) (c : string) (s s' : moment) : Prop :=
  exists comp, Visibility comp = "public" /\ found ttl c comp s s'.

Lemma entitled_mono (P Q : string -> moment -> moment -> Prop) r s s' resp :
  (forall c, P c s s' -> Q c s s') -> entitled P r s s' resp -> entitled Q r s s' resp.
Proof. intros HPQ (c & Hc & [[Hl Hp]|Hk]); exists c; auto. Qed.

(** In a run from an empty cache, what is answered public was so once, and its
    name was not evicted until it was looked up; or the answer is that of a
    call which was under way when the request arrived, and in whose course it
    was public. *)
Definition public_seen (ttl : Z) (c : string) (s s' : moment) : Prop :=
  exists comp s1 s2, public_record c comp s1 /\ earlier s1 s2 /\ earlier s s2 /\ earlier s2 s' /\
    (enabled ttl = false -> s1 = s2) /\
    (unevicted c s1 s2 \/ exists id, joined_late c id s s1).

Lemma found_seen ttl c s s' :
  abides s' -> fresh_start s' -> (Z.of_nat (length (past s')) < 2 ^ 64)%Z ->
  found_public ttl c s s' -> public_seen ttl c s s'.
Proof.
  intros Ha Hf Hlen (comp & Hv & s1 & Hs%later_past & Hs'%later_past & Hfound).
  destruct (run_earlier s1 s' Hs' Ha Hf Hlen) as (Ha1 & Hf1 & Hlen1).
  destruct Hfound as [Hrec|(Hon & [(e & He & <-)|(id & sj & Hsj%later_past & Hj%later_past & Hlead & Hres)])].
  - exists comp, s1, s1. repeat (split; [done|]). left. apply unevicted_refl.
  - destruct (ci_entry s1 (cache_inv_run s1 Ha1 Hf1 Hlen1) c e He) as (s0 & Hrec & Hun).
    exists (cc_comp e), s0, s1. split; [done|]. split; [apply Hun|]. do 2 (split; [done|]). split; [congruence|by left].
  - destruct (joined_public c id comp s sj s1 Ha1 Hf1 Hsj Hj Hlead Hres Hv) as (s0 & Hrec & H01 & [Hnew|Hlate]).
    + exists comp, s0, s0. split; [done|]. split; [done|]. split; [done|]. split; [by etrans|].
      split; [done|]. left. apply unevicted_refl.
    + exists comp, s0, s1. do 4 (split; [done|]). split; [congruence|]. right. by exists id.
Qed.

Lemma entitled_wider ttl r s0 s s' s2 resp :
  onward s0 s -> onward s' s2 -> entitled (found_public ttl) r s s' resp -> entitled (found_public ttl) r s0 s2 resp.
Proof.
  intros Hs Hs2 (c & Hc & [[Hl Hp]|(Hl & user & pw & Hb & k & s1 & ? & ? & ? & ? & ? & a & s3 & ? & ? & ? & ?)]);
    exists c; (split; [done|]); [left|right]; (split; [done|]).
  - destruct Hp as (comp & Hv & Hf). exists comp. split; [done|]. by eapply found_wider.
  - exists user, pw. split; [done|]. exists k, s1. repeat (split; [done|]). split; [by etrans|].
    exists a, s3. repeat (split; [done|]). by etrans.
Qed.

Lemma authorize_wp ttl r s :
  passes anything (program (authorize_steps ttl r))
    (fun resp s' => ar_status resp = 200%Z ->
       (request_method r = "GET" \/ request_method r = "HEAD") /\ entitled (found_public ttl) r s s' resp) s.
Proof.
  unfold authorize_steps, authorize. cbv zeta.
  change (if r_header r "X-Forwarded-Method" =s "" then _ else _) with (request_method r).
  destruct (_ && _) eqn:Hm; [by answers|].
  assert (request_method r = "GET" \/ request_method r = "HEAD") as Hget.
  { apply andb_false_iff in Hm as [Hm|Hm]; apply negb_false_iff, String.eqb_eq in Hm; auto. }
  destruct (isRegistryPing _); [by answers|].
  destruct (extractComponent _) as [c|] eqn:Hc; [|by answers]. apply extractComponent_names in Hc.
  apply wp_bind. eapply wp_mono; [|apply prog_guarded|apply CachedGetComponent_wp]. cbn beta.
  intros [comp|e] s1 H1 Hpub.
  2:{ destruct (errors_is e _); by answers. }
  destruct (Visibility comp =s "public") eqn:Hv.
  - answers. intros _. split; [done|]. exists c. split; [done|]. left. split; [done|].
    apply String.eqb_eq in Hv. exists comp. split; [done|].
    eapply found_wider, (Hpub comp eq_refl Hv); [reflexivity|done].
  - eapply wp_mono; [|apply prog_guarded|apply check_credentials_wp]. cbn beta. intros resp s' _ Hs H200.
    destruct (Hs H200) as (Hl & user & pw & Hb & Hk). split; [done|].
    eapply entitled_wider; [exact H1|reflexivity|]. exists c. split; [done|]. right. split; [done|].
    by exists user, pw.
Qed.

Lemma ServeHTTP_wp ttl r s :
  passes anything (program (ServeHTTP_steps ttl r))
    (fun resp s' => ar_status resp = 200%Z ->
       (request_method r = "GET" \/ request_method r = "HEAD") /\ entitled (found_public ttl) r s s' resp) s.
Proof.
  unfold ServeHTTP_steps. apply wp_bind, wp_local; [done|]. intros s0 s1 Hs0 Hs1.
  apply wp_bind. eapply wp_mono; [|apply prog_guarded|apply authorize_wp]. cbn beta. intros resp s2 _ Hresp.
  apply wp_bind, wp_local; [done|]. intros s3 s4 H3 H4. apply wp_bind, wp_local; [done|]. intros s5 s6 H5 H6.
  ends. intros H200. destruct (Hresp H200) as [Hm He]. split; [done|].
  eapply entitled_wider, He; [by etrans|]. do 4 (etrans; [eassumption|]). done.
Qed.

(** A key that is shut when the request arrives is not seen afterwards. *)
Lemma seen_not_shut c pw s s' : key_seen c pw s s' -> ~ shut (w_db s.1) pw.
Proof.
  intros (k & s1 & Hk & Ha & Hr & Hc & [[[_ Hh] _] _] & a & s2 & Hacc & Hs & _) Hshut.
  set (db := set_accounts (<[k_account_id k := a]> (accounts (w_db s1.1))) (w_db s1.1)).
  assert (history (w_db s1.1) db) as Hh1.
  { split; cbn; eauto.
    - intros id row Hrow. exists row. split; [done|reflexivity].
    - intros id Hid. rewrite lookup_insert. case_decide; [done|exact Hid].
    - exists []. by rewrite app_nil_r. }
  apply (Hshut db (transitivity Hh Hh1) c).
  eapply (key_verdict_allowed db c pw k a); cbn; try done. by rewrite lookup_insert_eq.
Qed.
End Forward.

(** ** Signing in among other requests *)
Section Signing.
Context `{SqlDriver} `{UnicodeTables} (Providers : gmap string OAuthProvider) (redir : string).

(** No session comes of a refusal. *)
Lemma failCallback_wp (Q : Response -> moment -> Prop) r e p st c m why s :
  (forall resp s', ~ issues_session resp -> Q resp s') ->
  passes anything (program (failCallback_steps r e p st c m why)) Q s.
Proof.
  intros HQ. unfold failCallback_steps. apply wp_bind.
  eapply wp_mono; [|apply prog_guarded|apply passes_any, prog_guarded]. cbn beta. intros _ s1 _ _. ends.
  apply HQ. intros (ck & Hin & Hn). simpl in Hin. by apply list_elem_of_singleton in Hin as ->.
Qed.

(** The session is new, and the operator's: one step inserts it. *)
Definition session_made (oid : string) (sess : Session) (s s' : moment) : Prop :=
  exists row s0 s1 s2, onward s s0 /\ onward s0 s1 /\
    Sess_ExpiresAt sess = (w_clock s0.1 0 + SessionAbsoluteLifetime)%Z /\
    sessions (w_db s1.1) !! Sess_ID sess = None /\
    sessions (w_db s2.1) !! Sess_ID sess = Some row /\ s_operator_id row = oid /\
    past s2 = here s1 :: past s1 /\ onward s2 s'.

Lemma CreateSession_wp oid ip ua s :
  passes anything (program (CreateSession_steps oid ip ua))
    (fun a s' => forall sess, a = Ok sess -> session_made oid sess s s') s.
Proof.
  unfold CreateSession_steps, bookkeeping, quiet_bookkeeping. cbn -[rand_hex now sql wp].
  apply act_wp. intros s1 Hs1. destruct (rand_hex 32 s1.1) as [[id|e] w1] eqn:Er; [|by ends].
  assert (w_db w1 = w_db s1.1) as Hw1 by (unfold rand_hex in Er; by destruct (w_rand _ 0); injection Er as _ <-).
  cbn -[now sql wp]. apply act_wp. intros s2 Hs2. cbn -[sql wp]. apply act_wp. intros s3 Hs3.
  rewrite sql_run. destruct (w_fault s3.1 0); [by ends|].
  unfold sql_insert_session. cbn -[wp].
  destruct (bool_decide (is_Some (sessions (w_db s3.1) !! id))) eqn:Hid; [by ends|].
  destruct (bool_decide (is_Some (operators _ !! _))); [|by ends].
  apply wp_halt. intros s' Hs' sess [= <-].
  apply bool_decide_eq_false, eq_None_not_Some in Hid.
  match type of Hs' with onward ?m _ => eexists _, s2, s3, m end. split; [|split; [|split; [done|]]].
  - etrans; [done|]. etrans; [|exact Hs2]. apply later_after. by rewrite Hw1.
  - etrans; [|exact Hs3]. by apply later_after.
  - split; [exact Hid|]. split; [apply lookup_insert_eq|]. split; [done|]. split; [reflexivity|]. exact Hs'.
Qed.

Definition hands_out (sess : Session) (resp : Response) : Prop :=
  IssueSessionCookie (Sess_ID sess) (Sess_ExpiresAt sess) ∈ rs_cookies resp.

(** Steps of which nothing is asked. *)
Ltac passing :=
  apply wp_bind; eapply wp_mono; [|apply prog_guarded|apply passes_any, prog_guarded];
  cbn beta; intros ? ? ? _.

Lemma start_session_wp r p ident op s :
  passes anything (program (start_session_steps redir r p ident op))
    (fun resp s' => issues_session resp -> exists sess, session_made (Op_ID op) sess s s' /\ hands_out sess resp) s.
Proof.
  unfold start_session_steps, start_session. cbv zeta. apply wp_bind.
  eapply wp_mono; [|apply prog_guarded|apply CreateSession_wp]. cbn beta. intros [sess|e] s1 Hs1 Hsess.
  2:{ apply failCallback_wp. intros ? ? ? ?. done. }
  passing. passing. passing. apply wp_halt. intros s9 Hs9 _. exists sess. split; [|unfold hands_out; cbn; set_solver].
  destruct (Hsess sess eq_refl) as (row & m0 & m1 & m2 & ? & ? & ? & ? & ? & ? & ? & ?).
  exists row, m0, m1, m2. repeat (split; [done|]). do 4 (etrans; [eassumption|]). done.
Qed.

(** The identity's email is that of an active operator when it is looked up,
    and the session is that operator's. *)
Definition admitted (ident : Identity) (resp : Response) (s s' : moment) : Prop :=
  id_Email ident <> "" /\
  exists oid o sess s1, onward s s1 /\ operators (w_db s1.1) !! oid = Some o /\
    o_email o = canonicalEmail (id_Email ident) /\ o_status o = "active" /\
    session_made oid sess s1 s' /\ hands_out sess resp.

Lemma match_operator_wp r p ident s :
  passes anything (program (match_operator_steps redir r p ident))
    (fun resp s' => issues_session resp -> admitted ident resp s s') s.
Proof.
  assert (forall (P : Response -> moment -> Prop) e p' st c m why s1,
    passes anything (program (failCallback_steps r e p' st c m why))
      (fun resp s' => issues_session resp -> P resp s') s1) as Hfail.
  { intros. by apply failCallback_wp. }
  unfold match_operator_steps, match_operator. cbv zeta.
  destruct (id_Email ident =s "") eqn:He; [apply Hfail|]. apply String.eqb_neq in He.
  apply wp_bind, (GetOperatorByEmail_wp _ anything_reads). intros s1 s2 Hs1 Hs2.
  unfold GetOperatorByEmail. rewrite bind_run, query_row_run. cbn [fst].
  destruct (w_fault s1.1 0); [apply Hfail|].
  destruct (find_by o_email _ _) as [[oid o]|] eqn:Ef; [|apply Hfail].
  apply find_by_sound in Ef as [Ho Hmail]. cbn [fst snd ret scanOperator Op_Status].
  destruct (o_status o =s OperatorStatusActive) eqn:Ea.
  2:{ destruct (o_status o =s OperatorStatusDisabled); apply Hfail. }
  eapply wp_mono; [|apply prog_guarded|apply start_session_wp]. cbn beta.
  intros resp s3 _ Hsess Hi. destruct (Hsess Hi) as (sess & Hmade & Hck).
  split; [done|]. exists oid, o, sess, s1. string_reflect. repeat (split; [done|]). split; [|done].
  destruct Hmade as (row & m0 & m1 & m2 & ? & ?). exists row, m0, m1, m2. split; [by etrans|done].
Qed.

(** The flow of the browser's handle is live when the callback takes it, which
    leaves nothing under the handle, and has the state and the provider of the
    request; the provider exchanges the code under the flow's verifier. *)
Definition completed (r : Request) (resp : Response) (s s' : moment) : Prop :=
  exists handle entry provider ident s1 s2 s3,
    oauth_handle r = Some handle /\ w_states s1.1 !! handle = Some entry /\
    State_ entry = r_query r "state" /\ Provider entry = r_param r "provider" /\
    (w_clock s1.1 0 - Created entry <= StateTTL)%Z /\
    w_states s2.1 !! handle = None /\ past s2 = here s1 :: past s1 /\
    Providers !! r_param r "provider" = Some provider /\
    Exchange (OAuthProvider := provider) (w_clock s3.1 0) (r_query r "code") (CodeVerifier entry) = Ok ident /\
    onward s s1 /\ onward s2 s3 /\ admitted ident resp s3 s'.

Lemma exchange_code_wp r p provider code entry s :
  passes anything (program (exchange_code_steps redir r p provider code entry))
    (fun resp s' => issues_session resp -> exists ident s3, onward s s3 /\
       Exchange (OAuthProvider := provider) (w_clock s3.1 0) code (CodeVerifier entry) = Ok ident /\
       admitted ident resp s3 s') s.
Proof.
  unfold exchange_code_steps, exchange_code. cbv zeta. apply wp_bind.
  apply act_wp. intros s1 Hs1. apply wp_halt. intros s2 Hs2. cbn [now fst snd].
  destruct (Exchange _ _ _) as [ident|e] eqn:Ex.
  2:{ destruct (errors_is e ErrUnverifiedEmail || _); [by apply failCallback_wp|].
      destruct (errors_is e ErrNotOrgMember); by apply failCallback_wp. }
  eapply wp_mono; [|apply prog_guarded|apply match_operator_wp].
  cbn beta. intros resp s' _ Hadm Hi. exists ident, s1. split; [done|]. split; [done|].
  destruct (Hadm Hi) as (? & oid & o & sess & m1 & Hm1 & ?). split; [done|]. exists oid, o, sess, m1.
  split; [|done]. etrans; [|exact Hm1]. etrans; [|exact Hs2]. by apply later_after.
Qed.

Lemma Callback_wp r s :
  passes anything (program (Callback_steps Providers redir r))
    (fun resp s' => issues_session resp -> completed r resp s s') s.
Proof.
  unfold Callback_steps, Callback. cbv zeta.
  destruct (Providers !! r_param r "provider") as [provider|] eqn:Ep.
  2:{ passing. apply wp_halt. intros ? ? (c & Hin & Hn). simpl in Hin.
      by apply list_elem_of_singleton in Hin as ->. }
  destruct (_ || _); [by apply failCallback_wp|].
  destruct (oauth_handle r) as [handle|] eqn:Eh; [|by apply failCallback_wp].
  apply wp_bind, act_wp. intros s1 Hs1. unfold state_consume.
  destruct (w_states s1.1 !! handle) as [entry|] eqn:Es; cbn [fst snd].
  2:{ apply wp_halt. intros ? ?. by apply failCallback_wp. }
  unfold Consume. rewrite Es, expired_sub. cbn [fst snd].
  destruct (StateTTL <? _)%Z eqn:Et; [apply wp_halt; intros ? ?; by apply failCallback_wp|].
  apply Z.ltb_ge in Et. apply wp_halt. intros s2 Hs2.
  destruct ((State_ entry <>s _) || _) eqn:Em; [by apply failCallback_wp|]. string_reflect.
  eapply wp_mono; [|apply prog_guarded|apply exchange_code_wp]. cbn beta.
  intros resp s' _ Hex Hi. destruct (Hex Hi) as (ident & s3 & Hs3 & Hx & Hadm).
  match type of Hs2 with onward ?m _ => exists handle, entry, provider, ident, s1, m, s3 end.
  repeat (split; [done|]). split; [apply lookup_delete_eq|]. repeat (split; [done|]). split; [by etrans|done].
Qed.
End Signing.

(** ** Writes among other requests *)
Section Writes.
Context `{SqlDriver} `{UnicodeTables} (expected : originParts).

(** The session row, the clock and the operator's row are read one after the
    other; at its moment each was as the gate asks. *)
Definition standing (r : Request) (op : AuthOperator) (s s' : moment) : Prop :=
  exists id row o s1 s2 s3, session_cookie r = Some id /\
    sessions (w_db s1.1) !! id = Some row /\
    (w_clock s2.1 0 <= parse_stamp (s_expires_at row))%Z /\
    (w_clock s2.1 0 - parse_stamp (s_last_seen_at row) <= SessionIdleLifetime)%Z /\
    operators (w_db s3.1) !! s_operator_id row = Some o /\ o_status o = "active" /\
    op = mkAuthOperator (s_operator_id row) (o_email o) (o_role o) /\
    onward s s1 /\ onward s1 s2 /\ onward s2 s3 /\ onward s3 s'.

(** The request [r], which arrived at [s], may write at [s']. *)
Definition cleared (r : Request) (s s' : moment) : Prop :=
  parseOrigin (origin_of r) = Some expected /\
  exists op, standing r op s s' /\ ao_Role op <> "readonly".

Lemma cleared_later r s s1 s2 : cleared r s s1 -> onward s1 s2 -> cleared r s s2.
Proof.
  intros (Ho & op & (id & row & o & m1 & m2 & m3 & ? & ? & ? & ? & ? & ? & ? & ? & ? & ? & ?) & Hr) Hon.
  split; [done|]. exists op. split; [|done]. exists id, row, o, m1, m2, m3.
  repeat (split; [done|]). by etrans.
Qed.

(** A step of [r] writes business data only when [r] is cleared. *)
Definition lawful (r : Request) (s s' : moment) (w : World) : Prop :=
  unwritten (w_db s'.1) (w_db w) \/ cleared r s s'.

Lemma lawful_reads r s s' w : w_db w = w_db s'.1 -> w_cache w = w_cache s'.1 -> lawful r s s' w.
Proof. intros Hw _. left. by rewrite Hw. Qed.

Lemma quiet_lawful {A} r s (p : Prog A) s' :
  guarded quietly p -> passes (lawful r s) p (fun _ _ => True) s'.
Proof. intros Hp. apply (wp_guarded quietly_advances); [done|]. intros s2 w _ [_ ?]. by left. Qed.

Lemma cleared_lawful {A} r s (p : Prog A) s' :
  cleared r s s' -> guarded advances p -> passes (lawful r s) p (fun _ _ => True) s'.
Proof.
  intros Hc Hp. apply (wp_guarded (R := advances) (fun _ _ Hr => Hr)); [done|].
  intros s2 w Hs2 _. right. by eapply cleared_later.
Qed.

(** The steps of the bookkeeping are the same ones along [quietly]. *)
Lemma WriteFromRequest_quiet r e : guarded quietly (program (WriteFromRequest_steps r e)).
Proof. exact (prog_guarded _ (WriteFromRequest_steps (R := quietly) r e)). Qed.
Lemma TouchSession_quiet id t : guarded quietly (program (TouchSession_steps id t)).
Proof. exact (prog_guarded _ (TouchSession_steps (R := quietly) id t)). Qed.
Lemma DeleteSession_quiet id : guarded quietly (program (DeleteSession_steps id)).
Proof. exact (prog_guarded _ (DeleteSession_steps (R := quietly) id)). Qed.

Lemma session_gate_wp r s0 s :
  passes (lawful r s0) (program (session_gate_steps r))
    (fun g s' => match g with inl _ => True | inr (_, op, _) => standing r op s s' end) s.
Proof.
  assert (forall resp s', passes (lawful r s0) (Halt (inl resp))
    (fun (g : Response + Session * AuthOperator * Z) s' =>
       match g with inl _ => True | inr (_, op, _) => standing r op s s' end) s') as Hout by done.
  assert (forall id (k : res unit -> Prog (Response + Session * AuthOperator * Z)) s',
    (forall a, exists resp, k a = Halt (inl resp)) ->
    passes (lawful r s0) (pbind (program (DeleteSession_steps id)) k)
      (fun g s' => match g with inl _ => True | inr (_, op, _) => standing r op s s' end) s') as Hend.
  { intros id k s' Hk. apply wp_pbind. eapply wp_mono; [|apply prog_guarded|].
    - cbn beta. intros a s2 _ _. destruct (Hk a) as [resp ->]. exact (Hout resp s2).
    - apply quiet_lawful, DeleteSession_quiet. }
  unfold session_gate_steps, session_gate. destruct (session_cookie r) as [id|] eqn:Hc; [|apply Hout].
  apply wp_bind, (GetSession_wp _ (lawful_reads r s0)). intros s1 s1' Hs1 Hs1'.
  rewrite GetSession_run. cbn [fst].
  destruct (w_fault s1.1 0); [destruct (errors_is _ _); apply Hout|].
  destruct (sessions (w_db s1.1) !! id) as [row|] eqn:Hrow; [|destruct (errors_is _ _); apply Hout].
  destruct (operators (w_db s1.1) !! s_operator_id row) as [o1|]; [|destruct (errors_is _ _); apply Hout].
  apply wp_bind, wp_local; [apply lawful_reads|]. intros s2 s2' Hs2 Hs2'. cbn [now fst].
  cbn [scanSession Sess_ExpiresAt Sess_LastSeenAt Sess_ID Sess_OperatorID]. rewrite idle_sub.
  destruct (_ || _) eqn:Eexp; [apply Hend; by eexists|].
  apply orb_false_iff in Eexp as [Ee Ei]. apply Z.ltb_ge in Ee, Ei.
  apply wp_bind, (GetOperator_wp _ (lawful_reads r s0)). intros s3 s3' Hs3 Hs3'.
  rewrite GetOperator_run. cbn [fst].
  destruct (w_fault s3.1 0); [destruct (errors_is _ _); [apply Hend; by eexists|apply Hout]|].
  destruct (operators (w_db s3.1) !! s_operator_id row) as [o|] eqn:Ho;
    [|destruct (errors_is _ _); [apply Hend; by eexists|apply Hout]].
  cbn [scanOperator Op_Status Op_ID Op_Email Op_Role].
  destruct (o_status o <>s OperatorStatusActive) eqn:Hact; [apply Hend; by eexists|].
  ends. apply negb_false_iff, String.eqb_eq in Hact.
  exists id, row, o, s1, s2, s3. repeat (split; [first [done|by etrans]|]). by etrans.
Qed.

(** The guards on a request that is not safe, of which nothing is asked at
    its end. *)
#[local] Abbreviation obeys r s0 p s := (passes (lawful r s0) p (fun _ _ => True) s).

Lemma CSRFGuard_wp next (Hn : steps_handler (R := advances) next) r s0 s :
  safe_method (r_method r) = false ->
  (parseOrigin (origin_of r) = Some expected -> obeys r s0 (program (Hn r)) s) ->
  obeys r s0 (program (CSRFGuard_steps expected next Hn r)) s.
Proof.
  intros Hsafe Hnext. unfold CSRFGuard_steps, CSRFGuard.
  destruct (safe_method (r_method r)); [done|]. fold (origin_of r).
  destruct (parseOrigin (origin_of r)) as [got|]; [|by ends].
  destruct (origin_eqb got expected) eqn:E; [|by ends].
  apply origin_eqb_eq in E as ->. by apply Hnext.
Qed.

(** A readonly operator is refused, which the audit log records. *)
Lemma RequireRole_wp next (Hn : steps_handler (R := advances) next) op r r0 s0 s :
  safe_method (r_method r) = false -> TrimRightByte (r_path r) "/" <> "/api/v1/auth/logout" ->
  ao_Role op = RoleReadonly ->
  obeys r0 s0 (program (RequireRole_steps next Hn (WithOperator op r))) s.
Proof.
  intros Hsafe Hpath Hrole. unfold RequireRole_steps, RequireRole, WithOperator, OperatorFromContext.
  cbn [r_method r_path r_operator]. destruct (safe_method (r_method r)); [done|].
  match goal with |- context [nonGETAllowListForReadonly ?p] =>
    destruct (nonGETAllowListForReadonly p) eqn:Hal end.
  { exfalso. destruct (TrimRightByte (r_path r) "/" =s "") eqn:Et; [done|].
    by apply String.eqb_eq in Hal. }
  destruct (ao_Role op =s RoleReadonly) eqn:E; [|by apply String.eqb_neq in E].
  apply quiet_lawful. apply guarded_pbind; [apply WriteFromRequest_quiet|done].
Qed.

Lemma writing_route_wp h (Hh : steps_handler (R := advances) h) r p s :
  writing p -> route_match p.1 p.2 (r_method r) (r_path r) ->
  obeys r s (program (admin_route_steps expected h Hh r)) s.
Proof.
  intros (m & seg & Hpm & Hsafe & Hseg & Hlit & Hstar & Hauth) [Hm Hpat]. rewrite Hpm in Hm. subst m.
  apply CSRFGuard_wp; [done|]. intros Ho. unfold RequireSession_steps, RequireSession. apply wp_bind.
  eapply wp_mono; [|apply prog_guarded|apply session_gate_wp]. cbn beta.
  intros [resp|[[sess op] t]] s1 _ Hstand; [by ends|].
  destruct (ao_Role op =s RoleReadonly) eqn:Hrole.
  2:{ apply String.eqb_neq in Hrole. apply cleared_lawful; [|apply prog_guarded].
      split; [done|]. by exists op. }
  apply String.eqb_eq in Hrole. apply wp_bind. eapply wp_mono; [|apply prog_guarded|].
  - cbn beta. intros resp s2 _ _. apply quiet_lawful.
    destruct (accepted _ _); [|done]. apply guarded_pbind; [|done].
    apply guarded_pbind; [apply TouchSession_quiet|done].
  - apply RequireRole_wp; [done| |done]. intros Hl%logout_segment.
    pose proof (segments_match_lookup _ _ _ _ Hpat Hseg Hlit Hstar). congruence.
Qed.
End Writes.
