(* ===== verification/ConcurrencySpec.v ===== *)
(** * What holds of requests that run at the same time

    The integrity of the database under every schedule, and among other
    requests: forward-auth, signing in, the right to write business data.
    The last part runs schedules: two of them reach states that no order of
    whole requests reaches. *)
From Stdlib Require Import ZArith Lia Ascii.
From stdpp Require Import base gmap strings list relations.
From S2P Require Import Prelude GoStrings Errors State Tables Effects AccountStore.
From S2P Require Import ComponentStore SessionStore OperatorStore StoreInvariant StoreMethods OperatorSpec ComponentCache.
From S2P Require Import Http ForwardAuth ForwardAuthSpec StoreSpec AdminGuards GuardsSpec AuthSpec KeysHandler AdminUI.
From S2P Require Import RequestMeta IssueSpec AccountsHandler AuthHandler Server Background Fixtures ServerSpec Steps Schedules CacheLaw Interleaving Observations.
Open Scope packyard_scope.
Open Scope eff_scope.

Section Service.
Context `{SqlDriver} `{UnicodeTables} `{Router} (cfg : Wiring).
Context (MkdirAll : string -> option string).
Context (file_server : string -> Response).

(** The service: any number of requests and reaper passes under way. *)
Definition under_way (p : Prog (option Response)) : Prop :=
  exists e, p = prog (event_steps cfg MkdirAll file_server e).

Definition pool : relation (list (Prog (option Response)) * Shared) := sched under_way.

Lemma under_way_guarded p : under_way p -> guarded advances p.
Proof. intros [e ->]. apply prog_guarded. Qed.
Lemma under_way_obeys p : under_way p -> obeys p.
Proof. intros [e ->]. apply prog_obeys. Qed.

(** C8. Whatever requests and reaper passes are under way together, and in
    whatever order their statements, transactions and critical sections run,
    whatever the clock, the entropy and the driver's failures: the database
    keeps its integrity and an active admin, revoked keys stay revoked, and
    the audit log only grows.  Two admins who demote each other at once do
    not leave the service without one. *)
Theorem concurrent_integrity ps w g w' g' :
  rtc pool ([], (w, g)) (ps, (w', g')) -> db_ok (w_db w) -> has_admin (w_db w) ->
  db_ok (w_db w') /\ has_admin (w_db w') /\ history (w_db w) (w_db w').
Proof.
  intros Hr Hok Hadm.
  destruct (rtc_sched_keeps under_way under_way_guarded _ _ Hr) as [_ [[[Hs Hh] Ha] _]]; [constructor|].
  split; [by apply Hs|]. split; [by apply Ha|done].
Qed.

(** C13. Every request is answered.  Requests may wait for a look-up that
    another leads.  In any state that requests and reaper passes under way can
    reach: if no more begin, then whichever take their steps, in whatever order,
    all have ended after finitely many; and as long as one has not, one that
    does not wait can take a step. *)
Theorem requests_end w0 ps x :
  rtc pool ([], (w0, no_calls)) (ps, x) ->
  Acc (flip goes_on) (ps, x) /\
  forall c, rtc goes_on (ps, x) c -> Forall halted c.1 \/ exists c', goes_on c c'.
Proof.
  intros Hr. split; [apply goes_on_acc|]. intros c Hc. apply leads_land_goes.
  apply (leads_land_run under_way) with w0.
  - intros p [e ->]. apply prog_balanced.
  - etrans; [exact Hr|]. eapply rtc_subrel, Hc. intros ? ?. apply goes_on_sched.
Qed.

(** A history of the service is one of its schedules, in which no call of the
    group is joined. *)
Lemma run_service_scheduled es w :
  exists ps g, rtc pool ([], (w, no_calls)) (map Halt ps, ((run_service cfg MkdirAll file_server es w).2, g)) /\
    omap id ps = (run_service cfg MkdirAll file_server es w).1.
Proof.
  enough (forall es w g qs, leading g = ∅ -> exists ps g',
    rtc pool (map Halt qs, (w, g))
      (map Halt (qs ++ ps), ((run_service cfg MkdirAll file_server es w).2, g')) /\
    omap id ps = (run_service cfg MkdirAll file_server es w).1) as Hgen by by apply (Hgen es w no_calls []).
  clear. induction es as [|e es IH]; intros w g qs Hg.
  { exists [], g. rewrite app_nil_r. by split. }
  set (m := run_event cfg MkdirAll file_server e).
  set (p := prog (event_steps cfg MkdirAll file_server e)).
  destruct (sched_solo under_way (length qs) p (map Halt qs ++ [p]) w g None) as (g' & Hsolo & Hg').
  { by rewrite lookup_app_r, length_map, Nat.sub_diag by by rewrite length_map. }
  { apply prog_balanced. }
  { done. }
  unfold p in Hsolo. rewrite prog_run in Hsolo. fold p m in Hsolo.
  destruct (IH (m w).2 g' (qs ++ [(m w).1]) Hg') as (ps & g2 & Hr & Hps).
  exists ((m w).1 :: ps), g2. cbn [run_service]. rewrite bind_run. fold m. rewrite bind_run. cbn [ret fst snd].
  split; [|rewrite <- Hps; by destruct (m w).1].
  eapply rtc_l; [apply (sched_start under_way p); by eexists|].
  etrans; [exact Hsolo|].
  replace (<[length qs := _]> _) with (map (@Halt _) (qs ++ [(m w).1])).
  - by rewrite <- app_assoc in Hr.
  - rewrite insert_app_r_alt, length_map, Nat.sub_diag, map_app by by rewrite length_map. done.
Qed.
End Service.

Section Concurrent.
Context `{SqlDriver} `{UnicodeTables} `{Router} (cfg : Wiring).
Context (MkdirAll : string -> option string).
Context (file_server : string -> Response).
#[local] Abbreviation pool := (pool cfg MkdirAll file_server).
#[local] Abbreviation event_steps := (event_steps cfg MkdirAll file_server).
#[local] Abbreviation history_of := (traced pool snd).

Lemma under_way_threads x0 ps x : rtc pool ([], x0) (ps, x) -> Forall (guarded advances) ps.
Proof.
  intros Hr. eapply (rtc_sched_keeps _ (under_way_guarded cfg MkdirAll file_server)) in Hr as [Hg _]; [exact Hg|constructor].
Qed.

(** The pool in a run of the service that began with an empty cache. *)
Record running (s : moment) (ps : list (Prog (option Response))) : Prop := {
  running_guarded : Forall (guarded advances) ps;
  running_held : Forall (held s) ps;
  running_abides : abides s;
  running_fresh : fresh_start s }.

Lemma running_start x0 : fresh x0 -> running (at_moment x0 []) [].
Proof. intros Hx0. split; [constructor|constructor|apply abides_start|]. exists x0. by destruct x0. Qed.

Lemma fresh_traced {C} (step : relation C) shared c h0 h c' :
  traced step shared c h c' -> fresh_start (at_moment (shared c) h0) -> fresh_start (at_moment (shared c') (h ++ h0)).
Proof.
  intros Hr (x0 & Hl & Hx0). exists x0. split; [|done].
  assert (forall x k, here (at_moment x k) :: past (at_moment x k) = x :: k) as Hhere by by intros [].
  rewrite Hhere in Hl |- *. by rewrite (traced_last _ _ _ _ _ h0 Hr).
Qed.

Lemma running_pool x h0 ps h ps' x' :
  history_of (ps, x) h (ps', x') -> running (at_moment x h0) ps -> running (at_moment x' (h ++ h0)) ps'.
Proof.
  intros Hr [Hg Hh Ha Hf].
  destruct (pool_abides _ (under_way_obeys cfg MkdirAll file_server) (ps, x) h0 h (ps', x') Hr Hh Ha) as [Hh' Ha'].
  split; [|done..|by apply (fresh_traced pool snd (ps, x) h0 h (ps', x'))].
  by apply traced_rtc, (rtc_sched_keeps _ (under_way_guarded cfg MkdirAll file_server)) in Hr as [? _].
Qed.

Lemma running_observed {B} (p : Prog B) x h0 ps h y :
  observed (under_way cfg MkdirAll file_server) (p, (ps, x)) h y -> obeys p -> running (at_moment x h0) ps ->
  running (at_moment y.2.2 (h ++ h0)) y.2.1.
Proof.
  intros Hr Hp [Hg Hh Ha Hf]. pose proof (under_way_obeys cfg MkdirAll file_server) as Hstarts.
  destruct (observed_abides _ Hstarts p (ps, x) h0 h y Hr (Hp _) Hh Ha) as [Hh' Ha'].
  split; [|done..|by apply (fresh_traced (watched (under_way cfg MkdirAll file_server)) (fun y => y.2.2) (p, (ps, x)) h0 h y)].
  exact (observed_keeps _ (under_way_guarded cfg MkdirAll file_server) p (ps, x) h y Hr Hg).
Qed.

(** Forward-auth at any time of such a run. *)
Lemma forward_auth_running r x h0 ps h resp ps' x' :
  running (at_moment x h0) ps ->
  observed (under_way cfg MkdirAll file_server)
    (prog (ServeHTTP_steps (R := advances) (cacheTTL cfg) r), (ps, x)) h (Halt resp, (ps', x')) ->
  (Z.of_nat (length (h ++ h0)) < 2 ^ 64)%Z ->
  ar_status resp = 200%Z ->
  (request_method r = "GET" \/ request_method r = "HEAD") /\
  entitled (public_seen (cacheTTL cfg)) r (at_moment x h0) (at_moment x' (h ++ h0)) resp.
Proof.
  intros Hps Hr Hlen H200.
  destruct (running_observed _ x h0 ps h _ Hr (prog_obeys _ _) Hps) as [_ _ Ha Hf].
  destruct (wp_sound _ (under_way_guarded cfg MkdirAll file_server) _ _ _ _ _ _ _ _ _ h0 _ Hr
    (running_guarded _ _ Hps) (ServeHTTP_wp _ r _) H200) as [Hm He].
  split; [done|]. eapply entitled_mono, He. intros c. by apply found_seen.
Qed.

(** C10. Forward-auth among other requests, cache and shared look-ups and all.
    The service starts with an empty cache; a request arrives while any others
    are under way, and more may arrive before it ends.  If it is answered 200,
    it is a GET or HEAD, and either its component was answered public: then
    its row was public at some moment of the run, from which on nothing evicted
    the component until it was looked up, after the request arrived (with the
    cache off, it was public when it was looked up); or the request joined a
    look-up of another that was under way when it arrived, and the row was
    public in the course of that.  Or else its key was active and of that
    component when it was looked up, and the key's account was active when that
    was: in worlds that the run went through, in this order, after the request
    arrived.  In particular, whatever happens meanwhile, a key that was revoked
    before is refused.  The run has less than 2^64 steps, so that no generation
    wraps. *)
Theorem forward_auth_concurrent r x0 h0 ps x h resp ps' x' :
  history_of ([], x0) h0 (ps, x) -> fresh x0 ->
  observed (under_way cfg MkdirAll file_server)
    (prog (ServeHTTP_steps (R := advances) (cacheTTL cfg) r), (ps, x)) h (Halt resp, (ps', x')) ->
  (Z.of_nat (length (h ++ h0)) < 2 ^ 64)%Z ->
  ar_status resp = 200%Z ->
  (request_method r = "GET" \/ request_method r = "HEAD") /\
  entitled (public_seen (cacheTTL cfg)) r (at_moment x h0) (at_moment x' (h ++ h0)) resp /\
  (ar_label resp = allowed -> forall user pw, BasicAuth r = Some (user, pw) -> ~ shut (w_db x.1) pw).
Proof.
  intros Hbefore Hx0 Hr Hlen H200.
  apply (running_pool x0 []) in Hbefore; [|by apply running_start]. rewrite app_nil_r in Hbefore.
  destruct (forward_auth_running r x h0 ps h resp ps' x' Hbefore Hr Hlen H200) as [Hm He].
  split; [done|]. split; [done|]. intros Hl user pw Hb.
  destruct He as (c & _ & [[Hl' _]|(_ & u & p & Hb' & Hk)]); [congruence|].
  rewrite Hb in Hb'. injection Hb' as -> ->. by apply seen_not_shut in Hk.
Qed.

(** C12. Signing in among other requests.  Whatever runs between the steps of a
    callback, other callbacks with the same cookie included: if it hands out a
    session, then since it arrived the run went through worlds in which, in
    this order, the browser's handle named live secrets whose state and
    provider are those of the request, which the callback's next step removed,
    so that no other callback gets them; the provider exchanged the code,
    under the flow's own verifier, for an identity with an email; that email,
    canonicalised, was the email of an active operator; and a session of that
    operator, whose id no session had, was inserted, with the id and the
    expiry of the cookie. *)
Theorem callback_concurrent Providers redir r x0 ps x h resp ps' x' :
  rtc pool ([], x0) (ps, x) ->
  observed (under_way cfg MkdirAll file_server)
    (prog (Callback_steps (R := advances) Providers redir r), (ps, x)) h (Halt resp, (ps', x')) ->
  issues_session resp -> completed Providers r resp (at_moment x []) (at_moment x' h).
Proof.
  intros Hbefore Hr.
  apply under_way_threads in Hbefore as Hps.
  rewrite <- (app_nil_r h).
  exact (wp_sound _ (under_way_guarded cfg MkdirAll file_server) _ _ _ _ _ _ _ _ _ [] _ Hr Hps
    (Callback_wp Providers redir r _)).
Qed.

Lemma serve_wp b r s :
  passes (lawful (adminOrigin cfg) r s) (program (serve_steps cfg MkdirAll file_server b r))
    (fun _ _ => True) s.
Proof.
  unfold serve_steps, serve. destruct (find_route _ _ _) as [[i params]|] eqn:Hf.
  2:{ apply quiet_lawful. apply (prog_guarded _ (unmatched_steps cfg r _)). }
  apply find_route_sound in Hf as (m & pat & Hi & Hm). rewrite list_lookup_fmap in Hi.
  generalize (each_lookup _ (routes_steps cfg MkdirAll file_server b) i).
  destruct (routes _ _ _ b !! i) as [e|]; [|done]. injection Hi as He. intros t.
  destruct t as [p' h q|p' h Hw t]; cbn [route_prog fst snd] in *; subst p'.
  - apply quiet_lawful. apply (prog_guarded _ (q (with_params params r))).
  - apply (writing_route_wp (adminOrigin cfg) h t (with_params params r) (m, pat) s); done.
Qed.

(** Thread [i] of a run that began with [x0] is the event [e], which arrived at [s0]. *)
Definition begun (x0 : Shared) (i : nat) (e : event) (s0 : moment)
    (h : list Shared) (c : list (Prog (option Response)) * Shared) : Prop :=
  exists ps0 h1, history_of ([], x0) (past s0) (ps0, here s0) /\ length ps0 = i /\
    history_of (ps0 ++ [prog (event_steps e)], here s0) h1 c /\ h = h1 ++ here s0 :: past s0.

Definition event_lawful (e : event) (s0 s : moment) (w : World) : Prop :=
  match e with
  | Arrives _ r => lawful (adminOrigin cfg) r s0 s w
  | _ => unwritten (w_db s.1) (w_db w)
  end.

Lemma event_wp e s : passes (event_lawful e s) (prog (event_steps e)) (fun _ _ => True) s.
Proof.
  assert (forall p : Prog (option Response), guarded quietly p ->
    passes (fun s' w => unwritten (w_db s'.1) (w_db w)) p (fun _ _ => True) s) as Hreap.
  { intros p Hp. apply (wp_guarded quietly_advances); [done|]. by intros ? ? _ [_ ?]. }
  destruct e as [b r| |]; cbn [event_lawful].
  - apply wp_bind. eapply wp_mono; [|apply prog_guarded|apply serve_wp]. by intros ? ? _ _.
  - apply Hreap, guarded_pbind; [exact (prog_guarded _ (reap_states_steps (R := quietly)))|done].
  - apply Hreap, guarded_pbind; [exact (prog_guarded _ (reap_limiter_steps (R := quietly) _))|done].
Qed.

(** What every thread of a run is, and what its steps may do. *)
Lemma threads x0 h ps x :
  history_of ([], x0) h (ps, x) ->
  Forall (guarded advances) ps /\
  forall i p, ps !! i = Some p -> exists e s0, begun x0 i e s0 h (ps, x) /\
    passes (event_lawful e s0) p (fun _ _ => True) (at_moment x h).
Proof.
  remember ([], x0) as c0 eqn:E0. remember (ps, x) as c eqn:E. intros Hr. revert ps x E.
  induction Hr as [c|c h c1 c2 Hr IH Hs]; intros ps x E; subst.
  { injection E as <- <-. split; [constructor|done]. }
  destruct c1 as [ps1 x1]. destruct (IH eq_refl ps1 x1 eq_refl) as [Hg Hth].
  destruct (sched_keeps _ (under_way_guarded cfg MkdirAll file_server) _ _ Hs Hg) as [Hg2 Hw].
  split; [done|]. intros i p Hi. cbn [fst snd] in *. rewrite <- next_at.
  assert (forall e s0, begun x0 i e s0 h (ps1, x1) -> begun x0 i e s0 (x1 :: h) (ps, x)) as Hbegun.
  { intros e s0 (ps0 & h1 & Hs1 & Hl & Hs2 & ->). exists ps0, (x1 :: h1).
    split; [done|]. split; [done|]. split; [exact (traced_snoc _ snd _ h1 (ps1, x1) (ps, x) Hs2 Hs)|done]. }
  assert (here (at_moment x1 h) = x1) as Hhere by by destruct x1.
  inversion Hs as [j q ps' x' Hj|q ps' x' [e Hq]]; subst.
  - destruct (decide (j = i)) as [->|Hne].
    + rewrite list_lookup_insert_eq in Hi by by eapply lookup_lt_Some. injection Hi as <-.
      destruct (Hth i q Hj) as (e & s0 & Hb & Hp). exists e, s0. split; [by apply Hbegun|].
      rewrite <- Hhere at 1 2. by apply wp_self.
    + rewrite list_lookup_insert_ne in Hi by done.
      destruct (Hth i p Hi) as (e & s0 & Hb & Hp). exists e, s0. split; [by apply Hbegun|].
      apply wp_other; [done|by rewrite Hhere].
  - apply lookup_app_Some in Hi as [Hi|[Hle Hi]].
    + destruct (Hth i p Hi) as (e' & s0 & Hb & Hp). exists e', s0. split; [by apply Hbegun|].
      apply wp_other; [done|by rewrite Hhere].
    + apply list_lookup_singleton_Some in Hi as [Hz <-]. exists e, (at_moment x h). split.
      * exists ps1, []. rewrite Hhere. split; [done|]. split; [cbn in Hle; lia|]. split; [constructor|done].
      * apply wp_other; [apply event_wp|by rewrite Hhere].
Qed.

(** C9. Nothing but an authorised operator's request writes business data,
    whatever else is under way.  In any run of requests and reaper passes,
    whichever thread's step changes accounts, components, keys (beyond their
    usage counters) or operators (beyond what a login records): that thread
    is a request whose Origin (or Referer) is the configured admin host, and
    since it arrived the run went through worlds in which, in this order, its
    session's row existed, the session was within its lifetimes, and the
    session's operator was active and not readonly. *)
Theorem concurrent_writes_authorised x0 h ps x i p :
  history_of ([], x0) h (ps, x) -> ps !! i = Some p ->
  ~ unwritten (w_db x.1) (w_db (step p x).2.1) ->
  exists b r s0, begun x0 i (Arrives b r) s0 h (ps, x) /\ cleared (adminOrigin cfg) r s0 (at_moment x h).
Proof.
  intros Hr Hi Hw. destruct (threads _ _ _ _ Hr) as [_ Hth]. destruct (Hth i p Hi) as (e & s0 & Hb & Hp).
  apply wp_step in Hp. assert (here (at_moment x h) = x) as Hhere by by destruct x. rewrite Hhere in Hp.
  destruct Hp as [Hl|Heq]; [|exfalso; apply Hw; by rewrite Heq].
  destruct e as [b r| |]; [|done..]. destruct Hl as [Hl|Hl]; [done|]. by exists b, r, s0.
Qed.
End Concurrent.

(** ** Schedules *)
(** A schedule that can be run: an event begins, the thread with this number
    takes a step, the computation under observation takes one. *)
Inductive move := Begin (e : event) | Turn (i : nat) | Watched.

Section Play.
Context `{SqlDriver} `{UnicodeTables} `{Router} (cfg : Wiring).
Context (MkdirAll : string -> option string).
Context (file_server : string -> Response).
Let conf : Type := (list (Prog (option Response)) * Shared)%type.

Definition turn {A} (m : move) (c : Prog A * conf) : Prog A * conf :=
  match m with
  | Begin e => (c.1, (c.2.1 ++ [prog (event_steps cfg MkdirAll file_server e)], c.2.2))
  | Turn i =>
      match c.2.1 !! i with
      | Some p => let '(p', x) := step p c.2.2 in (c.1, (<[i := p']> c.2.1, x))
      | None => c
      end
  | Watched => let '(p', x) := step c.1 c.2.2 in (p', (c.2.1, x))
  end.

Definition play {A} (ms : list move) (c : Prog A * conf) : Prog A * conf :=
  fold_left (fun c m => turn m c) ms c.

Lemma play_observed {A} ms (c : Prog A * conf) :
  exists h, observed (under_way cfg MkdirAll file_server) c h (play ms c) /\ length h <= length ms.
Proof.
  revert c. induction ms as [|m ms IH]; intros [p [ps x]]; [exists []; split; [constructor|done]|].
  cbn [play fold_left].
  enough (exists h, observed (under_way cfg MkdirAll file_server) (p, (ps, x)) h (turn m (p, (ps, x))) /\
    length h <= 1) as (h & Hm & Hl).
  { destruct (IH (turn m (p, (ps, x)))) as (h' & Hr & Hl'). exists (h' ++ h). split; [by eapply traced_app|].
    rewrite length_app. cbn. lia. }
  destruct m as [e|i|]; cbn [turn fst snd].
  - eexists. split; [apply traced_once, watched_other, sched_start; by exists e|done].
  - destruct (ps !! i) as [q|] eqn:Hi; [|exists []; split; [constructor|cbn; lia]].
    pose proof (sched_act (under_way cfg MkdirAll file_server) i q ps x Hi) as Hs.
    destruct (step q x). eexists. split; [by apply traced_once, watched_other|done].
  - pose proof (watched_self (under_way cfg MkdirAll file_server) p ps x) as Hs.
    destruct (step p x). eexists. split; [by apply traced_once|done].
Qed.

(** Nothing is under observation. *)
Lemma play_history ms (c : conf) :
  exists h, traced (pool cfg MkdirAll file_server) snd c h (play ms (Halt tt, c)).2 /\ length h <= length ms.
Proof.
  destruct (play_observed ms (Halt tt, c)) as (h & Hr & Hl).
  enough (forall (x y : Prog unit * conf) h, observed (under_way cfg MkdirAll file_server) x h y ->
    x.1 = Halt tt -> y.1 = Halt tt /\
      exists h', traced (pool cfg MkdirAll file_server) snd x.2 h' y.2 /\ length h' <= length h) as Hgen.
  { destruct (Hgen _ _ _ Hr eq_refl) as (_ & h' & ? & ?). exists h'. split; [done|lia]. }
  clear. induction 1 as [x|x h y z _ IH Hs]; intros Hx.
  { split; [done|]. exists []. split; [constructor|done]. }
  destruct (IH Hx) as (Hy & h' & Hr & Hl).
  inversion Hs as [p ps x1|p c c']; subst; cbn [fst snd] in *; subst.
  - split; [done|]. exists h'. split; [done|cbn; lia].
  - split; [done|]. exists (c.2 :: h'). split; [by eapply traced_snoc|cbn; lia].
Qed.
End Play.

(** ** Concrete runs *)
Definition demo_shared (db : Database) : Shared := (demo_world db, no_calls).

#[local] Abbreviation demo_run := (@play sqlite_driver ascii_tables first_match_router demo_wiring
  (fun _ => None) (fun _ => no_content) _).
#[local] Abbreviation demo_play ms p db := (demo_run ms (p, ([], demo_shared db))).

Definition admin_request (method path : string) : Request :=
  demo_request method path [("Origin", "https://admin.example.org")] [(SessionCookieName, "sess")].

Definition issue_key : event :=
  Arrives (mkBodies (Some (mkCreateKey "acct" "core" "late" None)) None None None None None None)
    (admin_request "POST" "/api/v1/keys").
Definition close_account : event :=
  Arrives no_bodies (confirmed "acct" (admin_request "DELETE" "/api/v1/accounts/acct")).
Definition activate_account : event :=
  Arrives (mkBodies None None None None (Some (mkUpdateAccount None None (Some "active"))) None None)
    (admin_request "PATCH" "/api/v1/accounts/acct").
Definition revoke_key : event := Arrives no_bodies demo_revoke.

Definition turns (i n : nat) : list move := repeat (Turn i) n.
Definition in_one_go (i : nat) (e : event) : list move := Begin e :: turns i 20.

(** The answers of the pool, the accounts and the keys. *)
Definition outcomes {A} (c : Prog A * (list (Prog (option Response)) * Shared)) :
    list (option Z) * list (string * string) * list (string * string * Z) :=
  (map (fun p => match p with Halt (Some r) => Some (rs_status r) | _ => None end) c.2.1,
   map (fun kv => (kv.1, a_status kv.2)) (map_to_list (accounts (w_db c.2.2.1))),
   map (fun kv => (stake 4 kv.1, k_account_id kv.2, k_active kv.2)) (map_to_list (subscription_key (w_db c.2.2.1)))).

(** POST /keys checks the account, then the account is deleted with its keys,
    then the key is inserted: it stays active under a deleted account. *)
Example key_issued_to_deleted_account :
  outcomes (demo_play ([Begin issue_key] ++ turns 0 4 ++ in_one_go 1 close_account ++ turns 0 20) (Halt tt) demo_db) =
    ([Some 201; Some 200]%Z, [("acct", "deleted"); ("legacy", "active")],
     [("0001", "acct", 1%Z); ("0000", "acct", 0%Z)]).
Proof. vm_compute. reflexivity. Qed.

(** PATCH /accounts/acct checks that the account is not deleted, then it is
    deleted, then the update, which has no such condition, makes it active. *)
Example deleted_account_reopened :
  outcomes (demo_play ([Begin activate_account] ++ turns 0 4 ++ in_one_go 1 close_account ++ turns 0 20) (Halt tt) demo_db) =
    ([Some 200; Some 200]%Z, [("acct", "active"); ("legacy", "active")], [("0000", "acct", 0%Z)]).
Proof. vm_compute. reflexivity. Qed.

(** One after the other, the same requests leave the account deleted. *)
Example deleted_account_stays :
  map (fun ms => (outcomes (demo_play ms (Halt tt) demo_db)).1.1)
    [in_one_go 0 activate_account ++ in_one_go 1 close_account;
     in_one_go 0 close_account ++ in_one_go 1 activate_account] =
    [[Some 200; Some 200]%Z; [Some 200; Some 404]%Z].
Proof. vm_compute. reflexivity. Qed.

(** The key and the account are looked up one after the other, so both being
    active at their moments does not mean that they ever were together: here
    the key is revoked before the account becomes active, and the answer is 200. *)
Definition suspended_db : Database :=
  set_accounts (<["acct" := mkAccountRow "ops@example.org" (Some "Example") "suspended" demo_second "op"]>
    demo_accounts) demo_db.
Definition straddle : list move :=
  repeat Watched 8 ++ in_one_go 0 revoke_key ++ in_one_go 1 activate_account ++ repeat Watched 5.
Definition demo_forward : Prog AuthResponse := prog (R := advances) (@ServeHTTP_steps sqlite_driver ascii_tables advances _ bookkeeping (30 * Second) demo_read).

Example no_single_moment :
  (demo_play straddle demo_forward suspended_db).1 = Halt (respond allowed) /\
  forallb (fun n => match verdict (w_db (demo_play (take n straddle) demo_forward suspended_db).2.2.1) demo_read with
                    | denied => true | _ => false end) (seq 0 (S (length straddle))) = true.
Proof. split; vm_compute; reflexivity. Qed.

(** Two requests and a reaper in turn. *)
Definition demo_mix : list move :=
  [Begin issue_key; Begin close_account; Begin StatesReaped] ++ concat (repeat [Turn 1; Turn 0; Turn 2] 20).

Lemma concurrent_integrity_witness :
  let w' := (demo_play demo_mix (Halt tt) demo_db).2.2.1 in
  db_ok (w_db w') /\ has_admin (w_db w') /\ history demo_db (w_db w').
Proof.
  destruct (@play_history sqlite_driver ascii_tables first_match_router demo_wiring
    (fun _ => None) (fun _ => no_content) demo_mix ([], demo_shared demo_db)) as (h & Hr & _).
  apply traced_rtc in Hr.
  cbv zeta. revert Hr. destruct (play _ _ _ demo_mix _).2 as [ps [w' g']] eqn:Ew. cbn [fst snd]. intros Hr.
  apply (@concurrent_integrity sqlite_driver ascii_tables first_match_router demo_wiring
    (fun _ => None) (fun _ => no_content) ps (demo_world demo_db) no_calls w' g' Hr demo_ok).
  exists "op", demo_admin. split; vm_compute; reflexivity.
Defined.

Definition public_read : Request :=
  demo_request "GET" "/auth" [("X-Forwarded-Method", "GET"); ("X-Forwarded-Uri", "/rpm/pub/x")] [].
Definition read_event : event := Arrives no_bodies public_read.
Definition close_component : event :=
  Arrives (mkBodies None None (Some (mkPatch (Some "private") None None None)) None None None None)
    (admin_request "PATCH" "/api/v1/components/pub").
Definition demo_public : Prog AuthResponse :=
  prog (R := advances) (@ServeHTTP_steps sqlite_driver ascii_tables advances _ bookkeeping (30 * Second) public_read).

(** What is known of "pub": its visibility, whether it is in the cache, and
    whether a look-up is under way. *)
Definition pub_state (x : Shared) : option string * bool * bool :=
  (c_visibility <$> components (w_db x.1) !! "pub",
   bool_decide (is_Some (cache_entries (w_cache x.1) !! "pub")),
   bool_decide (is_Some (leading x.2 !! "pub"))).

Definition pool_status {A} (c : Prog A * (list (Prog (option Response)) * Shared)) : list (option Z) :=
  map (fun p => match p with Halt (Some r) => Some (rs_status r) | _ => None end) c.2.1.

(** A request makes "pub" private.  Before it commits, a read has missed the
    cache, begun a look-up, and read the row; after it has been answered 200,
    another read arrives, joins that look-up, and is answered as public. *)
Definition before_join : list move :=
  [Begin read_event] ++ turns 0 3 ++ [Begin close_component] ++ turns 1 11 ++ turns 0 3 ++ turns 1 20.
Definition during_join : list move := repeat Watched 4 ++ turns 0 10 ++ repeat Watched 8.

Example late_join_public :
  let c := (demo_play before_join (Halt tt) demo_db).2 in
  (pub_state c.2, pool_status (Halt tt, c)) = ((Some "private", false, true), [None; Some 200%Z]) /\
  (demo_run during_join (demo_public, c)).1 = Halt (respond allowed_public).
Proof. split; vm_compute; reflexivity. Qed.

(** A third read waits for the look-up too. *)
Definition waiting_moves : list move := before_join ++ [Begin read_event] ++ turns 2 5.

Lemma requests_end_witness :
  let c := (demo_play waiting_moves (Halt tt) demo_db).2 in
  map (fun p => bool_decide (blocked p c.2)) c.1 = [false; true; true] /\
  pool_status (Halt tt, c) = [None; Some 200%Z; None] /\
  Acc (flip goes_on) c /\ forall c', rtc goes_on c c' -> Forall halted c'.1 \/ exists c2, goes_on c' c2.
Proof.
  split; [vm_compute; reflexivity|]. split; [vm_compute; reflexivity|].
  destruct (@play_history sqlite_driver ascii_tables first_match_router demo_wiring
    (fun _ => None) (fun _ => no_content) waiting_moves ([], demo_shared demo_db)) as (h & Hr & _).
  apply traced_rtc in Hr. revert Hr. destruct (play _ _ _ waiting_moves _).2 as [ps x]. intros Hr.
  exact (@requests_end sqlite_driver ascii_tables first_match_router demo_wiring
    (fun _ => None) (fun _ => no_content) (demo_world demo_db) ps x Hr).
Defined.

(** Once that look-up has ended, a read is refused. *)
Example read_after_join :
  (demo_run (repeat Watched 15) (demo_public, (demo_play (before_join ++ turns 0 10) (Halt tt) demo_db).2)).1 =
    Halt (respond denied).
Proof. vm_compute. reflexivity. Qed.

(** "pub" is in the cache, and is made private: the update is committed and the
    entry not yet evicted when another read arrives, which is answered from
    the cache. *)
Definition before_read : list move := in_one_go 0 read_event ++ [Begin close_component] ++ turns 1 8.
Definition during_read : list move := repeat Watched 3 ++ turns 1 5 ++ repeat Watched 5.

Lemma forward_auth_concurrent_witness :
  let c := (demo_play before_read (Halt tt) demo_db).2 in
  let run := demo_run during_read (demo_public, c) in
  pub_state c.2 = (Some "private", true, false) /\ run.1 = Halt (respond allowed_public) /\
  exists h0 h, entitled (public_seen (30 * Second)%Z) public_read (at_moment c.2 h0) (at_moment run.2.2 h)
    (respond allowed_public).
Proof.
  destruct (@play_history sqlite_driver ascii_tables first_match_router demo_wiring
    (fun _ => None) (fun _ => no_content) before_read ([], demo_shared demo_db)) as (h0 & Hc & Hl0).
  assert (pub_state (demo_play before_read (Halt tt) demo_db).2.2 = (Some "private", true, false)) as Hv
    by (vm_compute; reflexivity).
  cbv zeta. revert Hc Hv. destruct (play _ _ _ before_read _).2 as [ps x] eqn:Ec. intros Hc Hv.
  destruct (@play_observed sqlite_driver ascii_tables first_match_router demo_wiring
    (fun _ => None) (fun _ => no_content) AuthResponse during_read (demo_public, (ps, x))) as (h & Hr & Hl).
  assert ((demo_run during_read (demo_public, (ps, x))).1 =
    Halt (respond allowed_public)) as Hrun by (rewrite <- Ec; vm_compute; reflexivity).
  revert Hr Hrun. destruct (play _ _ _ during_read _) as [p [ps' x']]. cbn [fst snd].
  intros Hr ->. split; [exact Hv|]. split; [reflexivity|]. exists h0, (h ++ h0).
  destruct (@forward_auth_concurrent sqlite_driver ascii_tables first_match_router demo_wiring
    (fun _ => None) (fun _ => no_content) public_read (demo_shared demo_db) h0 ps x h (respond allowed_public) ps' x'
    Hc (conj eq_refl eq_refl) Hr) as (_ & He & _); [|reflexivity|exact He].
  rewrite length_app. cbn in Hl0, Hl. lia.
Defined.

(** A key is revoked while its account is being deleted. *)
Definition before_write : list move := [Begin close_account; Begin revoke_key] ++ concat (repeat [Turn 1; Turn 0] 3).


Lemma key_status_written v db db' :
  bool_decide (k_active <$> subscription_key db !! v = k_active <$> subscription_key db' !! v) = false ->
  ~ unwritten db db'.
Proof.
  intros Hv%bool_decide_eq_false (_ & _ & Hk & _). apply Hv.
  apply (f_equal (fun t : gmap string key_row => k_active <$> t !! v)) in Hk.
  rewrite !lookup_fmap, <- !option_fmap_compose in Hk. exact (eq_sym Hk).
Qed.

Lemma demo_step_writes :
  let c := (demo_play before_write (Halt tt) demo_db).2 in
  match c.1 !! 1 with
  | Some p => bool_decide (k_active <$> subscription_key (w_db c.2.1) !! demo_key =
                           k_active <$> subscription_key (w_db (step p c.2).2.1) !! demo_key)
  | None => true
  end = false.
Proof. vm_compute. reflexivity. Qed.

Lemma concurrent_writes_authorised_witness :
  let c := (demo_play before_write (Halt tt) demo_db).2 in
  exists h b r s0,
    @begun sqlite_driver ascii_tables first_match_router demo_wiring (fun _ => None) (fun _ => no_content)
      (demo_shared demo_db) 1 (Arrives b r) s0 h c /\
    @cleared ascii_tables demo_origin r s0 (at_moment c.2 h).
Proof.
  destruct (@play_history sqlite_driver ascii_tables first_match_router demo_wiring
    (fun _ => None) (fun _ => no_content) before_write ([], demo_shared demo_db)) as (h & Hr & _).
  pose proof demo_step_writes as Hw. cbv zeta. cbv zeta in Hw. revert Hr Hw.
  destruct (play _ _ _ before_write _).2 as [ps w]. cbn [fst snd]. intros Hr Hw.
  destruct (ps !! 1) as [p|] eqn:Hp; [|discriminate Hw]. exists h.
  exact (@concurrent_writes_authorised sqlite_driver ascii_tables first_match_router demo_wiring
    (fun _ => None) (fun _ => no_content) (demo_shared demo_db) h ps w 1 p Hr Hp
    (key_status_written _ _ _ Hw)).
Defined.

(** Two callbacks of one browser race for one flow. *)
Definition demo_providers : gmap string OAuthProvider := {["github" := demo_provider]}.
Definition callback_wiring : Wiring :=
  mkWiring (cacheTTL demo_wiring) (rpmDataRoot demo_wiring) (keysHandler demo_wiring) demo_providers
    (adminOrigin demo_wiring) (indexHTML demo_wiring).
#[local] Abbreviation callback_run := (@play sqlite_driver ascii_tables first_match_router callback_wiring
  (fun _ => None) (fun _ => no_content) _).

Definition second_callback : event :=
  let r := demo_callback in
  Arrives no_bodies (mkRequest "GET" "/api/v1/auth/callback/github" (r_header r) (r_values r) (r_cookie r)
    (fun _ => "") (r_remote r) None).
Definition demo_signing : Prog Response :=
  prog (R := advances) (@Callback_steps sqlite_driver ascii_tables advances _ bookkeeping demo_providers "" demo_callback).
Definition race (k : nat) : list move :=
  [Begin second_callback] ++ turns 0 k ++ concat (repeat [Watched; Turn 0] 20).

Definition has_session (resp : Response) : bool :=
  existsb (fun c => sc_name c =s SessionCookieName) (rs_cookies resp).

(** Whoever takes the flow first gets the session, the other none. *)
Example one_session_per_flow :
  map (fun k => let c := callback_run (race k) (demo_signing, ([], (demo_login_world, no_calls))) in
         (match c.1 with Halt resp => Some (has_session resp) | _ => None end,
          map (fun p => match p with Halt (Some resp) => Some (has_session resp) | _ => None end) c.2.1))
    (seq 0 4) =
  [(Some true, [Some false]); (Some true, [Some false]); (Some true, [Some false]); (Some false, [Some true])].
Proof. vm_compute. reflexivity. Qed.

Lemma callback_concurrent_witness :
  exists resp w' h, issues_session resp /\
    @completed ascii_tables demo_providers demo_callback resp (at_moment (demo_login_world, no_calls) []) (at_moment w' h).
Proof.
  destruct (@play_observed sqlite_driver ascii_tables first_match_router callback_wiring
    (fun _ => None) (fun _ => no_content) Response (race 2) (demo_signing, ([], (demo_login_world, no_calls)))) as (h & Hr & _).
  assert (match (callback_run (race 2) (demo_signing, ([], (demo_login_world, no_calls)))).1 with
          | Halt resp => has_session resp | _ => false end = true) as Hs by (vm_compute; reflexivity).
  revert Hr Hs. destruct (play _ _ _ (race 2) _) as [p [ps' w']]. cbn [fst snd]. intros Hr Hs.
  destruct p as [resp| | |]; [|discriminate Hs..].
  assert (issues_session resp) as Hi.
  { apply existsb_exists in Hs as (c & Hc & Hn). exists c. split; [by apply list_elem_of_In|].
    by apply String.eqb_eq in Hn. }
  exists resp, w', h. split; [exact Hi|].
  exact (@callback_concurrent sqlite_driver ascii_tables first_match_router callback_wiring
    (fun _ => None) (fun _ => no_content) demo_providers "" demo_callback (demo_login_world, no_calls) [] (demo_login_world, no_calls) h resp
    ps' w' (rtc_refl _ _) Hr Hi).
Defined.
