(* ===== verification/WriteThenRead.v ===== *)
(** * Reads that begin after a write has answered

    The caching store evicts a component after a write of it has committed and
    before the write answers.  So whatever runs at the same time, a request
    that arrives after the answer is not let through as public on a row from
    before the write; unless a look-up of the component is still under way
    when it arrives ([ConcurrencySpec.late_join_public]). *)
From Stdlib Require Import ZArith Lia Ascii.
From stdpp Require Import base gmap strings list relations.
From S2P Require Import Prelude GoStrings Errors State Tables Effects ComponentStore ComponentCache.
From S2P Require Import Http ForwardAuth ForwardAuthSpec StoreSpec AdminGuards GuardsSpec AuthSpec KeysHandler AdminUI.
From S2P Require Import RequestMeta AuthHandler Server Background Fixtures ServerSpec Steps Schedules CacheLaw Interleaving Observations ConcurrencySpec.
Open Scope packyard_scope.
Open Scope eff_scope.

(** The methods of the store that the cache evicts after. *)
Inductive component_write `{SqlDriver} `{UnicodeTables} (c : string) : forall {A} {m : Eff (res A)}, Steps advances m -> Prop :=
| write_update p : component_write c (UpdateComponent_steps c p)
| write_delete : component_write c (DeleteComponent_steps c)
| write_revoke : component_write c (DeleteComponentWithRevoke_steps c).

Section Evicting.
Context `{SqlDriver} `{UnicodeTables} (ttl : Z).

Definition evicting_steps {A} c {m : Eff (res A)} (t : Steps advances m) : Steps advances (evicting ttl c m) :=
  steps_bind m _ t (fun r =>
    steps_bind (if is_ok r && enabled ttl then modify_cache (fun _ => true) (cache_evict c) else ret tt) _
      (if is_ok r && enabled ttl as b
         return Steps advances (if b then modify_cache (fun _ => true) (cache_evict c) else ret tt)
       then steps_evict (fun _ => true) c else steps_ret tt)
      (fun _ => steps_ret r)).

(** Each commits in one step. *)
Lemma component_write_wp {A} c (m : Eff (res A)) (t : Steps advances m) Q s :
  component_write c t ->
  (forall s1 s', onward s s1 -> onward (after (m s1.1).2 s1) s' -> Q (m s1.1).1 s') ->
  passes anything (program t) Q s.
Proof.
  intros Ht. destruct Ht as [p| |]; intros HQ.
  - apply act_wp. intros s1 Hs1. ends. by apply HQ.
  - unfold DeleteComponent_steps. apply act_wp. intros s1 Hs1. cbn -[sql].
    specialize (fun s' => HQ s1 s' Hs1). unfold DeleteComponent, wrapE, bindR, bind in HQ.
    destruct (sql _ s1.1) as [[n|e] w]; [|exact HQ].
    cbn [ret fst snd] in HQ |- *. destruct (n =? 0)%Z; exact HQ.
  - apply act_wp. intros s1 Hs1. ends. by apply HQ.
Qed.

(** From its commit, which a step of the run made, to its answer a write evicts
    the component, if the cache is on. *)
Definition committed {A} (ttl : Z) (c : string) (m : Eff (res A)) (x : A) (sc s' : moment) : Prop :=
  (m sc.1).1 = Ok x /\ earlier (after (m sc.1).2 sc) s' /\
  (enabled ttl = true -> exists se w, earlier (after (m sc.1).2 sc) se /\
     w_cache w = cache_evict c (w_cache se.1) /\ earlier (after w se) s').

Lemma evicting_wp {A} c (m : Eff (res A)) (t : Steps advances m) s :
  component_write c t ->
  passes anything (program (evicting_steps c t))
    (fun a s' => forall x, a = Ok x -> exists sc, onward s sc /\ committed ttl c m x sc s') s.
Proof.
  intros Ht. apply wp_bind, (component_write_wp c m t); [done|]. intros s1 s2 Hs1 Hs2.
  apply later_past in Hs2 as Hc.
  assert (forall s', earlier (after (m s1.1).2 s1) s' -> (enabled ttl = true -> exists se w,
      earlier (after (m s1.1).2 s1) se /\ w_cache w = cache_evict c (w_cache se.1) /\ earlier (after w se) s') ->
    forall x, (m s1.1).1 = Ok x -> exists sc, onward s sc /\ committed ttl c m x sc s') as Hdone.
  { intros s' ? ? x Ex. by exists s1. }
  destruct (is_ok (m s1.1).1) eqn:Hok.
  2:{ destruct (m s1.1).1 as [x|e]; [done|].
    by ends. }
  apply wp_bind. cbn [andb]. destruct (enabled ttl) eqn:He.
  - apply act_wp. intros s3 Hs3. intros s4 Hs4. intros s5 Hs5. apply later_past in Hs3, Hs4, Hs5. apply Hdone.
    + etrans; [exact Hc|]. etrans; [exact Hs3|]. etrans; [apply earlier_after|]. by etrans.
    + intros _. eexists s3, _. split; [by etrans|]. split; [|by etrans]. done.
  - intros s3 Hs3 s4 Hs4. apply later_past in Hs3, Hs4. apply Hdone; [|done].
    etrans; [exact Hc|]. by etrans.
Qed.
End Evicting.

Section Reading.
Context `{SqlDriver} `{UnicodeTables} `{Router} (cfg : Wiring).
Context (MkdirAll : string -> option string).
Context (file_server : string -> Response).
#[local] Abbreviation pool := (pool cfg MkdirAll file_server).
#[local] Abbreviation under_way := (under_way cfg MkdirAll file_server).
#[local] Abbreviation history_of := (traced pool snd).

(** C11. A read that begins after a write has answered sees it, cache and all.
    In a run of the service from an empty cache, a write of a component (an
    update, a deletion, or one with revocation) through the caching store
    answers with success; later, at a time when no look-up of that component is
    under way, a forward-auth request for it arrives, and it is answered as
    public.  Then the write committed, in a step of the run after it began, and
    the component's row was public at a moment after that commit.  Other
    requests, reads that fill the cache and writes of the same component among
    them, take their steps at any time. *)
Theorem write_then_read {A} c (m : Eff (res A)) (t : Steps advances m) a r
    x0 h0 ps x h1 ps1 x1 h2 ps2 x2 h3 ps3 x3 resp :
  history_of ([], x0) h0 (ps, x) -> fresh x0 ->
  component_write c t ->
  observed under_way (prog (evicting_steps (cacheTTL cfg) c t), (ps, x)) h1 (Halt (Ok a), (ps1, x1)) ->
  history_of (ps1, x1) h2 (ps2, x2) -> leading x2.2 !! c = None ->
  observed under_way (prog (ServeHTTP_steps (R := advances) (cacheTTL cfg) r), (ps2, x2)) h3
    (Halt resp, (ps3, x3)) ->
  (Z.of_nat (length (h3 ++ h2 ++ h1 ++ h0)) < 2 ^ 64)%Z ->
  extractComponent (r_header r "X-Forwarded-Uri") = Some c ->
  ar_status resp = 200%Z -> ar_label resp = allowed_public ->
  exists sc comp s1, onward (at_moment x h0) sc /\ (m sc.1).1 = Ok a /\ earlier (after (m sc.1).2 sc) s1 /\
    public_record c comp s1 /\ earlier s1 (at_moment x3 (h3 ++ h2 ++ h1 ++ h0)).
Proof.
  intros Hbefore Hx0 Hm Hwrite Hothers Hfree Hread Hlen Hc H200 Hl.
  apply (running_pool cfg MkdirAll file_server x0 []) in Hbefore as Hrun; [|by apply running_start].
  rewrite app_nil_r in Hrun.
  apply (running_observed cfg MkdirAll file_server _ x h0) in Hwrite as Hrun1; [|apply prog_obeys|done].
  apply (running_pool cfg MkdirAll file_server x1 (h1 ++ h0)) in Hothers as Hrun2; [|done].
  destruct (forward_auth_running cfg MkdirAll file_server r _ _ _ _ _ _ _ Hrun2 Hread Hlen H200)
    as [_ (c' & Hc' & [[_ Hpub]|[Hl' _]])]; [|congruence].
  apply extractComponent_names in Hc'. assert (c' = c) as -> by congruence.
  destruct (wp_sound _ (under_way_guarded cfg MkdirAll file_server) _ _ _ _ _ _ _ _ _ h0 _ Hwrite
    (running_guarded _ _ Hrun) (evicting_wp (cacheTTL cfg) c m t _ Hm) a eq_refl) as (sc & Hsc & Hx & Hdone & Hev).
  destruct Hpub as (comp & s1 & s2 & Hrec & H12 & Hs2 & Hend & Hoff & [Hun|(id & Hlate & _)]).
  2:{ change (leading x2.2 !! c = Some id) in Hlate. congruence. }
  assert (earlier (at_moment x1 (h1 ++ h0)) (at_moment x2 (h2 ++ h1 ++ h0))) as Hbetween
    by exact (traced_earlier _ snd _ _ _ _ Hothers).
  exists sc, comp, s1. split; [done|]. split; [done|]. split; [|split; [done|by etrans]].
  destruct (enabled (cacheTTL cfg)) eqn:He.
  - destruct (Hev eq_refl) as (se & we & Hse & Hwe & Hends). etrans; [exact Hse|].
    etrans; [apply earlier_after|]. apply (unevicted_since c s1 s2 se we); [done| |done].
    etrans; [exact Hends|]. by etrans.
  - rewrite Hoff by done. etrans; [exact Hdone|]. by etrans.
Qed.
End Reading.

(** ** A concrete run *)
(** A read has read the row of "pub" when its operating systems are changed,
    and comes to fill the cache after that has answered, in vain; then "pub" is
    read again. *)
Definition demo_patch : ComponentPatch := mkPatch None None (Some (Some ["el9"])) None.
Definition demo_write : Prog (res Component) :=
  prog (@evicting_steps sqlite_driver (30 * Second) _ "pub" _
    (@UpdateComponent_steps sqlite_driver ascii_tables "pub" demo_patch)).

#[local] Abbreviation demo_run := (@play sqlite_driver ascii_tables first_match_router demo_wiring
  (fun _ => None) (fun _ => no_content) _).

Definition before_write_moves : list move := [Begin read_event] ++ turns 0 6.
Definition write_moves : list move := repeat Watched 2.
Definition fill_moves : list move := turns 0 10.
Definition read_moves : list move := repeat Watched 15.

Definition wrote (p : Prog (res Component)) : option strings_t :=
  match p with Halt (Ok c) => Some (RPMOSFamilies c) | _ => None end.

Lemma write_then_read_witness :
  let c0 := (demo_run before_write_moves (Halt tt, ([], demo_shared demo_db))).2 in
  let c1 := demo_run write_moves (demo_write, c0) in
  let c2 := (demo_run fill_moves (Halt tt, c1.2)).2 in
  let c3 := demo_run read_moves (demo_public, c2) in
  wrote c1.1 = Some (Some ["el9"]) /\ pub_state c1.2.2 = (Some "public", false, true) /\
  pub_state c2.2 = (Some "public", false, false) /\ c3.1 = Halt (respond allowed_public) /\
  exists h0 h x sc comp s1, onward (at_moment c0.2 h0) sc /\
    (@UpdateComponent sqlite_driver "pub" demo_patch sc.1).1 = Ok x /\
    earlier (after (@UpdateComponent sqlite_driver "pub" demo_patch sc.1).2 sc) s1 /\
    public_record "pub" comp s1 /\ earlier s1 (at_moment c3.2.2 h).
Proof.
  destruct (@play_history sqlite_driver ascii_tables first_match_router demo_wiring
    (fun _ => None) (fun _ => no_content) before_write_moves ([], demo_shared demo_db)) as (h0 & Hr0 & Hl0).
  cbv zeta. revert Hr0. destruct (play _ _ _ before_write_moves _).2 as [ps x] eqn:E0. intros Hr0.
  destruct (@play_observed sqlite_driver ascii_tables first_match_router demo_wiring
    (fun _ => None) (fun _ => no_content) _ write_moves (demo_write, (ps, x))) as (h1 & Hr1 & Hl1).
  assert (let c := demo_run write_moves (demo_write, (ps, x)) in
    wrote c.1 = Some (Some ["el9"]) /\ pub_state c.2.2 = (Some "public", false, true)) as [Hw Hp1]
    by (rewrite <- E0; split; vm_compute; reflexivity).
  split; [exact Hw|]. split; [exact Hp1|]. clear Hp1. revert Hr1 Hw.
  destruct (play _ _ _ write_moves _) as [p [ps1 x1]] eqn:E1. cbn [fst snd].
  intros Hr1 Hw. destruct p as [[a|e]| | |]; [|discriminate Hw..]. apply (f_equal snd) in E1. cbn [snd] in E1.
  destruct (@play_history sqlite_driver ascii_tables first_match_router demo_wiring
    (fun _ => None) (fun _ => no_content) fill_moves (ps1, x1)) as (h2 & Hr2 & Hl2).
  assert (let c := (demo_run fill_moves (Halt tt, (ps1, x1))).2 in
    pub_state c.2 = (Some "public", false, false) /\ leading c.2.2 !! "pub" = None) as [Hp2 Hfree]
    by (rewrite <- E1, <- E0; split; vm_compute; reflexivity).
  split; [exact Hp2|]. clear Hp2. revert Hr2 Hfree. destruct (play _ _ _ fill_moves _).2 as [ps2 x2] eqn:E2.
  cbn [fst snd]. intros Hr2 Hfree.
  destruct (@play_observed sqlite_driver ascii_tables first_match_router demo_wiring
    (fun _ => None) (fun _ => no_content) _ read_moves (demo_public, (ps2, x2))) as (h3 & Hr3 & Hl3).
  assert ((demo_run read_moves (demo_public, (ps2, x2))).1 = Halt (respond allowed_public)) as Hrun
    by (rewrite <- E2, <- E1, <- E0; vm_compute; reflexivity).
  split; [exact Hrun|]. revert Hr3 Hrun. destruct (play _ _ _ read_moves _) as [q [ps3 x3]]. cbn [fst snd].
  intros Hr3 ->. exists h0, (h3 ++ h2 ++ h1 ++ h0), a.
  apply (@write_then_read sqlite_driver ascii_tables first_match_router demo_wiring
    (fun _ => None) (fun _ => no_content) _ "pub" _ _ a public_read (demo_shared demo_db)
    h0 ps x h1 ps1 x1 h2 ps2 x2 h3 ps3 x3 (respond allowed_public) Hr0 (conj eq_refl eq_refl)
    (write_update "pub" demo_patch) Hr1 Hr2 Hfree Hr3); [|vm_compute; reflexivity..].
  rewrite !length_app. cbn in Hl0, Hl1, Hl2, Hl3. lia.
Defined.
