(* ===== verification/MetricsSpec.v ===== *)
(** * What the counters say

    After every history the collectors of metrics/metrics.go tell the truth
    about it: the gauge is the size of the cache, every forward-auth request
    was counted under exactly one label and its duration observed once, and no
    more lookups hit the cache than there were. *)
From Stdlib Require Import ZArith Lia.
From stdpp Require Import base gmap strings list relations.
From S2P Require Import Prelude GoStrings Errors Metrics State Tables Effects AccountStore.
From S2P Require Import ComponentStore SessionStore OperatorStore AuditStore StoreInvariant.
From S2P Require Import StoreMethods ComponentCache Http ForwardAuth ForwardAuthSpec RequestMeta.
From S2P Require Import OAuthState AdminGuards AdminUI AuthHandler Server Background Fixtures.
From S2P Require Import ServerSpec ServiceInvariant Stays.
Open Scope packyard_scope.
Open Scope eff_scope.

Definition outcomes_all : list outcome :=
  [denied_method; denied; denied_path; allowed_public; allowed; error].

(** All forward-auth requests, whatever their label. *)
Definition all_requests (m : Metrics) : Z :=
  foldr (fun o sum => requests_with (outcome_label o) m + sum)%Z 0%Z outcomes_all.

Lemma requests_with_count s t m :
  requests_with s (count_request t m) = (requests_with s m + if decide (t = s) then 1 else 0)%Z.
Proof.
  unfold requests_with at 1. cbn [count_request RequestsTotal]. rewrite lookup_insert.
  destruct (decide (t = s)) as [->|]; [done|]. unfold requests_with. lia.
Qed.

Lemma all_requests_count o m : all_requests (count_request (outcome_label o) m) = (all_requests m + 1)%Z.
Proof.
  unfold all_requests. cbn [foldr outcomes_all]. rewrite !requests_with_count.
  destruct o; cbn [outcome_label]; repeat (destruct (decide _); try congruence); lia.
Qed.

(** The counters between requests ([pending] = 0) and after a request was
    counted, before its duration is ([pending] = 1); [lookups] lookups were
    counted that may still turn out hits. *)
Record metered (pending lookups : Z) (w : World) : Prop := {
  m_entries : ComponentCacheEntries (w_metrics w) = Z.of_nat (size (cache_entries (w_cache w)));
  m_hits : (ComponentCacheHits (w_metrics w) + lookups <= ComponentCacheRequests (w_metrics w))%Z;
  m_requests : all_requests (w_metrics w) =
    (Z.of_nat (length (RequestDuration (w_metrics w))) + pending)%Z }.

#[export] Instance metered_indifferent p l : Indifferent (metered p l).
Proof. split; intros; match goal with H : metered _ _ _ |- _ => by destruct H end. Qed.

(** From [I] to [J]. *)
Definition leads {A} (I J : World -> Prop) (m : Eff A) : Prop := forall w, I w -> J (m w).2.

Lemma leads_bind {A B} (I J K : World -> Prop) (m : Eff A) (k : A -> Eff B) :
  leads I J m -> (forall a, leads J K (k a)) -> leads I K (bind m k).
Proof. intros Hm Hk w Hw. rewrite bind_run. by apply Hk, Hm. Qed.

Lemma leads_ret {A} (I J : World -> Prop) (a : A) : (forall w, I w -> J w) -> leads I J (ret a).
Proof. intros Hw w. apply Hw. Qed.

Lemma metered_slack p l w : metered p (l + 1) w -> metered p l w.
Proof. intros [? ? ?]. split; [done|lia|done]. Qed.

Lemma count_lookup_leads p l : leads (metered p l) (metered p (l + 1)) (meter count_lookup).
Proof. intros w [? ? ?]. split; cbn; [done|lia|done]. Qed.

Lemma count_hit_leads p l : leads (metered p (l + 1)) (metered p l) (meter count_hit).
Proof. intros w [? ? ?]. split; cbn; [done|lia|done]. Qed.

Lemma observe_leads d l : leads (metered 1 l) (metered 0 l) (meter (observe_duration d)).
Proof. intros w [? ? Hr]. split; cbn [w_metrics with_metrics snd meter observe_duration RequestDuration length]; [done|done|]. etrans; [exact Hr|lia]. Qed.

Lemma answer_leads o l : leads (metered 0 l) (metered 1 l) (answer o).
Proof.
  intros w [? ? Hr]. split; [done|done|]. cbn [w_metrics with_metrics snd meter answer].
  change (w_metrics (answer o w).2) with (count_request (outcome_label o) (w_metrics w)).
  rewrite all_requests_count, Hr. cbn. lia.
Qed.

(** A critical section that sets the gauge whenever it changes the entries. *)
Lemma modify_cache_metered p l sets f :
  (forall c, sets c = false -> cache_entries (f c) = cache_entries c) ->
  stays (metered p l) (modify_cache sets f).
Proof.
  intros Hf w [He Hh Hr]. unfold modify_cache. destruct (sets (w_cache w)) eqn:E; (split; [|done|done]); cbn; [done|].
  by rewrite Hf.
Qed.

Section Requests.
Context `{SqlDriver}.

Lemma lookup_entry_metered p l n : stays (metered p l) (lookup_entry n).
Proof.
  unfold lookup_entry. apply holds_bind; [apply stays_get_cache|]. intros [e|]; [|apply holds_ret].
  apply holds_bind; [apply stays_now|]. intros t. destruct (_ <? _)%Z; [apply holds_ret|].
  apply holds_bind; [|intros ?; apply holds_ret]. apply modify_cache_metered.
  intros c Hc. unfold cache_drop_expired. by rewrite Hc.
Qed.

Lemma insert_entry_metered p l ttl n comp gen : stays (metered p l) (insert_entry ttl n comp gen).
Proof.
  unfold insert_entry. apply holds_bind; [apply stays_now|]. intros t. apply modify_cache_metered.
  intros c Hc. unfold cache_insert. by rewrite Hc.
Qed.

Lemma CachedGetComponent_metered ttl p l n : stays (metered p l) (CachedGetComponent ttl n).
Proof.
  unfold CachedGetComponent. apply (leads_bind _ (metered p (l + 1))); [apply count_lookup_leads|]. intros _.
  assert (forall A (m : Eff A), stays (metered p l) m -> leads (metered p (l + 1)) (metered p l) m) as Hslack.
  { intros A m Hm w Hw. by apply Hm, metered_slack. }
  destruct (negb (enabled ttl)); [apply Hslack; unfold GetComponent; solve_stays|].
  apply (leads_bind _ (metered p (l + 1))); [apply lookup_entry_metered|]. intros [comp|].
  - apply (leads_bind _ (metered p l)); [apply count_hit_leads|]. intros _. by apply leads_ret.
  - apply Hslack. apply holds_bind; [apply stays_get_cache|]. intros gen. unfold bindR.
    apply holds_bind; [unfold GetComponent; solve_stays|]. intros [c|e]; [|apply holds_ret].
    destruct (_ =s _); [|apply holds_ret]. apply holds_bind; [apply insert_entry_metered|]. intros ?. apply holds_ret.
Qed.

Lemma authorize_leads ttl l r :
  leads (metered 0 l) (metered 1 l) (@authorize _ (cached_source ttl) r).
Proof.
  assert (forall A B (m : Eff A) (k : A -> Eff B), stays (metered 0 l) m ->
    (forall a, leads (metered 0 l) (metered 1 l) (k a)) -> leads (metered 0 l) (metered 1 l) (bind m k)) as Hbind
    by (intros A B m k; apply leads_bind).
  unfold authorize, check_credentials, account_gate. cbn [cs_get cached_source]. cbv zeta.
  repeat match goal with
  | |- leads _ _ (answer _) => apply answer_leads
  | |- leads _ _ (bind _ _) => apply Hbind; [|intros ?]
  | |- leads _ _ (match ?x with _ => _ end) => destruct x
  | |- stays _ (CachedGetComponent _ _) => apply CachedGetComponent_metered
  | |- stays _ _ => solve_stays
  end.
Qed.

#[export] Instance metered_cached l : Cached (metered 0 l).
Proof.
  split.
  - intros ttl n. apply CachedGetComponent_metered.
  - intros ttl n A m Hm. unfold evicting. apply holds_bind; [done|]. intros a.
    apply holds_bind; [|intros ?; apply holds_ret]. destruct (_ && _); [|apply holds_ret].
    by apply modify_cache_metered.
  - intros ttl r. unfold ServeHTTP. apply holds_bind; [apply stays_now|]. intros start.
    apply (leads_bind _ (metered 1 l)); [apply authorize_leads|]. intros resp.
    apply (leads_bind _ (metered 1 l)); [intros w; apply ind_clock|]. intros stop.
    apply (leads_bind _ (metered 0 l)); [apply observe_leads|]. intros ?. by apply leads_ret.
Qed.
End Requests.

(** ** One request *)
Section Request.
Context `{SqlDriver} (ttl : Z) (t : gmap string Z) (ds : list Z).

Definition books (w : World) : Prop :=
  RequestsTotal (w_metrics w) = t /\ RequestDuration (w_metrics w) = ds.

#[local] Instance books_indifferent : Indifferent books.
Proof. by split. Qed.

Lemma stays_books_cache sets f : stays books (modify_cache sets f).
Proof. intros w Hw. unfold modify_cache. by destruct (sets _). Qed.
#[local] Hint Resolve stays_books_cache : stays.

Lemma CachedGetComponent_books n : stays books (CachedGetComponent ttl n).
Proof.
  unfold CachedGetComponent. apply holds_bind; [by intros w|]. intros _.
  destruct (negb _); [unfold GetComponent; solve_stays|].
  apply holds_bind; [unfold lookup_entry; solve_stays|]. intros [comp|]; [|unfold insert_entry; solve_stays].
  apply holds_bind; [by intros w|]. intros _. apply holds_ret.
Qed.

(** The label of the answer, and nothing else, is counted. *)
Definition posts (m : Eff AuthResponse) : Prop := forall w, books w ->
  RequestDuration (w_metrics (m w).2) = ds /\
  RequestsTotal (w_metrics (m w).2) =
    RequestsTotal (count_request (outcome_label (ar_label (m w).1)) (w_metrics w)).

Lemma posts_bind {A} (m : Eff A) k : stays books m -> (forall a, posts (k a)) -> posts (bind m k).
Proof.
  intros Hm Hk w Hw. rewrite bind_run. pose proof (Hm w Hw) as Hw'. destruct (Hk (m w).1 _ Hw') as [Hd Ht].
  split; [exact Hd|]. rewrite Ht. destruct Hw as [Hw _], Hw' as [Hw' _].
  cbn [count_request RequestsTotal]. unfold requests_with. by rewrite Hw, Hw'.
Qed.

Lemma posts_answer o : posts (answer o).
Proof. intros w [Ht Hd]. by split. Qed.

Lemma authorize_posts r : posts (@authorize _ (cached_source ttl) r).
Proof.
  unfold authorize, check_credentials, account_gate. cbn [cs_get cached_source]. cbv zeta.
  repeat match goal with
  | |- posts (answer _) => apply posts_answer
  | |- posts (bind _ _) => apply posts_bind; [|intros ?]
  | |- posts (match ?x with _ => _ end) => destruct x
  | |- stays _ (CachedGetComponent _ _) => apply CachedGetComponent_books
  | |- stays _ _ => solve_stays
  end.
Qed.
End Request.

(** ** Any history *)
Section Service.
Context `{SqlDriver} `{UnicodeTables} `{Router} (cfg : Wiring).
Context (MkdirAll : string -> option string).
Context (file_server : string -> Response).

(** The OAuth state store has no counters. *)
Lemma metered_elsewhere {A} p l (m : Eff A) :
  (forall w, w_metrics (m w).2 = w_metrics w /\ w_cache (m w).2 = w_cache w) -> stays (metered p l) m.
Proof. intros Hm w [He Hh Hr]. destruct (Hm w) as [E1 E2]. by split; rewrite E1, ?E2. Qed.

Lemma put_metered p l h e : stays (metered p l) (state_put h e).
Proof. apply metered_elsewhere. intros w. unfold state_put. by destruct (_ =? _)%Z. Qed.

Lemma consume_metered p l h : stays (metered p l) (state_consume h).
Proof.
  apply metered_elsewhere. intros w. unfold state_consume. destruct (_ !! h); [|done].
  by destruct (Consume _ _ _).
Qed.
#[local] Hint Resolve put_metered consume_metered : stays.

Lemma run_service_metered es l :
  stays (metered 0 l) (run_service cfg MkdirAll file_server es).
Proof.
  induction es as [|e es IH]; cbn [run_service]; [apply holds_ret|].
  apply holds_bind; [|intros a; apply holds_bind; [done|intros rest; apply holds_ret]].
  destruct e; cbn [run_event]; (apply holds_bind; [|intros x; apply holds_ret]).
  - apply (@serve_stays _ _ _ cfg MkdirAll file_server (metered 0 l) _ _); intros params; solve_stays.
  - unfold reap_states. apply holds_bind; [apply stays_now|]. intros t.
    by apply metered_elsewhere.
  - apply stays_reap_limiter.
Qed.

(** C29. The counters are exact.  Each forward-auth request is counted once,
    under the label of its answer, and its duration observed once.  After any
    history of the service since the process started, the gauge is the number
    of entries of the cache, the labels add up to the durations observed, and
    no more lookups were hits than there were lookups. *)
Theorem counters_exact :
  (forall r w, let (resp, w') := @ServeHTTP _ (cached_source (cacheTTL cfg)) r w in
     RequestsTotal (w_metrics w') = RequestsTotal (count_request (outcome_label (ar_label resp)) (w_metrics w)) /\
     exists d, RequestDuration (w_metrics w') = d :: RequestDuration (w_metrics w)) /\
  (forall es w, w_metrics w = no_metrics -> cache_entries (w_cache w) = ∅ ->
     let w' := (run_service cfg MkdirAll file_server es w).2 in
     let m := w_metrics w' in
     ComponentCacheEntries m = Z.of_nat (size (cache_entries (w_cache w'))) /\
     (ComponentCacheHits m <= ComponentCacheRequests m)%Z /\
     all_requests m = Z.of_nat (length (RequestDuration m))).
Proof.
  split.
  - intros r w. unfold ServeHTTP. rewrite !bind_run. cbn [now fst snd].
    pose proof (authorize_posts (cacheTTL cfg) _ _ r (tick_clock w) (conj eq_refl eq_refl)) as [Hd Ht].
    destruct (authorize r (tick_clock w)) as [resp w1]. cbn [fst snd] in *. split; [exact Ht|].
    eexists. cbn. by rewrite Hd.
  - intros es w Hm Hc. cbv zeta.
    destruct (run_service_metered es 0 w) as [He Hh Hr].
    + split; rewrite Hm; [by rewrite Hc|done|done].
    + split; [exact He|]. split; [lia|]. rewrite Hr. lia.
Qed.
End Service.

(** Two reads of a private repository and one of a public one, which the next
    finds in the cache; a write is refused. *)
Definition read_of (uri : string) : Request :=
  demo_request "GET" "/auth" [("X-Forwarded-Uri", uri)] [].
Definition demo_traffic : list event :=
  map (Arrives no_bodies) [demo_read; read_of "/rpm/core/x"; read_of "/rpm/pub/x"; read_of "/oci/v2/pub/m";
    demo_request "GET" "/auth" [("X-Forwarded-Method", "PUT")] []].

Example demo_counters :
  let m := w_metrics (@run_service sqlite_driver ascii_tables first_match_router demo_wiring
    (fun _ => None) (fun _ => no_content) demo_traffic (demo_world demo_db)).2 in
  (map (fun o => requests_with (outcome_label o) m) outcomes_all, length (RequestDuration m),
   ComponentCacheRequests m, ComponentCacheHits m, ComponentCacheEntries m) =
    ([1; 1; 0; 2; 1; 0]%Z, 5, 4%Z, 1%Z, 1%Z).
Proof. vm_compute. reflexivity. Qed.

Lemma counters_exact_witness :
  let w' := (@run_service sqlite_driver ascii_tables first_match_router demo_wiring
    (fun _ => None) (fun _ => no_content) demo_traffic (demo_world demo_db)).2 in
  ComponentCacheEntries (w_metrics w') = Z.of_nat (size (cache_entries (w_cache w'))).
Proof.
  apply (proj2 (@counters_exact sqlite_driver ascii_tables first_match_router demo_wiring
    (fun _ => None) (fun _ => no_content)) demo_traffic (demo_world demo_db)); reflexivity.
Defined.
