(* ===== verification/ComponentsSpec.v ===== *)
(** * What the component handlers promise: directories stay under the root *)
From Stdlib Require Import ZArith Lia Ascii.
From stdpp Require Import base gmap strings list.
From S2P Require Import Prelude GoStrings Paths Errors State Encoding Effects ComponentStore.
From S2P Require Import ComponentCache Http ComponentsHandler Fixtures.
Open Scope packyard_scope.
Open Scope eff_scope.

(** ** Cleaned paths *)
(** A cleaned path is its elements, and whether it is rooted. *)
Definition clean_parts (path : string) : list string :=
  rev (fold_left (clean_step (HasPrefix path "/")) (split_byte path "/") []).

Definition render (rooted : bool) (parts : list string) : string :=
  if rooted then "/" +:+ String.concat "/" parts
  else match parts with [] => "." | _ => String.concat "/" parts end.

Lemma Clean_render path : Clean path = render (HasPrefix path "/") (clean_parts path).
Proof. unfold Clean. by destruct path. Qed.

(** An element that names a directory entry. *)
Definition plain (s : string) : Prop := s <> "" /\ s <> "." /\ s <> "..".

(** Elements of a relative cleaned path, last first: dots only at its start. *)
Definition shaped (acc : list string) : Prop :=
  exists p n, acc = p ++ repeat ".." n /\ Forall plain p.

Lemma clean_step_plain b acc s : plain s -> clean_step b acc s = s :: acc.
Proof.
  intros (H1 & H2 & H3). unfold clean_step. apply String.eqb_neq in H1, H2, H3. by rewrite H1, H2, H3.
Qed.

Lemma fold_plain b l acc : Forall plain l -> fold_left (clean_step b) l acc = rev l ++ acc.
Proof.
  intros Hl. revert acc. induction Hl as [|s l Hs _ IH]; intros acc; [done|].
  cbn [fold_left rev]. rewrite clean_step_plain, IH by done. by rewrite <-app_assoc.
Qed.

Lemma clean_step_shaped acc s : shaped acc -> shaped (clean_step false acc s).
Proof.
  intros (p & n & -> & Hp). unfold clean_step. destruct (_ || _) eqn:E; [by exists p, n|].
  string_reflect. destruct (s =s "..") eqn:Ed.
  - apply String.eqb_eq in Ed as ->. destruct Hp as [|x p Hx Hp].
    + exists [], (S n). split; [|done]. destruct n; [done|]. cbn. done.
    + cbn. destruct Hx as (_ & _ & Hx). apply String.eqb_neq in Hx. rewrite Hx. by exists p, n.
  - apply String.eqb_neq in Ed. exists (s :: p), n. split; [done|]. by constructor.
Qed.

Lemma fold_shaped l acc : shaped acc -> shaped (fold_left (clean_step false) l acc).
Proof. revert acc. induction l as [|s l IH]; intros acc Ha; [done|]. by apply IH, clean_step_shaped. Qed.

Definition no_slash (s : string) : Prop := lacks "/" s = true.

Lemma clean_step_no_slash b acc s :
  no_slash s -> Forall no_slash acc -> Forall no_slash (clean_step b acc s).
Proof.
  intros Hs Ha. unfold clean_step. destruct (_ || _); [done|].
  destruct (s =s ".."); [|by constructor].
  destruct Ha as [|x acc Hx Ha]; [destruct b; by repeat constructor|].
  destruct (x =s ".."); by repeat constructor.
Qed.

Lemma fold_no_slash b l acc :
  Forall no_slash l -> Forall no_slash acc -> Forall no_slash (fold_left (clean_step b) l acc).
Proof.
  intros Hl. revert acc. induction Hl as [|s l Hs _ IH]; intros acc Ha; [done|].
  by apply IH, clean_step_no_slash.
Qed.

Lemma clean_parts_pieces path : Forall no_slash (clean_parts path).
Proof. unfold clean_parts. apply Forall_rev, fold_no_slash; [apply split_byte_pieces|done]. Qed.

(** A relative cleaned path splits into its elements. *)
Lemma split_render ps :
  Forall no_slash ps -> ps <> [] -> split_byte (render false ps) "/" = ps.
Proof. intros Hs Hne. destruct ps; [done|]. by apply split_concat. Qed.

Lemma relative_shape x :
  HasPrefix x "/" = false ->
  exists n p, clean_parts x = repeat ".." n ++ p /\ Forall plain p.
Proof.
  intros Hx. unfold clean_parts. rewrite Hx.
  destruct (fold_shaped (split_byte x "/") []) as (p & n & -> & Hp); [by exists [], 0|].
  exists n, (rev p). rewrite rev_app_distr, rev_repeat. split; [done|]. by apply Forall_rev.
Qed.

Lemma HasPrefix_app p s : HasPrefix (p +:+ s) p = true.
Proof.
  unfold HasPrefix. induction p as [|c p IH]; [by destruct s|].
  change (String c p +:+ s) with (String c (p +:+ s)). cbn [String.prefix].
  by destruct (Ascii.ascii_dec c c).
Qed.

(** A path that is local and clean has plain elements only. *)
Lemma local_plain x :
  HasPrefix x "/" = false -> IsLocal (Clean x) = true -> Forall plain (clean_parts x).
Proof.
  intros Hx Hl. destruct (relative_shape x Hx) as (n & p & Hps & Hp). destruct n as [|n].
  { by rewrite Hps. }
  exfalso. revert Hl. pose proof (clean_parts_pieces x) as Hslash.
  rewrite Clean_render, Hx. set (ps := clean_parts x) in *.
  assert (ps <> []) as Hne by by rewrite Hps.
  assert (HasPrefix (render false ps) "/" = false) as Hrel.
  { rewrite Hps. simpl. by destruct (repeat _ n ++ p). }
  assert (clean_parts (render false ps) = ps) as Hfix.
  { unfold clean_parts. rewrite Hrel, split_render by done. rewrite Hps, fold_left_app.
    rewrite fold_plain by done. rewrite rev_app_distr, rev_involutive. f_equal.
    assert (forall k m, fold_left (clean_step false) (repeat ".." k) (repeat ".." m) =
      repeat ".." (k + m)) as Hdots.
    { intros k. induction k as [|k IH]; intros m; [done|]. cbn [repeat fold_left].
      rewrite Nat.add_succ_comm, <-IH. f_equal. by destruct m. }
    specialize (Hdots (S n) 0). change (repeat ".." 0) with (@nil string) in Hdots.
    rewrite Hdots, Nat.add_0_r. apply rev_repeat. }
  unfold IsLocal. rewrite Hrel, orb_false_r.
  destruct (_ =s ""); [done|].
  assert (existsb (fun s => (s =s ".") || (s =s "..")) (split_byte (render false ps) "/") = true) as ->.
  { rewrite split_render by done. by rewrite Hps. }
  rewrite Clean_render, Hrel, Hfix, Hps. simpl. destruct (repeat _ n ++ p) as [|q qs]; [done|].
  change (".." +:+ "/" +:+ ?x) with ("../" +:+ x). by rewrite HasPrefix_app, orb_true_r.
Qed.

(** ** Directories under a root *)
(** [d] is the cleaned root, extended by plain elements. *)
Definition under (root d : string) : Prop :=
  exists l, Forall plain l /\ d = render (HasPrefix root "/") (clean_parts root ++ l).

Lemma fold_render ps b acc :
  Forall no_slash ps -> Forall plain ps ->
  fold_left (clean_step b) (split_byte (render false ps) "/") acc = rev ps ++ acc.
Proof.
  intros Hs Hp. destruct ps as [|s ps]; [done|].
  rewrite split_render by done. by apply fold_plain.
Qed.

Lemma render_relative ps :
  Forall no_slash ps -> Forall plain ps ->
  render false ps <> "" /\ HasPrefix (render false ps) "/" = false.
Proof.
  intros Hs Hp. destruct Hp as [|[|c s] ps (Hs1 & _) _]; [done|done|].
  apply Forall_cons_1 in Hs as [Hc _].
  unfold no_slash, lacks in Hc. cbn [string_forallb] in Hc. apply andb_true_iff in Hc as [Hc _].
  assert (exists t, render false (String c s :: ps) = String c t) as [t ->].
  { destruct ps; by eexists. }
  split; [done|]. unfold HasPrefix. cbn [String.prefix].
  destruct (Ascii.ascii_dec "/" c) as [<-|]; [done|done].
Qed.

Lemma HasPrefix_first root t c :
  root <> "" -> HasPrefix (root +:+ t) (String c "") = HasPrefix root (String c "").
Proof.
  intros Hr. destruct root as [|d root]; [done|].
  change (String d root +:+ t) with (String d (root +:+ t)). unfold HasPrefix. cbn [String.prefix].
  destruct (Ascii.ascii_dec c d); [|done]. by destruct root, t.
Qed.

(** Joining a local, clean path to the root stays under the root. *)
Lemma Join_under root x :
  HasPrefix x "/" = false -> IsLocal (Clean x) = true -> under root (Join [root; Clean x]).
Proof.
  intros Hx Hl. pose proof (local_plain x Hx Hl) as Hp. pose proof (clean_parts_pieces x) as Hs.
  exists (clean_parts x). split; [done|]. rewrite Clean_render, Hx. set (ps := clean_parts x) in *.
  destruct (render_relative ps Hs Hp) as [Hne Hrel].
  unfold Join. cbn [List.filter]. apply String.eqb_neq in Hne. rewrite Hne. cbn [negb].
  destruct (root =s "") eqn:Er; cbn [negb].
  - apply String.eqb_eq in Er as ->. cbn [String.concat]. rewrite Clean_render, Hrel. f_equal.
    unfold clean_parts at 1. by rewrite fold_render, app_nil_r, rev_involutive.
  - apply String.eqb_neq in Er.
    change (String.concat "/" [root; render false ps]) with (root +:+ String "/" (render false ps)).
    rewrite Clean_render. unfold clean_parts at 1. rewrite HasPrefix_first by done. f_equal.
    rewrite split_byte_app, fold_left_app, fold_render by done.
    by rewrite rev_app_distr, rev_involutive.
Qed.

(** ** The handlers *)
Lemma rpm_rel_clean name t :
  exists x, rpm_rel name t = Clean x /\ HasPrefix x "/" = false.
Proof.
  destruct t as [[series family] arch]. unfold rpm_rel, Join. cbn [List.filter].
  change ("rpm" =s "") with false. cbn [negb]. eexists. split; [reflexivity|].
  by repeat case_match.
Qed.

Section Confined.
Context `{SqlDriver} `{UnicodeTables} (ttl : Z) (root : string).
Context (M1 M2 : string -> option string) (Hagree : forall d, under root d -> M1 d = M2 d).

Lemma make_dirs_confined name ts : make_dirs root M1 name ts = make_dirs root M2 name ts.
Proof.
  induction ts as [|t ts IH]; [done|]. cbn [make_dirs].
  destruct (rpm_rel_clean name t) as (x & -> & Hx).
  destruct (IsLocal (Clean x)) eqn:El; [|done]. cbn [negb].
  rewrite (Hagree _ (Join_under root x Hx El)), IH. done.
Qed.

Lemma initRPMTree_confined c : initRPMTree root M1 c = initRPMTree root M2 c.
Proof. apply make_dirs_confined. Qed.

(** C39. The component handlers ask the file system for directories under
    the configured data root only: whatever names a request or a stored
    component holds, two file systems that answer alike there lead to the same
    directories made, the same answer and the same state. *)
Theorem rpm_confined r w :
  (forall c, initRPMTree root M1 c = initRPMTree root M2 c) /\
  (forall body, Components_Create ttl root M1 body r w = Components_Create ttl root M2 body r w) /\
  (forall patch, Components_Update ttl root M1 patch r w = Components_Update ttl root M2 patch r w).
Proof.
  split; [apply initRPMTree_confined|]. split.
  - intros [req|]; [|done]. unfold Components_Create. cbv zeta. repeat case_match; try done.
    all: rewrite !bind_run; destruct (CreateComponent _ _) as [[c|e] w']; cbn [fst snd]; [|done].
    all: by rewrite initRPMTree_confined.
  - intros [patch|]; [|done]. unfold Components_Update. cbv zeta. repeat case_match; try done.
    all: rewrite !bind_run; destruct (CachedGetComponent _ _ _) as [[c|e] w']; cbn [fst snd]; [|done].
    all: by rewrite initRPMTree_confined.
Qed.
End Confined.

(** ** A concrete root *)
Lemma under_data d : under "/data" d -> d <> "/etc".
Proof. intros (l & _ & ->). by destruct l. Qed.

(** A file system on which /etc alone cannot be made. *)
Definition no_etc (d : string) : option string :=
  if d =s "/etc" then Some "permission denied" else None.

Lemma rpm_confined_witness :
  let c := mkComponent "core" "private" (Some ["bookworm"]) (Some ["el"]) (Some ["9"]) 0 in
  @initRPMTree ascii_tables "/data" (fun _ => None) c = @initRPMTree ascii_tables "/data" no_etc c.
Proof.
  apply (@rpm_confined sqlite_driver ascii_tables 0%Z "/data" (fun _ => None) no_etc).
  - intros d Hd%under_data. apply String.eqb_neq in Hd. unfold no_etc. rewrite Hd. reflexivity.
  - exact (demo_request "POST" "/api/v1/components" [] []).
  - exact (demo_world demo_db).
Defined.

(** Names that climb are refused. *)
Example climbing_refused :
  (@initRPMTree ascii_tables "/data" (fun _ => None)
     (mkComponent "../../etc" "private" (Some ["x"]) (Some ["el"]) (Some ["9"]) 0)).1 = [].
Proof. reflexivity. Qed.
